(** * libavcodec/mpegvideo.c: the shared MPEG video core

    A shallow embedding of the dequantizers, the slice row partition, the
    Picture life cycle, the picture pool, the start-of-frame dummy
    references, the frame-threading progress barrier, the duplicate-context
    update and the quantizer-scale setter, with the properties the
    specification states about them. *)

From Stdlib Require Import ZArith Lia List Bool.
From stdpp Require Import base option list list_numbers relations gmap.

Local Open Scope Z_scope.

(** ** Machine integers

    [int] is 32 bits wide and [int16_t] 16 bits wide.  Values are kept as
    [Z]; a result that is stored in a variable of either type is reduced
    with the two's complement wrap-around.  (For [int] arithmetic the C
    standard leaves overflow undefined; the wrap-around is what the targets
    do, and the theorems that need exact products assume them in range.) *)

Definition wrap_signed (w : Z) (x : Z) : Z :=
  (x + 2 ^ (w - 1)) mod 2 ^ w - 2 ^ (w - 1).

Definition int32 (x : Z) : Z := wrap_signed 32 x.
Definition int16 (x : Z) : Z := wrap_signed 16 x.

Definition INT_MAX : Z := 2147483647.
Definition INT_MIN : Z := -2147483648.

Definition FFMAX (a b : Z) : Z := if a >? b then a else b.
Definition FFMIN (a b : Z) : Z := if a >? b then b else a.
Definition FFABS (a : Z) : Z := if a >=? 0 then a else int32 (- a).

(** ** Arrays

    A C array is a list; an index is a [Z] as in the source.  The sources
    index their arrays in range; out of range a read gives 0 and a write is
    dropped. *)

Definition rd (a : list Z) (i : Z) : Z :=
  if i <? 0 then 0 else default 0 (a !! Z.to_nat i).

Definition wr (a : list Z) (i : Z) (v : Z) : list Z :=
  if i <? 0 then a else <[Z.to_nat i := v]> a.

(** ** The dequantizers *)

Module Dequant.

(** ScanTable: [permutated] maps a scan index to the storage index,
    [raster_end] gives the last raster position of a scan prefix. *)
Record ScanTable := {
  permutated : list Z;   (* uint8_t permutated[64] *)
  raster_end : list Z    (* uint8_t raster_end[64] *)
}.

(** The fields of MpegEncContext the dequantizers read. *)
Record MpegEncContext := {
  block_last_index : list Z;   (* int block_last_index[12] *)
  y_dc_scale : Z;
  c_dc_scale : Z;
  intra_matrix : list Z;       (* uint16_t intra_matrix[64] *)
  inter_matrix : list Z;       (* uint16_t inter_matrix[64] *)
  intra_scantable : ScanTable;
  inter_scantable : ScanTable;
  alternate_scan : Z;
  h263_aic : Z;
  ac_pred : Z
}.

(** ff_alternate_vertical_scan *)
Definition ff_alternate_vertical_scan : list Z :=
  [  0;  8; 16; 24;  1;  9;  2; 10;
    17; 25; 32; 40; 48; 56; 57; 49;
    41; 33; 26; 18;  3; 11;  4; 12;
    19; 27; 34; 42; 50; 58; 35; 43;
    51; 59; 20; 28;  5; 13;  6; 14;
    21; 29; 36; 44; 52; 60; 37; 45;
    53; 61; 22; 30;  7; 15; 23; 31;
    38; 46; 54; 62; 39; 47; 55; 63 ].

(** for (i = lo; i <= nCoeffs; i++) *)
Definition upto (lo nCoeffs : Z) : list Z := seqZ lo (nCoeffs + 1 - lo).

Definition dct_unquantize_mpeg1_intra_c
    (s : MpegEncContext) (block : list Z) (n qscale : Z) : list Z :=
  let nCoeffs := rd (block_last_index s) n in
  let block :=
    if n <? 4 then wr block 0 (int16 (int32 (rd block 0 * y_dc_scale s)))
    else wr block 0 (int16 (int32 (rd block 0 * c_dc_scale s))) in
  let quant_matrix := intra_matrix s in
  fold_left (fun block i =>
    let j := rd (permutated (intra_scantable s)) i in
    let level := rd block j in
    if level =? 0 then block else
      let level :=
        if level <? 0 then
          let level := int32 (- level) in
          let level :=
            Z.shiftr (int32 (int32 (level * qscale) * rd quant_matrix j)) 3 in
          let level := Z.lor (int32 (level - 1)) 1 in
          int32 (- level)
        else
          let level :=
            Z.shiftr (int32 (int32 (level * qscale) * rd quant_matrix j)) 3 in
          Z.lor (int32 (level - 1)) 1 in
      wr block j (int16 level))
    (upto 1 nCoeffs) block.

Definition dct_unquantize_mpeg1_inter_c
    (s : MpegEncContext) (block : list Z) (n qscale : Z) : list Z :=
  let nCoeffs := rd (block_last_index s) n in
  let quant_matrix := inter_matrix s in
  fold_left (fun block i =>
    let j := rd (permutated (intra_scantable s)) i in
    let level := rd block j in
    if level =? 0 then block else
      let level :=
        if level <? 0 then
          let level := int32 (- level) in
          let level :=
            Z.shiftr (int32 (int32 (int32 (int32 (Z.shiftl level 1) + 1)
                                      * qscale) * rd quant_matrix j)) 4 in
          let level := Z.lor (int32 (level - 1)) 1 in
          int32 (- level)
        else
          let level :=
            Z.shiftr (int32 (int32 (int32 (int32 (Z.shiftl level 1) + 1)
                                      * qscale) * rd quant_matrix j)) 4 in
          Z.lor (int32 (level - 1)) 1 in
      wr block j (int16 level))
    (upto 0 nCoeffs) block.

Definition dct_unquantize_mpeg2_intra_c
    (s : MpegEncContext) (block : list Z) (n qscale : Z) : list Z :=
  let nCoeffs :=
    if alternate_scan s =? 0 then rd (block_last_index s) n else 63 in
  let block :=
    if n <? 4 then wr block 0 (int16 (int32 (rd block 0 * y_dc_scale s)))
    else wr block 0 (int16 (int32 (rd block 0 * c_dc_scale s))) in
  let quant_matrix := intra_matrix s in
  fold_left (fun block i =>
    let j := rd (permutated (intra_scantable s)) i in
    let level := rd block j in
    if level =? 0 then block else
      let level :=
        if level <? 0 then
          let level := int32 (- level) in
          let level :=
            Z.shiftr (int32 (int32 (level * qscale) * rd quant_matrix j)) 3 in
          int32 (- level)
        else
          Z.shiftr (int32 (int32 (level * qscale) * rd quant_matrix j)) 3 in
      wr block j (int16 level))
    (upto 1 nCoeffs) block.

(** The loop of the bit-exact intra variant: the block and the running
    [sum], before the correction of position 63. *)
Definition mpeg2_intra_bitexact_loop
    (s : MpegEncContext) (block : list Z) (n qscale : Z) : list Z * Z :=
  let sum := -1 in
  let nCoeffs :=
    if alternate_scan s =? 0 then rd (block_last_index s) n else 63 in
  let block :=
    if n <? 4 then wr block 0 (int16 (int32 (rd block 0 * y_dc_scale s)))
    else wr block 0 (int16 (int32 (rd block 0 * c_dc_scale s))) in
  let quant_matrix := intra_matrix s in
  fold_left (fun st i =>
    let '(block, sum) := st in
    let j := rd (permutated (intra_scantable s)) i in
    let level := rd block j in
    if level =? 0 then (block, sum) else
      let level :=
        if level <? 0 then
          let level := int32 (- level) in
          let level :=
            Z.shiftr (int32 (int32 (level * qscale) * rd quant_matrix j)) 3 in
          int32 (- level)
        else
          Z.shiftr (int32 (int32 (level * qscale) * rd quant_matrix j)) 3 in
      (wr block j (int16 level), int32 (sum + level)))
    (upto 1 nCoeffs) (block, sum).

(** block[63] ^= sum & 1; *)
Definition mismatch_control (st : list Z * Z) : list Z :=
  let '(block, sum) := st in
  wr block 63 (int16 (Z.lxor (rd block 63) (Z.land sum 1))).

Definition dct_unquantize_mpeg2_intra_bitexact
    (s : MpegEncContext) (block : list Z) (n qscale : Z) : list Z :=
  mismatch_control (mpeg2_intra_bitexact_loop s block n qscale).

(** The loop of the legacy inter variant, before the correction. *)
Definition mpeg2_inter_loop
    (s : MpegEncContext) (block : list Z) (n qscale : Z) : list Z * Z :=
  let sum := -1 in
  let nCoeffs :=
    if alternate_scan s =? 0 then rd (block_last_index s) n else 63 in
  let quant_matrix := inter_matrix s in
  fold_left (fun st i =>
    let '(block, sum) := st in
    let j := rd (permutated (intra_scantable s)) i in
    let level := rd block j in
    if level =? 0 then (block, sum) else
      let level :=
        if level <? 0 then
          let level := int32 (- level) in
          let level :=
            Z.shiftr (int32 (int32 (int32 (int32 (Z.shiftl level 1) + 1)
                                      * qscale) * rd quant_matrix j)) 4 in
          int32 (- level)
        else
          Z.shiftr (int32 (int32 (int32 (int32 (Z.shiftl level 1) + 1)
                                    * qscale) * rd quant_matrix j)) 4 in
      (wr block j (int16 level), int32 (sum + level)))
    (upto 0 nCoeffs) (block, sum).

Definition dct_unquantize_mpeg2_inter_c
    (s : MpegEncContext) (block : list Z) (n qscale : Z) : list Z :=
  mismatch_control (mpeg2_inter_loop s block n qscale).

(** The two block-based variants start with
    [assert(s->block_last_index[n]>=0)]: a failed assertion gives [None]. *)
Definition dct_unquantize_h263_intra_c
    (s : MpegEncContext) (block : list Z) (n qscale : Z) : option (list Z) :=
  if rd (block_last_index s) n <? 0 then None else
  let qmul := int32 (Z.shiftl qscale 1) in
  let '(block, qadd) :=
    if h263_aic s =? 0 then
      (if n <? 4 then wr block 0 (int16 (int32 (rd block 0 * y_dc_scale s)))
       else wr block 0 (int16 (int32 (rd block 0 * c_dc_scale s))),
       Z.lor (int32 (qscale - 1)) 1)
    else (block, 0) in
  let nCoeffs :=
    if ac_pred s =? 0
    then rd (raster_end (inter_scantable s)) (rd (block_last_index s) n)
    else 63 in
  Some (fold_left (fun block i =>
    let level := rd block i in
    if level =? 0 then block else
      let level :=
        if level <? 0 then int32 (int32 (level * qmul) - qadd)
        else int32 (int32 (level * qmul) + qadd) in
      wr block i (int16 level))
    (upto 1 nCoeffs) block).

Definition dct_unquantize_h263_inter_c
    (s : MpegEncContext) (block : list Z) (n qscale : Z) : option (list Z) :=
  if rd (block_last_index s) n <? 0 then None else
  let qadd := Z.lor (int32 (qscale - 1)) 1 in
  let qmul := int32 (Z.shiftl qscale 1) in
  let nCoeffs :=
    rd (raster_end (inter_scantable s)) (rd (block_last_index s) n) in
  Some (fold_left (fun block i =>
    let level := rd block i in
    if level =? 0 then block else
      let level :=
        if level <? 0 then int32 (int32 (level * qmul) - qadd)
        else int32 (int32 (level * qmul) + qadd) in
      wr block i (int16 level))
    (upto 0 nCoeffs) block).

(** The shape the seven loops share: the coefficient at position [pos i]
    is replaced, when it is not zero, by the level [L] computes from it. *)
Definition scan_step (pos : Z -> Z) (L : Z -> Z -> Z)
    (block : list Z) (i : Z) : list Z :=
  let j := pos i in
  let level := rd block j in
  if level =? 0 then block else wr block j (int16 (L level j)).

Definition scan_step_sum (pos : Z -> Z) (L : Z -> Z -> Z)
    (st : list Z * Z) (i : Z) : list Z * Z :=
  let '(block, sum) := st in
  let j := pos i in
  let level := rd block j in
  if level =? 0 then (block, sum)
  else (wr block j (int16 (L level j)), int32 (sum + L level j)).

(** What a loop leaves at a position it visits once. *)
Definition scan_val (L : Z -> Z -> Z) (coeff j : Z) : Z :=
  if coeff =? 0 then coeff else int16 (L coeff j).

(** The levels the variants compute, as the loop bodies write them. *)
Definition level_mpeg1_intra (qscale : Z) (quant_matrix : list Z)
    (level j : Z) : Z :=
  if level <? 0 then
    let level := int32 (- level) in
    let level :=
      Z.shiftr (int32 (int32 (level * qscale) * rd quant_matrix j)) 3 in
    let level := Z.lor (int32 (level - 1)) 1 in
    int32 (- level)
  else
    let level :=
      Z.shiftr (int32 (int32 (level * qscale) * rd quant_matrix j)) 3 in
    Z.lor (int32 (level - 1)) 1.

Definition level_mpeg1_inter (qscale : Z) (quant_matrix : list Z)
    (level j : Z) : Z :=
  if level <? 0 then
    let level := int32 (- level) in
    let level :=
      Z.shiftr (int32 (int32 (int32 (int32 (Z.shiftl level 1) + 1)
                                * qscale) * rd quant_matrix j)) 4 in
    let level := Z.lor (int32 (level - 1)) 1 in
    int32 (- level)
  else
    let level :=
      Z.shiftr (int32 (int32 (int32 (int32 (Z.shiftl level 1) + 1)
                                * qscale) * rd quant_matrix j)) 4 in
    Z.lor (int32 (level - 1)) 1.

Definition level_mpeg2_intra (qscale : Z) (quant_matrix : list Z)
    (level j : Z) : Z :=
  if level <? 0 then
    let level := int32 (- level) in
    let level :=
      Z.shiftr (int32 (int32 (level * qscale) * rd quant_matrix j)) 3 in
    int32 (- level)
  else
    Z.shiftr (int32 (int32 (level * qscale) * rd quant_matrix j)) 3.

Definition level_mpeg2_inter (qscale : Z) (quant_matrix : list Z)
    (level j : Z) : Z :=
  if level <? 0 then
    let level := int32 (- level) in
    let level :=
      Z.shiftr (int32 (int32 (int32 (int32 (Z.shiftl level 1) + 1)
                                * qscale) * rd quant_matrix j)) 4 in
    int32 (- level)
  else
    Z.shiftr (int32 (int32 (int32 (int32 (Z.shiftl level 1) + 1)
                              * qscale) * rd quant_matrix j)) 4.

Definition level_h263 (qmul qadd : Z) (level j : Z) : Z :=
  if level <? 0 then int32 (int32 (level * qmul) - qadd)
  else int32 (int32 (level * qmul) + qadd).

(** The block after the DC scaling of the intra variants. *)
Definition dc_scaled (s : MpegEncContext) (block : list Z) (n : Z) : list Z :=
  if n <? 4 then wr block 0 (int16 (int32 (rd block 0 * y_dc_scale s)))
  else wr block 0 (int16 (int32 (rd block 0 * c_dc_scale s))).

(** The last scan index of the legacy variants. *)
Definition mpeg2_nCoeffs (s : MpegEncContext) (n : Z) : Z :=
  if alternate_scan s =? 0 then rd (block_last_index s) n else 63.

(** The level of the simple intra variant, in exact arithmetic:
    sign(coeff) * ((((|coeff| * qscale * matrix) >> 3) - 1) | 1). *)
Definition mpeg1_intra_level (coeff qscale qm : Z) : Z :=
  Z.sgn coeff * Z.lor (Z.shiftr (Z.abs coeff * qscale * qm) 3 - 1) 1.

(** The scan positions a loop from [lo] to [nCoeffs] visits. *)
Definition visited (s : MpegEncContext) (lo nCoeffs : Z) : list Z :=
  rd (permutated (intra_scantable s)) <$> upto lo nCoeffs.

(** The sum of the levels of a block at a list of positions. *)
Definition level_sum (block : list Z) (js : list Z) : Z :=
  fold_right Z.add 0 (rd block <$> js).

Definition zero_block : list Z := replicate 64 0.

(** The values an int16_t holds. *)
Definition is_int16 (x : Z) : Prop := -32768 <= x <= 32767.

(** The dequantizers as the specification words them.  The correction bit
    of the bit-exact variants is "the parity of the sum of the dequantized
    levels". *)
Definition spec_parity_bit (pre out js : list Z) : Prop :=
  rd out 63 = Z.lxor (rd pre 63) (Z.land (level_sum pre js) 1).

(** "Zero input coefficients yield zero output coefficients", for all
    seven functions. *)
Definition spec_zero_preserved (s : MpegEncContext) (n qscale : Z) : Prop :=
  dct_unquantize_mpeg1_intra_c s zero_block n qscale = zero_block /\
  dct_unquantize_mpeg1_inter_c s zero_block n qscale = zero_block /\
  dct_unquantize_mpeg2_intra_c s zero_block n qscale = zero_block /\
  dct_unquantize_mpeg2_intra_bitexact s zero_block n qscale = zero_block /\
  dct_unquantize_mpeg2_inter_c s zero_block n qscale = zero_block /\
  dct_unquantize_h263_intra_c s zero_block n qscale = Some zero_block /\
  dct_unquantize_h263_inter_c s zero_block n qscale = Some zero_block.

(** The simple intra variant: DC times the DC scale, AC by the formula. *)
Definition spec_mpeg1_intra (s : MpegEncContext) (block : list Z)
    (n qscale : Z) : Prop :=
  let out := dct_unquantize_mpeg1_intra_c s block n qscale in
  rd out 0 = rd block 0 * (if n <? 4 then y_dc_scale s else c_dc_scale s) /\
  forall j, j ∈ visited s 1 (rd (block_last_index s) n) ->
    rd out j = if rd block j =? 0 then 0
               else mpeg1_intra_level (rd block j) qscale
                      (rd (intra_matrix s) j).

(** A context for examples: the alternate vertical scan with the identity
    IDCT permutation, flat matrices. *)
Definition example_ctx (qm : Z) : MpegEncContext := {|
  block_last_index := replicate 12 63;
  y_dc_scale := 8;
  c_dc_scale := 8;
  intra_matrix := replicate 64 qm;
  inter_matrix := replicate 64 qm;
  intra_scantable := {| permutated := ff_alternate_vertical_scan;
                        raster_end := replicate 64 63 |};
  inter_scantable := {| permutated := ff_alternate_vertical_scan;
                        raster_end := replicate 64 63 |};
  alternate_scan := 1;
  h263_aic := 0;
  ac_pred := 0
|}.

(** A block with a DC coefficient and one AC coefficient at position 8. *)
Definition example_block (dc ac : Z) : list Z :=
  wr (wr zero_block 0 dc) 8 ac.

End Dequant.


(** ** The slice row ranges *)

Module Slices.

(** (s->mb_height * (i) + nb_slices / 2) / nb_slices, in [int]
    arithmetic; C division truncates. *)
Definition slice_start_mb_y (mb_height nb_slices i : Z) : Z :=
  Z.quot (int32 (int32 (mb_height * i) + Z.quot nb_slices 2)) nb_slices.

(** (s->mb_height * (i + 1) + nb_slices / 2) / nb_slices *)
Definition slice_end_mb_y (mb_height nb_slices i : Z) : Z :=
  Z.quot (int32 (int32 (mb_height * int32 (i + 1)) + Z.quot nb_slices 2))
    nb_slices.

(** The [start_mb_y] and [end_mb_y] that ff_mpv_common_init and
    ff_mpv_common_frame_size_change give the thread contexts
    0 .. nb_slices - 1 (the single context when nb_slices is at most 1). *)
Definition assign_rows (mb_height nb_slices : Z) : list (Z * Z) :=
  if nb_slices >? 1 then
    (fun i => (slice_start_mb_y mb_height nb_slices i,
               slice_end_mb_y mb_height nb_slices i)) <$> seqZ 0 nb_slices
  else [(0, mb_height)].

(** floor((H*i + N/2)/N): the boundary before slice [i], in exact
    arithmetic. *)
Definition row_boundary (mb_height nb_slices i : Z) : Z :=
  (mb_height * i + nb_slices / 2) / nb_slices.

(** Row [r] lies in the range of slice [i]. *)
Definition in_slice (rows : list (Z * Z)) (i : nat) (r : Z) : Prop :=
  exists a b, rows !! i = Some (a, b) /\ a <= r < b.

End Slices.

(** ** The quantizer scale *)

Module QScale.

(** The fields of MpegEncContext ff_set_qscale reads and writes. *)
Record MpegEncContext := {
  qscale : Z;
  chroma_qscale : Z;
  y_dc_scale : Z;
  c_dc_scale : Z;
  chroma_qscale_table : list Z;   (* const uint8_t * *)
  y_dc_scale_table : list Z;      (* const uint8_t * *)
  c_dc_scale_table : list Z       (* const uint8_t * *)
}.

Definition ff_set_qscale (s : MpegEncContext) (qscale : Z) : MpegEncContext :=
  let qscale :=
    if qscale <? 1 then 1
    else if qscale >? 31 then 31
    else qscale in
  let chroma_qscale := rd (chroma_qscale_table s) qscale in
  {| qscale := qscale;
     chroma_qscale := chroma_qscale;
     y_dc_scale := rd (y_dc_scale_table s) qscale;
     c_dc_scale := rd (c_dc_scale_table s) chroma_qscale;
     chroma_qscale_table := chroma_qscale_table s;
     y_dc_scale_table := y_dc_scale_table s;
     c_dc_scale_table := c_dc_scale_table s |}.

(** q clamped to the closed range 1..31. *)
Definition clamp_qscale (q : Z) : Z := Z.max 1 (Z.min 31 q).

(** The quantizer scale as the specification words it: the stored
    qscale is q clamped, and chroma_qscale, y_dc_scale and c_dc_scale
    are "the lookup-table entries at the clamped indices". *)
Definition spec_qscale_tables (s : MpegEncContext) (q : Z) : Prop :=
  let s' := ff_set_qscale s q in
  let c := clamp_qscale q in
  qscale s' = c /\
  chroma_qscale s' = rd (chroma_qscale_table s) c /\
  y_dc_scale s' = rd (y_dc_scale_table s) c /\
  c_dc_scale s' = rd (c_dc_scale_table s) c.

(** A context whose chroma table is not the identity: it rises half as
    fast as the index, and the two DC tables rise with theirs. *)
Definition sample_ctx : MpegEncContext := {|
  qscale := 0; chroma_qscale := 0; y_dc_scale := 0; c_dc_scale := 0;
  chroma_qscale_table := (fun i => Z.quot i 2) <$> seqZ 0 32;
  y_dc_scale_table := seqZ 8 32;
  c_dc_scale_table := seqZ 8 32
|}.

End QScale.

(** ** Pictures and the picture pool *)

Module Pictures.

(** Constants of the headers (mpegvideo.h, avcodec.h, error.h), which are
    not among the sources: the functions take them as parameters. *)
Record Constants := {
  MAX_PICTURE_COUNT : nat;
  EDGE_WIDTH : Z;
  DELAYED_PIC_REF : Z;
  AVERROR_INVALIDDATA : Z;
  AVERROR_ENOMEM : Z;            (* AVERROR(ENOMEM) *)
  FMT_H263 : Z;
  AV_CODEC_ID_WMV3IMAGE : Z;
  AV_CODEC_ID_VC1IMAGE : Z;
  AV_CODEC_ID_MSS2 : Z;
  AV_PICTURE_TYPE_I : Z;
  AV_PICTURE_TYPE_B : Z;
  PICT_FRAME : Z
}.

(** A pointer that may be NULL. *)
Definition is_null {A} (p : option A) : bool :=
  match p with Some _ => false | None => true end.

(** AVFrame.  [buf0] is buf[0], the reference that owns the pixels (the
    number names the underlying buffer); [planes] is the memory of the
    planes and [data] the offset of data[i] in plane i, [None] for NULL. *)
Record AVFrame := {
  buf0 : option nat;
  data : list (option Z);
  planes : list (list Z);
  f_linesize : list Z;
  width : Z;
  height : Z;
  format : Z;
  f_pict_type : Z
}.

(** A frame without buffers, as av_frame_alloc and av_frame_unref leave
    it. *)
Definition blank_frame : AVFrame := {|
  buf0 := None; data := replicate 8 None; planes := [];
  f_linesize := replicate 8 0; width := 0; height := 0; format := -1;
  f_pict_type := 0
|}.

(** The per-macroblock tables of a Picture, each an AVBufferRef* (NULL, or
    a reference to the buffer the number names).  They are addressed by
    field name, as the macros MAKE_WRITABLE and UPDATE_TABLE do. *)
Inductive table :=
  | mb_var_buf | mc_mb_var_buf | mb_mean_buf
  | mbskip_table_buf | qscale_table_buf | mb_type_buf
  | motion_val_buf (i : nat) | ref_index_buf (i : nat).

#[global] Instance table_eq_dec : EqDecision table.
Proof. solve_decision. Defined.

Definition Tables := table -> option nat.

Definition no_tables : Tables := fun _ => None.

Definition set_table (t : Tables) (name : table) (v : option nat) : Tables :=
  fun n => if decide (n = name) then v else t n.

(** The order in which make_tables_writable and update_picture_tables go
    through the tables. *)
Definition table_order : list table :=
  [ mb_var_buf; mc_mb_var_buf; mb_mean_buf;
    mbskip_table_buf; qscale_table_buf; mb_type_buf;
    motion_val_buf 0; ref_index_buf 0; motion_val_buf 1; ref_index_buf 1 ].

(** Picture.  The table pointers derived from the buffers (qscale_table,
    mb_type, ...) follow their buffers and are left out.  [progress] is
    the decoding progress of the ThreadFrame, one counter per field.  The
    fields from [hwaccel_priv_buf] on are the ones declared after mb_mean,
    which ff_mpeg_unref_picture clears. *)
Record Picture := {
  f : AVFrame;
  progress : list Z;
  tables : Tables;
  hwaccel_priv_buf : option nat;
  hwaccel_picture_private : option nat;
  field_picture : Z;
  mb_var_sum : Z;
  mc_mb_var_sum : Z;
  b_frame_score : Z;
  needs_realloc : Z;
  reference : Z;
  shared : Z
}.

Definition blank_picture : Picture := {|
  f := blank_frame; progress := []; tables := no_tables;
  hwaccel_priv_buf := None; hwaccel_picture_private := None;
  field_picture := 0; mb_var_sum := 0; mc_mb_var_sum := 0;
  b_frame_score := 0; needs_realloc := 0; reference := 0; shared := 0
|}.

Definition set_f (pic : Picture) (fr : AVFrame) : Picture := {|
  f := fr; progress := progress pic; tables := tables pic;
  hwaccel_priv_buf := hwaccel_priv_buf pic;
  hwaccel_picture_private := hwaccel_picture_private pic;
  field_picture := field_picture pic; mb_var_sum := mb_var_sum pic;
  mc_mb_var_sum := mc_mb_var_sum pic; b_frame_score := b_frame_score pic;
  needs_realloc := needs_realloc pic; reference := reference pic;
  shared := shared pic
|}.

Definition set_progress (pic : Picture) (p : list Z) : Picture := {|
  f := f pic; progress := p; tables := tables pic;
  hwaccel_priv_buf := hwaccel_priv_buf pic;
  hwaccel_picture_private := hwaccel_picture_private pic;
  field_picture := field_picture pic; mb_var_sum := mb_var_sum pic;
  mc_mb_var_sum := mc_mb_var_sum pic; b_frame_score := b_frame_score pic;
  needs_realloc := needs_realloc pic; reference := reference pic;
  shared := shared pic
|}.

Definition set_tables (pic : Picture) (t : Tables) : Picture := {|
  f := f pic; progress := progress pic; tables := t;
  hwaccel_priv_buf := hwaccel_priv_buf pic;
  hwaccel_picture_private := hwaccel_picture_private pic;
  field_picture := field_picture pic; mb_var_sum := mb_var_sum pic;
  mc_mb_var_sum := mc_mb_var_sum pic; b_frame_score := b_frame_score pic;
  needs_realloc := needs_realloc pic; reference := reference pic;
  shared := shared pic
|}.

Definition set_hwaccel (pic : Picture) (buf priv : option nat) : Picture := {|
  f := f pic; progress := progress pic; tables := tables pic;
  hwaccel_priv_buf := buf; hwaccel_picture_private := priv;
  field_picture := field_picture pic; mb_var_sum := mb_var_sum pic;
  mc_mb_var_sum := mc_mb_var_sum pic; b_frame_score := b_frame_score pic;
  needs_realloc := needs_realloc pic; reference := reference pic;
  shared := shared pic
|}.

Definition set_needs_realloc (pic : Picture) (v : Z) : Picture := {|
  f := f pic; progress := progress pic; tables := tables pic;
  hwaccel_priv_buf := hwaccel_priv_buf pic;
  hwaccel_picture_private := hwaccel_picture_private pic;
  field_picture := field_picture pic; mb_var_sum := mb_var_sum pic;
  mc_mb_var_sum := mc_mb_var_sum pic; b_frame_score := b_frame_score pic;
  needs_realloc := v; reference := reference pic; shared := shared pic
|}.

Definition set_reference (pic : Picture) (v : Z) : Picture := {|
  f := f pic; progress := progress pic; tables := tables pic;
  hwaccel_priv_buf := hwaccel_priv_buf pic;
  hwaccel_picture_private := hwaccel_picture_private pic;
  field_picture := field_picture pic; mb_var_sum := mb_var_sum pic;
  mc_mb_var_sum := mc_mb_var_sum pic; b_frame_score := b_frame_score pic;
  needs_realloc := needs_realloc pic; reference := v; shared := shared pic
|}.

Definition set_shared (pic : Picture) (v : Z) : Picture := {|
  f := f pic; progress := progress pic; tables := tables pic;
  hwaccel_priv_buf := hwaccel_priv_buf pic;
  hwaccel_picture_private := hwaccel_picture_private pic;
  field_picture := field_picture pic; mb_var_sum := mb_var_sum pic;
  mc_mb_var_sum := mc_mb_var_sum pic; b_frame_score := b_frame_score pic;
  needs_realloc := needs_realloc pic; reference := reference pic; shared := v
|}.

(** The scratch buffers of a context: NULL or an address. *)
Record Scratch := {
  edge_emu_buffer : option Z;
  me_scratchpad : option Z;
  me_temp : option Z;
  rd_scratchpad : option Z;
  b_scratchpad : option Z;
  obmc_scratchpad : option Z
}.

(** The fields of MpegEncContext the picture functions read and write.
    [hwaccel] is avctx->hwaccel, with its frame_priv_data_size;
    [is_encoder] is av_codec_is_encoder(avctx->codec). *)
Record MpegEncContext := {
  picture : list Picture;
  last_picture_ptr : option nat;     (* a slot of [picture], or NULL *)
  next_picture_ptr : option nat;
  linesize : Z;
  uvlinesize : Z;
  scratch : Scratch;
  codec_id : Z;
  is_encoder : bool;
  avctx_width : Z;
  avctx_height : Z;
  avctx_pix_fmt : Z;
  hwaccel : option Z;
  chroma_x_shift : Z;
  chroma_y_shift : Z;
  encoding : Z;
  out_format : Z;
  mb_stride : Z;
  mb_height : Z;
  b8_stride : Z;
  pict_type : Z;
  picture_structure : Z
}.

Definition set_picture (s : MpegEncContext) (pool : list Picture)
    : MpegEncContext := {|
  picture := pool; last_picture_ptr := last_picture_ptr s;
  next_picture_ptr := next_picture_ptr s; linesize := linesize s;
  uvlinesize := uvlinesize s; scratch := scratch s; codec_id := codec_id s;
  is_encoder := is_encoder s; avctx_width := avctx_width s;
  avctx_height := avctx_height s; avctx_pix_fmt := avctx_pix_fmt s;
  hwaccel := hwaccel s; chroma_x_shift := chroma_x_shift s;
  chroma_y_shift := chroma_y_shift s; encoding := encoding s;
  out_format := out_format s; mb_stride := mb_stride s;
  mb_height := mb_height s; b8_stride := b8_stride s;
  pict_type := pict_type s; picture_structure := picture_structure s
|}.

Definition set_last_picture_ptr (s : MpegEncContext) (p : option nat)
    : MpegEncContext := {|
  picture := picture s; last_picture_ptr := p;
  next_picture_ptr := next_picture_ptr s; linesize := linesize s;
  uvlinesize := uvlinesize s; scratch := scratch s; codec_id := codec_id s;
  is_encoder := is_encoder s; avctx_width := avctx_width s;
  avctx_height := avctx_height s; avctx_pix_fmt := avctx_pix_fmt s;
  hwaccel := hwaccel s; chroma_x_shift := chroma_x_shift s;
  chroma_y_shift := chroma_y_shift s; encoding := encoding s;
  out_format := out_format s; mb_stride := mb_stride s;
  mb_height := mb_height s; b8_stride := b8_stride s;
  pict_type := pict_type s; picture_structure := picture_structure s
|}.

Definition set_next_picture_ptr (s : MpegEncContext) (p : option nat)
    : MpegEncContext := {|
  picture := picture s; last_picture_ptr := last_picture_ptr s;
  next_picture_ptr := p; linesize := linesize s;
  uvlinesize := uvlinesize s; scratch := scratch s; codec_id := codec_id s;
  is_encoder := is_encoder s; avctx_width := avctx_width s;
  avctx_height := avctx_height s; avctx_pix_fmt := avctx_pix_fmt s;
  hwaccel := hwaccel s; chroma_x_shift := chroma_x_shift s;
  chroma_y_shift := chroma_y_shift s; encoding := encoding s;
  out_format := out_format s; mb_stride := mb_stride s;
  mb_height := mb_height s; b8_stride := b8_stride s;
  pict_type := pict_type s; picture_structure := picture_structure s
|}.

Definition set_linesizes (s : MpegEncContext) (l uv : Z) : MpegEncContext := {|
  picture := picture s; last_picture_ptr := last_picture_ptr s;
  next_picture_ptr := next_picture_ptr s; linesize := l;
  uvlinesize := uv; scratch := scratch s; codec_id := codec_id s;
  is_encoder := is_encoder s; avctx_width := avctx_width s;
  avctx_height := avctx_height s; avctx_pix_fmt := avctx_pix_fmt s;
  hwaccel := hwaccel s; chroma_x_shift := chroma_x_shift s;
  chroma_y_shift := chroma_y_shift s; encoding := encoding s;
  out_format := out_format s; mb_stride := mb_stride s;
  mb_height := mb_height s; b8_stride := b8_stride s;
  pict_type := pict_type s; picture_structure := picture_structure s
|}.

Definition set_scratch (s : MpegEncContext) (sc : Scratch) : MpegEncContext := {|
  picture := picture s; last_picture_ptr := last_picture_ptr s;
  next_picture_ptr := next_picture_ptr s; linesize := linesize s;
  uvlinesize := uvlinesize s; scratch := sc; codec_id := codec_id s;
  is_encoder := is_encoder s; avctx_width := avctx_width s;
  avctx_height := avctx_height s; avctx_pix_fmt := avctx_pix_fmt s;
  hwaccel := hwaccel s; chroma_x_shift := chroma_x_shift s;
  chroma_y_shift := chroma_y_shift s; encoding := encoding s;
  out_format := out_format s; mb_stride := mb_stride s;
  mb_height := mb_height s; b8_stride := b8_stride s;
  pict_type := pict_type s; picture_structure := picture_structure s
|}.

(** What the allocator and the frame-threading layer answer during one
    call: the functions below are deterministic in it.
    - [gb_ret], [gb_frame]: the return value of ff_thread_get_buffer (or
      avcodec_default_get_buffer2) and the frame it leaves;
      [gb_progress]: the progress counters of the new ThreadFrame;
    - [hw_priv]: av_buffer_allocz for the hwaccel private data;
    - [edge_alloc], [scratch_alloc]: the two allocations of
      frame_size_alloc;
    - [tab_*]: av_buffer_allocz for each table, in the order of
      alloc_picture_tables;
    - [writable]: for each table in the order of make_tables_writable,
      the return value of av_buffer_make_writable and the buffer the
      reference names afterwards;
    - [ref_ret]: the return value of ff_thread_ref_frame;
    - [tab_ref]: for each table in the order of update_picture_tables,
      whether av_buffer_ref succeeds; [hw_ref] likewise for the hwaccel
      private data. *)
Record Env := {
  gb_ret : Z;
  gb_frame : AVFrame;
  gb_progress : list Z;
  hw_priv : option nat;
  edge_alloc : option Z;
  scratch_alloc : option Z;
  tab_mbskip : option nat;
  tab_qscale : option nat;
  tab_mb_type : option nat;
  tab_mb_var : option nat;
  tab_mc_mb_var : option nat;
  tab_mb_mean : option nat;
  tab_motion_val : list (option nat);
  tab_ref_index : list (option nat);
  writable : list (Z * nat);
  ref_ret : Z;
  tab_ref : list bool;
  hw_ref : bool
}.

Definition nth_opt {A} (l : list (option A)) (i : nat) : option A :=
  default None (l !! i).

Section WithConstants.
Variable K : Constants.

(** FFALIGN(x, a) *)
Definition FFALIGN (x a : Z) : Z := Z.land (int32 (x + a - 1)) (Z.lnot (a - 1)).

(** frame_size_alloc: returns 0 or AVERROR(ENOMEM), and the buffers.  (The
    sizes alloc_size * 2 * 24 and alloc_size * 2 * 16 * 3 are not zero, so
    a NULL result is a failure.) *)
Definition frame_size_alloc (sc : Scratch) (linesize : Z) (o : Env)
    : Z * Scratch :=
  match edge_alloc o with
  | None =>
      (AVERROR_ENOMEM K,
       {| edge_emu_buffer := None; me_scratchpad := me_scratchpad sc;
          me_temp := me_temp sc; rd_scratchpad := rd_scratchpad sc;
          b_scratchpad := b_scratchpad sc;
          obmc_scratchpad := obmc_scratchpad sc |})
  | Some e =>
      match scratch_alloc o with
      | None =>
          (AVERROR_ENOMEM K,
           {| edge_emu_buffer := None; me_scratchpad := None;
              me_temp := me_temp sc; rd_scratchpad := rd_scratchpad sc;
              b_scratchpad := b_scratchpad sc;
              obmc_scratchpad := obmc_scratchpad sc |})
      | Some p =>
          (0,
           {| edge_emu_buffer := Some e; me_scratchpad := Some p;
              me_temp := Some p; rd_scratchpad := Some p;
              b_scratchpad := Some p; obmc_scratchpad := Some (p + 16) |})
      end
  end.

Definition ff_free_picture_tables (pic : Picture) : Picture :=
  set_tables pic no_tables.

(** av_frame_unref, and ff_thread_release_buffer which ends in it: the
    frame gives up its buffers. *)
Definition av_frame_unref (fr : AVFrame) : AVFrame := blank_frame.

Definition ff_mpeg_unref_picture (s : MpegEncContext) (pic : Picture)
    : Picture :=
  let pic :=
    if negb (codec_id s =? AV_CODEC_ID_WMV3IMAGE K)
       && negb (codec_id s =? AV_CODEC_ID_VC1IMAGE K)
       && negb (codec_id s =? AV_CODEC_ID_MSS2 K)
    then set_progress (set_f pic (av_frame_unref (f pic))) []
    else set_f pic (av_frame_unref (f pic)) in
  let pic := set_hwaccel pic None (hwaccel_picture_private pic) in
  let pic :=
    if needs_realloc pic =? 0 then pic else ff_free_picture_tables pic in
  (* memset of the fields past mb_mean to 0 *)
  {| f := f pic; progress := progress pic; tables := tables pic;
     hwaccel_priv_buf := None; hwaccel_picture_private := None;
     field_picture := 0; mb_var_sum := 0; mc_mb_var_sum := 0;
     b_frame_score := 0; needs_realloc := 0; reference := 0; shared := 0 |}.

Definition alloc_picture_tables (s : MpegEncContext) (pic : Picture)
    (o : Env) : Z * Picture :=
  let b8_array_size := int32 (int32 (b8_stride s * mb_height s) * 2) in
  let t := tables pic in
  let t := set_table t mbskip_table_buf (tab_mbskip o) in
  let t := set_table t qscale_table_buf (tab_qscale o) in
  let t := set_table t mb_type_buf (tab_mb_type o) in
  if is_null (t mbskip_table_buf) || is_null (t qscale_table_buf)
     || is_null (t mb_type_buf)
  then (AVERROR_ENOMEM K, set_tables pic t) else
  let '(ret, t) :=
    if encoding s =? 0 then (0, t) else
      let t := set_table t mb_var_buf (tab_mb_var o) in
      let t := set_table t mc_mb_var_buf (tab_mc_mb_var o) in
      let t := set_table t mb_mean_buf (tab_mb_mean o) in
      if is_null (t mb_var_buf) || is_null (t mc_mb_var_buf)
         || is_null (t mb_mean_buf)
      then (AVERROR_ENOMEM K, t) else (0, t) in
  if ret <? 0 then (ret, set_tables pic t) else
  if (out_format s =? FMT_H263 K) || negb (encoding s =? 0) then
    let mv_size := int32 (int32 (2 * int32 (b8_array_size + 4)) * 2) in
    (* for (i = 0; mv_size && i < 2; i++) *)
    let '(ret, t) :=
      fold_left (fun st i =>
        let '(ret, t) := st in
        if (ret <? 0) || (mv_size =? 0) then st else
          let t := set_table t (motion_val_buf i)
                     (nth_opt (tab_motion_val o) i) in
          let t := set_table t (ref_index_buf i)
                     (nth_opt (tab_ref_index o) i) in
          if is_null (t (motion_val_buf i)) || is_null (t (ref_index_buf i))
          then (AVERROR_ENOMEM K, t) else (ret, t))
        [0; 1]%nat (0, t) in
    (ret, set_tables pic t)
  else (0, set_tables pic t).

(** MAKE_WRITABLE(table), for the [k]-th table of the order. *)
Definition MAKE_WRITABLE (o : Env) (st : Z * Tables) (k : nat) : Z * Tables :=
  let '(ret, t) := st in
  if ret <? 0 then st else
  match table_order !! k with
  | None => st
  | Some name =>
      match t name, writable o !! k with
      | Some _, Some (r, b) =>
          if r <? 0 then (r, t) else (ret, set_table t name (Some b))
      | _, _ => st
      end
  end.

Definition make_tables_writable (pic : Picture) (o : Env) : Z * Picture :=
  let '(ret, t) :=
    fold_left (MAKE_WRITABLE o) (seq 0 (length table_order)) (0, tables pic) in
  (ret, set_tables pic t).

(** UPDATE_TABLE(table), for the [k]-th table of the order. *)
Definition UPDATE_TABLE (src : Tables) (o : Env) (st : Z * Tables) (k : nat)
    : Z * Tables :=
  let '(ret, dst) := st in
  if ret <? 0 then st else
  match table_order !! k with
  | None => st
  | Some name =>
      match src name with
      | Some b =>
          if is_null (dst name) || negb (bool_decide (dst name = Some b))
          then
            if default true (tab_ref o !! k)
            then (ret, set_table dst name (Some b))
            else (AVERROR_ENOMEM K, no_tables)
          else st
      | None => st
      end
  end.

Definition update_picture_tables (dst src : Picture) (o : Env)
    : Z * Picture :=
  let '(ret, t) :=
    fold_left (UPDATE_TABLE (tables src) o) (seq 0 (length table_order))
      (0, tables dst) in
  (ret, set_tables dst t).

Definition image_codec (s : MpegEncContext) : bool :=
  negb (negb (codec_id s =? AV_CODEC_ID_WMV3IMAGE K)
        && negb (codec_id s =? AV_CODEC_ID_VC1IMAGE K)
        && negb (codec_id s =? AV_CODEC_ID_MSS2 K)).

Definition set_size (fr : AVFrame) (w h : Z) : AVFrame := {|
  buf0 := buf0 fr; data := data fr; planes := planes fr;
  f_linesize := f_linesize fr; width := w; height := h; format := format fr;
  f_pict_type := f_pict_type fr
|}.

Definition set_data (fr : AVFrame) (d : list (option Z)) : AVFrame := {|
  buf0 := buf0 fr; data := d; planes := planes fr;
  f_linesize := f_linesize fr; width := width fr; height := height fr;
  format := format fr; f_pict_type := f_pict_type fr
|}.

Definition set_planes (fr : AVFrame) (p : list (list Z)) : AVFrame := {|
  buf0 := buf0 fr; data := data fr; planes := p;
  f_linesize := f_linesize fr; width := width fr; height := height fr;
  format := format fr; f_pict_type := f_pict_type fr
|}.

Definition set_pict_type (fr : AVFrame) (t : Z) : AVFrame := {|
  buf0 := buf0 fr; data := data fr; planes := planes fr;
  f_linesize := f_linesize fr; width := width fr; height := height fr;
  format := format fr; f_pict_type := t
|}.

(** The edge offset of plane [i]:
    (EDGE_WIDTH >> (i ? chroma_y_shift : 0)) * linesize[i]
    + (EDGE_WIDTH >> (i ? chroma_x_shift : 0)) *)
Definition edge_offset (s : MpegEncContext) (fr : AVFrame) (i : nat) : Z :=
  int32 (int32 (Z.shiftr (EDGE_WIDTH K)
                  (if decide (i = 0%nat) then 0 else chroma_y_shift s)
                * rd (f_linesize fr) (Z.of_nat i))
         + Z.shiftr (EDGE_WIDTH K)
             (if decide (i = 0%nat) then 0 else chroma_x_shift s)).

(** for (i = 0; pic->f->data[i]; i++) pic->f->data[i] += offset; *)
Fixpoint add_edge_offsets (s : MpegEncContext) (fr : AVFrame)
    (d : list (option Z)) (i : nat) : list (option Z) :=
  match d with
  | Some p :: d' => Some (p + edge_offset s fr i) :: add_edge_offsets s fr d' (S i)
  | _ => d
  end.

(** alloc_frame_buffer.  [None]: the assertion on hwaccel_picture_private
    fails. *)
Definition alloc_frame_buffer (s : MpegEncContext) (pic : Picture) (o : Env)
    : option (Z * MpegEncContext * Picture) :=
  let edges_needed := is_encoder s in
  (* the frame the get_buffer callback is given, and the one it leaves *)
  let pic :=
    if negb (image_codec s) then
      set_progress (set_f pic (gb_frame o)) (gb_progress o)
    else set_f pic (gb_frame o) in
  let r := gb_ret o in
  if (r <? 0) || is_null (buf0 (f pic)) then Some (-1, s, pic) else
  let pic :=
    if edges_needed then
      set_f pic (set_size (set_data (f pic)
                             (add_edge_offsets s (f pic) (data (f pic)) 0))
                   (avctx_width s) (avctx_height s))
    else pic in
  let after_hwaccel : option (option Picture) :=
    match hwaccel s with
    | Some frame_priv_data_size =>
        if negb (is_null (hwaccel_picture_private pic)) then None else
        if frame_priv_data_size =? 0 then Some (Some pic) else
          match hw_priv o with
          | None => Some None
          | Some b => Some (Some (set_hwaccel pic (Some b) (Some b)))
          end
    | None => Some (Some pic)
    end in
  match after_hwaccel with
  | None => None
  | Some None => Some (-1, s, set_hwaccel pic None (hwaccel_picture_private pic))
  | Some (Some pic) =>
      if negb (linesize s =? 0)
         && (negb (linesize s =? rd (f_linesize (f pic)) 0)
             || negb (uvlinesize s =? rd (f_linesize (f pic)) 1))
      then Some (-1, s, ff_mpeg_unref_picture s pic) else
      if negb (rd (f_linesize (f pic)) 1 =? rd (f_linesize (f pic)) 2)
      then Some (-1, s, ff_mpeg_unref_picture s pic) else
      if is_null (edge_emu_buffer (scratch s)) then
        let '(ret, sc) :=
          frame_size_alloc (scratch s) (rd (f_linesize (f pic)) 0) o in
        if ret <? 0
        then Some (ret, set_scratch s sc,
                   ff_mpeg_unref_picture s pic)
        else Some (0, set_scratch s sc, pic)
      else Some (0, s, pic)
  end.

(** ff_alloc_picture from [if (!pic->qscale_table_buf)] on. *)
Definition alloc_picture_finish (s : MpegEncContext) (pic : Picture)
    (o : Env) : Z * MpegEncContext * Picture :=
  let '(ret, pic) :=
    if is_null (tables pic qscale_table_buf)
    then alloc_picture_tables s pic o
    else make_tables_writable pic o in
  if ret <? 0 then
    (* fail: *)
    (AVERROR_ENOMEM K, s,
     ff_free_picture_tables (ff_mpeg_unref_picture s pic))
  else (0, s, pic).

(** ff_alloc_picture.  [None]: one of its assertions fails. *)
Definition ff_alloc_picture (s : MpegEncContext) (pic : Picture)
    (shared : Z) (o : Env) : option (Z * MpegEncContext * Picture) :=
  if negb (shared =? 0) then
    if is_null (nth_opt (data (f pic)) 0) then None
    else Some (alloc_picture_finish s (set_shared pic 1) o)
  else
    if negb (is_null (buf0 (f pic))) then None else
    match alloc_frame_buffer s pic o with
    | None => None
    | Some (r, s, pic) =>
        if r <? 0 then Some (-1, s, pic)
        else
          Some (alloc_picture_finish
                  (set_linesizes s (rd (f_linesize (f pic)) 0)
                     (rd (f_linesize (f pic)) 1)) pic o)
    end.

(** ff_mpeg_ref_picture.  [None]: one of its av_assert0 fails.  On
    success the frame of [dst] is a new reference to the buffers of the
    frame of [src]. *)
Definition ff_mpeg_ref_picture (s : MpegEncContext) (dst src : Picture)
    (o : Env) : option (Z * Picture) :=
  if negb (is_null (buf0 (f dst))) then None else
  if is_null (buf0 (f src)) then None else
  let ret := ref_ret o in
  if ret <? 0 then Some (ret, ff_mpeg_unref_picture s dst) else
  let dst := set_progress (set_f dst (f src)) (progress src) in
  let '(ret, dst) := update_picture_tables dst src o in
  if ret <? 0 then Some (ret, ff_mpeg_unref_picture s dst) else
  let after_hwaccel : option Picture :=
    if negb (is_null (hwaccel_picture_private src)) then
      if hw_ref o
      then Some (set_hwaccel dst (hwaccel_priv_buf src) (hwaccel_priv_buf src))
      else None
    else Some dst in
  match after_hwaccel with
  | None =>
      Some (ret, ff_mpeg_unref_picture s
                   (set_hwaccel dst None (hwaccel_picture_private dst)))
  | Some dst =>
      Some (0, {| f := f dst; progress := progress dst; tables := tables dst;
                  hwaccel_priv_buf := hwaccel_priv_buf dst;
                  hwaccel_picture_private := hwaccel_picture_private dst;
                  field_picture := field_picture src;
                  mb_var_sum := mb_var_sum src;
                  mc_mb_var_sum := mc_mb_var_sum src;
                  b_frame_score := b_frame_score src;
                  needs_realloc := needs_realloc src;
                  reference := reference src;
                  shared := shared src |})
  end.

(** &s->picture[i] *)
Definition slot (s : MpegEncContext) (i : nat) : Picture :=
  default blank_picture (picture s !! i).

(** s->picture[i] = pic *)
Definition store (s : MpegEncContext) (i : nat) (pic : Picture)
    : MpegEncContext :=
  set_picture s (<[i := pic]> (picture s)).

Definition pic_is_unused (s : MpegEncContext) (pic : Picture) : bool :=
  if is_null (buf0 (f pic)) then true
  else if negb (needs_realloc pic =? 0)
          && (Z.land (reference pic) (DELAYED_PIC_REF K) =? 0) then true
  else false.

(** for (i = i0; i < i0 + n; i++) if (test(&s->picture[i])) return i; *)
Fixpoint first_picture (test : Picture -> bool) (s : MpegEncContext)
    (i n : nat) : option nat :=
  match n with
  | O => None
  | S n => if test (slot s i) then Some i else first_picture test s (S i) n
  end.

Definition find_unused_picture (s : MpegEncContext) (shared : Z) : Z :=
  let found :=
    if negb (shared =? 0) then
      first_picture (fun pic => is_null (buf0 (f pic))) s 0
        (MAX_PICTURE_COUNT K)
    else first_picture (pic_is_unused s) s 0 (MAX_PICTURE_COUNT K) in
  match found with
  | Some i => Z.of_nat i
  | None => AVERROR_INVALIDDATA K
  end.

Definition ff_find_unused_picture (s : MpegEncContext) (shared : Z)
    : Z * MpegEncContext :=
  let ret := find_unused_picture s shared in
  if (ret >=? 0) && (ret <? Z.of_nat (MAX_PICTURE_COUNT K)) then
    let i := Z.to_nat ret in
    if negb (needs_realloc (slot s i) =? 0) then
      let pic := set_needs_realloc (slot s i) 0 in
      let pic := ff_free_picture_tables pic in
      let pic := ff_mpeg_unref_picture s pic in
      (ret, store s i pic)
    else (ret, s)
  else (ret, s).

(** The test of find_unused_picture for each value of [shared]. *)
Definition unused_test (s : MpegEncContext) (shared : Z) (pic : Picture)
    : bool :=
  if shared =? 0 then pic_is_unused s pic else is_null (buf0 (f pic)).

(** memset(mem + off, c, n); a negative [n] writes nothing here. *)
Definition memset (mem : list Z) (off c n : Z) : list Z :=
  list_inserts (Z.to_nat off) (replicate (Z.to_nat n) c) mem.

(** memset(f->data[i], c, n) *)
Definition memset_plane (fr : AVFrame) (i : nat) (c n : Z) : AVFrame :=
  match nth_opt (data fr) i, planes fr !! i with
  | Some off, Some mem =>
      set_planes fr (<[i := memset mem off c n]> (planes fr))
  | _, _ => fr
  end.

(** Modelled from the spec: ff_thread_report_progress belongs to the
    frame-threading layer, which is not among the sources; "a
    monotonically increasing decoded-up-to-row progress counter per
    FrameBuffer": the counter of [field] rises to [n], and never falls. *)
Definition ff_thread_report_progress (pic : Picture) (n : Z) (field : nat)
    : Picture :=
  match progress pic !! field with
  | Some p =>
      if p >=? n then pic
      else set_progress pic (<[field := n]> (progress pic))
  | None => pic
  end.

(** Whether ff_mpv_frame_start finds the last picture missing:
    (!s->last_picture_ptr || !s->last_picture_ptr->f->buf[0]) &&
    (s->pict_type != AV_PICTURE_TYPE_I ||
     s->picture_structure != PICT_FRAME) *)
Definition last_picture_missing (s : MpegEncContext) : bool :=
  match last_picture_ptr s with
  | None => true
  | Some p => is_null (buf0 (f (slot s p)))
  end
  && (negb (pict_type s =? AV_PICTURE_TYPE_I K)
      || negb (picture_structure s =? PICT_FRAME K)).

(** (!s->next_picture_ptr || !s->next_picture_ptr->f->buf[0]) &&
    s->pict_type == AV_PICTURE_TYPE_B *)
Definition next_picture_missing (s : MpegEncContext) : bool :=
  match next_picture_ptr s with
  | None => true
  | Some p => is_null (buf0 (f (slot s p)))
  end
  && (pict_type s =? AV_PICTURE_TYPE_B K).

(** ff_mpv_frame_start, the block that allocates a dummy last picture.
    [v_chroma_shift] is what av_pix_fmt_get_chroma_sub_sample gives for
    the pixel format.  The result is the return value where the function
    returns from this block and 0 where it goes on, with the state;
    [None] when an assertion of ff_alloc_picture fails. *)
Definition frame_start_dummy_last (s : MpegEncContext) (v_chroma_shift : Z)
    (o : Env) : option (Z * MpegEncContext) :=
  if last_picture_missing s then
    (* Allocate a dummy frame *)
    let '(i, s) := ff_find_unused_picture s 0 in
    if i <? 0 then Some (i, s) else
    let i := Z.to_nat i in
    let s := set_last_picture_ptr s (Some i) in
    let pic := set_reference (slot s i) 3 in
    let pic := set_f pic (set_pict_type (f pic) (AV_PICTURE_TYPE_I K)) in
    match ff_alloc_picture s pic 0 o with
    | None => None
    | Some (r, s, pic) =>
        if r <? 0 then Some (-1, set_last_picture_ptr (store s i pic) None)
        else
          let fr := f pic in
          let fr :=
            memset_plane fr 0 0
              (int32 (avctx_height s * rd (f_linesize fr) 0)) in
          let fr :=
            memset_plane fr 1 128
              (int32 (Z.shiftr (avctx_height s) v_chroma_shift
                      * rd (f_linesize fr) 1)) in
          let fr :=
            memset_plane fr 2 128
              (int32 (Z.shiftr (avctx_height s) v_chroma_shift
                      * rd (f_linesize fr) 2)) in
          let pic := set_f pic fr in
          let pic := ff_thread_report_progress pic INT_MAX 0 in
          let pic := ff_thread_report_progress pic INT_MAX 1 in
          Some (0, store s i pic)
    end
  else Some (0, s).

(** ff_mpv_frame_start, the block that allocates a dummy next picture. *)
Definition frame_start_dummy_next (s : MpegEncContext) (o : Env)
    : option (Z * MpegEncContext) :=
  if next_picture_missing s then
    (* Allocate a dummy frame *)
    let '(i, s) := ff_find_unused_picture s 0 in
    if i <? 0 then Some (i, s) else
    let i := Z.to_nat i in
    let s := set_next_picture_ptr s (Some i) in
    let pic := set_reference (slot s i) 3 in
    let pic := set_f pic (set_pict_type (f pic) (AV_PICTURE_TYPE_I K)) in
    match ff_alloc_picture s pic 0 o with
    | None => None
    | Some (r, s, pic) =>
        if r <? 0 then Some (-1, set_next_picture_ptr (store s i pic) None)
        else
          let pic := ff_thread_report_progress pic INT_MAX 0 in
          let pic := ff_thread_report_progress pic INT_MAX 1 in
          Some (0, store s i pic)
    end
  else Some (0, s).

End WithConstants.

(** *** The invariants *)

Definition has_pixels (pic : Picture) : bool := negb (is_null (buf0 (f pic))).

(** The slot ff_find_unused_picture may return, as the specification
    words it: with [shared] set a slot "whose pixel buffer is
    unallocated (f->buf[0] empty)", otherwise a slot that is unused: "no
    pixel buffer, or marked needs_realloc and not delayed-reference". *)
Definition spec_unused (K : Constants) (shared : Z) (pic : Picture)
    : Prop :=
  if shared =? 0
  then buf0 (f pic) = None
       \/ (needs_realloc pic <> 0
           /\ Z.land (reference pic) (DELAYED_PIC_REF K) = 0)
  else buf0 (f pic) = None.

(** The tables every allocated Picture has. *)
Definition core_tables (pic : Picture) : bool :=
  negb (is_null (tables pic mbskip_table_buf))
  && negb (is_null (tables pic qscale_table_buf))
  && negb (is_null (tables pic mb_type_buf)).

(** "Its full auxiliary table set (qscale table, mb-type table, skip
    flags, motion-vector/ref-index tables)". *)
Definition full_tables (pic : Picture) : bool :=
  core_tables pic
  && negb (is_null (tables pic (motion_val_buf 0)))
  && negb (is_null (tables pic (motion_val_buf 1)))
  && negb (is_null (tables pic (ref_index_buf 0)))
  && negb (is_null (tables pic (ref_index_buf 1))).

Definition tables_absent (pic : Picture) : bool :=
  forallb (fun name => is_null (tables pic name)) table_order.

(** The coherence the specification states: pixels and tables both
    present, or both absent. *)
Definition spec_coherent (pic : Picture) : Prop :=
  (has_pixels pic = true /\ full_tables pic = true)
  \/ (has_pixels pic = false /\ tables_absent pic = true).

(** What the code keeps: a Picture with pixels has its core tables, and
    the core tables come and go together. *)
Definition picture_inv (pic : Picture) : Prop :=
  (has_pixels pic = true -> core_tables pic = true)
  /\ (is_null (tables pic qscale_table_buf) = false -> core_tables pic = true).

(** update_picture_tables, the state after the tables with index in [P]:
    it has failed and [dst] has no table left, or every table [src] has
    among those is in [dst]. *)
Definition updated (src : Tables) (P : nat -> Prop) (st : Z * Tables) : Prop :=
  (st.1 < 0 /\ st.2 = no_tables)
  \/ (st.1 = 0 /\ forall k name, P k -> table_order !! k = Some name ->
        is_null (src name) = false -> is_null (st.2 name) = false).

(** The allocator keeps its contract: a failed get_buffer leaves no
    buffer in the frame; and the private data of a hardware accelerator,
    where one is in use, is allocated. *)
Definition env_ok (s : MpegEncContext) (o : Env) : Prop :=
  (gb_ret o < 0 -> buf0 (gb_frame o) = None)
  /\ match hwaccel s with
     | Some size => size = 0 \/ hw_priv o <> None
     | None => True
     end.

(** One call of ff_alloc_picture, ff_mpeg_unref_picture or
    ff_mpeg_ref_picture on the slots of the pool. *)
Inductive pool_step (K : Constants) : MpegEncContext -> MpegEncContext -> Prop :=
  | step_alloc s i shared o r s' pic' :
      (i < length (picture s))%nat -> env_ok s o ->
      ff_alloc_picture K s (slot s i) shared o = Some (r, s', pic') ->
      pool_step K s (store s' i pic')
  | step_unref s i :
      (i < length (picture s))%nat ->
      pool_step K s (store s i (ff_mpeg_unref_picture K s (slot s i)))
  | step_ref s i j o r pic' :
      (i < length (picture s))%nat -> (j < length (picture s))%nat ->
      ff_mpeg_ref_picture K s (slot s i) (slot s j) o = Some (r, pic') ->
      pool_step K s (store s i pic').

(** "Every pixel is set to a neutral-gray constant (uniform mid-scale
    value in the luma plane and in both chroma planes)". *)
Definition spec_gray (fr : AVFrame) : Prop :=
  forall i mem, (i < 3)%nat -> planes fr !! i = Some mem ->
    Forall (fun x => x = 128) mem.

(** After memset(f->data[i], c, n) the bytes [data[i], data[i] + n) of
    plane [i], as far as the plane goes, hold [c]. *)
Definition filled (fr : AVFrame) (i : nat) (c n : Z) : Prop :=
  forall off mem k,
    nth_opt (data fr) i = Some off -> planes fr !! i = Some mem ->
    0 <= off -> 0 <= k < n -> (Z.to_nat (off + k) < length mem)%nat ->
    mem !! Z.to_nat (off + k) = Some c.

(** The fields of the context the picture functions leave alone. *)
Definition same_frame_state (s s' : MpegEncContext) : Prop :=
  picture s' = picture s /\ avctx_height s' = avctx_height s
  /\ last_picture_ptr s' = last_picture_ptr s
  /\ next_picture_ptr s' = next_picture_ptr s.

(** *** A sample configuration *)

(** A sample assignment of the constants (the proofs do not depend on
    the values). *)
Definition sample_constants : Constants := {|
  MAX_PICTURE_COUNT := 4;
  EDGE_WIDTH := 16;
  DELAYED_PIC_REF := 4;
  AVERROR_INVALIDDATA := -1094995529;
  AVERROR_ENOMEM := -12;
  FMT_H263 := 2;
  AV_CODEC_ID_WMV3IMAGE := 101;
  AV_CODEC_ID_VC1IMAGE := 102;
  AV_CODEC_ID_MSS2 := 103;
  AV_PICTURE_TYPE_I := 1;
  AV_PICTURE_TYPE_B := 3;
  PICT_FRAME := 3
|}.

Definition no_scratch : Scratch := {|
  edge_emu_buffer := None; me_scratchpad := None; me_temp := None;
  rd_scratchpad := None; b_scratchpad := None; obmc_scratchpad := None
|}.

(** A decoder context for 8x4 pictures with an empty pool. *)
Definition sample_ctx (ptype : Z) : MpegEncContext := {|
  picture := replicate 4 blank_picture;
  last_picture_ptr := None; next_picture_ptr := None;
  linesize := 0; uvlinesize := 0; scratch := no_scratch;
  codec_id := 13; is_encoder := false;
  avctx_width := 8; avctx_height := 4; avctx_pix_fmt := 0;
  hwaccel := None; chroma_x_shift := 1; chroma_y_shift := 1;
  encoding := 0; out_format := 2; mb_stride := 2; mb_height := 1;
  b8_stride := 3; pict_type := ptype; picture_structure := 3
|}.

(** An allocator that succeeds: buffer 7 with a luma plane of 4 rows of 8
    bytes and two chroma planes of 2 rows of 4 bytes, all holding the
    byte 0x55, and every table. *)
Definition sample_env : Env := {|
  gb_ret := 0;
  gb_frame := {| buf0 := Some 7%nat;
                 data := [Some 0; Some 0; Some 0] ++ replicate 5 None;
                 planes := [replicate 32 85; replicate 8 85; replicate 8 85];
                 f_linesize := [8; 4; 4; 0; 0; 0; 0; 0];
                 width := 8; height := 4; format := 0; f_pict_type := 0 |};
  gb_progress := [-1; -1];
  hw_priv := None;
  edge_alloc := Some 4096; scratch_alloc := Some 8192;
  tab_mbskip := Some 10%nat; tab_qscale := Some 11%nat;
  tab_mb_type := Some 12%nat;
  tab_mb_var := None; tab_mc_mb_var := None; tab_mb_mean := None;
  tab_motion_val := [Some 13%nat; Some 14%nat];
  tab_ref_index := [Some 15%nat; Some 16%nat];
  writable := [];
  ref_ret := 0; tab_ref := []; hw_ref := true
|}.

(** The sample pool after ff_alloc_picture and then ff_mpeg_unref_picture
    on slot 0. *)
Definition sample_alloc_unref : MpegEncContext :=
  match ff_alloc_picture sample_constants (sample_ctx 1)
          (slot (sample_ctx 1) 0) 0 sample_env with
  | Some (_, s1, pic1) =>
      let s1 := store s1 0 pic1 in
      store s1 0 (ff_mpeg_unref_picture sample_constants s1 (slot s1 0))
  | None => sample_ctx 1
  end.

(** The sample context after the dummy-last block of
    ff_mpv_frame_start for a P frame (picture type 2, 4:2:0 chroma). *)
Definition sample_dummy_last : MpegEncContext :=
  match frame_start_dummy_last sample_constants (sample_ctx 2) 1
          sample_env with
  | Some (_, s') => s'
  | None => sample_ctx 2
  end.

End Pictures.

(** ** The referenced rows and the progress barrier *)

Module Motion.

(** Constants of mpegvideo.h, avcodec.h and config.h. *)
Record Constants := {
  PICT_FRAME : Z;
  MV_TYPE_16X16 : Z;
  MV_TYPE_16X8 : Z;
  MV_TYPE_8X8 : Z;
  MV_DIR_FORWARD : Z;
  MV_DIR_BACKWARD : Z;
  FF_THREAD_FRAME : Z;
  HAVE_THREADS : Z
}.

(** The fields of MpegEncContext the motion handling reads. *)
Record MpegEncContext := {
  picture_structure : Z;
  mcsel : Z;
  mv_type : Z;
  mv : list (list (list Z));       (* int mv[2][4][2] *)
  quarter_sample : Z;
  mb_y : Z;
  mb_height : Z;
  mb_intra : Z;
  encoding : Z;
  mv_dir : Z;
  active_thread_type : Z           (* s->avctx->active_thread_type *)
}.

(** s->mv[dir][i][c] *)
Definition mv_at (s : MpegEncContext) (dir i c : Z) : Z :=
  rd (default [] (default [] (mv s !! Z.to_nat dir) !! Z.to_nat i)) c.

Section WithConstants.
Variable K : Constants.

(** The number of motion vectors of the handled cases of the switch. *)
Definition handled_mvs (s : MpegEncContext) : option Z :=
  if negb (picture_structure s =? PICT_FRAME K) || negb (mcsel s =? 0)
  then None
  else if mv_type s =? MV_TYPE_16X16 K then Some 1
  else if mv_type s =? MV_TYPE_16X8 K then Some 2
  else if mv_type s =? MV_TYPE_8X8 K then Some 4
  else None.

(** my = s->mv[dir][i][1] << qpel_shift *)
Definition my_of (s : MpegEncContext) (dir i : Z) : Z :=
  let qpel_shift := if quarter_sample s =? 0 then 1 else 0 in
  int32 (Z.shiftl (mv_at s dir i 1) qpel_shift).

Definition ff_mpv_lowest_referenced_row (s : MpegEncContext) (dir : Z) : Z :=
  match handled_mvs s with
  | None => (* unhandled: *) int32 (mb_height s - 1)
  | Some mvs =>
      let '(my_max, my_min) :=
        fold_left (fun st i =>
          let '(my_max, my_min) := st in
          let my := my_of s dir i in
          (FFMAX my_max my, FFMIN my_min my))
          (seqZ 0 mvs) (INT_MIN, INT_MAX) in
      let off := Z.shiftr (int32 (FFMAX (int32 (- my_min)) my_max + 63)) 6 in
      FFMIN (FFMAX (int32 (mb_y s + off)) 0) (int32 (mb_height s - 1))
  end.

(** What the motion handling of mpv_decode_mb_internal does with the
    reference pictures, in order: it awaits the progress of a reference
    (ff_thread_await_progress on last_picture_ptr or next_picture_ptr, up
    to a row), and it motion-compensates from one (ff_mpv_motion with
    direction 0 from last_picture, with direction 1 from next_picture). *)
Inductive event :=
  | Await (dir : Z) (row : Z)
  | Compensate (dir : Z).

Definition mpv_decode_mb_motion (s : MpegEncContext) : list event :=
  if negb (mb_intra s =? 0) then [] else
  if negb (encoding s =? 0) then [] else
  (if negb (HAVE_THREADS K =? 0)
      && negb (Z.land (active_thread_type s) (FF_THREAD_FRAME K) =? 0)
   then
     (if negb (Z.land (mv_dir s) (MV_DIR_FORWARD K) =? 0)
      then [Await 0 (ff_mpv_lowest_referenced_row s 0)] else [])
     ++ (if negb (Z.land (mv_dir s) (MV_DIR_BACKWARD K) =? 0)
         then [Await 1 (ff_mpv_lowest_referenced_row s 1)] else [])
   else [])
  ++ (if negb (Z.land (mv_dir s) (MV_DIR_FORWARD K) =? 0)
      then [Compensate 0] else [])
  ++ (if negb (Z.land (mv_dir s) (MV_DIR_BACKWARD K) =? 0)
      then [Compensate 1] else []).

Definition frame_threading (s : MpegEncContext) : bool :=
  negb (HAVE_THREADS K =? 0)
  && negb (Z.land (active_thread_type s) (FF_THREAD_FRAME K) =? 0).

(** The vertical extent of motion vector [i], in quarter samples. *)
Definition mv_extent (s : MpegEncContext) (dir i : Z) : Z :=
  Z.abs (mv_at s dir i 1 * (if quarter_sample s =? 0 then 2 else 1)).

(** The macroblock row a vertical extent reaches from row [mb_y] (64
    quarter samples to a macroblock row), within the picture. *)
Definition reached_row (s : MpegEncContext) (extent : Z) : Z :=
  Z.min (Z.max (mb_y s + (extent + 63) / 64) 0) (mb_height s - 1).

(** The worst-case referenced row as the specification words it: from
    the maximal vertical extent for 16x16, 16x8 and 8x8 frame motion, the
    last row otherwise. *)
Definition spec_lowest_row (s : MpegEncContext) (dir : Z) : Z :=
  match handled_mvs s with
  | None => mb_height s - 1
  | Some mvs =>
      reached_row s (fold_right Z.max 0 (mv_extent s dir <$> seqZ 0 mvs))
  end.

End WithConstants.

(** Modelled from the spec: ff_thread_await_progress and the threads that
    decode the reference pictures belong to the frame-threading layer,
    which is not among the sources.  "A worker about to motion-compensate
    from a not-yet-fully-decoded reference frame must block until the
    referenced source row range has been produced, tracked via a
    monotonically increasing decoded-up-to-row progress counter per
    FrameBuffer": a configuration is the events the worker has still to
    do and the progress counters of the two references; an Await goes
    through once the counter of its reference has reached its row, a
    Compensate goes through, and the other threads raise the counters. *)
Definition progress_of (p : Z * Z) (dir : Z) : Z :=
  if dir =? 0 then p.1 else p.2.

Inductive step : list event * (Z * Z) -> list event * (Z * Z) -> Prop :=
  | step_await dir row es p :
      row <= progress_of p dir -> step (Await dir row :: es, p) (es, p)
  | step_compensate dir es p :
      step (Compensate dir :: es, p) (es, p)
  | step_progress es p p' :
      p.1 <= p'.1 -> p.2 <= p'.2 -> step (es, p) (es, p').

(** Every Compensate still to do has its Await before it, or the counter
    of its reference has reached [row dir]. *)
Definition awaited (row : Z -> Z) (c : list event * (Z * Z)) : Prop :=
  forall pre dir post,
    c.1 = pre ++ Compensate dir :: post ->
    Await dir (row dir) ∈ pre \/ row dir <= progress_of c.2 dir.

Definition sample_constants : Constants := {|
  PICT_FRAME := 3; MV_TYPE_16X16 := 0; MV_TYPE_16X8 := 2; MV_TYPE_8X8 := 1;
  MV_DIR_FORWARD := 1; MV_DIR_BACKWARD := 2; FF_THREAD_FRAME := 1;
  HAVE_THREADS := 1
|}.

(** Macroblock row 3 of 18, four 8x8 vectors per direction in half
    samples, both directions. *)
Definition sample_ctx : MpegEncContext := {|
  picture_structure := 3; mcsel := 0; mv_type := 1;
  mv := [ [[4; -70]; [0; 12]; [3; 33]; [-2; 0]];
          [[0; 5]; [0; -6]; [1; 7]; [1; -8]] ];
  quarter_sample := 0; mb_y := 3; mb_height := 18; mb_intra := 0;
  encoding := 0; mv_dir := 3; active_thread_type := 1
|}.

End Motion.

(** ** The duplicate contexts *)

Module Dup.

(** The fields of MpegEncContext that backup_duplicate_context copies,
    the ones ff_update_duplicate_context reads besides, and [rest] for
    every other field ([R] is the type of their values together).  The
    six scratch pointers are those of [Pictures.Scratch]; [pb] is the
    PutBitContext; [avctx_codec_tag] is avctx->codec_tag. *)
Record MpegEncContext {R : Type} := {
  scratch : Pictures.Scratch;
  me_map : option Z;
  me_score_map : option Z;
  blocks : option Z;
  block : option Z;
  start_mb_y : Z;
  end_mb_y : Z;
  me_map_generation : Z;
  pb : list Z;
  dct_error_sum : option Z;
  dct_count0 : Z;
  dct_count1 : Z;
  ac_val_base : option Z;
  ac_val0 : option Z;
  ac_val1 : option Z;
  ac_val2 : option Z;
  pblocks : list (option Z);      (* int16_t ( *pblocks[12])[64] *)
  avctx_codec_tag : Z;
  linesize : Z;
  rest : R
}.
Arguments MpegEncContext : clear implicits.

Section WithRest.
Context {R : Type}.
Variable K : Pictures.Constants.

(** COPY(a): bak->a = src->a, for the fields of the list. *)
Definition backup_duplicate_context (bak src : MpegEncContext R)
    : MpegEncContext R := {|
  scratch := scratch src;
  me_map := me_map src;
  me_score_map := me_score_map src;
  blocks := blocks src;
  block := block src;
  start_mb_y := start_mb_y src;
  end_mb_y := end_mb_y src;
  me_map_generation := me_map_generation src;
  pb := pb src;
  dct_error_sum := dct_error_sum src;
  dct_count0 := dct_count0 src;
  dct_count1 := dct_count1 src;
  ac_val_base := ac_val_base src;
  ac_val0 := ac_val0 src;
  ac_val1 := ac_val1 src;
  ac_val2 := ac_val2 src;
  pblocks := pblocks bak;
  avctx_codec_tag := avctx_codec_tag bak;
  linesize := linesize bak;
  rest := rest bak
|}.

Definition set_pblocks (s : MpegEncContext R) (p : list (option Z))
    : MpegEncContext R := {|
  scratch := scratch s; me_map := me_map s; me_score_map := me_score_map s;
  blocks := blocks s; block := block s; start_mb_y := start_mb_y s;
  end_mb_y := end_mb_y s; me_map_generation := me_map_generation s;
  pb := pb s; dct_error_sum := dct_error_sum s; dct_count0 := dct_count0 s;
  dct_count1 := dct_count1 s; ac_val_base := ac_val_base s;
  ac_val0 := ac_val0 s; ac_val1 := ac_val1 s; ac_val2 := ac_val2 s;
  pblocks := p; avctx_codec_tag := avctx_codec_tag s;
  linesize := linesize s; rest := rest s
|}.

Definition set_scratch (s : MpegEncContext R) (sc : Pictures.Scratch)
    : MpegEncContext R := {|
  scratch := sc; me_map := me_map s; me_score_map := me_score_map s;
  blocks := blocks s; block := block s; start_mb_y := start_mb_y s;
  end_mb_y := end_mb_y s; me_map_generation := me_map_generation s;
  pb := pb s; dct_error_sum := dct_error_sum s; dct_count0 := dct_count0 s;
  dct_count1 := dct_count1 s; ac_val_base := ac_val_base s;
  ac_val0 := ac_val0 s; ac_val1 := ac_val1 s; ac_val2 := ac_val2 s;
  pblocks := pblocks s; avctx_codec_tag := avctx_codec_tag s;
  linesize := linesize s; rest := rest s
|}.

Definition exchange_uv (s : MpegEncContext R) : MpegEncContext R :=
  let tmp := Pictures.nth_opt (pblocks s) 4 in
  let p := <[4%nat := Pictures.nth_opt (pblocks s) 5]> (pblocks s) in
  set_pblocks s (<[5%nat := tmp]> p).

(** AV_RL32("VCR2"): the bytes 'V' 'C' 'R' '2' read as a little-endian
    32-bit number. *)
Definition AV_RL32_VCR2 : Z := 0x32524356.

(** &s->block[i]: the blocks are 64 int16_t, 128 bytes, apart. *)
Definition block_address (block : option Z) (i : nat) : option Z :=
  (fun a => a + 128 * Z.of_nat i) <$> block.

(** ff_update_duplicate_context.  [bak] is the local MpegEncContext
    before it is written. *)
Definition ff_update_duplicate_context (bak dst src : MpegEncContext R)
    (o : Pictures.Env) : Z * MpegEncContext R :=
  let bak := backup_duplicate_context bak dst in
  (* memcpy(dst, src, sizeof(MpegEncContext)) *)
  let dst := src in
  let dst := backup_duplicate_context dst bak in
  let dst := set_pblocks dst (block_address (block dst) <$> seq 0 12) in
  let dst :=
    if avctx_codec_tag dst =? AV_RL32_VCR2 then exchange_uv dst else dst in
  if Pictures.is_null (Pictures.edge_emu_buffer (scratch dst)) then
    let '(ret, sc) :=
      Pictures.frame_size_alloc K (scratch dst) (linesize dst) o in
    if ret <? 0 then (ret, set_scratch dst sc) else (0, set_scratch dst sc)
  else (0, dst).

(** The fields backup_duplicate_context copies that are no scratch
    pointers keep the value they had in [dst]. *)
Definition private_kept (dst dst' : MpegEncContext R) : Prop :=
  me_map dst' = me_map dst /\ me_score_map dst' = me_score_map dst /\
  blocks dst' = blocks dst /\ block dst' = block dst /\
  start_mb_y dst' = start_mb_y dst /\ end_mb_y dst' = end_mb_y dst /\
  me_map_generation dst' = me_map_generation dst /\ pb dst' = pb dst /\
  dct_error_sum dst' = dct_error_sum dst /\
  dct_count0 dst' = dct_count0 dst /\ dct_count1 dst' = dct_count1 dst /\
  ac_val_base dst' = ac_val_base dst /\ ac_val0 dst' = ac_val0 dst /\
  ac_val1 dst' = ac_val1 dst /\ ac_val2 dst' = ac_val2 dst.

(** The pblocks after the update: pointers into the blocks of [dst], with
    the two chroma blocks exchanged for the codec tag VCR2. *)
Definition pblocks_of (dst src : MpegEncContext R) : list (option Z) :=
  let p := block_address (block dst) <$> seq 0 12 in
  if avctx_codec_tag src =? AV_RL32_VCR2
  then <[5%nat := Pictures.nth_opt p 4]> (<[4%nat := Pictures.nth_opt p 5]> p)
  else p.

(** The update as the specification words it: the scratch pointers, the
    block array, the ac_val buffers and the row range of [dst] are
    unchanged, every other scalar field is the one of [src]. *)
Definition spec_update (dst src dst' : MpegEncContext R) : Prop :=
  (scratch dst' = scratch dst /\
   blocks dst' = blocks dst /\ block dst' = block dst /\
   ac_val_base dst' = ac_val_base dst /\ ac_val0 dst' = ac_val0 dst /\
   ac_val1 dst' = ac_val1 dst /\ ac_val2 dst' = ac_val2 dst /\
   start_mb_y dst' = start_mb_y dst /\ end_mb_y dst' = end_mb_y dst) /\
  (me_map_generation dst' = me_map_generation src /\
   pb dst' = pb src /\
   dct_count0 dst' = dct_count0 src /\ dct_count1 dst' = dct_count1 src /\
   avctx_codec_tag dst' = avctx_codec_tag src /\
   linesize dst' = linesize src /\ rest dst' = rest src).

End WithRest.

(** Two contexts of slice threads: [dst] with its own buffers and rows
    9..18, [src] the master with rows 0..9. *)
Definition sample_dst (edge : option Z) : MpegEncContext Z := {|
  scratch := {| Pictures.edge_emu_buffer := edge;
                Pictures.me_scratchpad := Some 2000;
                Pictures.me_temp := Some 2000;
                Pictures.rd_scratchpad := Some 2000;
                Pictures.b_scratchpad := Some 2000;
                Pictures.obmc_scratchpad := Some 2016 |};
  me_map := Some 3000; me_score_map := Some 4000;
  blocks := Some 5000; block := Some 5000;
  start_mb_y := 9; end_mb_y := 18; me_map_generation := 5;
  pb := [1; 2]; dct_error_sum := None; dct_count0 := 3; dct_count1 := 4;
  ac_val_base := Some 6000; ac_val0 := Some 6010; ac_val1 := Some 6500;
  ac_val2 := Some 6900; pblocks := replicate 12 None;
  avctx_codec_tag := 0; linesize := 64; rest := 111
|}.

Definition sample_src : MpegEncContext Z := {|
  scratch := {| Pictures.edge_emu_buffer := Some 100;
                Pictures.me_scratchpad := Some 200;
                Pictures.me_temp := Some 200;
                Pictures.rd_scratchpad := Some 200;
                Pictures.b_scratchpad := Some 200;
                Pictures.obmc_scratchpad := Some 216 |};
  me_map := Some 300; me_score_map := Some 400;
  blocks := Some 500; block := Some 500;
  start_mb_y := 0; end_mb_y := 9; me_map_generation := 7;
  pb := [8; 9]; dct_error_sum := None; dct_count0 := 30; dct_count1 := 40;
  ac_val_base := Some 600; ac_val0 := Some 610; ac_val1 := Some 650;
  ac_val2 := Some 690; pblocks := replicate 12 None;
  avctx_codec_tag := 0; linesize := 128; rest := 222
|}.

End Dup.

(** ** The dequantized values in exact arithmetic *)

Module DequantSpec.

(** The addend of the block-based (h263) dequantizers: (qscale - 1) | 1. *)
Definition h263_qadd (qscale : Z) : Z := Z.lor (qscale - 1) 1.

(** coeff * 2 * qscale + sign(coeff) * qadd *)
Definition h263_level (coeff qscale qadd : Z) : Z :=
  coeff * (2 * qscale) + Z.sgn coeff * qadd.

(** The sum of the 64 coefficients of a block. *)
Definition block_sum (block : list Z) : Z :=
  Dequant.level_sum block (seqZ 0 64).

(** A block with coefficients at the first positions of the alternate
    vertical scan: DC 3, then -5 at position 8 and 7 at position 16. *)
Definition sample_block : list Z :=
  wr (wr (wr Dequant.zero_block 0 3) 8 (-5)) 16 7.

End DequantSpec.

(** ** The picture geometry: rows, slices and the per-macroblock index
    tables *)

Module Geometry.

(** [int] arithmetic. *)
Definition iadd (a b : Z) : Z := int32 (a + b).
Definition isub (a b : Z) : Z := int32 (a - b).
Definition imul (a b : Z) : Z := int32 (a * b).

(** Constants of mpegvideo.h, avcodec.h and config.h. *)
Record Constants := {
  MAX_THREADS : Z;
  HAVE_THREADS : Z;
  FF_THREAD_SLICE : Z;
  AV_CODEC_ID_MPEG2VIDEO : Z
}.

(** The fields of MpegEncContext, and of its AVCodecContext, that the
    size-dependent initialisation reads. *)
Record MpegEncContext := {
  width : Z;
  height : Z;
  codec_id : Z;
  progressive_sequence : Z;
  encoding : Z;
  h263_pred : Z;
  h263_plus : Z;
  avctx_active_thread_type : Z;
  avctx_thread_count : Z;
  avctx_slices : Z;
  slice_context_count : Z
}.

Section WithConstants.
Variable K : Constants.

(** ff_mpv_common_init and ff_mpv_common_frame_size_change:
    if (s->codec_id == AV_CODEC_ID_MPEG2VIDEO && !s->progressive_sequence)
        s->mb_height = (s->height + 31) / 32 * 2;
    else
        s->mb_height = (s->height + 15) / 16; *)
Definition init_mb_height (s : MpegEncContext) : Z :=
  if (codec_id s =? AV_CODEC_ID_MPEG2VIDEO K) && (progressive_sequence s =? 0)
  then imul (Z.quot (iadd (height s) 31) 32) 2
  else Z.quot (iadd (height s) 15) 16.

(** ff_mpv_common_init: the number of slice contexts, from the thread
    count or the slices the encoder asks for, reduced to MAX_THREADS and
    to the number of macroblock rows. *)
Definition init_nb_slices (s : MpegEncContext) : Z :=
  let nb_slices :=
    if negb (HAVE_THREADS K =? 0)
       && negb (Z.land (avctx_active_thread_type s) (FF_THREAD_SLICE K) =? 0)
    then avctx_thread_count s else 1 in
  let nb_slices :=
    if negb (encoding s =? 0) && negb (avctx_slices s =? 0)
    then avctx_slices s else nb_slices in
  let mb_height := init_mb_height s in
  if (nb_slices >? MAX_THREADS K)
     || ((nb_slices >? mb_height) && negb (mb_height =? 0))
  then
    (* too many threads/slices *)
    if negb (mb_height =? 0) then FFMIN (MAX_THREADS K) mb_height
    else MAX_THREADS K
  else nb_slices.

(** The number of slices asked for, before the reduction. *)
Definition requested_slices (s : MpegEncContext) : Z :=
  let nb_slices :=
    if negb (HAVE_THREADS K =? 0)
       && negb (Z.land (avctx_active_thread_type s) (FF_THREAD_SLICE K) =? 0)
    then avctx_thread_count s else 1 in
  if negb (encoding s =? 0) && negb (avctx_slices s =? 0)
  then avctx_slices s else nb_slices.

(** The row ranges ff_mpv_common_init gives the slice contexts, under
    [if (s->width && s->height)]. *)
Definition common_init_rows (s : MpegEncContext) : option (list (Z * Z)) :=
  if negb (width s =? 0) && negb (height s =? 0)
  then Some (Slices.assign_rows (init_mb_height s) (init_nb_slices s))
  else None.

(** The row ranges ff_mpv_common_frame_size_change gives them: the slice
    count is s->slice_context_count as it stands. *)
Definition frame_size_change_rows (s : MpegEncContext)
    : option (list (Z * Z)) :=
  if negb (width s =? 0) && negb (height s =? 0)
  then Some (Slices.assign_rows (init_mb_height s) (slice_context_count s))
  else None.

End WithConstants.

(** What init_context_frame computes and allocates, of the fields
    followed here.  [dc_val_base] is the array behind the DC predictors
    (absent when the condition for it fails) and [dc_val] the offsets of
    the pointers dc_val[0..2] in it. *)
Record ContextFrame := {
  mb_width : Z;
  mb_stride : Z;
  b8_stride : Z;
  h_edge_pos : Z;
  v_edge_pos : Z;
  mb_num : Z;
  block_wrap : list Z;
  mb_index2xy : list Z;
  dc_val_base : option (list Z);
  dc_val : list Z;
  mbintra_table : list Z;
  mbskip_table : list Z
}.

(** y_size, c_size and yc_size of init_context_frame and
    init_duplicate_context. *)
Definition y_size (b8_stride mb_height : Z) : Z :=
  imul b8_stride (iadd (imul 2 mb_height) 1).
Definition c_size (mb_stride mb_height : Z) : Z :=
  imul mb_stride (iadd mb_height 1).
Definition yc_size (b8_stride mb_stride mb_height : Z) : Z :=
  iadd (y_size b8_stride mb_height) (imul 2 (c_size mb_stride mb_height)).

(** for (y = 0; y < s->mb_height; y++)
        for (x = 0; x < s->mb_width; x++)
            s->mb_index2xy[x + y * s->mb_width] = x + y * s->mb_stride;
    s->mb_index2xy[s->mb_height * s->mb_width] =
        (s->mb_height - 1) * s->mb_stride + s->mb_width; *)
Definition fill_mb_index2xy (mb_width mb_height mb_stride : Z)
    (t : list Z) : list Z :=
  let t :=
    fold_left (fun t y =>
      fold_left (fun t x =>
        wr t (iadd x (imul y mb_width)) (iadd x (imul y mb_stride)))
        (seqZ 0 mb_width) t)
      (seqZ 0 mb_height) t in
  wr t (imul mb_height mb_width)
    (iadd (imul (isub mb_height 1) mb_stride) mb_width).

(** init_context_frame, for the mb_height its callers have set.
    [allocs] says whether its allocations succeed; when one fails the
    function returns AVERROR(ENOMEM), which is [None] here.  (The motion
    vector tables of the encoder, the tables of the interlaced direct
    mode, the coded-block tables and the error-resilience context are
    left out.) *)
Definition init_context_frame (s : MpegEncContext) (mb_height : Z)
    (allocs : bool) : option ContextFrame :=
  let mb_width := Z.quot (iadd (width s) 15) 16 in
  let mb_stride := iadd mb_width 1 in
  let b8_stride := iadd (imul mb_width 2) 1 in
  let mb_array_size := imul mb_height mb_stride in
  let mb_num := imul mb_width mb_height in
  let y_size := y_size b8_stride mb_height in
  let c_size := c_size mb_stride mb_height in
  let yc_size := yc_size b8_stride mb_stride mb_height in
  if negb allocs then None else
  let mb_index2xy :=
    fill_mb_index2xy mb_width mb_height mb_stride
      (replicate (Z.to_nat (iadd mb_num 1)) 0) in
  let '(dc_val_base, dc_val) :=
    if negb (h263_pred s =? 0) || negb (h263_plus s =? 0)
       || (encoding s =? 0)
    then
      (* for (i = 0; i < yc_size; i++) s->dc_val_base[i] = 1024; *)
      (Some (fold_left (fun a i => wr a i 1024) (seqZ 0 yc_size)
               (replicate (Z.to_nat yc_size) 0)),
       [ b8_stride + 1;
         y_size + mb_stride + 1;
         y_size + mb_stride + 1 + c_size ])
    else (None, [0; 0; 0]) in
  Some {|
    mb_width := mb_width;
    mb_stride := mb_stride;
    b8_stride := b8_stride;
    h_edge_pos := imul mb_width 16;
    v_edge_pos := imul mb_height 16;
    mb_num := mb_num;
    block_wrap := [b8_stride; b8_stride; b8_stride; b8_stride;
                   mb_stride; mb_stride];
    mb_index2xy := mb_index2xy;
    dc_val_base := dc_val_base;
    dc_val := dc_val;
    mbintra_table :=
      Pictures.memset (replicate (Z.to_nat mb_array_size) 0) 0 1
        mb_array_size;
    mbskip_table := replicate (Z.to_nat (iadd mb_array_size 2)) 0
  |}.

(** init_duplicate_context: the offsets of ac_val[0..2] in ac_val_base,
    in entries of 16 int16_t. *)
Definition ac_val_offsets (b8_stride mb_stride mb_height : Z) : list Z :=
  let y_size := y_size b8_stride mb_height in
  let c_size := c_size mb_stride mb_height in
  [ b8_stride + 1;
    y_size + mb_stride + 1;
    y_size + mb_stride + 1 + c_size ].

(** ff_init_block_index: the six block indices. *)
Definition ff_init_block_index (b8_stride mb_stride mb_height mb_x mb_y : Z)
    : list Z :=
  [ iadd (isub (imul b8_stride (imul mb_y 2)) 2) (imul mb_x 2);
    iadd (isub (imul b8_stride (imul mb_y 2)) 1) (imul mb_x 2);
    iadd (isub (imul b8_stride (iadd (imul mb_y 2) 1)) 2) (imul mb_x 2);
    iadd (isub (imul b8_stride (iadd (imul mb_y 2) 1)) 1) (imul mb_x 2);
    isub (iadd (iadd (imul mb_stride (iadd mb_y 1))
                  (imul (imul b8_stride mb_height) 2)) mb_x) 1;
    isub (iadd (iadd (imul mb_stride (iadd (iadd mb_y mb_height) 2))
                  (imul (imul b8_stride mb_height) 2)) mb_x) 1 ].

(** The row boundary floor((H*i + N/2)/N) is [Slices.row_boundary]; a
    row range is empty when it starts where it ends. *)
Definition empty_range (r : Z * Z) : Prop := r.1 = r.2.

Definition sample_constants : Constants := {|
  MAX_THREADS := 16; HAVE_THREADS := 1; FF_THREAD_SLICE := 2;
  AV_CODEC_ID_MPEG2VIDEO := 2
|}.

(** A 720x576 decoder with slice threading, [threads] threads asked
    for. *)
Definition sample_ctx (codec progressive threads : Z) : MpegEncContext := {|
  width := 720; height := 576; codec_id := codec;
  progressive_sequence := progressive; encoding := 0;
  h263_pred := 0; h263_plus := 0;
  avctx_active_thread_type := 2; avctx_thread_count := threads;
  avctx_slices := 0; slice_context_count := threads
|}.

(** A 40x30 H.263 decoder: 3 macroblocks by 2. *)
Definition small_ctx : MpegEncContext := {|
  width := 40; height := 30; codec_id := 5;
  progressive_sequence := 1; encoding := 0;
  h263_pred := 1; h263_plus := 0;
  avctx_active_thread_type := 0; avctx_thread_count := 1;
  avctx_slices := 0; slice_context_count := 1
|}.

End Geometry.

(** ** The pool at the start of a frame, at a flush and between threads *)

Module Frames.
Import Pictures.

Section WithConstants.
Variable K : Constants.

(** for (i = 0; i < MAX_PICTURE_COUNT; i++)
        if (test(i, &s->picture[i]))
            ff_mpeg_unref_picture(s, &s->picture[i]); *)
Definition unref_where (test : nat -> Picture -> bool) (s : MpegEncContext)
    : MpegEncContext :=
  fold_left (fun s i =>
      if test i (slot s i)
      then store s i (ff_mpeg_unref_picture K s (slot s i)) else s)
    (seq 0 (MAX_PICTURE_COUNT K)) s.

(** release_unused_pictures: the pictures that are no reference. *)
Definition release_unused_pictures (s : MpegEncContext) : MpegEncContext :=
  unref_where (fun _ pic => reference pic =? 0) s.

(** &s->picture[i] != p *)
Definition is_not (p : option nat) (i : nat) : bool :=
  negb (bool_decide (p = Some i)).

(** ff_mpv_frame_start, "mark & release old frames". *)
Definition release_last (s : MpegEncContext) : MpegEncContext :=
  match last_picture_ptr s with
  | Some p =>
      if negb (pict_type s =? AV_PICTURE_TYPE_B K)
         && negb (bool_decide (last_picture_ptr s = next_picture_ptr s))
         && negb (is_null (buf0 (f (slot s p))))
      then store s p (ff_mpeg_unref_picture K s (slot s p))
      else s
  | None => s
  end.

(** ff_mpv_frame_start, "release forgotten pictures". *)
Definition release_forgotten (s : MpegEncContext) : MpegEncContext :=
  unref_where (fun i pic =>
      is_not (last_picture_ptr s) i && is_not (next_picture_ptr s) i
      && negb (reference pic =? 0) && (needs_realloc pic =? 0)) s.

(** The releases with which ff_mpv_frame_start begins, as far as the
    pool goes (the call on the context's own current_picture, between
    the last two, does not touch the pool). *)
Definition frame_start_release (s : MpegEncContext) : MpegEncContext :=
  release_unused_pictures (release_forgotten (release_last s)).

(** ff_mpeg_flush, as far as the pool and the two picture pointers of the
    record go: every Picture of the pool is released, the pointers are
    cleared. *)
Definition ff_mpeg_flush (s : MpegEncContext) : MpegEncContext :=
  let s := unref_where (fun _ _ => true) s in
  set_next_picture_ptr (set_last_picture_ptr s None) None.

(** ff_mpv_common_frame_size_change, as far as the pool goes:
    for (i = 0; i < MAX_PICTURE_COUNT; i++)
        s->picture[i].needs_realloc = 1;
    and the picture pointers are cleared. *)
Definition mark_needs_realloc (s : MpegEncContext) : MpegEncContext :=
  let s :=
    fold_left (fun s i => store s i (set_needs_realloc (slot s i) 1))
      (seq 0 (MAX_PICTURE_COUNT K)) s in
  set_next_picture_ptr (set_last_picture_ptr s None) None.

(** One round of the picture loop of ff_mpeg_update_thread_context:
    ff_mpeg_unref_picture(s, &s->picture[i]);
    if (s1->picture[i].f->buf[0] &&
        (ret = ff_mpeg_ref_picture(s, &s->picture[i], &s1->picture[i])) < 0)
        return ret;
    [inl ret] is the return, [inr s] the state with which the loop goes
    on; [None] a failed assertion of ff_mpeg_ref_picture. *)
Definition update_thread_picture (s1 : MpegEncContext) (os : nat -> Env)
    (st : option (Z + MpegEncContext)) (i : nat)
    : option (Z + MpegEncContext) :=
  match st with
  | Some (inr s) =>
      let s := store s i (ff_mpeg_unref_picture K s (slot s i)) in
      if negb (is_null (buf0 (f (slot s1 i)))) then
        match ff_mpeg_ref_picture K s (slot s i) (slot s1 i) (os i) with
        | Some (ret, pic) =>
            if ret <? 0 then Some (inl ret)
            else Some (inr (store s i pic))
        | None => None
        end
      else Some (inr s)
  | _ => st
  end.

(** The loop; [os i] is what the allocator answers in round [i]. *)
Definition update_thread_pictures (s s1 : MpegEncContext) (os : nat -> Env)
    : option (Z + MpegEncContext) :=
  fold_left (update_thread_picture s1 os) (seq 0 (MAX_PICTURE_COUNT K))
    (Some (inr s)).

End WithConstants.

(** The fields of the context a loop over the pool leaves alone. *)
Definition same_context (s s' : MpegEncContext) : Prop :=
  length (picture s') = length (picture s) /\
  last_picture_ptr s' = last_picture_ptr s /\
  next_picture_ptr s' = next_picture_ptr s /\
  codec_id s' = codec_id s /\ pict_type s' = pict_type s.

(** The tables of [dst] after update_picture_tables from [src]: the
    table of [src] where it has one, the table [dst] had otherwise. *)
Definition updated_table (src dst : Tables) (name : table) : option nat :=
  match src name with
  | Some b => Some b
  | None => dst name
  end.

(** The Picture mirrors [src]: the same frame, and the tables of [src]
    where it has them. *)
Definition mirrors (dst src : Picture) : Prop :=
  f dst = f src /\ progress dst = progress src /\
  (forall name b, name ∈ table_order -> tables src name = Some b ->
     tables dst name = Some b) /\
  reference dst = reference src /\ needs_realloc dst = needs_realloc src /\
  field_picture dst = field_picture src /\ shared dst = shared src.

(** A pool of four with a reference in slot 0 ([ref0]), a displayed
    picture in slot 1 and two free slots; [last] and [next] are the
    picture pointers. *)
Definition sample_frame (b : nat) : AVFrame := {|
  buf0 := Some b; data := [Some 0; Some 0; Some 0] ++ replicate 5 None;
  planes := [replicate 32 85; replicate 8 85; replicate 8 85];
  f_linesize := [8; 4; 4; 0; 0; 0; 0; 0];
  width := 8; height := 4; format := 0; f_pict_type := 1
|}.

Definition sample_picture (b : nat) (ref : Z) : Picture := {|
  f := sample_frame b; progress := [4; 4];
  tables := fun name =>
    match name with
    | mbskip_table_buf => Some (10 + b)%nat
    | qscale_table_buf => Some (20 + b)%nat
    | mb_type_buf => Some (30 + b)%nat
    | _ => None
    end;
  hwaccel_priv_buf := None; hwaccel_picture_private := None;
  field_picture := 0; mb_var_sum := 0; mc_mb_var_sum := 0;
  b_frame_score := 0; needs_realloc := 0; reference := ref; shared := 0
|}.

Definition sample_pool (ptype : Z) (last next : option nat)
    : MpegEncContext :=
  set_next_picture_ptr
    (set_last_picture_ptr
       (set_picture (sample_ctx ptype)
          [sample_picture 1 3; sample_picture 2 0;
           blank_picture; blank_picture])
       last) next.

(** A pool of four after a change of size: a delayed reference in slot
    0 and a reference in slot 1, both waiting for reallocation, a
    reference that is not in slot 2, and a free slot. *)
Definition realloc_pool : MpegEncContext :=
  set_picture (sample_ctx 1)
    [set_needs_realloc (sample_picture 1 4) 1;
     set_needs_realloc (sample_picture 2 3) 1;
     sample_picture 3 3; blank_picture].

End Frames.

(** ** Permuting a block *)

Module Permute.

(** ff_alternate_horizontal_scan *)
Definition ff_alternate_horizontal_scan : list Z :=
  [  0;  1;  2;  3;  8;  9; 16; 17;
    10; 11;  4;  5;  6;  7; 15; 14;
    13; 12; 19; 18; 24; 25; 32; 33;
    26; 27; 20; 21; 22; 23; 28; 29;
    30; 31; 34; 35; 40; 41; 48; 49;
    42; 43; 36; 37; 38; 39; 44; 45;
    46; 47; 50; 51; 56; 57; 58; 59;
    52; 53; 54; 55; 60; 61; 62; 63 ].

(** The first loop of ff_block_permute, on the pair of [block] and
    [temp]:
        const int j = scantable[i];
        temp[j] = block[j];
        block[j] = 0; *)
Definition save_step (scantable : list Z) (st : list Z * list Z) (i : Z)
    : list Z * list Z :=
  let j := rd scantable i in
  (wr st.1 j 0, wr st.2 j (rd st.1 j)).

(** The second loop:
        const int j = scantable[i];
        const int perm_j = permutation[j];
        block[perm_j] = temp[j]; *)
Definition put_step (permutation scantable temp : list Z) (block : list Z)
    (i : Z) : list Z :=
  let j := rd scantable i in
  let perm_j := rd permutation j in
  wr block perm_j (rd temp j).

(** ff_block_permute.  [temp] is what the local array int16_t temp[64]
    holds when the function is entered. *)
Definition ff_block_permute (temp block permutation scantable : list Z)
    (last : Z) : list Z :=
  if last <=? 0 then block else
  let st := fold_left (save_step scantable) (seqZ 0 (last + 1)) (block, temp) in
  fold_left (put_step permutation scantable st.2) (seqZ 0 (last + 1)) st.1.

(** The positions scantable[0..last]. *)
Definition scanned (scantable : list Z) (last : Z) : list Z :=
  rd scantable <$> seqZ 0 (last + 1).

(** A block with three coefficients, and the transposition of the 8x8
    positions as permutation. *)
Definition sample_block : list Z :=
  wr (wr (wr (replicate 64 0) 0 9) 1 (-4) ) 8 5.

Definition transpose : list Z :=
  (fun p => 8 * (p mod 8) + p / 8) <$> seqZ 0 64.

End Permute.

(** ** The run-level tables *)

Module RL.

Definition uint8 (x : Z) : Z := x mod 256.
Definition int8 (x : Z) : Z := wrap_signed 8 x.

(** A pointer to bytes: a block of the memory and an offset into it, or
    NULL. *)
Definition pointer : Type := option (nat * Z).

(** The memory is a [gmap nat (list Z)]: the blocks, each an array of
    bytes (0..255). *)

(** The byte p[k], and the same read as int8_t. *)
Definition load (m : gmap nat (list Z)) (p : pointer) (k : Z) : Z :=
  match p with
  | Some (b, off) => rd (default [] (m !! b)) (off + k)
  | None => 0
  end.

Definition load_int8 (m : gmap nat (list Z)) (p : pointer) (k : Z) : Z :=
  int8 (load m p k).

(** memcpy(p, src, len) with [src] a whole array of [len] elements of
    one byte each.  [None]: [p] is NULL or the bytes do not lie within
    the block. *)
Definition memcpy (m : gmap nat (list Z)) (p : pointer) (src : list Z)
    : option (gmap nat (list Z)) :=
  match p with
  | Some (b, off) =>
      match m !! b with
      | Some blk =>
          if (0 <=? off)
             && (off + Z.of_nat (length src) <=? Z.of_nat (length blk))
          then Some (<[b := list_inserts (Z.to_nat off) (uint8 <$> src) blk]> m)
          else None
      | None => None
      end
  | None => None
  end.

(** av_malloc(size), with the answer of the allocator: NULL, or a new
    block and the bytes it happens to hold (the first [size] of them,
    filled up with 0). *)
Definition av_malloc (m : gmap nat (list Z)) (a : option (nat * list Z))
    (size : Z) : pointer * gmap nat (list Z) :=
  match a with
  | Some (b, junk) =>
      (Some (b, 0), <[b := resize (Z.to_nat size) 0 junk]> m)
  | None => (None, m)
  end.

(** The fields of RLTable ff_init_rl reads and writes. *)
Record RLTable := {
  n : Z;
  last : Z;
  table_run : list Z;          (* const int8_t * *)
  table_level : list Z;        (* const int8_t * *)
  index_run : list pointer;    (* uint8_t *index_run[2] *)
  max_level : list pointer;    (* int8_t *max_level[2] *)
  max_run : list pointer       (* int8_t *max_run[2] *)
}.

Definition set_index_run (rl : RLTable) (i : Z) (p : pointer) : RLTable := {|
  n := n rl; last := last rl; table_run := table_run rl;
  table_level := table_level rl;
  index_run := <[Z.to_nat i := p]> (index_run rl);
  max_level := max_level rl; max_run := max_run rl
|}.

Definition set_max_level (rl : RLTable) (i : Z) (p : pointer) : RLTable := {|
  n := n rl; last := last rl; table_run := table_run rl;
  table_level := table_level rl; index_run := index_run rl;
  max_level := <[Z.to_nat i := p]> (max_level rl); max_run := max_run rl
|}.

Definition set_max_run (rl : RLTable) (i : Z) (p : pointer) : RLTable := {|
  n := n rl; last := last rl; table_run := table_run rl;
  table_level := table_level rl; index_run := index_run rl;
  max_level := max_level rl; max_run := <[Z.to_nat i := p]> (max_run rl)
|}.

(** The local arrays of ff_init_rl:
    int8_t max_level[MAX_RUN + 1], max_run[MAX_LEVEL + 1];
    uint8_t index_run[MAX_RUN + 1]; *)
Record Locals := {
  l_max_level : list Z;
  l_max_run : list Z;
  l_index_run : list Z
}.

Section WithConstants.
Variables MAX_RUN MAX_LEVEL : Z.

(** The body of the loop over the entries:
        run   = rl->table_run[i];
        level = rl->table_level[i];
        if (index_run[run] == rl->n)
            index_run[run] = i;
        if (level > max_level[run])
            max_level[run] = level;
        if (run > max_run[level])
            max_run[level] = run; *)
Definition rl_step (rl : RLTable) (st : Locals) (i : Z) : Locals :=
  let run := rd (table_run rl) i in
  let level := rd (table_level rl) i in
  {| l_index_run :=
       if rd (l_index_run st) run =? n rl
       then wr (l_index_run st) run (uint8 i) else l_index_run st;
     l_max_level :=
       if level >? rd (l_max_level st) run
       then wr (l_max_level st) run (int8 level) else l_max_level st;
     l_max_run :=
       if run >? rd (l_max_run st) level
       then wr (l_max_run st) level (int8 run) else l_max_run st |}.

(** The entries of the round [lastv]: start and end. *)
Definition rl_start (rl : RLTable) (lastv : Z) : Z :=
  if lastv =? 0 then 0 else last rl.

Definition rl_end (rl : RLTable) (lastv : Z) : Z :=
  if lastv =? 0 then last rl else n rl.

(** The three memsets and the loop for (i = start; i < end; i++). *)
Definition rl_locals (rl : RLTable) (lastv : Z) : Locals :=
  fold_left (rl_step rl)
    (seqZ (rl_start rl lastv) (rl_end rl lastv - rl_start rl lastv))
    {| l_max_level := replicate (Z.to_nat (MAX_RUN + 1)) 0;
       l_max_run := replicate (Z.to_nat (MAX_LEVEL + 1)) 0;
       l_index_run := replicate (Z.to_nat (MAX_RUN + 1)) (uint8 (n rl)) |}.

(** uint8_t static_store[2][2 * MAX_RUN + MAX_LEVEL + 3]: the length of a
    row. *)
Definition row_size : Z := 2 * MAX_RUN + MAX_LEVEL + 3.

(** static_store ? static_store[lastv] + off : av_malloc(size) *)
Definition place (static_store : option nat) (lastv off size : Z)
    (m : gmap nat (list Z)) (a : option (nat * list Z))
    : pointer * gmap nat (list Z) :=
  match static_store with
  | Some b => (Some (b, lastv * row_size + off), m)
  | None => av_malloc m a size
  end.

(** One round of the loop for (last = 0; last < 2; last++).  [alloc]
    holds the answers of the allocator, three for each round. *)
Definition init_rl_round (static_store : option nat)
    (alloc : list (option (nat * list Z)))
    (st : option (RLTable * gmap nat (list Z)))
    (lastv : Z) : option (RLTable * gmap nat (list Z)) :=
  '(rl, m) ← st;
  let loc := rl_locals rl lastv in
  let a k := default None (alloc !! Z.to_nat (3 * lastv + k)) in
  let '(p, m) := place static_store lastv 0 (MAX_RUN + 1) m (a 0) in
  let rl := set_max_level rl lastv p in
  m ← memcpy m p (l_max_level loc);
  let '(p, m) :=
    place static_store lastv (MAX_RUN + 1) (MAX_LEVEL + 1) m (a 1) in
  let rl := set_max_run rl lastv p in
  m ← memcpy m p (l_max_run loc);
  let '(p, m) :=
    place static_store lastv (MAX_RUN + MAX_LEVEL + 2) (MAX_RUN + 1) m (a 2) in
  let rl := set_index_run rl lastv p in
  m ← memcpy m p (l_index_run loc);
  Some (rl, m).

(** ff_init_rl.  [static_store] is the block of the static store, or
    NULL.  [None]: a memcpy to NULL or beyond its block. *)
Definition ff_init_rl (rl : RLTable) (static_store : option nat)
    (alloc : list (option (nat * list Z))) (m : gmap nat (list Z))
    : option (RLTable * gmap nat (list Z)) :=
  if bool_decide (static_store <> None)
     && bool_decide (default None (max_level rl !! 0%nat) <> None)
  then Some (rl, m)
  else fold_left (init_rl_round static_store alloc) (seqZ 0 2) (Some (rl, m)).

End WithConstants.

(** A loop that keeps the largest value per key:
    if (val > t[key]) t[key] = val. *)
Definition max_step (key val : Z -> Z) (t : list Z) (i : Z) : list Z :=
  if val i >? rd t (key i) then wr t (key i) (int8 (val i)) else t.

(** A loop that keeps the first index per key:
    if (t[key] == n) t[key] = i. *)
Definition first_step (key : Z -> Z) (n : Z) (t : list Z) (i : Z) : list Z :=
  if rd t (key i) =? n then wr t (key i) (uint8 i) else t.

(** The entries [i] of the round [lastv]. *)
Definition in_round (rl : RLTable) (lastv i : Z) : Prop :=
  rl_start rl lastv <= i < rl_end rl lastv.

(** rl->max_level[lastv][k], rl->max_run[lastv][k] and
    rl->index_run[lastv][k], read from the memory. *)
Definition get_max_level (m : gmap nat (list Z)) (rl : RLTable) (lastv k : Z)
    : Z :=
  load_int8 m (default None (max_level rl !! Z.to_nat lastv)) k.

Definition get_max_run (m : gmap nat (list Z)) (rl : RLTable) (lastv k : Z)
    : Z :=
  load_int8 m (default None (max_run rl !! Z.to_nat lastv)) k.

Definition get_index_run (m : gmap nat (list Z)) (rl : RLTable) (lastv k : Z)
    : Z :=
  load m (default None (index_run rl !! Z.to_nat lastv)) k.

(** [ML], [MR] and [IR] are the tables of the entries of round [lastv]:
    for a run [r], [ML r] is the largest level among the entries with
    that run and [IR r] the first of these entries (0 and [n] when
    there is none); for a level [l], [MR l] is the largest run among the
    entries with that level (0 when there is none). *)
Definition round_tables (MAX_RUN MAX_LEVEL : Z) (rl : RLTable) (lastv : Z)
    (ML MR IR : Z -> Z) : Prop :=
  (forall r, 0 <= r <= MAX_RUN ->
     (forall i, in_round rl lastv i -> rd (table_run rl) i = r ->
        rd (table_level rl) i <= ML r /\ IR r <= i) /\
     (((forall i, in_round rl lastv i -> rd (table_run rl) i <> r)
       /\ ML r = 0 /\ IR r = n rl)
      \/ (in_round rl lastv (IR r) /\ rd (table_run rl) (IR r) = r /\
          exists i, in_round rl lastv i /\ rd (table_run rl) i = r
                    /\ rd (table_level rl) i = ML r))) /\
  (forall l, 0 <= l <= MAX_LEVEL ->
     (forall i, in_round rl lastv i -> rd (table_level rl) i = l ->
        rd (table_run rl) i <= MR l) /\
     (((forall i, in_round rl lastv i -> rd (table_level rl) i <> l)
       /\ MR l = 0)
      \/ exists i, in_round rl lastv i /\ rd (table_level rl) i = l
                   /\ rd (table_run rl) i = MR l)).

(** A table of five runs and levels, three of them with last = 0. *)
Definition sample_rl : RLTable := {|
  n := 5; last := 3;
  table_run := [0; 0; 1; 0; 2];
  table_level := [1; 2; 1; 1; 1];
  index_run := [None; None]; max_level := [None; None];
  max_run := [None; None]
|}.

(** A memory whose block 7 is a static store for MAX_RUN = 3 and
    MAX_LEVEL = 2: two rows of 11 bytes. *)
Definition sample_mem : gmap nat (list Z) := <[7%nat := replicate 22 0]> ∅.

End RL.

(** ** libavutil/buffer.c: the reference-counted buffers

    The buffers behind the tables of a Picture.  The structures live in
    a heap: an AVBuffer, an AVBufferRef and a block of data bytes each
    have an address; a pointer to data is a block and an offset.  The
    atomic operations on the reference count are taken one thread at a
    time. *)

Module Buffer.

Definition pointer : Type := option (nat * Z).

(** void ( *free)(void *opaque, uint8_t *data): av_buffer_default_free, or
    another function, known by a number. *)
Inductive free_fun :=
  | av_buffer_default_free
  | other_free (f : nat).

Record AVBuffer := {
  data : pointer;        (* uint8_t *data *)
  bsize : Z;             (* int size *)
  refcount : Z;          (* volatile int refcount *)
  free : free_fun;
  opaque : option nat;   (* void *opaque *)
  flags : Z
}.

Record AVBufferRef := {
  buffer : nat;          (* AVBuffer *buffer *)
  rdata : pointer;       (* uint8_t *data *)
  rsize : Z              (* int size *)
}.

(** The heap: the AVBuffer and AVBufferRef structures, the blocks of
    data bytes, and the calls made so far to free functions other than
    av_buffer_default_free, with their arguments. *)
Record Heap := {
  buffers : gmap nat AVBuffer;
  refs : gmap nat AVBufferRef;
  mem : gmap nat (list Z);
  freed : list (nat * option nat * pointer)
}.

Definition set_buffers (h : Heap) (b : gmap nat AVBuffer) : Heap :=
  {| buffers := b; refs := refs h; mem := mem h; freed := freed h |}.

Definition set_refs (h : Heap) (r : gmap nat AVBufferRef) : Heap :=
  {| buffers := buffers h; refs := r; mem := mem h; freed := freed h |}.

Definition set_mem (h : Heap) (m : gmap nat (list Z)) : Heap :=
  {| buffers := buffers h; refs := refs h; mem := m; freed := freed h |}.

Definition set_freed (h : Heap) (l : list (nat * option nat * pointer))
    : Heap :=
  {| buffers := buffers h; refs := refs h; mem := mem h; freed := l |}.

Definition set_refcount (b : AVBuffer) (c : Z) : AVBuffer :=
  {| data := data b; bsize := bsize b; refcount := c; free := free b;
     opaque := opaque b; flags := flags b |}.

Definition set_flags (b : AVBuffer) (fl : Z) : AVBuffer :=
  {| data := data b; bsize := bsize b; refcount := refcount b;
     free := free b; opaque := opaque b; flags := fl |}.

Definition set_data (b : AVBuffer) (d : pointer) (size : Z) : AVBuffer :=
  {| data := d; bsize := size; refcount := refcount b; free := free b;
     opaque := opaque b; flags := flags b |}.

Definition empty_heap : Heap :=
  {| buffers := ∅; refs := ∅; mem := ∅; freed := [] |}.

(** The constants of buffer.h, buffer_internal.h and error.h. *)
Record Constants := {
  AV_BUFFER_FLAG_READONLY : Z;
  BUFFER_FLAG_READONLY : Z;
  BUFFER_FLAG_REALLOCATABLE : Z;
  AVERROR_ENOMEM : Z
}.

(** av_malloc(size) for data bytes.  The allocator answers NULL ([None])
    or gives a new block, whose bytes are indeterminate ([Some junk]:
    the first [size] bytes of [junk], filled up with 0). *)
Definition av_malloc (h : Heap) (size : Z) (a : option (list Z))
    : pointer * Heap :=
  match a with
  | Some junk =>
      let d := fresh (dom (mem h)) in
      (Some (d, 0), set_mem h (<[d := resize (Z.to_nat size) 0 junk]> (mem h)))
  | None => (None, h)
  end.

(** av_realloc(ptr, size), for NULL or the start of a block of the heap
    ([None]: neither).  The allocator answers NULL ([None]: the block
    stays as it is) or gives a block of [size] bytes that starts with the
    bytes of the old one and goes on with indeterminate ones, where the
    old block was ([Some (false, junk)]) or at a new address
    ([Some (true, junk)]); the old block is gone then. *)
Definition av_realloc (h : Heap) (ptr : pointer) (size : Z)
    (a : option (bool * list Z)) : option (pointer * Heap) :=
  match ptr with
  | None => Some (av_malloc h size (snd <$> a))
  | Some (d, off) =>
      old ← mem h !! d;
      if negb (off =? 0) then None else
      match a with
      | None => Some (None, h)
      | Some (moved, junk) =>
          let d' := if moved : bool then fresh (dom (mem h)) else d in
          Some (Some (d', 0),
                set_mem h (<[d' := resize (Z.to_nat size) 0 (old ++ junk)]>
                             (delete d (mem h))))
      end
  end.

(** av_free(p): NULL, or the start of a block of the heap.  [None]:
    neither. *)
Definition av_free (h : Heap) (p : pointer) : option Heap :=
  match p with
  | None => Some h
  | Some (d, off) =>
      if (off =? 0) && bool_decide (is_Some (mem h !! d))
      then Some (set_mem h (delete d (mem h)))
      else None
  end.

(** b->free(b->opaque, b->data) *)
Definition call_free (h : Heap) (f : free_fun) (opaque : option nat)
    (data : pointer) : option Heap :=
  match f with
  | av_buffer_default_free => av_free h data
  | other_free g => Some (set_freed h (freed h ++ [(g, opaque, data)]))
  end.

(** The [n] bytes at [p].  [None]: they do not lie within a block. *)
Definition read_bytes (h : Heap) (p : pointer) (n : Z) : option (list Z) :=
  match p with
  | Some (d, off) =>
      blk ← mem h !! d;
      if (0 <=? n) && (0 <=? off) && (off + n <=? Z.of_nat (length blk))
      then Some (take (Z.to_nat n) (drop (Z.to_nat off) blk))
      else None
  | None => None
  end.

(** Writing the bytes [src] at [p]. *)
Definition write_bytes (h : Heap) (p : pointer) (src : list Z)
    : option Heap :=
  match p with
  | Some (d, off) =>
      blk ← mem h !! d;
      if (0 <=? off)
         && (off + Z.of_nat (length src) <=? Z.of_nat (length blk))
      then Some (set_mem h (<[d := list_inserts (Z.to_nat off) src blk]>
                              (mem h)))
      else None
  | None => None
  end.

(** memcpy(dst, src, n) *)
Definition memcpy (h : Heap) (dst src : pointer) (n : Z) : option Heap :=
  bytes ← read_bytes h src n;
  write_bytes h dst bytes.

(** memset(p, 0, n) *)
Definition memset0 (h : Heap) (p : pointer) (n : Z) : option Heap :=
  if 0 <=? n then write_bytes h p (replicate (Z.to_nat n) 0) else None.

Section WithConstants.
Variable K : Constants.

(** av_buffer_create.  [ok_buf] and [ok_ref]: whether the two av_mallocz
    succeed.  The result is the new AVBufferRef, or NULL. *)
Definition av_buffer_create (h : Heap) (data : pointer) (size : Z)
    (free : option free_fun) (opaque : option nat) (flags : Z)
    (ok_buf ok_ref : bool) : option nat * Heap :=
  if negb ok_buf then (None, h) else
  let b := fresh (dom (buffers h)) in
  let buf :=
    {| data := data; bsize := size; refcount := 1;
       free := default av_buffer_default_free free;
       opaque := opaque;
       flags := if negb (Z.land flags (AV_BUFFER_FLAG_READONLY K) =? 0)
                then Z.lor 0 (BUFFER_FLAG_READONLY K) else 0 |} in
  if negb ok_ref then (None, h) else
  let r := fresh (dom (refs h)) in
  (Some r,
   set_refs (set_buffers h (<[b := buf]> (buffers h)))
     (<[r := {| buffer := b; rdata := data; rsize := size |}]> (refs h))).

(** av_buffer_alloc.  [a]: the answer of av_malloc for the data. *)
Definition av_buffer_alloc (h : Heap) (size : Z) (a : option (list Z))
    (ok_buf ok_ref : bool) : option (option nat * Heap) :=
  let '(data, h1) := av_malloc h size a in
  if bool_decide (data = None) then Some (None, h1) else
  let '(ret, h2) :=
    av_buffer_create h1 data size (Some av_buffer_default_free) None 0
      ok_buf ok_ref in
  match ret with
  | None => h3 ← av_free h2 data; Some (None, h3)
  | Some r => Some (Some r, h2)
  end.

(** av_buffer_allocz *)
Definition av_buffer_allocz (h : Heap) (size : Z) (a : option (list Z))
    (ok_buf ok_ref : bool) : option (option nat * Heap) :=
  '(ret, h) ← av_buffer_alloc h size a ok_buf ok_ref;
  match ret with
  | None => Some (None, h)
  | Some r =>
      ref ← refs h !! r;
      h ← memset0 h (rdata ref) size;
      Some (Some r, h)
  end.

(** av_buffer_ref(buf).  [ok]: whether av_mallocz succeeds.  [None]:
    [buf] or its AVBuffer is not in the heap. *)
Definition av_buffer_ref (h : Heap) (buf : nat) (ok : bool)
    : option (option nat * Heap) :=
  if negb ok then Some (None, h) else
  ref ← refs h !! buf;
  b ← buffers h !! buffer ref;
  let ret := fresh (dom (refs h)) in
  Some (Some ret,
        set_buffers (set_refs h (<[ret := ref]> (refs h)))
          (<[buffer ref := set_refcount b (int32 (refcount b + 1))]>
             (buffers h))).

(** av_buffer_unref(&p), with [p] the AVBufferRef or NULL; the result is
    [p] afterwards. *)
Definition av_buffer_unref (h : Heap) (p : option nat)
    : option (option nat * Heap) :=
  match p with
  | None => Some (None, h)
  | Some r =>
      ref ← refs h !! r;
      let h := set_refs h (delete r (refs h)) in
      b ← buffers h !! buffer ref;
      let c := int32 (refcount b - 1) in
      let h := set_buffers h (<[buffer ref := set_refcount b c]> (buffers h)) in
      if c =? 0 then
        h ← call_free h (free b) (opaque b) (data b);
        Some (None, set_buffers h (delete (buffer ref) (buffers h)))
      else Some (None, h)
  end.

(** av_buffer_is_writable *)
Definition av_buffer_is_writable (h : Heap) (buf : nat) : option Z :=
  ref ← refs h !! buf;
  b ← buffers h !! buffer ref;
  if negb (Z.land (flags b) (AV_BUFFER_FLAG_READONLY K) =? 0) then Some 0
  else Some (if refcount b =? 1 then 1 else 0).

(** av_buffer_make_writable(&p), with [p] an AVBufferRef; the result is
    the return value and [p] afterwards. *)
Definition av_buffer_make_writable (h : Heap) (p : nat)
    (a : option (list Z)) (ok_buf ok_ref : bool)
    : option (Z * option nat * Heap) :=
  w ← av_buffer_is_writable h p;
  if negb (w =? 0) then Some (0, Some p, h) else
  buf ← refs h !! p;
  '(newbuf, h) ← av_buffer_alloc h (rsize buf) a ok_buf ok_ref;
  match newbuf with
  | None => Some (AVERROR_ENOMEM K, Some p, h)
  | Some n =>
      new ← refs h !! n;
      h ← memcpy h (rdata new) (rdata buf) (rsize buf);
      '(_, h) ← av_buffer_unref h (Some p);
      Some (0, Some n, h)
  end.

(** av_buffer_realloc(&p, size) with p = NULL: the first branch.  [a]
    is the answer of av_realloc, [ok_buf] and [ok_ref] those of the two
    av_mallocz of av_buffer_create.  The result is the return value and
    [p] afterwards. *)
Definition av_buffer_realloc_null (h : Heap) (size : Z)
    (a : option (bool * list Z)) (ok_buf ok_ref : bool)
    : option (Z * option nat * Heap) :=
  '(data, h) ← av_realloc h None size a;
  if bool_decide (data = None) then Some (AVERROR_ENOMEM K, None, h) else
  let '(buf, h) :=
    av_buffer_create h data size (Some av_buffer_default_free) None 0
      ok_buf ok_ref in
  match buf with
  | None => h ← av_free h data; Some (AVERROR_ENOMEM K, None, h)
  | Some r =>
      ref ← refs h !! r;
      b ← buffers h !! buffer ref;
      let b :=
        set_flags b (Z.lor (flags b) (BUFFER_FLAG_REALLOCATABLE K)) in
      Some (0, Some r, set_buffers h (<[buffer ref := b]> (buffers h)))
  end.

(** av_buffer_realloc(&p, size).  The call it makes to itself has
    new = NULL and takes the first branch. *)
Definition av_buffer_realloc (h : Heap) (p : option nat) (size : Z)
    (a : option (bool * list Z)) (ok_buf ok_ref : bool)
    : option (Z * option nat * Heap) :=
  match p with
  | None => av_buffer_realloc_null h size a ok_buf ok_ref
  | Some r =>
      buf ← refs h !! r;
      if rsize buf =? size then Some (0, Some r, h) else
      b ← buffers h !! buffer buf;
      w ← av_buffer_is_writable h r;
      if (Z.land (flags b) (BUFFER_FLAG_REALLOCATABLE K) =? 0)
         || (w =? 0) || negb (bool_decide (rdata buf = data b))
      then
        '(_, new, h) ← av_buffer_realloc_null h size a ok_buf ok_ref;
        match new with
        | None => Some (AVERROR_ENOMEM K, Some r, h)
        | Some n =>
            newref ← refs h !! n;
            h ← memcpy h (rdata newref) (rdata buf)
                  (Z.min size (rsize buf));
            '(_, h) ← av_buffer_unref h (Some r);
            Some (0, Some n, h)
        end
      else
        '(tmp, h) ← av_realloc h (data b) size a;
        if bool_decide (tmp = None) then Some (AVERROR_ENOMEM K, Some r, h)
        else
          Some (0, Some r,
                set_refs
                  (set_buffers h
                     (<[buffer buf := set_data b tmp size]> (buffers h)))
                  (<[r := {| buffer := buffer buf; rdata := tmp;
                             rsize := size |}]> (refs h)))
  end.

End WithConstants.

(** The number of AVBufferRef structures that name the AVBuffer [b]. *)
Definition ref_count (h : Heap) (b : nat) : nat :=
  size (filter (fun kv => buffer kv.2 = b) (refs h)).

(** A heap in which the reference counts count: the refcount of every
    AVBuffer is the number of the AVBufferRef structures that name it,
    at least 1 and an [int]; every AVBufferRef names an AVBuffer of the heap and
    has its data and size; every AVBuffer has a block of [bsize] bytes
    of its own, to be freed with av_buffer_default_free, and no flag. *)
Record counted (h : Heap) : Prop := {
  counted_refcount : forall b buf, buffers h !! b = Some buf ->
    refcount buf = Z.of_nat (ref_count h b) /\
    1 <= refcount buf <= INT_MAX;
  counted_ref : forall r ref, refs h !! r = Some ref ->
    exists buf, buffers h !! buffer ref = Some buf /\
      rdata ref = data buf /\ rsize ref = bsize buf;
  counted_data : forall b buf, buffers h !! b = Some buf ->
    free buf = av_buffer_default_free /\ flags buf = 0 /\
    exists d blk, data buf = Some (d, 0) /\ mem h !! d = Some blk /\
      Z.of_nat (length blk) = bsize buf;
  counted_owner : forall b b' buf buf' d off off',
    buffers h !! b = Some buf -> buffers h !! b' = Some buf' ->
    data buf = Some (d, off) -> data buf' = Some (d, off') -> b = b'
}.

(** av_buffer_realloc resizes the data of the reference [ref] where it
    is: its AVBuffer [b] was made by av_buffer_realloc, is not read-only
    and not shared, and the reference starts at its data. *)
Definition resizable (K : Constants) (ref : AVBufferRef) (b : AVBuffer)
    : Prop :=
  Z.land (flags b) (BUFFER_FLAG_REALLOCATABLE K) <> 0 /\
  Z.land (flags b) (AV_BUFFER_FLAG_READONLY K) = 0 /\
  refcount b = 1 /\ rdata ref = data b.

(** The calls a user of the buffers makes, with the answers of the
    allocator. *)
Inductive op :=
  | op_alloc (size : Z) (a : option (list Z)) (ok_buf ok_ref : bool)
  | op_allocz (size : Z) (a : option (list Z)) (ok_buf ok_ref : bool)
  | op_ref (buf : nat) (ok : bool)
  | op_unref (buf : nat)
  | op_make_writable (buf : nat) (a : option (list Z)) (ok_buf ok_ref : bool).

(** The heap after a call; [None] when the call reads or frees what is
    not in the heap. *)
Definition step (K : Constants) (h : Heap) (o : op) : option Heap :=
  match o with
  | op_alloc size a ok_buf ok_ref =>
      snd <$> av_buffer_alloc K h size a ok_buf ok_ref
  | op_allocz size a ok_buf ok_ref =>
      snd <$> av_buffer_allocz K h size a ok_buf ok_ref
  | op_ref buf ok => snd <$> av_buffer_ref h buf ok
  | op_unref buf => snd <$> av_buffer_unref h (Some buf)
  | op_make_writable buf a ok_buf ok_ref =>
      snd <$> av_buffer_make_writable K h buf a ok_buf ok_ref
  end.

(** What the caller owes: a size that is not negative, an AVBufferRef
    that is in the heap, and for av_buffer_ref a reference count below
    INT_MAX. *)
Definition op_ok (h : Heap) (o : op) : Prop :=
  match o with
  | op_alloc size _ _ _ | op_allocz size _ _ _ => 0 <= size
  | op_ref buf _ =>
      exists ref b, refs h !! buf = Some ref /\
        buffers h !! buffer ref = Some b /\ refcount b < INT_MAX
  | op_unref buf | op_make_writable buf _ _ _ => is_Some (refs h !! buf)
  end.

(** The heaps a user arrives at from the empty heap. *)
Inductive reachable (K : Constants) : Heap -> Prop :=
  | reachable_empty : reachable K empty_heap
  | reachable_step h o h' :
      reachable K h -> op_ok h o -> step K h o = Some h' -> reachable K h'.

Definition sample_constants : Constants :=
  {| AV_BUFFER_FLAG_READONLY := 1; BUFFER_FLAG_READONLY := 1;
     BUFFER_FLAG_REALLOCATABLE := 2; AVERROR_ENOMEM := -12 |}.

(** The heaps after av_buffer_alloc(4) (the new bytes happen to be
    1 2 3 4), and after av_buffer_ref of the reference it returns. *)
Definition sample_heap : Heap :=
  default empty_heap
    (step sample_constants empty_heap
       (op_alloc 4 (Some [1; 2; 3; 4]) true true)).

Definition sample_ref : nat := fresh (dom (refs empty_heap)).

Definition shared_heap : Heap :=
  default empty_heap (step sample_constants sample_heap (op_ref sample_ref true)).

(** The heap after av_buffer_create with AV_BUFFER_FLAG_READONLY and a
    free function of the caller, for a block that holds 1 2 3 4. *)
Definition readonly_heap : Heap :=
  snd (av_buffer_create sample_constants
         (set_mem empty_heap (<[7%nat := [1; 2; 3; 4]]> ∅))
         (Some (7%nat, 0)) 4 (Some (other_free 3)) (Some 5%nat) 1
         true true).

End Buffer.

(** ** The predictors of a macroblock *)

Module Intra.

(** The fields of MpegEncContext that ff_clean_intra_table_entries and
    the predictor update of mpv_decode_mb_internal read and write.
    [dc_val_base], [ac_val_base] (rows of 16 int16_t, one after the
    other), [coded_block_base] and [mbintra_table] are the arrays;
    [dc_val], [ac_val] (in rows) and [coded_block] are the offsets in
    them of the pointers of these names. *)
Record MpegEncContext := {
  mb_x : Z;
  mb_y : Z;
  mb_stride : Z;
  b8_stride : Z;
  mb_intra : Z;
  h263_pred : Z;
  h263_aic : Z;
  msmpeg4_version : Z;
  intra_dc_precision : Z;
  block_index : list Z;          (* int block_index[6] *)
  last_dc : list Z;              (* int last_dc[3] *)
  dc_val_base : list Z;          (* int16_t *dc_val_base *)
  dc_val : list Z;               (* int16_t *dc_val[3] *)
  ac_val_base : list Z;          (* int16_t ( *ac_val_base)[16] *)
  ac_val : list Z;               (* int16_t ( *ac_val[3])[16] *)
  coded_block_base : list Z;     (* uint8_t *coded_block_base *)
  coded_block : Z;               (* uint8_t *coded_block *)
  mbintra_table : list Z         (* uint8_t *mbintra_table *)
}.

Definition set_tables (s : MpegEncContext) (dc ac cb mbintra : list Z)
    : MpegEncContext := {|
  mb_x := mb_x s; mb_y := mb_y s; mb_stride := mb_stride s;
  b8_stride := b8_stride s; mb_intra := mb_intra s;
  h263_pred := h263_pred s; h263_aic := h263_aic s;
  msmpeg4_version := msmpeg4_version s;
  intra_dc_precision := intra_dc_precision s;
  block_index := block_index s; last_dc := last_dc s;
  dc_val_base := dc; dc_val := dc_val s;
  ac_val_base := ac; ac_val := ac_val s;
  coded_block_base := cb; coded_block := coded_block s;
  mbintra_table := mbintra
|}.

Definition set_last_dc (s : MpegEncContext) (l : list Z) : MpegEncContext := {|
  mb_x := mb_x s; mb_y := mb_y s; mb_stride := mb_stride s;
  b8_stride := b8_stride s; mb_intra := mb_intra s;
  h263_pred := h263_pred s; h263_aic := h263_aic s;
  msmpeg4_version := msmpeg4_version s;
  intra_dc_precision := intra_dc_precision s;
  block_index := block_index s; last_dc := l;
  dc_val_base := dc_val_base s; dc_val := dc_val s;
  ac_val_base := ac_val_base s; ac_val := ac_val s;
  coded_block_base := coded_block_base s; coded_block := coded_block s;
  mbintra_table := mbintra_table s
|}.

(** memset(p, 0, n * sizeof(int16_t)), for p at the index [off] of an
    array of int16_t. *)
Definition memset0 (a : list Z) (off n : Z) : list Z :=
  fold_left (fun a k => wr a (off + k) 0) (seqZ 0 n) a.

(** ff_clean_intra_table_entries.  Of a chain of assignments the
    rightmost is made first. *)
Definition ff_clean_intra_table_entries (s : MpegEncContext)
    : MpegEncContext :=
  let wrap := b8_stride s in
  let xy := rd (block_index s) 0 in
  let dc0 := rd (dc_val s) 0 in
  let dc := wr (dc_val_base s)
              (dc0 + Geometry.iadd (Geometry.iadd xy 1) wrap) 1024 in
  let dc := wr dc (dc0 + Geometry.iadd xy wrap) 1024 in
  let dc := wr dc (dc0 + Geometry.iadd xy 1) 1024 in
  let dc := wr dc (dc0 + xy) 1024 in
  (* ac pred *)
  let ac0 := rd (ac_val s) 0 in
  let ac := memset0 (ac_val_base s) (16 * (ac0 + xy)) 32 in
  let ac := memset0 ac (16 * (ac0 + Geometry.iadd xy wrap)) 32 in
  let cb :=
    if msmpeg4_version s >=? 3 then
      let cb0 := coded_block s in
      let cb := wr (coded_block_base s)
                  (cb0 + Geometry.iadd (Geometry.iadd xy 1) wrap) 0 in
      let cb := wr cb (cb0 + Geometry.iadd xy wrap) 0 in
      let cb := wr cb (cb0 + Geometry.iadd xy 1) 0 in
      wr cb (cb0 + xy) 0
    else coded_block_base s in
  (* chroma *)
  let wrap := mb_stride s in
  let xy := Geometry.iadd (mb_x s) (Geometry.imul (mb_y s) wrap) in
  let dc := wr dc (rd (dc_val s) 2 + xy) 1024 in
  let dc := wr dc (rd (dc_val s) 1 + xy) 1024 in
  (* ac pred *)
  let ac := memset0 ac (16 * (rd (ac_val s) 1 + xy)) 16 in
  let ac := memset0 ac (16 * (rd (ac_val s) 2 + xy)) 16 in
  set_tables s dc ac cb (wr (mbintra_table s) xy 0).

(** mpv_decode_mb_internal, "update DC predictors for P macroblocks". *)
Definition update_dc_predictors (s : MpegEncContext) (is_mpeg12 : Z)
    : MpegEncContext :=
  let mb_xy :=
    Geometry.iadd (Geometry.imul (mb_y s) (mb_stride s)) (mb_x s) in
  let predicted :=
    (is_mpeg12 =? 0)
    && (negb (h263_pred s =? 0) || negb (h263_aic s =? 0)) in
  if mb_intra s =? 0 then
    if predicted then
      if negb (rd (mbintra_table s) mb_xy =? 0)
      then ff_clean_intra_table_entries s
      else s
    else
      let v := int32 (Z.shiftl 128 (intra_dc_precision s)) in
      set_last_dc s (wr (wr (wr (last_dc s) 2 v) 1 v) 0 v)
  else if predicted then
    set_tables s (dc_val_base s) (ac_val_base s) (coded_block_base s)
      (wr (mbintra_table s) mb_xy 1)
  else s.

(** s->dc_val[0][i], s->ac_val[0][i][k] and s->coded_block[i]. *)
Definition dc_at (s : MpegEncContext) (i : Z) : Z :=
  rd (dc_val_base s) (rd (dc_val s) 0 + i).

Definition ac_at (s : MpegEncContext) (i k : Z) : Z :=
  rd (ac_val_base s) (16 * (rd (ac_val s) 0 + i) + k).

Definition coded_block_at (s : MpegEncContext) (i : Z) : Z :=
  rd (coded_block_base s) (coded_block s + i).

(** The six block indices of the macroblock (x, y).  The indices that
    ff_init_block_index computes are those of the macroblock to the left
    of (mb_x, mb_y): these are its indices for mb_x = x + 1. *)
Definition mb_blocks (s : MpegEncContext) (mb_height x y : Z) : list Z :=
  Geometry.ff_init_block_index (b8_stride s) (mb_stride s) mb_height
    (x + 1) y.

(** In a picture [w] macroblocks wide and [h] high: the entry of the
    arrays behind dc_val, ac_val and coded_block that belongs to the
    top left luma block of the macroblock (x, y), and the entry of the
    arrays behind dc_val and ac_val that belongs to its first chroma
    block; the second chroma block lies c_size entries further. *)
Definition luma_entry (w x y : Z) : Z :=
  (2 * w + 1) + 1 + 2 * x + 2 * y * (2 * w + 1).

Definition chroma_entry (w h x y : Z) : Z :=
  (2 * w + 1) * (2 * h + 1) + (w + 1) + 1 + x + y * (w + 1).

(** The entries of the six blocks of the macroblock (x, y). *)
Definition mb_entries (w h x y : Z) : list Z :=
  let p := luma_entry w x y in
  let c := chroma_entry w h x y in
  [p; p + 1; p + (2 * w + 1); p + (2 * w + 1) + 1;
   c; c + (w + 1) * (h + 1)].

(** The predictors at the block indices [bi] are as init_context_frame
    and init_duplicate_context leave them: DC 1024, AC 0, and for
    msmpeg4_version >= 3 the coded-block flags of the four luma blocks
    0. *)
Definition predictors_reset (s : MpegEncContext) (bi : list Z) : Prop :=
  forall i, 0 <= i < 6 ->
    dc_at s (rd bi i) = 1024 /\
    (forall k, 0 <= k < 16 -> ac_at s (rd bi i) k = 0) /\
    (i < 4 -> 3 <= msmpeg4_version s -> coded_block_at s (rd bi i) = 0).

(** The predictors at the block indices [bi] are in [s'] what they are
    in [s]. *)
Definition same_predictors (s s' : MpegEncContext) (bi : list Z) : Prop :=
  forall i, 0 <= i < 6 ->
    dc_at s' (rd bi i) = dc_at s (rd bi i) /\
    (forall k, 0 <= k < 16 -> ac_at s' (rd bi i) k = ac_at s (rd bi i) k) /\
    (i < 4 -> coded_block_at s' (rd bi i) = coded_block_at s (rd bi i)).

(** The tables of a picture of [w] by [h] macroblocks, as
    init_context_frame and init_duplicate_context lay them out. *)
Record laid_out (w h : Z) (s : MpegEncContext) : Prop := {
  laid_b8_stride : b8_stride s = 2 * w + 1;
  laid_mb_stride : mb_stride s = w + 1;
  laid_dc_val :
    dc_val s = Geometry.ac_val_offsets (b8_stride s) (mb_stride s) h;
  laid_ac_val :
    ac_val s = Geometry.ac_val_offsets (b8_stride s) (mb_stride s) h;
  laid_coded_block : coded_block s = b8_stride s + 1;
  laid_dc_length :
    Z.of_nat (length (dc_val_base s))
    = Geometry.yc_size (b8_stride s) (mb_stride s) h;
  laid_ac_length :
    Z.of_nat (length (ac_val_base s))
    = 16 * Geometry.yc_size (b8_stride s) (mb_stride s) h;
  laid_coded_length :
    Z.of_nat (length (coded_block_base s)) = Geometry.y_size (b8_stride s) h;
  laid_mbintra_length :
    Z.of_nat (length (mbintra_table s)) = h * mb_stride s
}.

(** Where mbintra_table is clear the predictors are reset: what the
    table is kept for. *)
Definition marked (w h : Z) (s : MpegEncContext) : Prop :=
  forall x y, 0 <= x < w -> 0 <= y < h ->
    rd (mbintra_table s) (x + y * mb_stride s) = 0 ->
    predictors_reset s (mb_blocks s h x y).

(** A picture of 3 by 2 macroblocks with predictors in use everywhere,
    at the macroblock (1, 1). *)
Definition sample_ctx (intra : Z) : MpegEncContext := {|
  mb_x := 1; mb_y := 1; mb_stride := 4; b8_stride := 7;
  mb_intra := intra; h263_pred := 1; h263_aic := 0;
  msmpeg4_version := 3; intra_dc_precision := 0;
  block_index := Geometry.ff_init_block_index 7 4 2 2 1;
  last_dc := [128; 128; 128];
  dc_val_base := replicate 59 77;
  dc_val := Geometry.ac_val_offsets 7 4 2;
  ac_val_base := replicate 944 5;
  ac_val := Geometry.ac_val_offsets 7 4 2;
  coded_block_base := replicate 35 1;
  coded_block := 8;
  mbintra_table := replicate 8 1
|}.

End Intra.
(** * Properties *)

(** ** Machine integers *)

Lemma wrap_signed_small w x :
  1 <= w -> - 2 ^ (w - 1) <= x < 2 ^ (w - 1) -> wrap_signed w x = x.
Proof.
  intros Hw Hx. unfold wrap_signed.
  assert (E : 2 ^ w = 2 * 2 ^ (w - 1)).
  { rewrite <- Z.pow_succ_r by lia. f_equal. lia. }
  rewrite Z.mod_small; lia.
Qed.

Lemma wrap_signed_range w x :
  1 <= w -> - 2 ^ (w - 1) <= wrap_signed w x < 2 ^ (w - 1).
Proof.
  intros Hw. unfold wrap_signed.
  assert (E : 2 ^ w = 2 * 2 ^ (w - 1)).
  { rewrite <- Z.pow_succ_r by lia. f_equal. lia. }
  assert (0 < 2 ^ (w - 1)) by (apply Z.pow_pos_nonneg; lia).
  pose proof (Z.mod_pos_bound (x + 2 ^ (w - 1)) (2 ^ w)). lia.
Qed.

Lemma wrap_signed_eqm w x :
  1 <= w -> exists k, wrap_signed w x = x + 2 * k.
Proof.
  intros Hw. unfold wrap_signed.
  assert (E : 2 ^ w = 2 * 2 ^ (w - 1)).
  { rewrite <- Z.pow_succ_r by lia. f_equal. lia. }
  assert (0 < 2 ^ (w - 1)) by (apply Z.pow_pos_nonneg; lia).
  exists (- ((x + 2 ^ (w - 1)) / 2 ^ w) * 2 ^ (w - 1)).
  pose proof (Z.div_mod (x + 2 ^ (w - 1)) (2 ^ w)). lia.
Qed.

Lemma wrap_signed_mod2 w x : 1 <= w -> wrap_signed w x mod 2 = x mod 2.
Proof.
  intros Hw. destruct (wrap_signed_eqm w x Hw) as [k ->].
  rewrite Z.mul_comm. apply Z.mod_add. lia.
Qed.

Lemma int32_small x : INT_MIN <= x <= INT_MAX -> int32 x = x.
Proof.
  unfold INT_MIN, INT_MAX. intros H. apply wrap_signed_small; [lia|].
  change (2 ^ (32 - 1)) with 2147483648. lia.
Qed.

Lemma int32_mod2 x : int32 x mod 2 = x mod 2.
Proof. apply wrap_signed_mod2. lia. Qed.

Lemma int16_mod2 x : int16 x mod 2 = x mod 2.
Proof. apply wrap_signed_mod2. lia. Qed.

Lemma int16_int32 x : int16 (int32 x) = int16 x.
Proof.
  unfold int16, int32, wrap_signed.
  change (2 ^ (32 - 1)) with 2147483648. change (2 ^ 32) with 4294967296.
  change (2 ^ (16 - 1)) with 32768. change (2 ^ 16) with 65536.
  f_equal.
  pose proof (Z.div_mod (x + 2147483648) 4294967296) as D.
  replace ((x + 2147483648) mod 4294967296 - 2147483648 + 32768)
    with (x + 32768 + (- 65536 * ((x + 2147483648) / 4294967296)) * 65536)
    by lia.
  apply Z.mod_add. lia.
Qed.

Lemma land_1_mod2 x : Z.land x 1 = x mod 2.
Proof. change 1 with (Z.ones 1). rewrite Z.land_ones by lia. reflexivity. Qed.

(** ** Arrays *)

Lemma length_wr a i v : length (wr a i v) = length a.
Proof. unfold wr. destruct (i <? 0); [done|]. apply length_insert. Qed.

Lemma rd_wr_eq a i v :
  0 <= i < Z.of_nat (length a) -> rd (wr a i v) i = v.
Proof.
  intros H. unfold rd, wr.
  destruct (Z.ltb_spec i 0); [lia|].
  rewrite list_lookup_insert_eq by lia. reflexivity.
Qed.

Lemma rd_wr_ne a i j v : i <> j -> rd (wr a i v) j = rd a j.
Proof.
  intros H. unfold rd, wr.
  destruct (Z.ltb_spec i 0); [done|].
  destruct (Z.ltb_spec j 0); [done|].
  rewrite list_lookup_insert_ne by lia. reflexivity.
Qed.

Lemma rd_replicate_0 n i : rd (replicate n 0) i = 0.
Proof.
  unfold rd. destruct (i <? 0); [done|].
  destruct (replicate n 0 !! Z.to_nat i) as [x|] eqn:E; [|done].
  apply lookup_replicate in E as [-> _]. reflexivity.
Qed.

Lemma rd_nonzero_range a i : rd a i <> 0 -> 0 <= i < Z.of_nat (length a).
Proof.
  unfold rd. destruct (Z.ltb_spec i 0); [done|].
  destruct (a !! Z.to_nat i) eqn:E; [|done].
  apply lookup_lt_Some in E. lia.
Qed.

(** ** The scan loops *)

Section ScanLoop.
Import Dequant.
Variables (pos : Z -> Z) (L : Z -> Z -> Z).

Lemma scan_step_other b i j :
  j <> pos i -> rd (scan_step pos L b i) j = rd b j.
Proof.
  intros H. unfold scan_step.
  destruct (rd b (pos i) =? 0); [done|]. apply rd_wr_ne. congruence.
Qed.

Lemma scan_step_at b i :
  rd (scan_step pos L b i) (pos i) = scan_val L (rd b (pos i)) (pos i).
Proof.
  unfold scan_step, scan_val.
  destruct (Z.eqb_spec (rd b (pos i)) 0) as [E|E]; [done|].
  apply rd_wr_eq. by apply rd_nonzero_range.
Qed.

Lemma fold_scan_other idx : forall b j,
  j ∉ pos <$> idx -> rd (fold_left (scan_step pos L) idx b) j = rd b j.
Proof.
  induction idx as [|i idx IH]; intros b j Hj; cbn [fold_left]; [done|].
  rewrite fmap_cons in Hj. apply not_elem_of_cons in Hj as [Hne Hj].
  rewrite IH by done. by apply scan_step_other.
Qed.

Lemma fold_scan_at idx : forall b j,
  NoDup (pos <$> idx) -> j ∈ pos <$> idx ->
  rd (fold_left (scan_step pos L) idx b) j = scan_val L (rd b j) j.
Proof.
  induction idx as [|i idx IH]; intros b j Hnd Hj.
  - inversion Hj.
  - cbn [fold_left]. rewrite fmap_cons in Hnd, Hj.
    apply NoDup_cons in Hnd as [Hn Hnd].
    destruct (decide (j = pos i)) as [->|Hne].
    + rewrite fold_scan_other by done. apply scan_step_at.
    + apply elem_of_cons in Hj as [?|Hj]; [done|].
      rewrite IH by done. by rewrite scan_step_other.
Qed.

Lemma scan_step_sum_fst b sum i :
  fst (scan_step_sum pos L (b, sum) i) = scan_step pos L b i.
Proof.
  unfold scan_step_sum, scan_step. by destruct (rd b (pos i) =? 0).
Qed.

Lemma fold_scan_sum_fst idx : forall b sum,
  fst (fold_left (scan_step_sum pos L) idx (b, sum))
  = fold_left (scan_step pos L) idx b.
Proof.
  induction idx as [|i idx IH]; intros b sum; cbn [fold_left]; [done|].
  rewrite <- (scan_step_sum_fst b sum i).
  destruct (scan_step_sum pos L (b, sum) i) as [b1 s1]. apply IH.
Qed.

Lemma scan_step_sum_odd b sum i :
  Z.odd (snd (scan_step_sum pos L (b, sum) i))
  = xorb (Z.odd sum) (Z.odd (scan_val L (rd b (pos i)) (pos i))).
Proof.
  unfold scan_step_sum, scan_val.
  destruct (Z.eqb_spec (rd b (pos i)) 0) as [E|E]; simpl.
  - rewrite E. by rewrite xorb_false_r.
  - rewrite <- !Z.bit0_odd, !Z.bit0_eqb, int32_mod2, int16_mod2.
    rewrite <- !Z.bit0_eqb, !Z.bit0_odd. apply Z.odd_add.
Qed.

(** The running sum has the parity of its start plus the levels the
    loop leaves at the visited positions. *)
Lemma fold_scan_sum_odd idx : forall b sum,
  NoDup (pos <$> idx) ->
  Z.odd (snd (fold_left (scan_step_sum pos L) idx (b, sum)))
  = xorb (Z.odd sum)
      (Z.odd (level_sum (fold_left (scan_step pos L) idx b) (pos <$> idx))).
Proof.
  induction idx as [|i idx IH]; intros b sum Hnd; cbn [fold_left].
  - by rewrite xorb_false_r.
  - rewrite fmap_cons in Hnd. apply NoDup_cons in Hnd as [Hn Hnd].
    pose proof (scan_step_sum_fst b sum i) as F.
    pose proof (scan_step_sum_odd b sum i) as O.
    destruct (scan_step_sum pos L (b, sum) i) as [b1 s1].
    cbn [fst snd] in F, O. subst b1.
    rewrite IH by done. rewrite O.
    unfold level_sum at 2. rewrite !fmap_cons. cbn [fold_right].
    fold (level_sum (fold_left (scan_step pos L) idx (scan_step pos L b i))
            (pos <$> idx)).
    rewrite Z.odd_add, fold_scan_other by done.
    rewrite scan_step_at. by rewrite xorb_assoc.
Qed.

(** A block that reads 0 everywhere passes through unchanged. *)
Lemma fold_scan_zero idx b :
  (forall j, rd b j = 0) -> fold_left (scan_step pos L) idx b = b.
Proof.
  intros Hz. induction idx as [|i idx IH]; cbn [fold_left]; [done|].
  unfold scan_step at 2. by rewrite Hz.
Qed.

Lemma fold_scan_sum_zero idx b sum :
  (forall j, rd b j = 0) ->
  fold_left (scan_step_sum pos L) idx (b, sum) = (b, sum).
Proof.
  intros Hz. induction idx as [|i idx IH]; cbn [fold_left]; [done|].
  unfold scan_step_sum at 2. by rewrite Hz.
Qed.

End ScanLoop.

(** ** The dequantizers *)

Section DequantFacts.
Import Dequant.

Lemma mpeg1_intra_as_scan s block n qscale :
  dct_unquantize_mpeg1_intra_c s block n qscale
  = fold_left (scan_step (rd (permutated (intra_scantable s)))
                 (level_mpeg1_intra qscale (intra_matrix s)))
      (upto 1 (rd (block_last_index s) n)) (dc_scaled s block n).
Proof. reflexivity. Qed.

Lemma mpeg1_inter_as_scan s block n qscale :
  dct_unquantize_mpeg1_inter_c s block n qscale
  = fold_left (scan_step (rd (permutated (intra_scantable s)))
                 (level_mpeg1_inter qscale (inter_matrix s)))
      (upto 0 (rd (block_last_index s) n)) block.
Proof. reflexivity. Qed.

Lemma mpeg2_intra_as_scan s block n qscale :
  dct_unquantize_mpeg2_intra_c s block n qscale
  = fold_left (scan_step (rd (permutated (intra_scantable s)))
                 (level_mpeg2_intra qscale (intra_matrix s)))
      (upto 1 (mpeg2_nCoeffs s n)) (dc_scaled s block n).
Proof. reflexivity. Qed.

Lemma mpeg2_intra_bitexact_as_scan s block n qscale :
  mpeg2_intra_bitexact_loop s block n qscale
  = fold_left (scan_step_sum (rd (permutated (intra_scantable s)))
                 (level_mpeg2_intra qscale (intra_matrix s)))
      (upto 1 (mpeg2_nCoeffs s n)) (dc_scaled s block n, -1).
Proof. reflexivity. Qed.

Lemma mpeg2_inter_as_scan s block n qscale :
  mpeg2_inter_loop s block n qscale
  = fold_left (scan_step_sum (rd (permutated (intra_scantable s)))
                 (level_mpeg2_inter qscale (inter_matrix s)))
      (upto 0 (mpeg2_nCoeffs s n)) (block, -1).
Proof. reflexivity. Qed.

(** The bit-exact intra variant dequantizes as the plain one does. *)
Lemma mpeg2_intra_bitexact_pre s block n qscale :
  fst (mpeg2_intra_bitexact_loop s block n qscale)
  = dct_unquantize_mpeg2_intra_c s block n qscale.
Proof.
  rewrite mpeg2_intra_bitexact_as_scan, mpeg2_intra_as_scan.
  apply fold_scan_sum_fst.
Qed.

Lemma visited_0_cons s nCoeffs :
  0 <= nCoeffs ->
  visited s 0 nCoeffs
  = rd (permutated (intra_scantable s)) 0 :: visited s 1 nCoeffs.
Proof.
  intros H. unfold visited, upto.
  rewrite (seqZ_cons 0) by lia. rewrite fmap_cons.
  do 3 f_equal; lia.
Qed.

Lemma visited_1_NoDup s nCoeffs :
  NoDup (visited s 0 nCoeffs) -> NoDup (visited s 1 nCoeffs).
Proof.
  destruct (Z_lt_le_dec nCoeffs 0) as [H|H].
  - intros _. unfold visited, upto. rewrite seqZ_nil by lia. constructor.
  - rewrite visited_0_cons by done. intros Hnd.
    by apply NoDup_cons in Hnd as [_ ?].
Qed.

Lemma is_int16_int16 x : is_int16 (int16 x).
Proof.
  unfold is_int16. pose proof (wrap_signed_range 16 x).
  change (2 ^ (16 - 1)) with 32768 in *. unfold int16. lia.
Qed.

Lemma int16_id x : is_int16 x -> int16 x = x.
Proof.
  unfold is_int16. intros H. apply wrap_signed_small; [lia|].
  change (2 ^ (16 - 1)) with 32768. lia.
Qed.

Lemma rd_is_int16 b j : Forall is_int16 b -> is_int16 (rd b j).
Proof.
  intros H. unfold rd. destruct (j <? 0); [unfold is_int16; lia|].
  destruct (b !! Z.to_nat j) as [x|] eqn:E; simpl.
  - eapply Forall_lookup_1; eauto.
  - unfold is_int16; lia.
Qed.

Lemma wr_is_int16 b j v :
  Forall is_int16 b -> is_int16 v -> Forall is_int16 (wr b j v).
Proof.
  intros Hb Hv. unfold wr. destruct (j <? 0); [done|].
  by apply Forall_insert.
Qed.

Lemma fold_scan_is_int16 pos L idx : forall b,
  Forall is_int16 b -> Forall is_int16 (fold_left (scan_step pos L) idx b).
Proof.
  induction idx as [|i idx IH]; intros b Hb; cbn [fold_left]; [done|].
  apply IH. unfold scan_step. destruct (rd b (pos i) =? 0); [done|].
  apply wr_is_int16; [done|apply is_int16_int16].
Qed.

Lemma dc_scaled_is_int16 s b n :
  Forall is_int16 b -> Forall is_int16 (dc_scaled s b n).
Proof.
  intros Hb. unfold dc_scaled.
  destruct (n <? 4); (apply wr_is_int16; [done|apply is_int16_int16]).
Qed.

Lemma lxor_1 x : Z.lxor x 1 = x + 1 - 2 * (x mod 2).
Proof.
  rewrite <- Z.sub_lor_land. pose proof (Z.add_lor_land x 1) as A.
  rewrite land_1_mod2 in *. lia.
Qed.

Lemma lxor_bit_is_int16 x b :
  is_int16 x -> b = 0 \/ b = 1 -> is_int16 (Z.lxor x b).
Proof.
  intros Hx [->| ->].
  - by rewrite Z.lxor_0_r.
  - rewrite lxor_1. unfold is_int16 in *.
    pose proof (Z.mod_pos_bound x 2). pose proof (Z.div_mod x 2). lia.
Qed.

Lemma land_1_odd x : Z.land x 1 = Z.b2z (Z.odd x).
Proof. rewrite land_1_mod2, <- Z.bit0_odd. symmetry. apply Z.bit0_mod. Qed.

(** The bit the correction injects, for a sum started at -1. *)
Lemma mismatch_bit sum total :
  Z.odd sum = xorb (Z.odd (-1)) (Z.odd total) ->
  Z.land sum 1 = 1 - Z.land total 1.
Proof.
  intros H. rewrite !land_1_odd, H. simpl. by destruct (Z.odd total).
Qed.

Lemma mismatch_control_spec pre sum total :
  Forall is_int16 pre ->
  Z.odd sum = xorb (Z.odd (-1)) (Z.odd total) ->
  mismatch_control (pre, sum)
  = wr pre 63 (Z.lxor (rd pre 63) (1 - Z.land total 1)).
Proof.
  intros Hp Hs. unfold mismatch_control.
  rewrite (mismatch_bit sum total Hs). f_equal. apply int16_id.
  apply lxor_bit_is_int16; [by apply rd_is_int16|].
  rewrite land_1_odd. destruct (Z.odd total); simpl; lia.
Qed.

End DequantFacts.

Section DequantTheorems.
Import Dequant.

Lemma rd_zero_block j : rd zero_block j = 0.
Proof. apply rd_replicate_0. Qed.

Lemma dc_scaled_zero s n : dc_scaled s zero_block n = zero_block.
Proof.
  unfold dc_scaled. rewrite rd_zero_block. simpl.
  by destruct (n <? 4).
Qed.

Lemma lor_1_cases x : Z.lor x 1 = x \/ Z.lor x 1 = x + 1.
Proof.
  pose proof (Z.add_lor_land x 1) as A. rewrite land_1_mod2 in A.
  pose proof (Z.mod_pos_bound x 2). lia.
Qed.

(** In range, the level of the simple intra variant is the formula. *)
Lemma level_mpeg1_intra_exact qscale quant_matrix coeff j :
  is_int16 coeff -> coeff <> 0 ->
  Z.abs (coeff * qscale) <= INT_MAX ->
  Z.abs (coeff * qscale * rd quant_matrix j) <= INT_MAX ->
  level_mpeg1_intra qscale quant_matrix coeff j
  = mpeg1_intra_level coeff qscale (rd quant_matrix j).
Proof.
  unfold is_int16, INT_MAX, level_mpeg1_intra, mpeg1_intra_level.
  intros Hc Hnz H1 H2. set (m := rd quant_matrix j) in *.
  assert (Hdiv : forall x, Z.abs x <= 2147483647 ->
            INT_MIN <= Z.shiftr x 3 - 1 <= INT_MAX
            /\ INT_MIN < Z.lor (Z.shiftr x 3 - 1) 1 <= INT_MAX).
  { intros x Hx. rewrite Z.shiftr_div_pow2 by lia. change (2 ^ 3) with 8.
    unfold INT_MIN, INT_MAX.
    destruct (lor_1_cases (x / 8 - 1)) as [-> | ->];
      Z.div_mod_to_equations; lia. }
  destruct (Z.ltb_spec coeff 0) as [Hneg|Hpos].
  - rewrite (int32_small (- coeff)) by (unfold INT_MIN, INT_MAX; lia).
    replace (- coeff * qscale) with (- (coeff * qscale)) by ring.
    rewrite (int32_small (- (coeff * qscale)))
      by (unfold INT_MIN, INT_MAX; lia).
    replace (- (coeff * qscale) * m) with (- (coeff * qscale * m)) by ring.
    rewrite (int32_small (- (coeff * qscale * m)))
      by (unfold INT_MIN, INT_MAX; lia).
    destruct (Hdiv (- (coeff * qscale * m))) as [D1 D2]; [lia|].
    rewrite (int32_small (_ - 1)) by done.
    rewrite int32_small by (unfold INT_MIN, INT_MAX in *; lia).
    rewrite Z.sgn_neg by lia. rewrite Z.abs_neq by lia.
    replace (- coeff * qscale * m) with (- (coeff * qscale * m)) by ring.
    lia.
  - rewrite (int32_small (coeff * qscale))
      by (unfold INT_MIN, INT_MAX; lia).
    rewrite (int32_small (coeff * qscale * m))
      by (unfold INT_MIN, INT_MAX; lia).
    destruct (Hdiv (coeff * qscale * m)) as [D1 D2]; [lia|].
    rewrite (int32_small (_ - 1)) by done.
    rewrite Z.sgn_pos by lia. rewrite Z.abs_eq by lia. lia.
Qed.

(** C1, as the code has it.  The bit-exact intra dequantizer and the
    legacy inter dequantizer XOR into position 63 of the dequantized
    block the COMPLEMENT of the parity of the sum of the dequantized
    levels at the visited scan positions (the running sum starts at -1):
    the bit is 1 exactly when that sum is even. *)
Theorem mpeg2_mismatch_control_bit s block n qscale :
  Forall is_int16 block ->
  NoDup (visited s 0 (mpeg2_nCoeffs s n)) ->
  (let pre := dct_unquantize_mpeg2_intra_c s block n qscale in
   let total := level_sum pre (visited s 1 (mpeg2_nCoeffs s n)) in
   dct_unquantize_mpeg2_intra_bitexact s block n qscale
   = wr pre 63 (Z.lxor (rd pre 63) (1 - Z.land total 1)))
  /\
  (let pre := fst (mpeg2_inter_loop s block n qscale) in
   let total := level_sum pre (visited s 0 (mpeg2_nCoeffs s n)) in
   dct_unquantize_mpeg2_inter_c s block n qscale
   = wr pre 63 (Z.lxor (rd pre 63) (1 - Z.land total 1))).
Proof.
  intros Hb Hnd. split.
  - cbv zeta. unfold dct_unquantize_mpeg2_intra_bitexact.
    rewrite <- mpeg2_intra_bitexact_pre.
    rewrite mpeg2_intra_bitexact_as_scan.
    set (pos := rd (permutated (intra_scantable s))).
    set (L := level_mpeg2_intra qscale (intra_matrix s)).
    pose proof (fold_scan_sum_fst pos L (upto 1 (mpeg2_nCoeffs s n))
                  (dc_scaled s block n) (-1)) as F.
    pose proof (fold_scan_sum_odd pos L (upto 1 (mpeg2_nCoeffs s n))
                  (dc_scaled s block n) (-1)
                  (visited_1_NoDup s _ Hnd)) as O.
    destruct (fold_left (scan_step_sum pos L) _ _) as [pre sum].
    cbn [fst snd] in *. subst pre.
    apply mismatch_control_spec; [|exact O].
    apply fold_scan_is_int16. by apply dc_scaled_is_int16.
  - cbv zeta. unfold dct_unquantize_mpeg2_inter_c.
    rewrite mpeg2_inter_as_scan.
    set (pos := rd (permutated (intra_scantable s))).
    set (L := level_mpeg2_inter qscale (inter_matrix s)).
    pose proof (fold_scan_sum_fst pos L (upto 0 (mpeg2_nCoeffs s n))
                  block (-1)) as F.
    pose proof (fold_scan_sum_odd pos L (upto 0 (mpeg2_nCoeffs s n))
                  block (-1) Hnd) as O.
    destruct (fold_left (scan_step_sum pos L) _ _) as [pre sum].
    cbn [fst snd] in *. subst pre.
    apply mismatch_control_spec; [|exact O].
    by apply fold_scan_is_int16.
Qed.

Lemma example_block_is_int16 dc ac :
  is_int16 dc -> is_int16 ac -> Forall is_int16 (example_block dc ac).
Proof.
  intros. unfold example_block. repeat apply wr_is_int16; try done.
  apply Forall_replicate. unfold is_int16; lia.
Qed.

Lemma mpeg2_mismatch_control_bit_witness :
  let s := example_ctx 16 in
  let block := example_block 1 2 in
  dct_unquantize_mpeg2_intra_bitexact s block 0 8
  = wr (wr (wr zero_block 0 8) 8 32) 63 1
  /\ dct_unquantize_mpeg2_inter_c s block 0 8
     = wr (wr (wr zero_block 0 24) 8 40) 63 1.
Proof.
  destruct (mpeg2_mismatch_control_bit (example_ctx 16) (example_block 1 2)
              0 8) as [Hintra Hinter].
  - apply example_block_is_int16; unfold is_int16; lia.
  - apply (bool_decide_unpack _). vm_compute. exact I.
  - split.
    + etransitivity; [exact Hintra|]. vm_compute. reflexivity.
    + etransitivity; [exact Hinter|]. vm_compute. reflexivity.
Defined.

(** C1, as the specification words it, fails: the levels of this block
    sum to the even number 32, and position 63 goes from 0 to 1. *)
Lemma spec_parity_bit_counterexample :
  let s := example_ctx 16 in
  let block := example_block 1 2 in
  let pre := dct_unquantize_mpeg2_intra_c s block 0 8 in
  let out := dct_unquantize_mpeg2_intra_bitexact s block 0 8 in
  level_sum pre (visited s 1 63) = 32 /\ rd pre 63 = 0 /\ rd out 63 = 1 /\
  ~ spec_parity_bit pre out (visited s 1 63).
Proof.
  cbv zeta. repeat split; try (vm_compute; reflexivity).
  intros H. vm_compute in H. discriminate H.
Qed.

Lemma h263_intra_as_scan s block n qscale :
  dct_unquantize_h263_intra_c s block n qscale
  = if rd (block_last_index s) n <? 0 then None else
    let qmul := int32 (Z.shiftl qscale 1) in
    let block' := if h263_aic s =? 0 then dc_scaled s block n else block in
    let qadd := if h263_aic s =? 0 then Z.lor (int32 (qscale - 1)) 1
                else 0 in
    let nCoeffs :=
      if ac_pred s =? 0
      then rd (raster_end (inter_scantable s)) (rd (block_last_index s) n)
      else 63 in
    Some (fold_left (scan_step (fun i => i) (level_h263 qmul qadd))
            (upto 1 nCoeffs) block').
Proof.
  unfold dct_unquantize_h263_intra_c.
  destruct (rd (block_last_index s) n <? 0); [done|].
  by destruct (h263_aic s =? 0).
Qed.

Lemma h263_inter_as_scan s block n qscale :
  dct_unquantize_h263_inter_c s block n qscale
  = if rd (block_last_index s) n <? 0 then None else
    let qadd := Z.lor (int32 (qscale - 1)) 1 in
    let qmul := int32 (Z.shiftl qscale 1) in
    Some (fold_left (scan_step (fun i => i) (level_h263 qmul qadd))
            (upto 0 (rd (raster_end (inter_scantable s))
                       (rd (block_last_index s) n))) block).
Proof. reflexivity. Qed.

(** C2, as the code has it.  An all-zero block stays all-zero through
    the simple (mpeg1) intra and inter dequantizers, the plain legacy
    (mpeg2) intra dequantizer and, when the last index is not negative
    (which they assert), the block-based (h263) intra and inter
    dequantizers; the bit-exact legacy intra dequantizer and the legacy
    inter dequantizer leave positions 0..62 zero and set position 63 to
    1, for every qscale, block index and last index. *)
Theorem zero_block_dequantized s n qscale :
  dct_unquantize_mpeg1_intra_c s zero_block n qscale = zero_block /\
  dct_unquantize_mpeg1_inter_c s zero_block n qscale = zero_block /\
  dct_unquantize_mpeg2_intra_c s zero_block n qscale = zero_block /\
  dct_unquantize_h263_intra_c s zero_block n qscale
    = (if rd (block_last_index s) n <? 0 then None else Some zero_block) /\
  dct_unquantize_h263_inter_c s zero_block n qscale
    = (if rd (block_last_index s) n <? 0 then None else Some zero_block) /\
  dct_unquantize_mpeg2_intra_bitexact s zero_block n qscale
    = wr zero_block 63 1 /\
  dct_unquantize_mpeg2_inter_c s zero_block n qscale = wr zero_block 63 1.
Proof.
  repeat split.
  - rewrite mpeg1_intra_as_scan, dc_scaled_zero.
    apply fold_scan_zero, rd_zero_block.
  - rewrite mpeg1_inter_as_scan. apply fold_scan_zero, rd_zero_block.
  - rewrite mpeg2_intra_as_scan, dc_scaled_zero.
    apply fold_scan_zero, rd_zero_block.
  - rewrite h263_intra_as_scan.
    destruct (rd (block_last_index s) n <? 0); [done|]. cbv zeta.
    f_equal. destruct (h263_aic s =? 0);
      rewrite ?dc_scaled_zero; apply fold_scan_zero, rd_zero_block.
  - rewrite h263_inter_as_scan.
    destruct (rd (block_last_index s) n <? 0); [done|]. cbv zeta.
    f_equal. apply fold_scan_zero, rd_zero_block.
  - unfold dct_unquantize_mpeg2_intra_bitexact.
    rewrite mpeg2_intra_bitexact_as_scan, dc_scaled_zero.
    rewrite fold_scan_sum_zero by apply rd_zero_block. reflexivity.
  - unfold dct_unquantize_mpeg2_inter_c.
    rewrite mpeg2_inter_as_scan.
    rewrite fold_scan_sum_zero by apply rd_zero_block. reflexivity.
Qed.

(** C2, as the specification words it, fails on the two variants with
    the mismatch control. *)
Lemma spec_zero_preserved_counterexample :
  rd (dct_unquantize_mpeg2_intra_bitexact (example_ctx 16) zero_block 0 8)
     63 = 1 /\
  rd (dct_unquantize_mpeg2_inter_c (example_ctx 16) zero_block 0 8) 63 = 1 /\
  ~ spec_zero_preserved (example_ctx 16) 0 8.
Proof.
  repeat split; try (vm_compute; reflexivity).
  intros (_ & _ & _ & H & _). vm_compute in H. discriminate H.
Qed.

(** C7, as the code has it.  The simple intra dequantizer stores the DC
    coefficient times the luma (block index below 4) or chroma DC scale,
    and at every scan position 1..last index a nonzero coefficient
    becomes sign(coeff) * ((((|coeff| * qscale * matrix[j]) >> 3) - 1) | 1)
    and a zero one stays zero; each stored value is reduced to the 16
    bits of the block's int16_t, so it is the formula's value exactly
    when that lies within -32768..32767. *)
Theorem mpeg1_intra_dequantized s block n qscale :
  Forall is_int16 block -> (0 < length block)%nat ->
  NoDup (visited s 1 (rd (block_last_index s) n)) ->
  Forall (fun j =>
      j <> 0 /\
      Z.abs (rd block j * qscale) <= INT_MAX /\
      Z.abs (rd block j * qscale * rd (intra_matrix s) j) <= INT_MAX)
    (visited s 1 (rd (block_last_index s) n)) ->
  let out := dct_unquantize_mpeg1_intra_c s block n qscale in
  let formula j :=
    mpeg1_intra_level (rd block j) qscale (rd (intra_matrix s) j) in
  rd out 0
    = int16 (rd block 0 * (if n <? 4 then y_dc_scale s else c_dc_scale s)) /\
  (forall j, j ∈ visited s 1 (rd (block_last_index s) n) ->
     rd out j = if rd block j =? 0 then 0 else int16 (formula j)) /\
  (forall j, j ∈ visited s 1 (rd (block_last_index s) n) ->
     rd block j <> 0 -> is_int16 (formula j) -> rd out j = formula j).
Proof.
  intros Hb Hlen Hnd Hr out formula.
  assert (Hdc : forall j, j <> 0 -> rd (dc_scaled s block n) j = rd block j).
  { intros j Hj. unfold dc_scaled.
    destruct (n <? 4); apply rd_wr_ne; congruence. }
  assert (Hac : forall j, j ∈ visited s 1 (rd (block_last_index s) n) ->
            rd out j = if rd block j =? 0 then 0 else int16 (formula j)).
  { intros j Hj. subst out. rewrite mpeg1_intra_as_scan.
    rewrite fold_scan_at by done.
    rewrite Forall_forall in Hr. destruct (Hr j Hj) as (Hj0 & H1 & H2).
    rewrite Hdc by done. unfold scan_val.
    destruct (Z.eqb_spec (rd block j) 0) as [E|E]; [done|].
    f_equal. apply level_mpeg1_intra_exact; try done.
    by apply rd_is_int16. }
  split; [|split; [exact Hac|]].
  - subst out. rewrite mpeg1_intra_as_scan.
    rewrite fold_scan_other.
    + unfold dc_scaled.
      destruct (n <? 4); rewrite rd_wr_eq by lia; apply int16_int32.
    + intros Hin. rewrite Forall_forall in Hr.
      by destruct (Hr 0 Hin) as [? _].
  - intros j Hj Hnz Hfit. rewrite Hac by done.
    destruct (Z.eqb_spec (rd block j) 0); [done|]. by apply int16_id.
Qed.

Lemma mpeg1_intra_dequantized_witness :
  let out := dct_unquantize_mpeg1_intra_c (example_ctx 16)
               (example_block 3 (-5)) 0 8 in
  rd out 0 = 24 /\ rd out 8 = -79.
Proof.
  destruct (mpeg1_intra_dequantized (example_ctx 16) (example_block 3 (-5))
              0 8) as (Hdc & Hac & _).
  - apply example_block_is_int16; unfold is_int16; lia.
  - vm_compute. lia.
  - apply (bool_decide_unpack _). vm_compute. exact I.
  - apply (bool_decide_unpack _). vm_compute. exact I.
  - split.
    + etransitivity; [exact Hdc|]. vm_compute. reflexivity.
    + etransitivity;
        [apply Hac, (list_elem_of_lookup_2 _ 0%nat); reflexivity|].
      vm_compute. reflexivity.
Defined.

(** C7, as the specification words it, fails where the level does not
    fit the block's 16 bits: 255 * 31 * 255 >> 3 gives 251971, and the
    block holds -10173. *)
Lemma spec_mpeg1_intra_counterexample :
  rd (dct_unquantize_mpeg1_intra_c (example_ctx 255) (example_block 1 255)
        0 31) 8 = -10173 /\
  mpeg1_intra_level 255 31 255 = 251971 /\
  ~ spec_mpeg1_intra (example_ctx 255) (example_block 1 255) 0 31.
Proof.
  repeat split; try (vm_compute; reflexivity).
  intros [_ H].
  assert (Hin : 8 ∈ visited (example_ctx 255) 1
                      (rd (block_last_index (example_ctx 255)) 0))
    by (apply (list_elem_of_lookup_2 _ 0%nat); reflexivity).
  specialize (H 8 Hin). vm_compute in H. discriminate H.
Qed.

End DequantTheorems.

(** ** The slice row ranges *)

Section SliceRows.
Import Slices.
Variables mb_height nb_slices : Z.
Hypothesis Hrows : 1 <= mb_height.
Hypothesis Hslices : 1 <= nb_slices <= mb_height.
(** The products of the source stay within [int]. *)
Hypothesis Hint : mb_height * nb_slices + nb_slices / 2 <= INT_MAX.

Local Abbreviation bound := (row_boundary mb_height nb_slices).

Lemma slice_start_exact i :
  0 <= i <= nb_slices -> slice_start_mb_y mb_height nb_slices i = bound i.
Proof using All.
  intros Hi. unfold slice_start_mb_y, row_boundary.
  rewrite (Z.quot_div_nonneg nb_slices 2) by lia.
  assert (0 <= mb_height * i <= mb_height * nb_slices) by nia.
  assert (0 <= nb_slices / 2) by (apply Z.div_pos; lia).
  rewrite (int32_small (mb_height * i)) by (unfold INT_MIN; lia).
  rewrite int32_small by (unfold INT_MIN; lia).
  apply Z.quot_div_nonneg; lia.
Qed.

Lemma slice_end_exact i :
  0 <= i < nb_slices ->
  slice_end_mb_y mb_height nb_slices i = bound (i + 1).
Proof using All.
  intros Hi. unfold slice_end_mb_y.
  assert (0 <= nb_slices / 2) by (apply Z.div_pos; lia).
  assert (nb_slices <= INT_MAX) by (unfold INT_MAX in *; nia).
  rewrite (int32_small (i + 1)) by (unfold INT_MIN; lia).
  apply (slice_start_exact (i + 1)). lia.
Qed.

Lemma bound_0 : bound 0 = 0.
Proof using All.
  unfold row_boundary. rewrite Z.mul_0_r, Z.add_0_l.
  apply Z.div_small. split; [apply Z.div_pos; lia|].
  apply Z.div_lt_upper_bound; lia.
Qed.

Lemma bound_last : bound nb_slices = mb_height.
Proof using All.
  unfold row_boundary. rewrite Z.add_comm, Z.div_add by lia.
  rewrite (Z.div_small (nb_slices / 2)); [lia|].
  split; [apply Z.div_pos; lia|]. apply Z.div_lt_upper_bound; lia.
Qed.

(** Every slice gets at least one row. *)
Lemma bound_step i : bound i < bound (i + 1).
Proof using All.
  unfold row_boundary.
  replace (mb_height * (i + 1) + nb_slices / 2)
    with ((mb_height * i + nb_slices / 2 + (mb_height - nb_slices))
          + 1 * nb_slices) by lia.
  rewrite Z.div_add by lia.
  assert ((mb_height * i + nb_slices / 2) / nb_slices
          <= (mb_height * i + nb_slices / 2 + (mb_height - nb_slices))
             / nb_slices) by (apply Z.div_le_mono; lia).
  lia.
Qed.

Lemma bound_mono_nat (k : nat) i : bound i <= bound (i + Z.of_nat k).
Proof using All.
  induction k as [|k IH].
  - replace (i + Z.of_nat 0) with i by lia. lia.
  - replace (i + Z.of_nat (S k)) with (i + Z.of_nat k + 1) by lia.
    pose proof (bound_step (i + Z.of_nat k)). lia.
Qed.

Lemma bound_mono i j : i <= j -> bound i <= bound j.
Proof using All.
  intros H. replace j with (i + Z.of_nat (Z.to_nat (j - i))) by lia.
  apply bound_mono_nat.
Qed.

(** A row below the [n]-th boundary falls into one of the first [n]
    slices. *)
Lemma bound_search (n : nat) r :
  0 <= r < bound (Z.of_nat n) ->
  exists i : nat, (i < n)%nat
    /\ bound (Z.of_nat i) <= r < bound (Z.of_nat i + 1).
Proof using All.
  induction n as [|n IH]; intros Hr.
  - change (Z.of_nat 0) with 0 in Hr. rewrite bound_0 in Hr. lia.
  - destruct (Z_lt_le_dec r (bound (Z.of_nat n))) as [Hlt|Hge].
    + destruct IH as (i & Hi & Hb); [lia|]. exists i. split; [lia|done].
    + exists n. split; [lia|].
      replace (Z.of_nat n + 1) with (Z.of_nat (S n)) by lia. lia.
Qed.

Lemma assign_rows_lookup (i : nat) :
  Z.of_nat i < nb_slices ->
  assign_rows mb_height nb_slices !! i
  = Some (bound (Z.of_nat i), bound (Z.of_nat i + 1)).
Proof using All.
  intros Hi. unfold assign_rows.
  destruct (Z.gtb_spec nb_slices 1) as [Hn|Hn].
  - rewrite list_lookup_fmap, lookup_seqZ_lt by done. simpl.
    rewrite slice_start_exact, slice_end_exact by lia. reflexivity.
  - assert (nb_slices = 1) as E by lia. assert (i = 0%nat) as -> by lia.
    transitivity (Some (0, mb_height)); [reflexivity|].
    do 2 f_equal.
    + symmetry. apply bound_0.
    + replace (Z.of_nat 0 + 1) with nb_slices by lia.
      symmetry. apply bound_last.
Qed.

Lemma assign_rows_length :
  length (assign_rows mb_height nb_slices) = Z.to_nat nb_slices.
Proof using All.
  unfold assign_rows. destruct (Z.gtb_spec nb_slices 1) as [Hn|Hn].
  - by rewrite length_fmap, length_seqZ.
  - simpl. lia.
Qed.

Lemma in_slice_bounds i r :
  in_slice (assign_rows mb_height nb_slices) i r <->
  Z.of_nat i < nb_slices /\ bound (Z.of_nat i) <= r < bound (Z.of_nat i + 1).
Proof using All.
  unfold in_slice. split.
  - intros (a & b & Hl & Hr).
    assert (Hi : Z.of_nat i < nb_slices).
    { apply lookup_lt_Some in Hl. rewrite assign_rows_length in Hl. lia. }
    rewrite assign_rows_lookup in Hl by done. by simplify_eq.
  - intros [Hi Hr]. eexists _, _. split; [by apply assign_rows_lookup|done].
Qed.

End SliceRows.

(** C3.  For H >= 1 macroblock rows and 1 <= N <= H slices (the products
    of the source within [int]), the N row ranges start = (H*i + N/2)/N,
    end = (H*(i+1) + N/2)/N are each non-empty, each slice ends where the
    next starts, the first starts at row 0 and the last ends at row H, and
    a row lies in some range exactly when it is in [0, H), and then in one
    range only. *)
Theorem slice_rows_partition (mb_height nb_slices : Z) :
  1 <= mb_height -> 1 <= nb_slices <= mb_height ->
  mb_height * nb_slices + nb_slices / 2 <= INT_MAX ->
  let rows := Slices.assign_rows mb_height nb_slices in
  length rows = Z.to_nat nb_slices /\
  (forall i a b, rows !! i = Some (a, b) ->
     a = Slices.row_boundary mb_height nb_slices (Z.of_nat i) /\
     b = Slices.row_boundary mb_height nb_slices (Z.of_nat i + 1) /\
     0 <= a < b /\ b <= mb_height) /\
  (forall i a b a' b', rows !! i = Some (a, b) ->
     rows !! S i = Some (a', b') -> b = a') /\
  (exists b, rows !! 0%nat = Some (0, b)) /\
  (exists a, rows !! Z.to_nat (nb_slices - 1) = Some (a, mb_height)) /\
  (forall r, 0 <= r < mb_height <-> exists i, Slices.in_slice rows i r) /\
  (forall r i j, Slices.in_slice rows i r -> Slices.in_slice rows j r ->
     i = j).
Proof.
  intros Hrows Hslices Hint rows.
  pose proof (assign_rows_length mb_height nb_slices Hrows Hslices Hint) as Hlen.
  pose proof (assign_rows_lookup mb_height nb_slices Hrows Hslices Hint)
    as Hlook.
  pose proof (in_slice_bounds mb_height nb_slices Hrows Hslices Hint) as Hin.
  pose proof (bound_0 mb_height nb_slices Hrows Hslices Hint) as H0.
  pose proof (bound_last mb_height nb_slices Hrows Hslices Hint) as HN.
  pose proof (bound_step mb_height nb_slices Hrows Hslices Hint) as Hstep.
  pose proof (bound_mono mb_height nb_slices Hrows Hslices Hint) as Hmono.
  fold rows in Hlen, Hlook, Hin.
  assert (Hidx : forall i x, rows !! i = Some x -> Z.of_nat i < nb_slices).
  { intros i x Hl. apply lookup_lt_Some in Hl. lia. }
  split; [done|]. split; [|split; [|split; [|split; [|split]]]].
  - intros i a b Hl. pose proof (Hidx _ _ Hl) as Hi.
    rewrite Hlook in Hl by done. simplify_eq.
    split; [done|]. split; [done|].
    pose proof (Hstep (Z.of_nat i)).
    pose proof (Hmono 0 (Z.of_nat i) ltac:(lia)).
    pose proof (Hmono (Z.of_nat i + 1) nb_slices ltac:(lia)). lia.
  - intros i a b a' b' Hl Hl'.
    pose proof (Hidx _ _ Hl). pose proof (Hidx _ _ Hl').
    rewrite Hlook in Hl, Hl' by done. simplify_eq. f_equal. lia.
  - rewrite Hlook by lia. change (Z.of_nat 0) with 0. rewrite H0. eauto.
  - rewrite Hlook by lia.
    replace (Z.of_nat (Z.to_nat (nb_slices - 1)) + 1) with nb_slices by lia.
    rewrite HN. eauto.
  - intros r. split.
    + intros Hr.
      destruct (bound_search mb_height nb_slices Hrows Hslices Hint
                  (Z.to_nat nb_slices) r) as (i & Hi & Hb).
      { rewrite Z2Nat.id by lia. lia. }
      exists i. apply Hin. split; [lia|done].
    + intros (i & Hi). apply Hin in Hi as [Hi Hr].
      pose proof (Hmono 0 (Z.of_nat i) ltac:(lia)).
      pose proof (Hmono (Z.of_nat i + 1) nb_slices ltac:(lia)). lia.
  - intros r i j Hi Hj. apply Hin in Hi as [Hi Hri]. apply Hin in Hj as [Hj Hrj].
    destruct (Nat.lt_trichotomy i j) as [Hlt|[->|Hlt]]; [|done|].
    + pose proof (Hmono (Z.of_nat i + 1) (Z.of_nat j) ltac:(lia)). lia.
    + pose proof (Hmono (Z.of_nat j + 1) (Z.of_nat i) ltac:(lia)). lia.
Qed.

Lemma slice_rows_partition_witness :
  Slices.assign_rows 18 4 = [(0, 5); (5, 9); (9, 14); (14, 18)] /\
  (forall r, 0 <= r < 18 <->
     exists i, Slices.in_slice (Slices.assign_rows 18 4) i r).
Proof.
  split; [reflexivity|].
  apply (slice_rows_partition 18 4); unfold INT_MAX; try lia.
  vm_compute. discriminate.
Defined.

(** ** The quantizer scale *)

(** C10, as the code has it.  After ff_set_qscale(s, q) the stored
    qscale is q clamped to 1..31, chroma_qscale and y_dc_scale are the
    entries of their tables at that clamped index, and c_dc_scale is the
    entry of its table at the stored chroma_qscale, which is the entry
    of the chroma table at the clamped index. *)
Theorem ff_set_qscale_clamps (s : QScale.MpegEncContext) (q : Z) :
  let s' := QScale.ff_set_qscale s q in
  let c := QScale.clamp_qscale q in
  1 <= QScale.qscale s' <= 31 /\
  QScale.qscale s' = c /\
  (1 <= q <= 31 -> QScale.qscale s' = q) /\
  (q < 1 -> QScale.qscale s' = 1) /\
  (q > 31 -> QScale.qscale s' = 31) /\
  QScale.chroma_qscale s' = rd (QScale.chroma_qscale_table s) c /\
  QScale.y_dc_scale s' = rd (QScale.y_dc_scale_table s) c /\
  QScale.c_dc_scale s'
    = rd (QScale.c_dc_scale_table s) (rd (QScale.chroma_qscale_table s) c).
Proof.
  cbv zeta. unfold QScale.ff_set_qscale, QScale.clamp_qscale. simpl.
  destruct (Z.ltb_spec q 1); [|destruct (Z.gtb_spec q 31)].
  - rewrite (Z.max_l 1) by lia. repeat split; lia.
  - rewrite (Z.min_l 31), (Z.max_r 1) by lia. repeat split; lia.
  - rewrite (Z.min_r 31), (Z.max_r 1) by lia. repeat split; lia.
Qed.

(** C10, as the specification words it, fails for c_dc_scale: under a
    chroma table that is not the identity, q = 40 is clamped to 31, the
    stored chroma_qscale is 15, and c_dc_scale is the entry 23 at 15,
    not the entry 39 at the clamped index. *)
Lemma spec_qscale_tables_counterexample :
  QScale.qscale (QScale.ff_set_qscale QScale.sample_ctx 40) = 31 /\
  QScale.chroma_qscale (QScale.ff_set_qscale QScale.sample_ctx 40) = 15 /\
  QScale.c_dc_scale (QScale.ff_set_qscale QScale.sample_ctx 40) = 23 /\
  rd (QScale.c_dc_scale_table QScale.sample_ctx) (QScale.clamp_qscale 40)
  = 39 /\
  ~ QScale.spec_qscale_tables QScale.sample_ctx 40.
Proof.
  repeat split; try (vm_compute; reflexivity).
  intros (_ & _ & _ & H). vm_compute in H. discriminate H.
Qed.

(** ** The picture pool *)

Section PicturePool.
Import Pictures.
Variable K : Constants.

Lemma slot_lookup s i pic : picture s !! i = Some pic -> slot s i = pic.
Proof. unfold slot. by intros ->. Qed.

Lemma slot_store_eq s i pic :
  (i < length (picture s))%nat -> slot (store s i pic) i = pic.
Proof.
  intros H. unfold slot, store. simpl.
  by rewrite list_lookup_insert_eq.
Qed.

Lemma slot_store_ne s i j pic :
  i <> j -> slot (store s i pic) j = slot s j.
Proof.
  intros H. unfold slot, store. simpl.
  by rewrite list_lookup_insert_ne.
Qed.

Lemma length_store s i pic :
  length (picture (store s i pic)) = length (picture s).
Proof. unfold store. simpl. apply length_insert. Qed.

(** The loop returns the first slot that passes the test. *)
Lemma first_picture_Some test s n : forall i k,
  first_picture test s i n = Some k ->
  (i <= k < i + n)%nat /\ test (slot s k) = true
  /\ forall j, (i <= j < k)%nat -> test (slot s j) = false.
Proof.
  induction n as [|n IH]; intros i k H; simpl in H; [done|].
  destruct (test (slot s i)) eqn:T.
  - simplify_eq. split; [lia|]. split; [done|]. intros j Hj. lia.
  - apply IH in H as (Hk & HT & Hbefore). split; [lia|]. split; [done|].
    intros j Hj. destruct (decide (j = i)) as [->|Hne]; [done|].
    apply Hbefore. lia.
Qed.

Lemma first_picture_None test s n : forall i,
  first_picture test s i n = None ->
  forall j, (i <= j < i + n)%nat -> test (slot s j) = false.
Proof.
  induction n as [|n IH]; intros i H j Hj; simpl in H; [lia|].
  destruct (test (slot s i)) eqn:T; [done|].
  destruct (decide (j = i)) as [->|Hne]; [done|].
  apply (IH (S i)); [done|lia].
Qed.

(** What ff_mpeg_unref_picture leaves. *)
Lemma unref_buf0 s pic : buf0 (f (ff_mpeg_unref_picture K s pic)) = None.
Proof.
  unfold ff_mpeg_unref_picture.
  destruct (_ && _); simpl; by destruct (needs_realloc pic =? 0).
Qed.

Lemma unref_tables s pic :
  tables (ff_mpeg_unref_picture K s pic)
  = if needs_realloc pic =? 0 then tables pic else no_tables.
Proof.
  unfold ff_mpeg_unref_picture.
  destruct (_ && _); simpl; by destruct (needs_realloc pic =? 0).
Qed.

Lemma unref_needs_realloc s pic :
  needs_realloc (ff_mpeg_unref_picture K s pic) = 0.
Proof. reflexivity. Qed.

Lemma find_unused_picture_eq s shared :
  find_unused_picture K s shared
  = match first_picture (unused_test K s shared) s 0 (MAX_PICTURE_COUNT K) with
    | Some i => Z.of_nat i
    | None => AVERROR_INVALIDDATA K
    end.
Proof.
  unfold find_unused_picture, unused_test.
  destruct (shared =? 0); reflexivity.
Qed.

(** The slot ff_find_unused_picture returns when it does not fail, and
    the pool it leaves. *)
Lemma ff_find_unused_picture_slot s shared iz s1 :
  length (picture s) = MAX_PICTURE_COUNT K ->
  AVERROR_INVALIDDATA K < 0 ->
  ff_find_unused_picture K s shared = (iz, s1) ->
  0 <= iz ->
  exists i,
    iz = Z.of_nat i /\ (i < MAX_PICTURE_COUNT K)%nat /\
    unused_test K s shared (slot s i) = true /\
    (forall j, (j < i)%nat -> unused_test K s shared (slot s j) = false) /\
    length (picture s1) = MAX_PICTURE_COUNT K /\
    s1 = (if negb (needs_realloc (slot s i) =? 0)
          then store s i (ff_mpeg_unref_picture K s
                            (ff_free_picture_tables
                               (set_needs_realloc (slot s i) 0)))
          else s).
Proof.
  intros Hlen Herr. unfold ff_find_unused_picture.
  rewrite find_unused_picture_eq.
  destruct (first_picture _ s 0 _) as [k|] eqn:F.
  - apply first_picture_Some in F as (Hk & HT & Hbefore).
    assert (Hin : (Z.of_nat k >=? 0)
                  && (Z.of_nat k <? Z.of_nat (MAX_PICTURE_COUNT K)) = true).
    { apply andb_true_intro. split; [apply Z.geb_le|apply Z.ltb_lt]; lia. }
    rewrite Hin, Nat2Z.id. intros E _. exists k.
    destruct (negb (needs_realloc (slot s k) =? 0)); simplify_eq;
      repeat split; try done; try lia.
    + intros j Hj. apply Hbefore. lia.
    + by rewrite length_store.
    + intros j Hj. apply Hbefore. lia.
  - assert (Hout : (AVERROR_INVALIDDATA K >=? 0)
                   && (AVERROR_INVALIDDATA K
                       <? Z.of_nat (MAX_PICTURE_COUNT K)) = false).
    { apply andb_false_intro1. rewrite Z.geb_leb. apply Z.leb_gt. lia. }
    rewrite Hout. intros [= <- <-] ?. lia.
Qed.

(** The tests of the code are the predicate of the specification. *)
Lemma unused_test_spec s shared pic :
  unused_test K s shared pic = true <-> spec_unused K shared pic.
Proof.
  unfold unused_test, spec_unused, pic_is_unused, is_null.
  destruct (shared =? 0); destruct (buf0 (f pic)) as [b|];
    try (split; (done || tauto)).
  destruct (Z.eqb_spec (needs_realloc pic) 0) as [E|E];
    destruct (Z.eqb_spec (Z.land (reference pic) (DELAYED_PIC_REF K)) 0)
      as [E'|E']; cbn [negb andb]; split; try done; try tauto.
  - intros [?|[? _]]; done.
  - intros [?|[? _]]; done.
  - intros [?|[_ ?]]; done.
Qed.

Lemma unused_test_spec_false s shared pic :
  unused_test K s shared pic = false <-> ~ spec_unused K shared pic.
Proof.
  rewrite <- (unused_test_spec s).
  destruct (unused_test K s shared pic); split; try done.
Qed.

(** C5.  With [shared] set ff_find_unused_picture returns the index of a
    slot without pixel buffer (f->buf[0] NULL), otherwise the index of a
    slot that has no pixel buffer, or has needs_realloc set and the bit
    DELAYED_PIC_REF of reference clear; it is the first such slot, and
    after the call it has no pixel buffer and needs_realloc is clear.
    The call returns the error AVERROR_INVALIDDATA exactly when none of
    the MAX_PICTURE_COUNT slots is such a slot. *)
Theorem ff_find_unused_picture_spec (s : MpegEncContext) (shared : Z) :
  length (picture s) = MAX_PICTURE_COUNT K ->
  AVERROR_INVALIDDATA K < 0 ->
  let ret := fst (ff_find_unused_picture K s shared) in
  let s' := snd (ff_find_unused_picture K s shared) in
  (ret = AVERROR_INVALIDDATA K <->
     forall i pic, picture s !! i = Some pic ->
       ~ spec_unused K shared pic) /\
  (ret <> AVERROR_INVALIDDATA K ->
     exists i pic,
       ret = Z.of_nat i /\ picture s !! i = Some pic /\
       spec_unused K shared pic /\
       (forall j pic', (j < i)%nat -> picture s !! j = Some pic' ->
          ~ spec_unused K shared pic') /\
       has_pixels (slot s' i) = false /\
       needs_realloc (slot s' i) = 0) /\
  length (picture s') = MAX_PICTURE_COUNT K.
Proof.
  intros Hlen Herr. cbv zeta. unfold ff_find_unused_picture.
  rewrite find_unused_picture_eq.
  destruct (first_picture _ s 0 _) as [k|] eqn:F.
  - apply first_picture_Some in F as (Hk & HT & Hbefore).
    assert (Hin : (Z.of_nat k >=? 0) && (Z.of_nat k <? Z.of_nat (MAX_PICTURE_COUNT K))
                  = true).
    { apply andb_true_intro. split; [apply Z.geb_le|apply Z.ltb_lt]; lia. }
    rewrite Hin, Nat2Z.id.
    destruct (lookup_lt_is_Some_2 (picture s) k) as [pic Hpic]; [lia|].
    pose proof (slot_lookup _ _ _ Hpic) as Hslot.
    assert (Hpost :
      let s' := snd (if negb (needs_realloc (slot s k) =? 0)
                     then (Z.of_nat k,
                           store s k (ff_mpeg_unref_picture K s
                             (ff_free_picture_tables
                                (set_needs_realloc (slot s k) 0))))
                     else (Z.of_nat k, s)) in
      has_pixels (slot s' k) = false /\ needs_realloc (slot s' k) = 0
      /\ length (picture s') = MAX_PICTURE_COUNT K).
    { cbv zeta. destruct (Z.eqb_spec (needs_realloc (slot s k)) 0) as [E|E];
        cbn [negb snd].
      - split; [|done]. rewrite Hslot in *. unfold has_pixels.
        unfold unused_test, pic_is_unused in HT.
        destruct (shared =? 0); destruct (is_null (buf0 (f pic))); try done.
        rewrite E in HT. done.
      - rewrite slot_store_eq by lia. rewrite length_store.
        split; [|done]. unfold has_pixels. by rewrite unref_buf0. }
    destruct Hpost as (Hp1 & Hp2 & Hp3).
    split; [|split].
    + split.
      * intros E. exfalso.
        destruct (negb _) in E; simpl in E; lia.
      * intros Hnone. rewrite Hslot in HT.
        apply unused_test_spec in HT. by destruct (Hnone k pic Hpic).
    + intros _. exists k, pic. split.
      { by destruct (negb _). }
      split; [done|].
      split; [by apply (unused_test_spec s); rewrite <- Hslot|].
      split; [|done].
      intros j pic' Hj Hpic'. apply (unused_test_spec_false s).
      rewrite <- (slot_lookup _ _ _ Hpic'). apply Hbefore. lia.
    + done.
  - pose proof (first_picture_None _ _ _ _ F) as Hnone.
    assert (Hout : (AVERROR_INVALIDDATA K >=? 0)
                   && (AVERROR_INVALIDDATA K <? Z.of_nat (MAX_PICTURE_COUNT K))
                   = false).
    { apply andb_false_intro1. rewrite Z.geb_leb. apply Z.leb_gt. lia. }
    rewrite Hout. simpl. split; [|split; [done|done]].
    split; [|done]. intros _ i pic Hpic.
    apply (unused_test_spec_false s).
    rewrite <- (slot_lookup _ _ _ Hpic). apply Hnone.
    apply lookup_lt_Some in Hpic. lia.
Qed.

End PicturePool.

Lemma ff_find_unused_picture_spec_witness :
  fst (Pictures.ff_find_unused_picture Pictures.sample_constants
         Frames.realloc_pool 0) = 1 /\
  fst (Pictures.ff_find_unused_picture Pictures.sample_constants
         Frames.realloc_pool 1) = 3 /\
  Pictures.has_pixels
    (Pictures.slot
       (snd (Pictures.ff_find_unused_picture Pictures.sample_constants
               Frames.realloc_pool 0)) 1) = false.
Proof.
  destruct (ff_find_unused_picture_spec Pictures.sample_constants
              Frames.realloc_pool 0) as (_ & H0 & _).
  - reflexivity.
  - vm_compute. reflexivity.
  - destruct (ff_find_unused_picture_spec Pictures.sample_constants
                Frames.realloc_pool 1) as (_ & H1 & _).
    + reflexivity.
    + vm_compute. reflexivity.
    + destruct H0 as (i & pic & E & Hpic & Hu & Hfirst & Hpix & _).
      { vm_compute. discriminate. }
      destruct H1 as (i' & pic' & E' & Hpic' & Hu' & Hfirst' & _).
      { vm_compute. discriminate. }
      assert (i = 1%nat) as ->.
      { destruct i as [|[|i]]; [|done|].
        - vm_compute in Hpic. injection Hpic as <-.
          vm_compute in Hu. destruct Hu as [?|[_ ?]]; discriminate.
        - exfalso. apply (Hfirst 1%nat _ ltac:(lia) eq_refl).
          vm_compute. right. split; [discriminate|reflexivity]. }
      assert (i' = 3%nat) as ->.
      { destruct i' as [|[|[|[|i']]]]; [| | |done|].
        - vm_compute in Hpic'. injection Hpic' as <-.
          vm_compute in Hu'. discriminate.
        - vm_compute in Hpic'. injection Hpic' as <-.
          vm_compute in Hu'. discriminate.
        - vm_compute in Hpic'. injection Hpic' as <-.
          vm_compute in Hu'. discriminate.
        - vm_compute in Hpic'. discriminate. }
      split; [exact E|]. split; [exact E'|exact Hpix].
Defined.

(** ** The coherence of a Picture *)

Section PictureCoherence.
Import Pictures.
Variable K : Constants.
Hypothesis Henomem : AVERROR_ENOMEM K < 0.

Lemma alloc_picture_tables_core s pic o ret pic' :
  alloc_picture_tables K s pic o = (ret, pic') ->
  f pic' = f pic /\ (0 <= ret -> core_tables pic' = true).
Proof using Henomem.
  unfold alloc_picture_tables. cbn [fold_left].
  intros H.
  repeat case_match; simplify_eq; (split; [done|]); intros; try lia.
  all: unfold core_tables, set_table in *; cbn in *.
  all: by destruct (tab_mbskip o), (tab_qscale o), (tab_mb_type o).
Qed.

Lemma MAKE_WRITABLE_presence o st k name :
  is_null ((MAKE_WRITABLE o st k).2 name) = is_null (st.2 name).
Proof.
  unfold MAKE_WRITABLE. destruct st as [ret t].
  repeat case_match; simplify_eq; try done.
  cbn [snd]. unfold set_table. case_decide; [|done]. simplify_eq.
  match goal with H : t _ = Some _ |- _ => by rewrite H end.
Qed.

Lemma fold_MAKE_WRITABLE_presence o ks : forall st name,
  is_null ((fold_left (MAKE_WRITABLE o) ks st).2 name) = is_null (st.2 name).
Proof.
  induction ks as [|k ks IH]; intros st name; cbn [fold_left]; [done|].
  rewrite IH. apply MAKE_WRITABLE_presence.
Qed.

Lemma make_tables_writable_presence pic o ret pic' :
  make_tables_writable pic o = (ret, pic') ->
  f pic' = f pic
  /\ forall name, is_null (tables pic' name) = is_null (tables pic name).
Proof.
  unfold make_tables_writable.
  pose proof (fold_MAKE_WRITABLE_presence o (seq 0 (length table_order))
                (0, tables pic)) as P.
  destruct (fold_left _ _ _) as [r t]. intros [= <- <-]. split; [done|].
  intros name. apply P.
Qed.

Lemma UPDATE_TABLE_updated src o P st k :
  updated src P st ->
  updated src (fun j => P j \/ j = k) (UPDATE_TABLE K src o st k).
Proof using Henomem.
  unfold UPDATE_TABLE. destruct st as [ret t]. intros [[Hr Ht]|[Hr Ht]].
  - cbn [fst snd] in *. left. destruct (Z.ltb_spec ret 0); [done|lia].
  - cbn [fst snd] in *. subst ret. cbn [Z.ltb Z.compare].
    destruct (table_order !! k) as [name|] eqn:Hk.
    2:{ right. split; [done|]. intros j n [Hj| ->] Hn; [by apply (Ht j)|congruence]. }
    destruct (src name) as [b|] eqn:Hs.
    2:{ right. split; [done|]. intros j n [Hj| ->] Hn Hsrc; [by apply (Ht j)|].
        simplify_eq. by rewrite Hs in Hsrc. }
    destruct (is_null (t name) || negb (bool_decide (t name = Some b)))
      eqn:Hc.
    + destruct (default true (tab_ref o !! k)).
      * right. split; [done|]. cbn [snd]. intros j n Hj Hn Hsrc.
        unfold set_table. destruct (decide (n = name)); [reflexivity|].
        destruct Hj as [Hj| ->]; [by apply (Ht j)|congruence].
      * left. done.
    + right. split; [done|]. cbn [snd]. intros j n [Hj| ->] Hn Hsrc;
        [by apply (Ht j)|]. simplify_eq.
      apply orb_false_elim in Hc as [Hc _]. done.
Qed.

Lemma updated_weaken src (P Q : nat -> Prop) st :
  (forall k, Q k -> P k) -> updated src P st -> updated src Q st.
Proof.
  intros HPQ [H|[Hr H]]; [by left|right]. split; [done|].
  intros k name Hk. apply H. by apply HPQ.
Qed.

Lemma fold_UPDATE_TABLE_updated src o ks : forall P st,
  updated src P st ->
  updated src (fun j => P j \/ j ∈ ks) (fold_left (UPDATE_TABLE K src o) ks st).
Proof using Henomem.
  induction ks as [|k ks IH]; intros P st H; cbn [fold_left].
  - eapply updated_weaken; [|exact H]. intros j [Hj|Hj]; [done|inversion Hj].
  - eapply updated_weaken; [|apply IH, UPDATE_TABLE_updated, H].
    intros j [Hj|Hj]; [by left; left|].
    apply elem_of_cons in Hj as [->|Hj]; [by left; right|by right].
Qed.

Lemma update_picture_tables_core dst src o ret dst' :
  update_picture_tables K dst src o = (ret, dst') ->
  f dst' = f dst /\ needs_realloc dst' = needs_realloc dst /\
  (ret < 0 -> tables dst' = no_tables) /\
  (0 <= ret -> core_tables src = true -> core_tables dst' = true).
Proof using Henomem.
  unfold update_picture_tables.
  pose proof (fold_UPDATE_TABLE_updated (tables src) o
                (seq 0 (length table_order)) (fun _ => False) (0, tables dst))
    as U.
  destruct (fold_left _ _ _) as [r t]. intros [= <- <-].
  split; [done|]. split; [done|].
  destruct U as [[Hr Ht]|[Hr Ht]]; cbn [fst snd] in *.
  - right. split; [done|]. by intros ? ? [].
  - split; [done|]. lia.
  - split; [lia|]. intros _ Hsrc. unfold core_tables in *. cbn [tables set_tables].
    apply andb_prop in Hsrc as [Hsrc H3]. apply andb_prop in Hsrc as [H1 H2].
    apply negb_true_iff in H1, H2, H3.
    rewrite (Ht 3%nat mbskip_table_buf), (Ht 4%nat qscale_table_buf),
      (Ht 5%nat mb_type_buf); try done; right; apply elem_of_seq; simpl; lia.
Qed.


Lemma picture_inv_core pic : core_tables pic = true -> picture_inv pic.
Proof. by split. Qed.

Lemma picture_inv_empty pic :
  has_pixels pic = false -> tables pic = no_tables -> picture_inv pic.
Proof.
  intros Hp Ht. split; [by rewrite Hp|]. by rewrite Ht.
Qed.

Lemma picture_inv_tables pic pic' :
  picture_inv pic -> tables pic' = tables pic -> has_pixels pic' = false ->
  picture_inv pic'.
Proof.
  intros [_ H2] Ht Hp. split; [by rewrite Hp|].
  unfold core_tables in *. by rewrite Ht.
Qed.

Lemma unref_has_pixels s pic : has_pixels (ff_mpeg_unref_picture K s pic) = false.
Proof. unfold has_pixels. by rewrite unref_buf0. Qed.

Lemma unref_inv s pic pic0 :
  picture_inv pic0 -> tables pic = tables pic0 ->
  picture_inv (ff_mpeg_unref_picture K s pic).
Proof.
  intros Hinv Ht. destruct (Z.eqb_spec (needs_realloc pic) 0) as [E|E].
  - apply (picture_inv_tables pic0); [done| |apply unref_has_pixels].
    rewrite unref_tables, E. done.
  - apply picture_inv_empty; [apply unref_has_pixels|].
    rewrite unref_tables. by destruct (Z.eqb_spec (needs_realloc pic) 0).
Qed.

Lemma free_unref_empty s pic :
  has_pixels (ff_free_picture_tables (ff_mpeg_unref_picture K s pic)) = false
  /\ tables (ff_free_picture_tables (ff_mpeg_unref_picture K s pic))
     = no_tables.
Proof. split; [apply (unref_has_pixels s pic)|reflexivity]. Qed.

(** ff_alloc_picture from the tables on: success gives the core tables
    and keeps the frame, failure leaves neither pixels nor tables. *)
Lemma alloc_picture_finish_spec s pic o ret s' pic' :
  alloc_picture_finish K s pic o = (ret, s', pic') ->
  (is_null (tables pic qscale_table_buf) = false -> core_tables pic = true) ->
  s' = s /\
  ((ret = 0 /\ f pic' = f pic /\ core_tables pic' = true
    /\ reference pic' = reference pic)
   \/ (ret < 0 /\ has_pixels pic' = false /\ tables pic' = no_tables)).
Proof using Henomem.
  unfold alloc_picture_finish. intros H Hinv.
  destruct (is_null (tables pic qscale_table_buf)) eqn:Hq.
  - destruct (alloc_picture_tables K s pic o) as [r p] eqn:A.
    pose proof (alloc_picture_tables_core _ _ _ _ _ A) as [Hf Hc].
    assert (reference p = reference pic) as Hr.
    { revert A. unfold alloc_picture_tables. cbn [fold_left].
      intros A. repeat case_match; by simplify_eq. }
    destruct (Z.ltb_spec r 0); simplify_eq; (split; [done|]).
    + right. split; [lia|]. apply free_unref_empty.
    + left. split; [done|]. split; [done|]. split; [apply Hc; lia|done].
  - destruct (make_tables_writable pic o) as [r p] eqn:A.
    pose proof (make_tables_writable_presence _ _ _ _ A) as [Hf Hp].
    assert (reference p = reference pic) as Hr.
    { revert A. unfold make_tables_writable.
      destruct (fold_left _ _ _). by intros [= <- <-]. }
    destruct (Z.ltb_spec r 0); simplify_eq; (split; [done|]).
    + right. split; [lia|]. apply free_unref_empty.
    + left. split; [done|]. split; [done|]. split; [|done].
      specialize (Hinv eq_refl). unfold core_tables in *.
      by rewrite !Hp.
Qed.

Lemma alloc_frame_buffer_spec s pic o ret s' pic' :
  alloc_frame_buffer K s pic o = Some (ret, s', pic') ->
  env_ok s o -> picture_inv pic ->
  picture s' = picture s /\
  ((0 <= ret /\ tables pic' = tables pic /\ has_pixels pic' = true
    /\ reference pic' = reference pic)
   \/ (ret < 0 /\ picture_inv pic')).
Proof using Henomem.
  unfold alloc_frame_buffer, env_ok. intros H [Hgb Hhw] Hinv.
  set (pic0 := if negb (image_codec K s)
               then set_progress (set_f pic (gb_frame o)) (gb_progress o)
               else set_f pic (gb_frame o)) in *.
  assert (Ht0 : tables pic0 = tables pic) by (subst pic0; by destruct (negb _)).
  assert (Hr0 : reference pic0 = reference pic)
    by (subst pic0; by destruct (negb _)).
  assert (Hf0 : f pic0 = gb_frame o) by (subst pic0; by destruct (negb _)).
  destruct ((gb_ret o <? 0) || is_null (buf0 (f pic0))) eqn:Hfail.
  { simplify_eq. split; [done|]. right. split; [lia|].
    apply (picture_inv_tables pic); [done|done|].
    unfold has_pixels. rewrite Hf0 in *.
    apply orb_prop in Hfail as [Hr|Hn]; [|by rewrite Hn].
    apply Z.ltb_lt in Hr. by rewrite (Hgb Hr). }
  apply orb_false_elim in Hfail as [_ Hbuf].
  set (pic1 := if is_encoder s then _ else pic0) in *.
  assert (Ht1 : tables pic1 = tables pic)
    by (subst pic1; by destruct (is_encoder s)).
  assert (Hr1 : reference pic1 = reference pic)
    by (subst pic1; by destruct (is_encoder s)).
  assert (Hb1 : is_null (buf0 (f pic1)) = false)
    by (subst pic1; by destruct (is_encoder s)).
  assert (Hafter : forall pic2,
    tables pic2 = tables pic -> reference pic2 = reference pic ->
    is_null (buf0 (f pic2)) = false ->
    (if negb (linesize s =? 0)
        && (negb (linesize s =? rd (f_linesize (f pic2)) 0)
            || negb (uvlinesize s =? rd (f_linesize (f pic2)) 1))
     then Some (-1, s, ff_mpeg_unref_picture K s pic2)
     else if negb (rd (f_linesize (f pic2)) 1 =? rd (f_linesize (f pic2)) 2)
     then Some (-1, s, ff_mpeg_unref_picture K s pic2)
     else if is_null (edge_emu_buffer (scratch s))
     then let '(ret, sc) :=
            frame_size_alloc K (scratch s) (rd (f_linesize (f pic2)) 0) o in
          if ret <? 0
          then Some (ret, set_scratch s sc, ff_mpeg_unref_picture K s pic2)
          else Some (0, set_scratch s sc, pic2)
     else Some (0, s, pic2)) = Some (ret, s', pic') ->
    picture s' = picture s /\
    ((0 <= ret /\ tables pic' = tables pic /\ has_pixels pic' = true
      /\ reference pic' = reference pic)
     \/ (ret < 0 /\ picture_inv pic'))).
  { intros pic2 Ht2 Hr2 Hb2 E.
    repeat case_match; simplify_eq; (split; [done|]);
      try (right; split; [lia|by apply (unref_inv _ _ pic)]).
    all: try (left; unfold has_pixels; rewrite Hb2; done).
    all: try (left; unfold has_pixels; rewrite Hb2; repeat split; try done; lia). }
  destruct (hwaccel s) as [size|].
  - destruct (negb (is_null (hwaccel_picture_private pic1))); [done|].
    destruct (Z.eqb_spec size 0) as [Hz|Hz].
    + by apply (Hafter pic1).
    + destruct Hhw as [?|Hhw]; [done|].
      destruct (hw_priv o) as [b|]; [|done].
      by apply (Hafter (set_hwaccel pic1 (Some b) (Some b))).
  - by apply (Hafter pic1).
Qed.

(** ff_alloc_picture keeps the invariant, whatever it returns. *)
Lemma ff_alloc_picture_inv s pic shared o ret s' pic' :
  ff_alloc_picture K s pic shared o = Some (ret, s', pic') ->
  env_ok s o -> picture_inv pic ->
  picture s' = picture s /\ picture_inv pic'.
Proof using Henomem.
  unfold ff_alloc_picture. intros H Henv Hinv.
  destruct (negb (shared =? 0)).
  - destruct (is_null _); [done|]. simplify_eq.
    destruct (alloc_picture_finish K s (set_shared pic 1) o)
      as [[r s1] p1] eqn:A.
    apply alloc_picture_finish_spec in A as [-> A]; [|by destruct Hinv].
    simplify_eq. split; [done|].
    destruct A as [(_ & _ & Hc & _)|(_ & Hp & Ht)];
      [by apply picture_inv_core|by apply picture_inv_empty].
  - destruct (negb (is_null _)); [done|].
    destruct (alloc_frame_buffer K s pic o) as [[[r s1] p1]|] eqn:A; [|done].
    apply alloc_frame_buffer_spec in A as [Hpool A]; [|done|done].
    destruct A as [(Hr & Ht & Hp & _)|(Hr & Hinv1)].
    + destruct (Z.ltb_spec r 0); [lia|].
      destruct (alloc_picture_finish K _ p1 o) as [[r2 s2] p2] eqn:B.
      simplify_eq.
      apply alloc_picture_finish_spec in B as [-> B].
      2:{ destruct Hinv as [_ H2]. unfold core_tables in *. by rewrite Ht. }
      split; [done|].
      destruct B as [(_ & _ & Hc & _)|(_ & Hp2 & Ht2)];
        [by apply picture_inv_core|by apply picture_inv_empty].
    + destruct (Z.ltb_spec r 0); [|lia]. by simplify_eq.
Qed.


(** ff_mpeg_ref_picture keeps the invariant of [dst], whatever it
    returns, when [src] has it. *)
Lemma ff_mpeg_ref_picture_inv s dst src o ret dst' :
  ff_mpeg_ref_picture K s dst src o = Some (ret, dst') ->
  picture_inv dst -> picture_inv src -> picture_inv dst'.
Proof using Henomem.
  unfold ff_mpeg_ref_picture. intros H Hdst Hsrc.
  destruct (negb (is_null (buf0 (f dst)))); [done|].
  destruct (is_null (buf0 (f src))) eqn:Hpix; [done|].
  assert (Hcore : core_tables src = true).
  { destruct Hsrc as [Hs1 _]. apply Hs1. unfold has_pixels. by rewrite Hpix. }
  destruct (ref_ret o <? 0).
  { simplify_eq. by apply (unref_inv _ _ dst). }
  destruct (update_picture_tables K _ src o) as [r d1] eqn:U.
  apply update_picture_tables_core in U as (Hf & Hn & Hfail & Hok).
  destruct (Z.ltb_spec r 0).
  { simplify_eq. apply picture_inv_empty; [apply unref_has_pixels|].
    rewrite unref_tables, Hfail by done. by destruct (_ =? 0). }
  assert (Hc1 : core_tables d1 = true) by (apply Hok; [lia|done]).
  destruct (negb (is_null (hwaccel_picture_private src))).
  - destruct (hw_ref o); simplify_eq.
    + apply picture_inv_core. exact Hc1.
    + apply (unref_inv _ _ d1); [by apply picture_inv_core|done].
  - simplify_eq. apply picture_inv_core. exact Hc1.
Qed.

Lemma slot_inv s i : Forall picture_inv (picture s) -> picture_inv (slot s i).
Proof.
  intros H. unfold slot. destruct (picture s !! i) as [pic|] eqn:E; simpl.
  - eapply Forall_lookup_1; eauto.
  - by apply picture_inv_empty.
Qed.

Lemma pool_step_inv s s' :
  pool_step K s s' ->
  Forall picture_inv (picture s) -> Forall picture_inv (picture s').
Proof using Henomem.
  intros Hstep Hall. destruct Hstep as [s i shared o r s1 pic' Hi Henv Ha
                                       |s i Hi|s i j o r pic' Hi Hj Hr].
  - apply ff_alloc_picture_inv in Ha as [Hpool Hinv];
      [|done|by apply slot_inv].
    unfold store. simpl. rewrite Hpool. by apply Forall_insert.
  - unfold store. simpl. apply Forall_insert; [done|].
    apply (unref_inv _ _ (slot s i)); [by apply slot_inv|done].
  - unfold store. simpl. apply Forall_insert; [done|].
    eapply ff_mpeg_ref_picture_inv; [exact Hr| |]; by apply slot_inv.
Qed.

(** C4, as the code has it.  After any sequence of ff_alloc_picture,
    ff_mpeg_ref_picture and ff_mpeg_unref_picture calls on the slots of a
    pool (the allocator leaving no buffer behind a failed get_buffer, and
    allocating the hwaccel private data where one is used), every slot
    that has its pixel buffer has its core tables (skip flags, qscale
    table, mb-type table), and a slot that has the qscale table has the
    other two.  Tables without pixels do occur: ff_mpeg_unref_picture
    always releases the pixel buffer, and frees the tables only when
    needs_realloc is set, keeping them for reuse otherwise.
    ff_alloc_picture failing on its tables leaves neither pixels nor
    tables. *)
Theorem picture_pool_coherence s s' :
  Forall picture_inv (picture s) -> rtc (pool_step K) s s' ->
  Forall picture_inv (picture s')
  /\ (forall pic, has_pixels (ff_mpeg_unref_picture K s pic) = false
        /\ tables (ff_mpeg_unref_picture K s pic)
           = if needs_realloc pic =? 0 then tables pic else no_tables)
  /\ (forall pic o ret s1 pic',
        alloc_picture_finish K s pic o = (ret, s1, pic') -> ret < 0 ->
        has_pixels pic' = false /\ tables pic' = no_tables).
Proof using Henomem.
  intros Hall Hsteps. split; [|split].
  - induction Hsteps as [|s1 s2 s3 Hstep _ IH]; [done|].
    apply IH. by apply (pool_step_inv s1).
  - intros pic. split; [apply unref_has_pixels|apply unref_tables].
  - intros pic o ret s1 pic' Ha Hret.
    unfold alloc_picture_finish in Ha.
    destruct (if is_null _ then _ else _) as [r p].
    destruct (Z.ltb_spec r 0); simplify_eq; [apply free_unref_empty|lia].
Qed.


End PictureCoherence.

Lemma sample_pool_inv ptype :
  Forall Pictures.picture_inv (Pictures.picture (Pictures.sample_ctx ptype)).
Proof.
  apply Forall_replicate. by apply picture_inv_empty.
Qed.

Lemma picture_pool_coherence_witness :
  Forall Pictures.picture_inv (Pictures.picture Pictures.sample_alloc_unref).
Proof.
  unfold Pictures.sample_alloc_unref.
  destruct (Pictures.ff_alloc_picture _ _ _ _ _) as [[[r s1] pic1]|] eqn:E.
  - assert (Henomem : Pictures.AVERROR_ENOMEM Pictures.sample_constants < 0)
      by (vm_compute; reflexivity).
    assert (Henv : Pictures.env_ok (Pictures.sample_ctx 1)
                     Pictures.sample_env)
      by (split; [simpl; lia|exact I]).
    destruct (ff_alloc_picture_inv _ Henomem _ _ _ _ _ _ _ E Henv
                (slot_inv _ 0%nat (sample_pool_inv 1))) as [Hpool _].
    apply (picture_pool_coherence Pictures.sample_constants Henomem
             (Pictures.sample_ctx 1)); [apply sample_pool_inv|].
    eapply rtc_l.
    + eapply Pictures.step_alloc; [|exact Henv|exact E]. simpl. lia.
    + apply rtc_once, Pictures.step_unref.
      rewrite length_store, Hpool. simpl. lia.
  - vm_compute in E. discriminate E.
Defined.

(** C4, as the specification words it, fails: a Picture that was
    allocated and then released has no pixel buffer and all its tables. *)
Lemma spec_coherent_counterexample :
  match Pictures.ff_alloc_picture Pictures.sample_constants
          (Pictures.sample_ctx 1)
          (Pictures.slot (Pictures.sample_ctx 1) 0) 0 Pictures.sample_env with
  | Some (ret, s1, pic1) =>
      let pic2 := Pictures.ff_mpeg_unref_picture Pictures.sample_constants
                    s1 pic1 in
      ret = 0 /\ Pictures.spec_coherent pic1 /\
      Pictures.has_pixels pic2 = false /\
      Pictures.full_tables pic2 = true /\
      ~ Pictures.spec_coherent pic2
  | None => False
  end.
Proof.
  vm_compute. split; [reflexivity|]. split; [left; by split|].
  split; [reflexivity|]. split; [reflexivity|].
  intros [[H _]|[_ H]]; discriminate H.
Qed.

(** ** The dummy reference pictures of ff_mpv_frame_start *)

Section DummyFrames.
Import Pictures.
Variable K : Constants.
Hypothesis Henomem : AVERROR_ENOMEM K < 0.

Lemma alloc_frame_buffer_ok s pic o ret s' pic' :
  alloc_frame_buffer K s pic o = Some (ret, s', pic') ->
  same_frame_state s s' /\
  (0 <= ret -> has_pixels pic' = true /\ reference pic' = reference pic).
Proof using Henomem.
  unfold alloc_frame_buffer. intros H.
  set (pic0 := if negb (image_codec K s)
               then set_progress (set_f pic (gb_frame o)) (gb_progress o)
               else set_f pic (gb_frame o)) in *.
  assert (Hr0 : reference pic0 = reference pic)
    by (subst pic0; by destruct (negb _)).
  destruct ((gb_ret o <? 0) || is_null (buf0 (f pic0))) eqn:Hfail.
  { simplify_eq. split; [done|]. lia. }
  apply orb_false_elim in Hfail as [_ Hbuf].
  set (pic1 := if is_encoder s then _ else pic0) in *.
  assert (Hr1 : reference pic1 = reference pic)
    by (subst pic1; by destruct (is_encoder s)).
  assert (Hb1 : is_null (buf0 (f pic1)) = false)
    by (subst pic1; by destruct (is_encoder s)).
  assert (Hafter : forall pic2,
    reference pic2 = reference pic -> is_null (buf0 (f pic2)) = false ->
    (if negb (linesize s =? 0)
        && (negb (linesize s =? rd (f_linesize (f pic2)) 0)
            || negb (uvlinesize s =? rd (f_linesize (f pic2)) 1))
     then Some (-1, s, ff_mpeg_unref_picture K s pic2)
     else if negb (rd (f_linesize (f pic2)) 1 =? rd (f_linesize (f pic2)) 2)
     then Some (-1, s, ff_mpeg_unref_picture K s pic2)
     else if is_null (edge_emu_buffer (scratch s))
     then let '(ret, sc) :=
            frame_size_alloc K (scratch s) (rd (f_linesize (f pic2)) 0) o in
          if ret <? 0
          then Some (ret, set_scratch s sc, ff_mpeg_unref_picture K s pic2)
          else Some (0, set_scratch s sc, pic2)
     else Some (0, s, pic2)) = Some (ret, s', pic') ->
    same_frame_state s s' /\
    (0 <= ret -> has_pixels pic' = true /\ reference pic' = reference pic)).
  { intros pic2 Hr2 Hb2 E.
    repeat case_match; simplify_eq; (split; [done|]); intros; try lia.
    all: unfold has_pixels; by rewrite Hb2. }
  destruct (hwaccel s) as [size|].
  - destruct (negb (is_null (hwaccel_picture_private pic1))); [done|].
    destruct (size =? 0); [by apply (Hafter pic1)|].
    destruct (hw_priv o) as [b|].
    + by apply (Hafter (set_hwaccel pic1 (Some b) (Some b))).
    + simplify_eq. split; [done|]. lia.
  - by apply (Hafter pic1).
Qed.

Lemma alloc_picture_finish_ok s pic o ret s' pic' :
  alloc_picture_finish K s pic o = (ret, s', pic') ->
  s' = s /\ (0 <= ret -> f pic' = f pic /\ reference pic' = reference pic).
Proof using Henomem.
  unfold alloc_picture_finish. intros H.
  destruct (is_null (tables pic qscale_table_buf)).
  - destruct (alloc_picture_tables K s pic o) as [r p] eqn:A.
    assert (f p = f pic /\ reference p = reference pic) as [Hf Hr].
    { revert A. unfold alloc_picture_tables. cbn [fold_left].
      intros A. repeat case_match; by simplify_eq. }
    destruct (Z.ltb_spec r 0); simplify_eq; (split; [done|]); [lia|done].
  - destruct (make_tables_writable pic o) as [r p] eqn:A.
    assert (f p = f pic /\ reference p = reference pic) as [Hf Hr].
    { revert A. unfold make_tables_writable.
      destruct (fold_left _ _ _). by intros [= <- <-]. }
    destruct (Z.ltb_spec r 0); simplify_eq; (split; [done|]); [lia|done].
Qed.

Lemma ff_alloc_picture_ok s pic o ret s' pic' :
  ff_alloc_picture K s pic 0 o = Some (ret, s', pic') ->
  same_frame_state s s' /\
  (0 <= ret -> has_pixels pic' = true /\ reference pic' = reference pic).
Proof using Henomem.
  unfold ff_alloc_picture. cbn [Z.eqb negb]. intros H.
  destruct (negb (is_null _)); [done|].
  destruct (alloc_frame_buffer K s pic o) as [[[r s1] p1]|] eqn:A; [|done].
  apply alloc_frame_buffer_ok in A as [Hs A].
  destruct (Z.ltb_spec r 0); [simplify_eq; split; [done|lia]|].
  destruct (alloc_picture_finish K _ p1 o) as [[r2 s2] p2] eqn:B.
  apply alloc_picture_finish_ok in B as [-> B]. simplify_eq.
  split; [exact Hs|]. intros Hret.
  destruct (A ltac:(lia)) as [Hp Hr]. destruct (B Hret) as [Hf Hr2].
  split; [|congruence]. unfold has_pixels in *. by rewrite Hf.
Qed.

(** memset *)
Lemma memset_lookup mem off c n k :
  0 <= off -> 0 <= k < n -> (Z.to_nat (off + k) < length mem)%nat ->
  memset mem off c n !! Z.to_nat (off + k) = Some c.
Proof.
  intros Hoff Hk Hlen. unfold memset.
  rewrite list_lookup_inserts.
  - apply lookup_replicate_2. lia.
  - rewrite length_replicate. lia.
  - done.
Qed.

Lemma length_memset mem off c n : length (memset mem off c n) = length mem.
Proof. apply length_inserts. Qed.

Lemma memset_plane_data fr i c n : data (memset_plane fr i c n) = data fr.
Proof. unfold memset_plane. by repeat case_match. Qed.

Lemma memset_plane_linesize fr i c n :
  f_linesize (memset_plane fr i c n) = f_linesize fr.
Proof. unfold memset_plane. by repeat case_match. Qed.

Lemma memset_plane_buf0 fr i c n : buf0 (memset_plane fr i c n) = buf0 fr.
Proof. unfold memset_plane. by repeat case_match. Qed.

Lemma memset_plane_other fr i j c n :
  i <> j -> planes (memset_plane fr i c n) !! j = planes fr !! j.
Proof.
  intros H. unfold memset_plane. repeat case_match; try done.
  simpl. by apply list_lookup_insert_ne.
Qed.

Lemma memset_plane_filled fr i c n : filled (memset_plane fr i c n) i c n.
Proof.
  intros off mem k Hd Hp Hoff Hk Hlen.
  rewrite memset_plane_data in Hd. unfold memset_plane in Hp.
  rewrite Hd in Hp. destruct (planes fr !! i) as [mem0|] eqn:E.
  - simpl in Hp. rewrite list_lookup_insert_eq in Hp
      by (by apply lookup_lt_Some in E).
    simplify_eq. rewrite length_memset in Hlen. by apply memset_lookup.
  - by rewrite E in Hp.
Qed.

Lemma memset_plane_keeps fr i j c d n m :
  i <> j -> filled fr i c n -> filled (memset_plane fr j d m) i c n.
Proof.
  intros Hne H off mem k Hd Hp. rewrite memset_plane_data in Hd.
  rewrite memset_plane_other in Hp by done. by apply H.
Qed.

Lemma report_progress_f pic n fld :
  f (ff_thread_report_progress pic n fld) = f pic
  /\ reference (ff_thread_report_progress pic n fld) = reference pic.
Proof. unfold ff_thread_report_progress. by repeat case_match. Qed.

Lemma ff_find_unused_picture_state s shared :
  avctx_height (ff_find_unused_picture K s shared).2 = avctx_height s.
Proof.
  unfold ff_find_unused_picture. by repeat case_match.
Qed.

(** C6, as the code has it.  When ff_mpv_frame_start finds the last
    picture missing (no last picture, or one without pixel buffer, and the
    frame is not an I frame or is a field picture) and the allocation
    succeeds, the slot it makes the last picture holds a freshly allocated
    reference (reference = 3) whose luma plane has the value 0 in its
    first avctx->height * linesize[0] bytes and whose two chroma planes
    have the value 0x80 in their first
    (avctx->height >> v_chroma_shift) * linesize[i] bytes: a black frame,
    not a gray one. *)
Theorem dummy_last_picture_filled s v_chroma_shift o s' :
  length (picture s) = MAX_PICTURE_COUNT K ->
  AVERROR_INVALIDDATA K < 0 ->
  last_picture_missing K s = true ->
  frame_start_dummy_last K s v_chroma_shift o = Some (0, s') ->
  exists i pic,
    last_picture_ptr s' = Some i /\ picture s' !! i = Some pic /\
    has_pixels pic = true /\ reference pic = 3 /\
    filled (f pic) 0 0
      (int32 (avctx_height s * rd (f_linesize (f pic)) 0)) /\
    filled (f pic) 1 128
      (int32 (Z.shiftr (avctx_height s) v_chroma_shift
              * rd (f_linesize (f pic)) 1)) /\
    filled (f pic) 2 128
      (int32 (Z.shiftr (avctx_height s) v_chroma_shift
              * rd (f_linesize (f pic)) 2)).
Proof using Henomem.
  intros Hlen Herr Hmiss H. unfold frame_start_dummy_last in H.
  rewrite Hmiss in H.
  pose proof (ff_find_unused_picture_state s 0) as Hh1.
  destruct (ff_find_unused_picture K s 0) as [iz s1] eqn:Hfind.
  cbn [fst snd] in *.
  destruct (Z.ltb_spec iz 0) as [Hneg|Hpos]; [simplify_eq; lia|].
  destruct (ff_find_unused_picture_slot K s 0 iz s1 Hlen Herr Hfind Hpos)
    as (i & Heq & Hi0 & _ & _ & Hlen1 & _). subst iz.
  rewrite Nat2Z.id in H.
  assert (Hi : (i < length (picture s1))%nat) by lia.
  destruct (ff_alloc_picture K _ _ 0 o) as [[[r s2] pic2]|] eqn:A; [|done].
  apply ff_alloc_picture_ok in A as [(Hpool & Hh2 & Hl2 & _) A].
  destruct (Z.ltb_spec r 0); [simplify_eq|].
  destruct (A ltac:(lia)) as [Hpix Href]. cbn in Href, Hpool, Hh2, Hl2.
  injection H as <-.
  set (fr1 := memset_plane (f pic2) 0 0 _).
  set (fr2 := memset_plane fr1 1 128 _).
  set (fr3 := memset_plane fr2 2 128 _).
  set (picF := ff_thread_report_progress _ INT_MAX 1).
  assert (f picF = fr3 /\ reference picF = 3) as [HfF HrF].
  { subst picF. destruct (report_progress_f
      (ff_thread_report_progress (set_f pic2 fr3) INT_MAX 0) INT_MAX 1)
      as [-> ->].
    destruct (report_progress_f (set_f pic2 fr3) INT_MAX 0) as [-> ->].
    done. }
  exists i, picF. split; [by rewrite <- Hl2|].
  split.
  { unfold store. cbn. apply list_lookup_insert_eq. by rewrite Hpool. }
  split.
  { unfold has_pixels in *. rewrite HfF. subst fr3 fr2 fr1.
    by rewrite !memset_plane_buf0. }
  split; [done|].
  assert (Hls : f_linesize fr3 = f_linesize (f pic2)).
  { subst fr3 fr2 fr1. by rewrite !memset_plane_linesize. }
  rewrite HfF, Hls, <- Hh1, <- Hh2.
  split; [|split].
  - subst fr3 fr2. do 2 (apply memset_plane_keeps; [done|]).
    apply memset_plane_filled.
  - subst fr3. apply memset_plane_keeps; [done|].
    subst fr2. replace (f_linesize (f pic2)) with (f_linesize fr1)
      by (subst fr1; apply memset_plane_linesize).
    apply memset_plane_filled.
  - subst fr3. replace (f_linesize (f pic2)) with (f_linesize fr2)
      by (subst fr2 fr1; by rewrite !memset_plane_linesize).
    apply memset_plane_filled.
Qed.

End DummyFrames.

Lemma dummy_last_picture_filled_witness :
  exists i pic,
    Pictures.last_picture_ptr Pictures.sample_dummy_last = Some i /\
    Pictures.picture Pictures.sample_dummy_last !! i = Some pic /\
    Pictures.has_pixels pic = true /\ Pictures.reference pic = 3 /\
    Pictures.filled (Pictures.f pic) 0 0 32 /\
    Pictures.filled (Pictures.f pic) 1 128 8 /\
    Pictures.filled (Pictures.f pic) 2 128 8.
Proof.
  destruct (dummy_last_picture_filled Pictures.sample_constants
              ltac:(vm_compute; reflexivity) (Pictures.sample_ctx 2) 1
              Pictures.sample_env Pictures.sample_dummy_last)
    as (i & pic & H1 & H2 & H3 & H4 & H5 & H6 & H7).
  - reflexivity.
  - vm_compute. reflexivity.
  - vm_compute. reflexivity.
  - vm_compute. reflexivity.
  - exists i, pic. repeat split; try done.
    + assert (E : i = 0%nat) by (vm_compute in H1; congruence). subst i.
      vm_compute in H2. injection H2 as <-. exact H5.
    + assert (E : i = 0%nat) by (vm_compute in H1; congruence). subst i.
      vm_compute in H2. injection H2 as <-. exact H6.
    + assert (E : i = 0%nat) by (vm_compute in H1; congruence). subst i.
      vm_compute in H2. injection H2 as <-. exact H7.
Defined.

(** C6, as the specification words it, fails: the luma plane of the dummy
    last picture is set to 0, not to the mid-scale value. *)
Lemma spec_gray_counterexample :
  Pictures.planes (Pictures.f (Pictures.slot Pictures.sample_dummy_last 0))
  = [replicate 32 0; replicate 8 128; replicate 8 128] /\
  ~ Pictures.spec_gray
      (Pictures.f (Pictures.slot Pictures.sample_dummy_last 0)).
Proof.
  split; [vm_compute; reflexivity|].
  intros H. specialize (H 0%nat (replicate 32 0) ltac:(lia) eq_refl).
  apply Forall_inv in H. discriminate H.
Qed.

(** The dummy next picture of a B frame is not filled at all: its planes
    are as the allocator left them. *)
Lemma dummy_next_picture_not_filled :
  match Pictures.frame_start_dummy_next Pictures.sample_constants
          (Pictures.sample_ctx 3) Pictures.sample_env with
  | Some (ret, s') =>
      ret = 0 /\ Pictures.next_picture_ptr s' = Some 0%nat /\
      Pictures.planes (Pictures.f (Pictures.slot s' 0))
      = Pictures.planes (Pictures.gb_frame Pictures.sample_env)
  | None => False
  end.
Proof. vm_compute. repeat split. Qed.

(** ** The referenced rows and the progress barrier *)

Section ReferencedRows.
Import Motion.
Variable K : Constants.

Lemma FFMAX_max a b : FFMAX a b = Z.max a b.
Proof. unfold FFMAX. destruct (Z.gtb_spec a b); lia. Qed.

Lemma FFMIN_min a b : FFMIN a b = Z.min a b.
Proof. unfold FFMIN. destruct (Z.gtb_spec a b); lia. Qed.

Lemma handled_mvs_cases s mvs :
  handled_mvs K s = Some mvs -> mvs = 1 \/ mvs = 2 \/ mvs = 4.
Proof. unfold handled_mvs. repeat case_match; intros; simplify_eq; lia. Qed.

(** The result is a row of the picture. *)
Lemma lowest_row_range s dir :
  1 <= mb_height s <= INT_MAX ->
  0 <= ff_mpv_lowest_referenced_row K s dir <= mb_height s - 1.
Proof.
  intros H. unfold ff_mpv_lowest_referenced_row.
  rewrite (int32_small (mb_height s - 1)) by (unfold INT_MIN, INT_MAX in *; lia).
  destruct (handled_mvs K s); [|lia].
  destruct (fold_left _ _ _) as [my_max my_min].
  rewrite FFMIN_min, (FFMAX_max _ 0). lia.
Qed.

Lemma my_of_exact s dir i :
  Z.abs (mv_at s dir i 1) <= 2 ^ 29 ->
  my_of s dir i = mv_at s dir i 1 * (if quarter_sample s =? 0 then 2 else 1)
  /\ Z.abs (my_of s dir i) = mv_extent s dir i.
Proof.
  intros H. unfold my_of, mv_extent.
  change (2 ^ 29) with 536870912 in H.
  destruct (quarter_sample s =? 0).
  - rewrite Z.shiftl_mul_pow2 by lia. change (2 ^ 1) with 2.
    rewrite int32_small by (unfold INT_MIN, INT_MAX; lia). done.
  - rewrite Z.shiftl_0_r, Z.mul_1_r.
    rewrite int32_small by (unfold INT_MIN, INT_MAX; lia). done.
Qed.

(** The loop over the motion vectors: the larger of [-my_min] and
    [my_max] is the largest absolute value. *)
Lemma minmax_fold (g : Z -> Z) (B : Z) (l : list Z) : forall my_max my_min,
  (forall i, i ∈ l -> Z.abs (g i) <= B) ->
  let r := fold_left (fun st i =>
             let '(my_max, my_min) := st in
             (FFMAX my_max (g i), FFMIN my_min (g i))) l (my_max, my_min) in
  Z.max (- r.2) r.1
  = Z.max (Z.max (- my_min) my_max)
      (fold_right Z.max 0 ((fun i => Z.abs (g i)) <$> l))
    \/ (l = [] /\ r = (my_max, my_min)).
Proof.
  induction l as [|x l IH]; intros my_max my_min Hb; [by right|].
  left. cbn [fold_left fmap list_fmap fold_right]. cbv zeta in IH.
  destruct (IH (FFMAX my_max (g x)) (FFMIN my_min (g x))) as [E|[-> E]].
  { intros i Hi. apply Hb. by right. }
  - rewrite E. pose proof (FFMAX_max my_max (g x)).
    pose proof (FFMIN_min my_min (g x)). lia.
  - cbn [fold_left fmap list_fmap fold_right fst snd].
    rewrite FFMAX_max, FFMIN_min. lia.
Qed.

Lemma minmax_fold_bounds (g : Z -> Z) (B : Z) (l : list Z) :
  forall my_max my_min,
  (forall i, i ∈ l -> Z.abs (g i) <= B) ->
  let r := fold_left (fun st i =>
             let '(my_max, my_min) := st in
             (FFMAX my_max (g i), FFMIN my_min (g i))) l (my_max, my_min) in
  Z.min my_min (- B) <= r.2 <= my_min /\ (l <> [] -> r.2 <= B).
Proof.
  induction l as [|x l IH]; intros my_max my_min Hb; cbv zeta.
  { cbn. split; [lia|done]. }
  cbn [fold_left]. cbv zeta in IH.
  destruct (IH (FFMAX my_max (g x)) (FFMIN my_min (g x))) as [H1 H2].
  { intros i Hi. apply Hb. by right. }
  set (r := fold_left _ _ _) in *. pose proof (FFMIN_min my_min (g x)) as E.
  specialize (Hb x ltac:(by left)).
  split; [lia|]. intros _. lia.
Qed.

Lemma max_list_bound (h : Z -> Z) (B : Z) (l : list Z) :
  0 <= B -> (forall i, i ∈ l -> h i <= B) ->
  0 <= fold_right Z.max 0 (h <$> l) <= B.
Proof.
  intros HB. induction l as [|x l IH]; intros Hb; cbn; [lia|].
  specialize (Hb x ltac:(by left)) as Hx.
  destruct IH as [? ?]; [intros i Hi; apply Hb; by right|]. lia.
Qed.

(** In range, the code computes the row the specification describes. *)
Lemma lowest_row_spec s dir :
  0 <= mb_y s < mb_height s -> mb_height s <= 2 ^ 30 ->
  (forall i, 0 <= i < 4 -> Z.abs (mv_at s dir i 1) <= 2 ^ 29) ->
  ff_mpv_lowest_referenced_row K s dir = spec_lowest_row K s dir.
Proof.
  intros Hy Hh Hmv. unfold ff_mpv_lowest_referenced_row, spec_lowest_row.
  change (2 ^ 30) with 1073741824 in Hh.
  rewrite (int32_small (mb_height s - 1)) by (unfold INT_MIN, INT_MAX; lia).
  destruct (handled_mvs K s) as [mvs|] eqn:Hm; [|done].
  assert (Hmvs : 1 <= mvs <= 4)
    by (destruct (handled_mvs_cases _ _ Hm) as [->|[->| ->]]; lia).
  assert (Hex : forall i, i ∈ seqZ 0 mvs ->
            Z.abs (my_of s dir i) <= 1073741824).
  { intros i Hi. apply elem_of_seqZ in Hi.
    destruct (my_of_exact s dir i (Hmv i ltac:(lia))) as [E1 _].
    rewrite E1. specialize (Hmv i ltac:(lia)).
    change (2 ^ 29) with 536870912 in Hmv.
    destruct (quarter_sample s =? 0); lia. }
  assert (Hext : (fun i => Z.abs (my_of s dir i)) <$> seqZ 0 mvs
                 = mv_extent s dir <$> seqZ 0 mvs).
  { apply list_fmap_ext. intros k i Hi.
    apply list_elem_of_lookup_2, elem_of_seqZ in Hi.
    by destruct (my_of_exact s dir i (Hmv i ltac:(lia))) as [_ E2]. }
  pose proof (minmax_fold (my_of s dir) _ (seqZ 0 mvs) INT_MIN INT_MAX Hex)
    as Hfold.
  pose proof (minmax_fold_bounds (my_of s dir) _ (seqZ 0 mvs) INT_MIN INT_MAX
                Hex) as [Hlo Hhi].
  pose proof (max_list_bound (fun i => Z.abs (my_of s dir i)) 1073741824
                (seqZ 0 mvs) ltac:(lia) Hex) as Hmax.
  cbv zeta in Hfold, Hlo, Hhi. rewrite Hext in Hfold, Hmax.
  destruct (fold_left _ _ _) as [my_max my_min]. cbn [fst snd] in *.
  assert (Hne : seqZ 0 mvs <> []).
  { rewrite seqZ_cons by lia. done. }
  specialize (Hhi Hne).
  destruct Hfold as [Hfold|[? _]]; [|done].
  unfold INT_MIN, INT_MAX in Hfold, Hlo.
  set (ext := fold_right Z.max 0 (mv_extent s dir <$> seqZ 0 mvs)) in *.
  assert (He : Z.max (- my_min) my_max = ext) by lia.
  unfold reached_row.
  rewrite FFMIN_min, !FFMAX_max.
  rewrite (int32_small (- my_min)) by (unfold INT_MIN, INT_MAX; lia).
  rewrite He.
  rewrite (int32_small (ext + 63)) by (unfold INT_MIN, INT_MAX; lia).
  rewrite Z.shiftr_div_pow2 by lia. change (2 ^ 6) with 64.
  rewrite int32_small; [done|].
  unfold INT_MIN, INT_MAX. Z.div_mod_to_equations. lia.
Qed.

(** The row is at least the row every single vector reaches. *)
Lemma spec_lowest_row_bound s dir mvs i :
  handled_mvs K s = Some mvs -> 0 <= i < mvs ->
  reached_row s (mv_extent s dir i) <= spec_lowest_row K s dir.
Proof.
  intros Hm Hi. unfold spec_lowest_row. rewrite Hm. unfold reached_row.
  assert (mv_extent s dir i
          <= fold_right Z.max 0 (mv_extent s dir <$> seqZ 0 mvs)) as Hle.
  { assert (Hin : mv_extent s dir i ∈ mv_extent s dir <$> seqZ 0 mvs).
    { apply list_elem_of_fmap. exists i. split; [done|].
      apply elem_of_seqZ. lia. }
    revert Hin. generalize (mv_extent s dir <$> seqZ 0 mvs).
    generalize (mv_extent s dir i). clear. intros x l.
    induction l as [|y l IH]; intros Hin; [inversion Hin|].
    apply elem_of_cons in Hin as [->|Hin]; simpl; [lia|].
    specialize (IH Hin). lia. }
  assert ((mv_extent s dir i + 63) / 64
          <= (fold_right Z.max 0 (mv_extent s dir <$> seqZ 0 mvs) + 63) / 64)
    by (apply Z.div_le_mono; lia).
  lia.
Qed.

(** *** The progress barrier *)

Lemma awaited_step row c c' :
  step c c' -> awaited row c -> awaited row c'.
Proof.
  intros Hstep Hinv. destruct Hstep as [d r es p Hr|d es p|es p p' H1 H2];
    intros pre dir post Hes; cbn [fst snd] in *.
  - destruct (Hinv (Await d r :: pre) dir post) as [Hin|Hp];
      [by rewrite Hes| |by right].
    apply elem_of_cons in Hin as [Heq|Hin]; [|by left].
    right. by simplify_eq.
  - destruct (Hinv (Compensate d :: pre) dir post) as [Hin|Hp];
      [by rewrite Hes| |by right].
    apply elem_of_cons in Hin as [Heq|Hin]; [done|by left].
  - destruct (Hinv pre dir post Hes) as [Hin|Hp]; [by left|right].
    cbn [fst snd] in Hp. revert Hp. unfold progress_of.
    destruct (dir =? 0); lia.
Qed.

Lemma awaited_steps row c c' :
  rtc step c c' -> awaited row c -> awaited row c'.
Proof.
  induction 1 as [|c1 c2 c3 Hs _ IH]; [done|].
  intros H. apply IH. by apply (awaited_step row c1).
Qed.

(** Under frame threading every Compensate of the macroblock has its
    Await before it. *)
Ltac split_events :=
  repeat match goal with
  | H : _ :: _ = ?pre ++ _ :: _ |- _ =>
      destruct pre as [|? pre]; cbn [app] in H; simplify_eq
  | H : [] = ?pre ++ _ :: _ |- _ => destruct pre; discriminate H
  end.

Lemma mpv_decode_mb_motion_awaited s p :
  frame_threading K s = true ->
  awaited (ff_mpv_lowest_referenced_row K s) (mpv_decode_mb_motion K s, p).
Proof.
  intros Hft pre dir post. cbn [fst snd]. unfold mpv_decode_mb_motion.
  unfold frame_threading in Hft. rewrite Hft.
  destruct (negb (mb_intra s =? 0)); [by destruct pre|].
  destruct (negb (encoding s =? 0)); [by destruct pre|].
  destruct (negb (Z.land (mv_dir s) (MV_DIR_FORWARD K) =? 0)),
    (negb (Z.land (mv_dir s) (MV_DIR_BACKWARD K) =? 0)); cbn [app];
    intros H; left; split_events; apply list_elem_of_In; simpl; auto.
Qed.


End ReferencedRows.


(** ** The duplicate contexts *)

Section DuplicateContext.
Import Dup.
Context {R : Type}.
Variable K : Pictures.Constants.

(** C9, as the code has it.  After ff_update_duplicate_context(dst, src)
    every field that backup_duplicate_context copies keeps the value it
    had in dst: the scratch pointers, the block array and the ac_val
    buffers, the row range start_mb_y and end_mb_y, and also me.map,
    me.score_map, me.map_generation, pb, dct_error_sum and dct_count.
    The one exception are the six scratch pointers when dst had no
    edge-emulation buffer: they are then what frame_size_alloc leaves,
    and its error is returned.  The pblocks point into the blocks of dst
    (the two chroma blocks exchanged for the codec tag VCR2), and the
    remaining fields are those of src. *)
Theorem ff_update_duplicate_context_frame
    (bak dst src : MpegEncContext R) (o : Pictures.Env) :
  let ret := fst (ff_update_duplicate_context K bak dst src o) in
  let dst' := snd (ff_update_duplicate_context K bak dst src o) in
  private_kept dst dst' /\
  (if Pictures.is_null (Pictures.edge_emu_buffer (scratch dst))
   then scratch dst'
        = snd (Pictures.frame_size_alloc K (scratch dst) (linesize src) o)
        /\ ret = (let r := fst (Pictures.frame_size_alloc K (scratch dst)
                                  (linesize src) o) in
                  if r <? 0 then r else 0)
   else scratch dst' = scratch dst /\ ret = 0) /\
  pblocks dst' = pblocks_of dst src /\
  avctx_codec_tag dst' = avctx_codec_tag src /\
  linesize dst' = linesize src /\
  rest dst' = rest src.
Proof.
  cbv zeta. unfold ff_update_duplicate_context.
  set (d0 := set_pblocks _ _).
  set (d1 := if avctx_codec_tag d0 =? AV_RL32_VCR2 then exchange_uv d0
             else d0).
  assert (H1 : scratch d1 = scratch dst /\ private_kept dst d1 /\
               pblocks d1 = pblocks_of dst src /\
               avctx_codec_tag d1 = avctx_codec_tag src /\
               linesize d1 = linesize src /\ rest d1 = rest src).
  { subst d1 d0. unfold pblocks_of, private_kept.
    cbn [backup_duplicate_context set_pblocks avctx_codec_tag].
    destruct (avctx_codec_tag src =? AV_RL32_VCR2); by repeat split. }
  destruct H1 as (Hs & Hk & Hp & Hc & Hl & Hr).
  rewrite Hs, Hl.
  destruct (Pictures.is_null (Pictures.edge_emu_buffer (scratch dst))).
  - destruct (Pictures.frame_size_alloc K _ _ o) as [r sc].
    cbn [fst snd].
    destruct (r <? 0); cbn [fst snd]; (split; [exact Hk|by repeat split]).
  - cbn [fst snd]. split; [exact Hk|by repeat split].
Qed.

End DuplicateContext.

(** C9, as the specification words it, fails twice: me.map_generation, pb
    and dct_count are kept from dst and not taken from src; and a dst
    without edge-emulation buffer gets new scratch pointers. *)
Lemma spec_update_counterexample :
  let dst' := snd (Dup.ff_update_duplicate_context Pictures.sample_constants
                     Dup.sample_src (Dup.sample_dst (Some 1000))
                     Dup.sample_src Pictures.sample_env) in
  let dst'' := snd (Dup.ff_update_duplicate_context Pictures.sample_constants
                      Dup.sample_src (Dup.sample_dst None)
                      Dup.sample_src Pictures.sample_env) in
  Dup.me_map_generation dst' = 5 /\
  Dup.me_map_generation Dup.sample_src = 7 /\
  ~ Dup.spec_update (Dup.sample_dst (Some 1000)) Dup.sample_src dst' /\
  Pictures.edge_emu_buffer (Dup.scratch dst'') = Some 4096 /\
  ~ Dup.spec_update (Dup.sample_dst None) Dup.sample_src dst''.
Proof.
  cbv zeta. split; [reflexivity|]. split; [reflexivity|]. split; [|split].
  - intros [_ (H & _)]. vm_compute in H. discriminate H.
  - reflexivity.
  - intros [(H & _) _]. vm_compute in H. discriminate H.
Qed.

(** ** More on the dequantizers *)

Section DequantMore.
Import Dequant DequantSpec.

Lemma length_fold_scan pos L idx : forall b,
  length (fold_left (scan_step pos L) idx b) = length b.
Proof.
  induction idx as [|i idx IH]; intros b; cbn [fold_left]; [done|].
  rewrite IH. unfold scan_step. destruct (rd b (pos i) =? 0); [done|].
  apply length_wr.
Qed.

Lemma upto_NoDup lo n : NoDup ((fun i : Z => i) <$> upto lo n).
Proof. rewrite list_fmap_id. apply NoDup_seqZ. Qed.

Lemma elem_of_upto lo n i : i ∈ (fun i : Z => i) <$> upto lo n <-> lo <= i <= n.
Proof. rewrite list_fmap_id. unfold upto. rewrite elem_of_seqZ. lia. Qed.

Lemma rd_dc_scaled_ne s b n j : j <> 0 -> rd (dc_scaled s b n) j = rd b j.
Proof.
  intros Hj. unfold dc_scaled. destruct (n <? 4); apply rd_wr_ne; congruence.
Qed.

Lemma rd_dc_scaled_0 s b n :
  (0 < length b)%nat ->
  rd (dc_scaled s b n) 0
  = int16 (rd b 0 * (if n <? 4 then y_dc_scale s else c_dc_scale s)).
Proof.
  intros Hlen. unfold dc_scaled.
  destruct (n <? 4); rewrite rd_wr_eq by lia; apply int16_int32.
Qed.

(** In range, the level of the block-based variants is the formula. *)
Lemma level_h263_exact qscale qadd coeff j :
  is_int16 coeff -> coeff <> 0 ->
  0 <= qscale <= 16383 -> -1 <= qadd <= 16383 ->
  level_h263 (int32 (Z.shiftl qscale 1)) qadd coeff j
  = h263_level coeff qscale qadd.
Proof.
  unfold is_int16, level_h263, h263_level. intros Hc Hnz Hq Ha.
  rewrite Z.shiftl_mul_pow2 by lia. change (2 ^ 1) with 2.
  rewrite (int32_small (qscale * 2)) by (unfold INT_MIN, INT_MAX; lia).
  assert (Hm : -1073741824 <= coeff * (qscale * 2) <= 1073741824).
  { assert (-32768 * (qscale * 2) <= coeff * (qscale * 2)
            <= 32767 * (qscale * 2))
      by (split; apply Z.mul_le_mono_nonneg_r; lia).
    lia. }
  rewrite (int32_small (coeff * (qscale * 2)))
    by (unfold INT_MIN, INT_MAX; lia).
  destruct (Z.ltb_spec coeff 0).
  - rewrite int32_small by (unfold INT_MIN, INT_MAX; lia).
    rewrite Z.sgn_neg by lia. lia.
  - rewrite int32_small by (unfold INT_MIN, INT_MAX; lia).
    rewrite Z.sgn_pos by lia. lia.
Qed.

Lemma h263_qadd_range qscale :
  0 <= qscale <= 16383 ->
  Z.lor (int32 (qscale - 1)) 1 = h263_qadd qscale
  /\ -1 <= h263_qadd qscale <= 16383.
Proof.
  intros Hq. rewrite int32_small by (unfold INT_MIN, INT_MAX; lia).
  split; [done|]. unfold h263_qadd.
  destruct (lor_1_cases (qscale - 1)) as [E|E]; rewrite E; lia.
Qed.

(** What the loop of a block-based variant leaves at raster position
    [i], for a block whose coefficients it reads unchanged. *)
Lemma h263_scan_at qscale qadd lo last b0 b i :
  Forall is_int16 b0 -> 0 <= qscale <= 16383 -> -1 <= qadd <= 16383 ->
  (forall k, lo <= k -> rd b k = rd b0 k) ->
  lo <= i <= last ->
  rd (fold_left (scan_step (fun i => i)
                   (level_h263 (int32 (Z.shiftl qscale 1)) qadd))
        (upto lo last) b) i
  = int16 (h263_level (rd b0 i) qscale qadd).
Proof.
  intros Hb Hq Ha Hsame Hi.
  rewrite fold_scan_at by (apply upto_NoDup || by apply elem_of_upto).
  rewrite Hsame by lia. unfold scan_val.
  destruct (Z.eqb_spec (rd b0 i) 0) as [E|E].
  - rewrite E. reflexivity.
  - f_equal. apply level_h263_exact; try done. by apply rd_is_int16.
Qed.

Lemma h263_scan_after qscale qadd lo last b i :
  last < i ->
  rd (fold_left (scan_step (fun i => i)
                   (level_h263 (int32 (Z.shiftl qscale 1)) qadd))
        (upto lo last) b) i
  = rd b i.
Proof.
  intros Hi. apply fold_scan_other. rewrite elem_of_upto. lia.
Qed.

(** X1.  The block-based (h263) dequantizers, for a last index that is
    not negative and a quantizer scale within 0..16383: a coefficient c
    at raster position 0..last (inter) or 1..last (intra) becomes
    2 * qscale * c + sign(c) * qadd, reduced to the 16 bits of the
    block, where qadd is (qscale - 1) | 1, or 0 for an intra block with
    advanced intra coding; [last] is raster_end of the last index, or 63
    for an intra block with AC prediction; the coefficients past [last]
    are left as they are.  The intra DC coefficient is multiplied by the
    luma or chroma DC scale, unless advanced intra coding is on. *)
Theorem h263_dequantized s block n qscale :
  Forall is_int16 block -> (0 < length block)%nat ->
  0 <= rd (block_last_index s) n ->
  0 <= qscale <= 16383 ->
  let last := rd (raster_end (inter_scantable s)) (rd (block_last_index s) n) in
  (exists out,
     dct_unquantize_h263_inter_c s block n qscale = Some out /\
     (forall i, 0 <= i <= last ->
        rd out i = int16 (h263_level (rd block i) qscale (h263_qadd qscale))) /\
     (forall i, last < i -> rd out i = rd block i)) /\
  (exists out,
     let last_intra := if ac_pred s =? 0 then last else 63 in
     let qadd := if h263_aic s =? 0 then h263_qadd qscale else 0 in
     dct_unquantize_h263_intra_c s block n qscale = Some out /\
     rd out 0
       = (if h263_aic s =? 0
          then int16 (rd block 0
                      * (if n <? 4 then y_dc_scale s else c_dc_scale s))
          else rd block 0) /\
     (forall i, 1 <= i <= last_intra ->
        rd out i = int16 (h263_level (rd block i) qscale qadd)) /\
     (forall i, 1 <= i -> last_intra < i -> rd out i = rd block i)).
Proof.
  intros Hb Hlen Hlast Hq last.
  destruct (h263_qadd_range qscale Hq) as [Eq Hqa].
  assert (Hnot : (rd (block_last_index s) n <? 0) = false)
    by (apply Z.ltb_ge; lia).
  split.
  - eexists. rewrite h263_inter_as_scan, Hnot. cbv zeta.
    split; [reflexivity|]. rewrite Eq. split.
    + intros i Hi. by apply h263_scan_at.
    + intros i Hi. by apply h263_scan_after.
  - eexists. cbv zeta. rewrite h263_intra_as_scan, Hnot. cbv zeta.
    split; [reflexivity|]. rewrite Eq.
    set (lastI := if ac_pred s =? 0 then _ else 63).
    destruct (h263_aic s =? 0).
    + split; [|split].
      * rewrite fold_scan_other by (rewrite elem_of_upto; lia).
        by apply rd_dc_scaled_0.
      * intros i Hi. apply h263_scan_at; try done.
        intros k Hk. apply rd_dc_scaled_ne. lia.
      * intros i Hi1 Hi. rewrite h263_scan_after by done.
        apply rd_dc_scaled_ne. lia.
    + split; [|split].
      * apply fold_scan_other. rewrite elem_of_upto. lia.
      * intros i Hi. apply h263_scan_at; try done; lia.
      * intros i _ Hi. by apply h263_scan_after.
Qed.

(** The simple (mpeg1) levels are odd. *)
Lemma lor_1_odd x : Z.odd (Z.lor x 1) = true.
Proof. rewrite <- Z.bit0_odd, Z.lor_spec. apply orb_true_r. Qed.

Lemma odd_int32 x : Z.odd (int32 x) = Z.odd x.
Proof. by rewrite <- !Z.bit0_odd, !Z.bit0_eqb, int32_mod2. Qed.

Lemma odd_int16 x : Z.odd (int16 x) = Z.odd x.
Proof. by rewrite <- !Z.bit0_odd, !Z.bit0_eqb, int16_mod2. Qed.

Lemma level_mpeg1_intra_odd qscale qm level j :
  Z.odd (int16 (level_mpeg1_intra qscale qm level j)) = true.
Proof.
  rewrite odd_int16. unfold level_mpeg1_intra.
  destruct (level <? 0); cbv zeta;
    rewrite ?odd_int32, ?Z.odd_opp; apply lor_1_odd.
Qed.

Lemma level_mpeg1_inter_odd qscale qm level j :
  Z.odd (int16 (level_mpeg1_inter qscale qm level j)) = true.
Proof.
  rewrite odd_int16. unfold level_mpeg1_inter.
  destruct (level <? 0); cbv zeta;
    rewrite ?odd_int32, ?Z.odd_opp; apply lor_1_odd.
Qed.

(** A loop whose levels are all odd: a coefficient that is odd stays
    odd, and a nonzero one at a visited position becomes odd. *)
Lemma fold_scan_odd pos L idx :
  (forall v j, Z.odd (int16 (L v j)) = true) ->
  forall b j,
    (Z.odd (rd b j) = true \/ (rd b j <> 0 /\ j ∈ pos <$> idx)) ->
    Z.odd (rd (fold_left (scan_step pos L) idx b) j) = true.
Proof.
  intros HL. induction idx as [|i idx IH]; intros b j H; cbn [fold_left].
  - destruct H as [H|[_ H]]; [done|inversion H].
  - apply IH. destruct (decide (j = pos i)) as [->|Hne].
    + rewrite scan_step_at. unfold scan_val.
      destruct (Z.eqb_spec (rd b (pos i)) 0) as [E|E].
      * left. destruct H as [H|[H _]]; [|done]. by rewrite E in H.
      * left. apply HL.
    + rewrite scan_step_other by done.
      destruct H as [H|[H Hin]]; [by left|right]. split; [done|].
      rewrite fmap_cons in Hin. by apply elem_of_cons in Hin as [?|?].
Qed.

(** X2.  Every nonzero coefficient that the simple (mpeg1) dequantizers
    process comes out odd, hence nonzero, whatever the quantizer scale
    and the matrix, also where the products overflow: the inter variant
    at the scan positions 0..last index, the intra variant at the scan
    positions 1..last index other than the DC position. *)
Theorem mpeg1_levels_odd s block n qscale j :
  rd block j <> 0 ->
  (j ∈ visited s 0 (rd (block_last_index s) n) ->
   Z.odd (rd (dct_unquantize_mpeg1_inter_c s block n qscale) j) = true) /\
  (j ∈ visited s 1 (rd (block_last_index s) n) -> j <> 0 ->
   Z.odd (rd (dct_unquantize_mpeg1_intra_c s block n qscale) j) = true).
Proof.
  intros Hnz. split.
  - intros Hj. rewrite mpeg1_inter_as_scan. apply fold_scan_odd.
    + intros. apply level_mpeg1_inter_odd.
    + by right.
  - intros Hj Hj0. rewrite mpeg1_intra_as_scan. apply fold_scan_odd.
    + intros. apply level_mpeg1_intra_odd.
    + right. by rewrite rd_dc_scaled_ne.
Qed.

(** Sums of coefficients. *)
Lemma level_sum_cons b j js : level_sum b (j :: js) = rd b j + level_sum b js.
Proof. reflexivity. Qed.

Lemma level_sum_Permutation b js ks :
  js ≡ₚ ks -> level_sum b js = level_sum b ks.
Proof.
  induction 1 as [|x l l' _ IH|x y l|l l' l'' _ IH1 _ IH2];
    rewrite ?level_sum_cons; lia || done.
Qed.

Lemma level_sum_zero b js :
  (forall j, j ∈ js -> rd b j = 0) -> level_sum b js = 0.
Proof.
  induction js as [|j js IH]; intros H; [done|].
  rewrite level_sum_cons, (H j), IH; [done| |by left].
  intros k Hk. apply H. by right.
Qed.

(** The sum over [l] is the sum over the positions [V] away from which
    the block is zero. *)
Lemma level_sum_support b V : forall l,
  NoDup V -> NoDup l -> (forall j, j ∈ V -> j ∈ l) ->
  (forall j, j ∈ l -> j ∉ V -> rd b j = 0) ->
  level_sum b l = level_sum b V.
Proof.
  induction V as [|x V IH]; intros l HV Hl Hsub Hz.
  - apply level_sum_zero. intros j Hj. apply Hz; [done|]. by inversion 1.
  - apply NoDup_cons in HV as [Hx HV].
    destruct (proj1 (elem_of_Permutation l x)) as [k Hk];
      [apply Hsub; by left|].
    rewrite (level_sum_Permutation b _ _ Hk), !level_sum_cons. f_equal.
    rewrite Hk in Hl. apply NoDup_cons in Hl as [Hxk Hl].
    apply IH; try done.
    + intros j Hj. assert (j ∈ x :: k) as Hin
        by (rewrite <- Hk; apply Hsub; by right).
      apply elem_of_cons in Hin as [->|?]; done.
    + intros j Hj Hn. apply Hz; [rewrite Hk; by right|].
      intros Hin. apply elem_of_cons in Hin as [->|?]; done.
Qed.

Lemma level_sum_wr b k v : forall l,
  NoDup l -> k ∈ l -> 0 <= k < Z.of_nat (length b) ->
  level_sum (wr b k v) l = level_sum b l - rd b k + v.
Proof.
  induction l as [|x l IH]; intros Hnd Hin Hk; [inversion Hin|].
  apply NoDup_cons in Hnd as [Hx Hnd]. rewrite !level_sum_cons.
  destruct (decide (x = k)) as [->|Hne].
  - rewrite rd_wr_eq by done.
    assert (E : level_sum (wr b k v) l = level_sum b l).
    { clear IH Hnd Hin. induction l as [|y l IH]; [done|].
      apply not_elem_of_cons in Hx as [Hy Hx].
      rewrite !level_sum_cons, IH by done. by rewrite rd_wr_ne. }
    lia.
  - apply elem_of_cons in Hin as [?|Hin]; [done|].
    rewrite IH by done. rewrite rd_wr_ne by done. lia.
Qed.

Lemma odd_lxor_bit x bit :
  bit = 0 \/ bit = 1 -> Z.odd (Z.lxor x bit) = xorb (Z.odd x) (Z.odd bit).
Proof. intros _. rewrite <- !Z.bit0_odd. apply Z.lxor_spec. Qed.

(** The block after the mismatch control: its sum over the 64 positions
    changes parity exactly when the running sum is odd. *)
Lemma mismatch_control_sum pre sum :
  length pre = 64%nat ->
  Z.odd (block_sum (mismatch_control (pre, sum)))
  = xorb (Z.odd (block_sum pre)) (Z.odd sum).
Proof.
  intros Hlen. unfold mismatch_control, block_sum.
  rewrite level_sum_wr; [|apply NoDup_seqZ|apply elem_of_seqZ; lia|lia].
  rewrite Z.odd_add, Z.odd_sub, odd_int16, odd_lxor_bit.
  2:{ rewrite land_1_odd. destruct (Z.odd sum); simpl; lia. }
  rewrite land_1_odd.
  destruct (Z.odd (level_sum pre _)), (Z.odd (rd pre 63)), (Z.odd sum);
    reflexivity.
Qed.

(** X3.  The mismatch control makes the sum of the coefficients odd.
    For a 64-coefficient block whose coefficients away from the scan
    positions 0..last index are zero, over a scan table without repeated
    positions: after dct_unquantize_mpeg2_inter_c the sum of the 64
    coefficients is odd; after dct_unquantize_mpeg2_intra_bitexact, whose
    running sum leaves the DC coefficient out, the sum of the 64
    coefficients is odd exactly when the scaled DC coefficient is
    even. *)
Theorem mpeg2_mismatch_sum_odd s block n qscale :
  length block = 64%nat ->
  NoDup (visited s 0 (mpeg2_nCoeffs s n)) ->
  Forall (fun j => 0 <= j < 64) (visited s 0 (mpeg2_nCoeffs s n)) ->
  (forall j, 0 <= j < 64 -> j ∉ visited s 0 (mpeg2_nCoeffs s n) ->
     rd block j = 0) ->
  Z.odd (block_sum (dct_unquantize_mpeg2_inter_c s block n qscale)) = true /\
  (0 <= mpeg2_nCoeffs s n -> rd (permutated (intra_scantable s)) 0 = 0 ->
   Z.odd (block_sum (dct_unquantize_mpeg2_intra_bitexact s block n qscale))
   = negb (Z.odd (rd (dct_unquantize_mpeg2_intra_bitexact s block n qscale)
                    0))).
Proof.
  intros Hlen Hnd Hrange Hzero. rewrite Forall_forall in Hrange.
  set (pos := rd (permutated (intra_scantable s))).
  split.
  - unfold dct_unquantize_mpeg2_inter_c. rewrite mpeg2_inter_as_scan.
    fold pos. set (L := level_mpeg2_inter qscale (inter_matrix s)).
    pose proof (fold_scan_sum_fst pos L (upto 0 (mpeg2_nCoeffs s n))
                  block (-1)) as F.
    pose proof (fold_scan_sum_odd pos L (upto 0 (mpeg2_nCoeffs s n))
                  block (-1) Hnd) as O.
    destruct (fold_left (scan_step_sum pos L) _ _) as [pre sum].
    cbn [fst snd] in *. subst pre.
    rewrite mismatch_control_sum by (by rewrite length_fold_scan).
    rewrite O. unfold block_sum.
    rewrite (level_sum_support _ (visited s 0 (mpeg2_nCoeffs s n))); try done.
    + fold pos. unfold visited. fold pos.
      by destruct (Z.odd (level_sum _ _)).
    + apply NoDup_seqZ.
    + intros j Hj. apply elem_of_seqZ. specialize (Hrange j Hj). lia.
    + intros j Hj Hn. rewrite fold_scan_other by done.
      apply Hzero; [|done]. apply elem_of_seqZ in Hj. lia.
  - intros Hn0 Hp0. unfold dct_unquantize_mpeg2_intra_bitexact.
    rewrite mpeg2_intra_bitexact_as_scan. fold pos.
    set (L := level_mpeg2_intra qscale (intra_matrix s)).
    pose proof (fold_scan_sum_fst pos L (upto 1 (mpeg2_nCoeffs s n))
                  (dc_scaled s block n) (-1)) as F.
    pose proof (fold_scan_sum_odd pos L (upto 1 (mpeg2_nCoeffs s n))
                  (dc_scaled s block n) (-1)
                  (visited_1_NoDup s _ Hnd)) as O.
    rewrite visited_0_cons in Hnd, Hrange, Hzero by done.
    unfold pos in Hp0. rewrite Hp0 in Hnd, Hrange, Hzero.
    apply NoDup_cons in Hnd as [H0 Hnd1].
    destruct (fold_left (scan_step_sum pos L) _ _) as [pre sum].
    cbn [fst snd] in *. subst pre.
    set (pre := fold_left (scan_step pos L) _ _) in *.
    assert (Hlp : length pre = 64%nat).
    { subst pre. rewrite length_fold_scan. unfold dc_scaled.
      destruct (n <? 4); by rewrite length_wr. }
    rewrite mismatch_control_sum by done.
    assert (E0 : rd (mismatch_control (pre, sum)) 0 = rd pre 0).
    { unfold mismatch_control. by apply rd_wr_ne. }
    rewrite E0, O. unfold block_sum.
    rewrite (level_sum_support _ (0 :: visited s 1 (mpeg2_nCoeffs s n)));
      try done.
    + rewrite level_sum_cons, Z.odd_add. unfold visited. fold pos.
      by destruct (Z.odd (rd pre 0)), (Z.odd (level_sum _ _)).
    + by apply NoDup_cons.
    + apply NoDup_seqZ.
    + intros j Hj. apply elem_of_seqZ. specialize (Hrange j Hj). lia.
    + intros j Hj Hn. apply not_elem_of_cons in Hn as [Hj0 Hn].
      subst pre. rewrite fold_scan_other by done.
      rewrite rd_dc_scaled_ne by done.
      apply Hzero; [apply elem_of_seqZ in Hj; lia|].
      by apply not_elem_of_cons.
Qed.

End DequantMore.

Lemma h263_dequantized_witness :
  exists out,
    Dequant.dct_unquantize_h263_inter_c (Dequant.example_ctx 16)
      DequantSpec.sample_block 0 5 = Some out /\
    rd out 0 = 35 /\ rd out 8 = -55 /\ rd out 16 = 75 /\ rd out 24 = 0.
Proof.
  destruct (h263_dequantized (Dequant.example_ctx 16)
              DequantSpec.sample_block 0 5)
    as [(out & E & Hin & _) _].
  - apply (bool_decide_unpack _). vm_compute. exact I.
  - vm_compute. lia.
  - vm_compute. discriminate.
  - lia.
  - exists out. split; [exact E|].
    repeat split; (etransitivity; [apply Hin; vm_compute; split; discriminate|]);
      vm_compute; reflexivity.
Defined.

Lemma mpeg1_levels_odd_witness :
  Z.odd (rd (Dequant.dct_unquantize_mpeg1_inter_c (Dequant.example_ctx 16)
               DequantSpec.sample_block 0 5) 8) = true.
Proof.
  destruct (mpeg1_levels_odd (Dequant.example_ctx 16)
              DequantSpec.sample_block 0 5 8) as [Hinter _].
  - vm_compute. discriminate.
  - apply Hinter. apply (list_elem_of_lookup_2 _ 1%nat). reflexivity.
Defined.

Lemma mpeg2_mismatch_sum_odd_witness :
  Z.odd (DequantSpec.block_sum
           (Dequant.dct_unquantize_mpeg2_inter_c (Dequant.example_ctx 16)
              DequantSpec.sample_block 0 5)) = true.
Proof.
  destruct (mpeg2_mismatch_sum_odd (Dequant.example_ctx 16)
              DequantSpec.sample_block 0 5) as [Hinter _];
    [..|exact Hinter].
  - reflexivity.
  - apply (bool_decide_unpack _). vm_compute. exact I.
  - apply (bool_decide_unpack _). vm_compute. exact I.
  - intros j Hj Hn. exfalso. apply Hn.
    assert (Hc : exists k : nat, j = Z.of_nat k /\ (k < 64)%nat)
      by (exists (Z.to_nat j); lia).
    destruct Hc as (k & -> & Hk).
    do 64 (destruct k as [|k]; [apply (bool_decide_unpack _); vm_compute; exact I|]).
    lia.
Defined.

(** ** The picture geometry *)

Section IntArith.
Import Geometry.

Lemma iadd_exact a b : INT_MIN <= a + b <= INT_MAX -> iadd a b = a + b.
Proof. apply int32_small. Qed.

Lemma isub_exact a b : INT_MIN <= a - b <= INT_MAX -> isub a b = a - b.
Proof. apply int32_small. Qed.

Lemma imul_exact a b : INT_MIN <= a * b <= INT_MAX -> imul a b = a * b.
Proof. apply int32_small. Qed.

End IntArith.

(** The row boundaries for any number of slices. *)
Section SliceRowsAny.
Import Slices.
Variables mb_height nb_slices : Z.
Hypothesis Hrows : 0 <= mb_height.
Hypothesis Hslices : 1 <= nb_slices.
Hypothesis Hint : mb_height * nb_slices + nb_slices / 2 <= INT_MAX.

Local Abbreviation bound := (row_boundary mb_height nb_slices).

Lemma any_start_exact i :
  0 <= i <= nb_slices -> slice_start_mb_y mb_height nb_slices i = bound i.
Proof using All.
  intros Hi. unfold slice_start_mb_y, row_boundary.
  rewrite (Z.quot_div_nonneg nb_slices 2) by lia.
  assert (0 <= mb_height * i <= mb_height * nb_slices) by nia.
  assert (0 <= nb_slices / 2) by (apply Z.div_pos; lia).
  rewrite (int32_small (mb_height * i)) by (unfold INT_MIN; lia).
  rewrite int32_small by (unfold INT_MIN; lia).
  apply Z.quot_div_nonneg; lia.
Qed.

Lemma any_end_exact i :
  0 <= i < nb_slices ->
  slice_end_mb_y mb_height nb_slices i = bound (i + 1).
Proof using All.
  intros Hi. unfold slice_end_mb_y.
  assert (0 <= nb_slices / 2) by (apply Z.div_pos; lia).
  assert (nb_slices <= 2 * INT_MAX + 1)
    by (unfold INT_MAX in *; Z.div_mod_to_equations; nia).
  destruct (Z.eq_dec mb_height 0) as [E0|Hne].
  - unfold row_boundary, slice_start_mb_y. rewrite E0, !Z.mul_0_l.
    change (int32 0) with 0. rewrite !Z.add_0_l.
    rewrite (Z.quot_div_nonneg nb_slices 2) by lia.
    rewrite int32_small by (unfold INT_MIN; subst; lia).
    apply Z.quot_div_nonneg; lia.
  - assert (nb_slices <= INT_MAX) by (unfold INT_MAX in *; nia).
    rewrite (int32_small (i + 1)) by (unfold INT_MIN; lia).
    apply (any_start_exact (i + 1)). lia.
Qed.

Lemma any_bound_0 : bound 0 = 0.
Proof using Hslices.
  unfold row_boundary. rewrite Z.mul_0_r, Z.add_0_l.
  apply Z.div_small. split; [apply Z.div_pos; lia|].
  apply Z.div_lt_upper_bound; lia.
Qed.

Lemma any_bound_last : bound nb_slices = mb_height.
Proof using Hslices.
  unfold row_boundary. rewrite Z.add_comm, Z.div_add by lia.
  rewrite (Z.div_small (nb_slices / 2)); [lia|].
  split; [apply Z.div_pos; lia|]. apply Z.div_lt_upper_bound; lia.
Qed.

Lemma any_bound_mono i j : i <= j -> bound i <= bound j.
Proof using Hrows Hslices.
  intros H. unfold row_boundary. apply Z.div_le_mono; [lia|]. nia.
Qed.

Lemma any_bound_search (n : nat) r :
  0 <= r < bound (Z.of_nat n) ->
  exists i : nat, (i < n)%nat
    /\ bound (Z.of_nat i) <= r < bound (Z.of_nat i + 1).
Proof using Hslices.
  induction n as [|n IH]; intros Hr.
  - change (Z.of_nat 0) with 0 in Hr. rewrite any_bound_0 in Hr. lia.
  - destruct (Z_lt_le_dec r (bound (Z.of_nat n))) as [Hlt|Hge].
    + destruct IH as (i & Hi & Hb); [lia|]. exists i. split; [lia|done].
    + exists n. split; [lia|].
      replace (Z.of_nat n + 1) with (Z.of_nat (S n)) by lia. lia.
Qed.

(** With more slices than rows, one of the first [n] ranges is empty or
    the [n]-th boundary is at least [n]. *)
Lemma any_bound_pigeon (n : nat) :
  (exists i : nat, (i < n)%nat /\ bound (Z.of_nat i) = bound (Z.of_nat i + 1))
  \/ Z.of_nat n <= bound (Z.of_nat n).
Proof using Hrows Hslices.
  induction n as [|n IH].
  - right. change (Z.of_nat 0) with 0. rewrite any_bound_0. lia.
  - destruct IH as [(i & Hi & E)|Hn]; [left; exists i; split; [lia|done]|].
    pose proof (any_bound_mono (Z.of_nat n) (Z.of_nat n + 1) ltac:(lia)).
    destruct (Z.eq_dec (bound (Z.of_nat n)) (bound (Z.of_nat n + 1)))
      as [E|Hne].
    + left. exists n. split; [lia|done].
    + right. replace (Z.of_nat (S n)) with (Z.of_nat n + 1) by lia. lia.
Qed.

Lemma any_assign_rows_lookup (i : nat) :
  Z.of_nat i < nb_slices ->
  assign_rows mb_height nb_slices !! i
  = Some (bound (Z.of_nat i), bound (Z.of_nat i + 1)).
Proof using All.
  intros Hi. unfold assign_rows.
  destruct (Z.gtb_spec nb_slices 1) as [Hn|Hn].
  - rewrite list_lookup_fmap, lookup_seqZ_lt by done. simpl.
    rewrite any_start_exact, any_end_exact by lia. reflexivity.
  - assert (nb_slices = 1) as E by lia. assert (i = 0%nat) as -> by lia.
    transitivity (Some (0, mb_height)); [reflexivity|].
    do 2 f_equal.
    + symmetry. apply any_bound_0.
    + replace (Z.of_nat 0 + 1) with nb_slices by lia.
      symmetry. apply any_bound_last.
Qed.

Lemma any_assign_rows_length :
  length (assign_rows mb_height nb_slices) = Z.to_nat nb_slices.
Proof using Hslices.
  unfold assign_rows. destruct (Z.gtb_spec nb_slices 1) as [Hn|Hn].
  - by rewrite length_fmap, length_seqZ.
  - simpl. lia.
Qed.

(** What holds of the row ranges for any number of slices. *)
Lemma any_rows_cover :
  let rows := assign_rows mb_height nb_slices in
  length rows = Z.to_nat nb_slices /\
  (forall i a b, rows !! i = Some (a, b) ->
     a = bound (Z.of_nat i) /\ b = bound (Z.of_nat i + 1) /\
     0 <= a <= b /\ b <= mb_height) /\
  (forall i a b a' b', rows !! i = Some (a, b) ->
     rows !! S i = Some (a', b') -> b = a') /\
  (exists b, rows !! 0%nat = Some (0, b)) /\
  (exists a, rows !! Z.to_nat (nb_slices - 1) = Some (a, mb_height)) /\
  (forall r, 0 <= r < mb_height <-> exists i, in_slice rows i r) /\
  (forall r i j, in_slice rows i r -> in_slice rows j r -> i = j).
Proof using All.
  intros rows.
  pose proof any_assign_rows_length as Hlen.
  pose proof any_assign_rows_lookup as Hlook.
  pose proof any_bound_0 as H0. pose proof any_bound_last as HN.
  pose proof any_bound_mono as Hmono.
  fold rows in Hlen, Hlook.
  assert (Hidx : forall i x, rows !! i = Some x -> Z.of_nat i < nb_slices).
  { intros i x Hl. apply lookup_lt_Some in Hl. lia. }
  assert (Hin : forall i r, in_slice rows i r <->
            Z.of_nat i < nb_slices
            /\ bound (Z.of_nat i) <= r < bound (Z.of_nat i + 1)).
  { intros i r. unfold in_slice. split.
    - intros (a & b & Hl & Hr). pose proof (Hidx _ _ Hl) as Hi.
      rewrite Hlook in Hl by done. by simplify_eq.
    - intros [Hi Hr]. eexists _, _. split; [by apply Hlook|done]. }
  split; [done|]. split; [|split; [|split; [|split; [|split]]]].
  - intros i a b Hl. pose proof (Hidx _ _ Hl) as Hi.
    rewrite Hlook in Hl by done. simplify_eq.
    split; [done|]. split; [done|].
    pose proof (Hmono (Z.of_nat i) (Z.of_nat i + 1) ltac:(lia)).
    pose proof (Hmono 0 (Z.of_nat i) ltac:(lia)).
    pose proof (Hmono (Z.of_nat i + 1) nb_slices ltac:(lia)). lia.
  - intros i a b a' b' Hl Hl'.
    pose proof (Hidx _ _ Hl). pose proof (Hidx _ _ Hl').
    rewrite Hlook in Hl, Hl' by done. simplify_eq. f_equal. lia.
  - rewrite Hlook by lia. change (Z.of_nat 0) with 0. rewrite H0. eauto.
  - rewrite Hlook by lia.
    replace (Z.of_nat (Z.to_nat (nb_slices - 1)) + 1) with nb_slices by lia.
    rewrite HN. eauto.
  - intros r. split.
    + intros Hr.
      destruct (any_bound_search (Z.to_nat nb_slices) r) as (i & Hi & Hb).
      { rewrite Z2Nat.id by lia. lia. }
      exists i. apply Hin. split; [lia|done].
    + intros (i & Hi). apply Hin in Hi as [Hi Hr].
      pose proof (Hmono 0 (Z.of_nat i) ltac:(lia)).
      pose proof (Hmono (Z.of_nat i + 1) nb_slices ltac:(lia)). lia.
  - intros r i j Hi Hj. apply Hin in Hi as [Hi Hri]. apply Hin in Hj as [Hj Hrj].
    destruct (Nat.lt_trichotomy i j) as [Hlt|[->|Hlt]]; [|done|].
    + pose proof (Hmono (Z.of_nat i + 1) (Z.of_nat j) ltac:(lia)). lia.
    + pose proof (Hmono (Z.of_nat j + 1) (Z.of_nat i) ltac:(lia)). lia.
Qed.

End SliceRowsAny.

Section CommonInit.
Import Geometry.
Variable K : Constants.

(** The macroblock rows cover the picture. *)
Lemma init_mb_height_cover s :
  1 <= height s <= INT_MAX - 31 ->
  let H := init_mb_height K s in
  1 <= H /\ height s <= 16 * H /\
  (if (codec_id s =? AV_CODEC_ID_MPEG2VIDEO K) && (progressive_sequence s =? 0)
   then 16 * H - 32 < height s /\ Z.even H = true
   else 16 * H - 16 < height s).
Proof.
  unfold INT_MAX. intros Hh. cbv zeta. unfold init_mb_height.
  destruct (_ && _).
  - rewrite iadd_exact by (unfold INT_MIN, INT_MAX; lia).
    rewrite Z.quot_div_nonneg by lia.
    rewrite imul_exact
      by (unfold INT_MIN, INT_MAX; Z.div_mod_to_equations; lia).
    repeat split; try (Z.div_mod_to_equations; lia).
    rewrite Z.even_mul. apply orb_true_r.
  - rewrite iadd_exact by (unfold INT_MIN, INT_MAX; lia).
    rewrite Z.quot_div_nonneg by lia.
    repeat split; Z.div_mod_to_equations; lia.
Qed.

Lemma init_nb_slices_eq s :
  init_nb_slices K s
  = let nb_slices := requested_slices K s in
    let mb_height := init_mb_height K s in
    if (nb_slices >? MAX_THREADS K)
       || ((nb_slices >? mb_height) && negb (mb_height =? 0))
    then if negb (mb_height =? 0) then FFMIN (MAX_THREADS K) mb_height
         else MAX_THREADS K
    else nb_slices.
Proof. reflexivity. Qed.

(** The slice count after the reduction. *)
Lemma init_nb_slices_range s :
  1 <= init_mb_height K s -> 1 <= MAX_THREADS K ->
  1 <= requested_slices K s ->
  let N := init_nb_slices K s in
  1 <= N <= MAX_THREADS K /\ N <= init_mb_height K s /\
  N <= requested_slices K s /\
  (requested_slices K s <= MAX_THREADS K ->
   requested_slices K s <= init_mb_height K s -> N = requested_slices K s).
Proof.
  intros HH HM HR. cbv zeta. rewrite init_nb_slices_eq. cbv zeta.
  unfold FFMIN.
  destruct (Z.gtb_spec (requested_slices K s) (MAX_THREADS K));
    destruct (Z.gtb_spec (requested_slices K s) (init_mb_height K s));
    destruct (Z.eqb_spec (init_mb_height K s) 0);
    destruct (Z.gtb_spec (MAX_THREADS K) (init_mb_height K s));
    cbn [orb andb negb]; lia.
Qed.

(** X4.  ff_mpv_common_init, for a picture of height 1 or more and a
    request of one slice or more: the macroblock rows cover the picture
    (16 * mb_height is at least the height, and less than 32 lines
    more); the slice count it arrives at is at least 1, at most
    MAX_THREADS, at most mb_height and at most the count asked for, and
    it is the count asked for when that is within both limits; and the
    row ranges it gives the slice contexts are non-empty, each ends where
    the next starts, and every row of [0, mb_height) lies in exactly one
    of them. *)
Theorem common_init_slices (s : MpegEncContext) :
  width s <> 0 -> 1 <= height s <= INT_MAX - 31 ->
  1 <= MAX_THREADS K -> 1 <= requested_slices K s ->
  init_mb_height K s * MAX_THREADS K + MAX_THREADS K / 2 <= INT_MAX ->
  let H := init_mb_height K s in
  let N := init_nb_slices K s in
  exists rows,
    common_init_rows K s = Some rows /\
    (16 * H - 32 < height s <= 16 * H) /\
    (1 <= N <= MAX_THREADS K /\ N <= H /\ N <= requested_slices K s) /\
    (requested_slices K s <= MAX_THREADS K -> requested_slices K s <= H ->
     N = requested_slices K s) /\
    length rows = Z.to_nat N /\
    (forall i a b, rows !! i = Some (a, b) -> 0 <= a < b /\ b <= H) /\
    (forall i a b a' b', rows !! i = Some (a, b) ->
       rows !! S i = Some (a', b') -> b = a') /\
    (forall r, 0 <= r < H <-> exists i, Slices.in_slice rows i r) /\
    (forall r i j, Slices.in_slice rows i r -> Slices.in_slice rows j r ->
       i = j).
Proof.
  intros Hw Hh HM HR Hint H N.
  pose proof (init_mb_height_cover s Hh) as (HH1 & Hcov & Hcov2).
  fold H in HH1, Hcov, Hcov2.
  pose proof (init_nb_slices_range s HH1 HM HR) as (HN1 & HN2 & HN3 & HN4).
  fold N H in HN1, HN2, HN3, HN4.
  assert (HintN : H * N + N / 2 <= INT_MAX).
  { assert (H * N <= H * MAX_THREADS K) by nia.
    assert (N / 2 <= MAX_THREADS K / 2) by (apply Z.div_le_mono; lia).
    lia. }
  assert (HN0 : 1 <= N) by lia.
  pose proof (any_rows_cover H N ltac:(lia) HN0 HintN)
    as (Hlen & Hrow & Hnext & _ & _ & Hcover & Huniq).
  exists (Slices.assign_rows H N). split.
  { unfold common_init_rows.
    destruct (Z.eqb_spec (width s) 0); [done|].
    destruct (Z.eqb_spec (height s) 0); [lia|done]. }
  split.
  { destruct (_ && _) in Hcov2; lia. }
  split; [done|]. split; [done|]. split; [done|].
  split; [|done].
  intros i a b Hl. destruct (Hrow i a b Hl) as (-> & -> & Hab & Hb).
  pose proof (bound_step H N HH1 ltac:(lia) HintN (Z.of_nat i)). lia.
Qed.

(** X5.  ff_mpv_common_frame_size_change keeps the slice count it finds
    in slice_context_count, whatever the new height.  For a count of 1
    or more the row ranges still start at row 0, end at mb_height, each
    ends where the next starts, and every row of [0, mb_height) lies in
    exactly one of them; but with more slice contexts than macroblock
    rows one of the contexts gets an empty range. *)
Theorem frame_size_change_slices (s : MpegEncContext) :
  width s <> 0 -> 1 <= height s <= INT_MAX - 31 ->
  1 <= slice_context_count s ->
  init_mb_height K s * slice_context_count s + slice_context_count s / 2
    <= INT_MAX ->
  let H := init_mb_height K s in
  let N := slice_context_count s in
  exists rows,
    frame_size_change_rows K s = Some rows /\
    length rows = Z.to_nat N /\
    (forall i a b, rows !! i = Some (a, b) -> 0 <= a <= b /\ b <= H) /\
    (forall i a b a' b', rows !! i = Some (a, b) ->
       rows !! S i = Some (a', b') -> b = a') /\
    (exists b, rows !! 0%nat = Some (0, b)) /\
    (exists a, rows !! Z.to_nat (N - 1) = Some (a, H)) /\
    (forall r, 0 <= r < H <-> exists i, Slices.in_slice rows i r) /\
    (forall r i j, Slices.in_slice rows i r -> Slices.in_slice rows j r ->
       i = j) /\
    (H < N -> exists i r, rows !! i = Some r /\ empty_range r).
Proof.
  intros Hw Hh HN Hint H N.
  pose proof (init_mb_height_cover s Hh) as (HH1 & _). fold H in HH1.
  pose proof (any_rows_cover H N ltac:(lia) HN Hint)
    as (Hlen & Hrow & Hnext & Hfirst & Hlast & Hcover & Huniq).
  exists (Slices.assign_rows H N). split.
  { unfold frame_size_change_rows.
    destruct (Z.eqb_spec (width s) 0); [done|].
    destruct (Z.eqb_spec (height s) 0); [lia|done]. }
  split; [done|]. split.
  { intros i a b Hl. destruct (Hrow i a b Hl) as (_ & _ & ? & ?). done. }
  split; [done|]. split; [done|]. split; [done|]. split; [done|].
  split; [done|].
  intros Hmore.
  destruct (any_bound_pigeon H N ltac:(lia) HN (Z.to_nat N))
    as [(i & Hi & E)|Hge].
  - exists i, (Slices.row_boundary H N (Z.of_nat i),
               Slices.row_boundary H N (Z.of_nat i + 1)).
    split; [|exact E].
    apply any_assign_rows_lookup; try done; lia.
  - rewrite Z2Nat.id in Hge by lia.
    rewrite (any_bound_last H N HN) in Hge. lia.
Qed.

End CommonInit.

Lemma common_init_slices_witness :
  exists rows,
    Geometry.common_init_rows Geometry.sample_constants
      (Geometry.sample_ctx 1 1 100) = Some rows /\
    length rows = 16%nat /\
    (forall i a b, rows !! i = Some (a, b) -> 0 <= a < b /\ b <= 36).
Proof.
  destruct (common_init_slices Geometry.sample_constants
              (Geometry.sample_ctx 1 1 100))
    as (rows & E & _ & _ & _ & Hlen & Hrow & _);
    [vm_compute; discriminate|vm_compute; split; discriminate
    |vm_compute; discriminate|vm_compute; discriminate
    |vm_compute; discriminate|].
  exists rows. split; [exact E|]. split; [exact Hlen|exact Hrow].
Defined.

Lemma frame_size_change_slices_witness :
  exists i r,
    Slices.assign_rows 36 40 !! i = Some r /\ Geometry.empty_range r.
Proof.
  destruct (frame_size_change_slices Geometry.sample_constants
              (Geometry.sample_ctx 1 1 40)) as (rows & E & _ & _ & _ & _ & _
                                                & _ & _ & Hempty);
    [vm_compute; discriminate|vm_compute; split; discriminate
    |vm_compute; discriminate|vm_compute; discriminate|].
  injection E as <-. apply Hempty. vm_compute. reflexivity.
Defined.

(** ** The index tables of init_context_frame *)

Section Writes.

(** A loop of array writes: the cell of a key that is written holds the
    value of the key, when the keys that share the cell agree on it. *)
Lemma length_fold_wr {A} (idx val : A -> Z) ks : forall t,
  length (fold_left (fun t k => wr t (idx k) (val k)) ks t) = length t.
Proof.
  induction ks as [|k ks IH]; intros t; cbn [fold_left]; [done|].
  by rewrite IH, length_wr.
Qed.

Lemma fold_wr_other {A} (idx val : A -> Z) ks : forall t j,
  j ∉ idx <$> ks ->
  rd (fold_left (fun t k => wr t (idx k) (val k)) ks t) j = rd t j.
Proof.
  induction ks as [|k ks IH]; intros t j Hj; cbn [fold_left]; [done|].
  rewrite fmap_cons in Hj. apply not_elem_of_cons in Hj as [Hne Hj].
  rewrite IH by done. apply rd_wr_ne. congruence.
Qed.

Lemma fold_wr_at {A} (idx val : A -> Z) ks : forall t k,
  k ∈ ks -> 0 <= idx k < Z.of_nat (length t) ->
  (forall k', k' ∈ ks -> idx k' = idx k -> val k' = val k) ->
  rd (fold_left (fun t k => wr t (idx k) (val k)) ks t) (idx k) = val k.
Proof.
  induction ks as [|k0 ks IH]; intros t k Hk Hr Hsame; [inversion Hk|].
  cbn [fold_left].
  destruct (decide (idx k ∈ idx <$> ks)) as [Hin|Hout].
  - apply list_elem_of_fmap in Hin as (k' & E & Hk').
    rewrite E, <- (Hsame k') by (by right || done).
    rewrite E in Hr.
    apply IH; [done|by rewrite length_wr|].
    intros k'' Hk'' E'. rewrite (Hsame k''), (Hsame k'); try done.
    + by right.
    + by right.
    + congruence.
  - rewrite fold_wr_other by done.
    apply elem_of_cons in Hk as [->|Hk].
    + by apply rd_wr_eq.
    + exfalso. apply Hout. apply list_elem_of_fmap. eauto.
Qed.

(** Two nested loops are one loop over the pairs. *)
Lemma fold_left_nested {A B C} (g : A -> B -> C -> A) ys xs : forall t,
  fold_left (fun t y => fold_left (fun t x => g t y x) xs t) ys t
  = fold_left (fun t p => g t p.1 p.2) (ys ≫= fun y => pair y <$> xs) t.
Proof.
  induction ys as [|y ys IH]; intros t; [done|].
  cbn [fold_left mbind list_bind]. rewrite fold_left_app, <- IH. f_equal.
  clear. revert t. induction xs as [|x xs IHx]; intros t; [done|].
  cbn [fold_left fmap list_fmap]. apply IHx.
Qed.

End Writes.

Section ContextFrameTables.
Import Geometry.

Lemma elem_of_pairs (ys xs : list Z) y x :
  (y, x) ∈ ys ≫= (fun y => pair y <$> xs) <-> y ∈ ys /\ x ∈ xs.
Proof.
  rewrite list_elem_of_bind. split.
  - intros (y' & Hin & Hy).
    apply list_elem_of_fmap in Hin as (x' & [= -> ->] & Hx). done.
  - intros [Hy Hx]. exists y. split; [|done].
    apply list_elem_of_fmap. eauto.
Qed.

(** The macroblock index table, in exact arithmetic. *)
Lemma fill_mb_index2xy_spec w h t :
  1 <= w -> 1 <= h -> (w + 1) * h < INT_MAX ->
  length t = Z.to_nat (w * h + 1) ->
  let t' := fill_mb_index2xy w h (w + 1) t in
  length t' = length t /\
  (forall x y, 0 <= x < w -> 0 <= y < h ->
     rd t' (x + y * w) = x + y * (w + 1)) /\
  rd t' (w * h) = (h - 1) * (w + 1) + w.
Proof.
  unfold INT_MAX. intros Hw Hh Hint Hlen. cbv zeta. unfold fill_mb_index2xy.
  rewrite (fold_left_nested (fun t y x =>
             wr t (iadd x (imul y w)) (iadd x (imul y (w + 1))))).
  set (ks := seqZ 0 h ≫= _).
  set (idx := fun p : Z * Z => iadd p.2 (imul p.1 w)).
  set (val := fun p : Z * Z => iadd p.2 (imul p.1 (w + 1))).
  change (fold_left _ ks t)
    with (fold_left (fun t k => wr t (idx k) (val k)) ks t).
  assert (Hwh : w * h + h < 2147483647) by lia.
  assert (Hwh1 : w * 1 <= w * h) by (apply Z.mul_le_mono_nonneg_l; lia).
  assert (Hprod : forall x y, 0 <= x < w -> 0 <= y < h ->
            0 <= y * w /\ y * w + x < w * h /\ y * (w + 1) + x < w * h + h).
  { intros x y Hx Hy.
    assert (0 <= y * w) by (apply Z.mul_nonneg_nonneg; lia).
    assert (y * w <= (h - 1) * w) by (apply Z.mul_le_mono_nonneg_r; lia).
    lia. }
  assert (Hidx : forall x y, 0 <= x < w -> 0 <= y < h ->
            idx (y, x) = x + y * w /\ val (y, x) = x + y * (w + 1)).
  { intros x y Hx Hy. destruct (Hprod x y Hx Hy) as (P1 & P2 & P3).
    unfold idx, val. cbn [fst snd].
    rewrite !imul_exact by (unfold INT_MIN, INT_MAX; lia).
    rewrite !iadd_exact by (unfold INT_MIN, INT_MAX; lia). done. }
  assert (Hks : forall y x, (y, x) ∈ ks <-> 0 <= y < h /\ 0 <= x < w).
  { intros y x. subst ks. rewrite elem_of_pairs, !elem_of_seqZ. lia. }
  rewrite (imul_exact h w) by (unfold INT_MIN, INT_MAX; lia).
  rewrite isub_exact by (unfold INT_MIN, INT_MAX; lia).
  rewrite imul_exact by (unfold INT_MIN, INT_MAX; lia).
  rewrite iadd_exact by (unfold INT_MIN, INT_MAX; lia).
  split; [|split].
  - by rewrite length_wr, length_fold_wr.
  - intros x y Hx Hy. destruct (Hprod x y Hx Hy) as (P1 & P2 & P3).
    rewrite rd_wr_ne by lia.
    destruct (Hidx x y Hx Hy) as [Ei Ev]. rewrite <- Ei, <- Ev.
    apply fold_wr_at.
    + apply Hks. lia.
    + rewrite Ei, Hlen. lia.
    + intros [y' x'] Hin E. apply Hks in Hin as [Hy' Hx'].
      destruct (Hidx x' y' Hx' Hy') as [Ei' Ev']. rewrite Ei', Ei in E.
      assert (y' = y).
      { destruct (Z.lt_trichotomy y' y) as [Hlt|[?|Hlt]]; [|done|].
        - assert ((y' + 1) * w <= y * w)
            by (apply Z.mul_le_mono_nonneg_r; lia). lia.
        - assert ((y + 1) * w <= y' * w)
            by (apply Z.mul_le_mono_nonneg_r; lia). lia. }
      subst y'. assert (x' = x) by lia. by subst.
  - replace (h * w) with (w * h) by lia. apply rd_wr_eq.
    rewrite length_fold_wr, Hlen. lia.
Qed.

(** X6.  The macroblock index table of init_context_frame.  The picture
    is mb_width = ceil(width / 16) macroblocks wide, a row of the tables
    is mb_stride = mb_width + 1 entries long, and mb_index2xy maps the
    index x + y * mb_width of the macroblock in column x and row y to
    its table position x + y * mb_stride, from which the column and the
    row come back as remainder and quotient by mb_stride; its last
    entry, at index mb_width * mb_height, is the position just after the
    last macroblock. *)
Theorem mb_index2xy_round_trip (s : MpegEncContext) (mb_height : Z)
    (fr : ContextFrame) :
  1 <= width s <= INT_MAX - 15 -> 1 <= mb_height ->
  (Z.quot (width s + 15) 16 + 1) * mb_height < INT_MAX ->
  init_context_frame s mb_height true = Some fr ->
  width s <= 16 * mb_width fr < width s + 16 /\
  mb_stride fr = mb_width fr + 1 /\
  b8_stride fr = 2 * mb_width fr + 1 /\
  mb_num fr = mb_width fr * mb_height /\
  Z.of_nat (length (mb_index2xy fr)) = mb_num fr + 1 /\
  (forall x y, 0 <= x < mb_width fr -> 0 <= y < mb_height ->
     let xy := rd (mb_index2xy fr) (x + y * mb_width fr) in
     xy = x + y * mb_stride fr /\
     xy mod mb_stride fr = x /\ xy / mb_stride fr = y) /\
  rd (mb_index2xy fr) (mb_num fr)
  = (mb_height - 1) * mb_stride fr + mb_width fr.
Proof.
  unfold INT_MAX. intros Hw Hh Hint Hinit.
  unfold init_context_frame in Hinit. cbn [negb] in Hinit.
  rewrite (iadd_exact (width s) 15) in Hinit
    by (unfold INT_MIN, INT_MAX; lia).
  rewrite Z.quot_div_nonneg in Hinit, Hint by lia.
  set (w := (width s + 15) / 16) in *.
  assert (Hw1 : 1 <= w) by (subst w; Z.div_mod_to_equations; lia).
  assert (Hw16 : width s <= 16 * w < width s + 16)
    by (subst w; Z.div_mod_to_equations; lia).
  assert (Hwh : w * mb_height + mb_height < 2147483647) by lia.
  assert (Hw2 : w * 1 <= w * mb_height)
    by (apply Z.mul_le_mono_nonneg_l; lia).
  rewrite (iadd_exact w 1) in Hinit by (unfold INT_MIN, INT_MAX; lia).
  rewrite (imul_exact w 2) in Hinit by (unfold INT_MIN, INT_MAX; lia).
  rewrite (iadd_exact (w * 2) 1) in Hinit by (unfold INT_MIN, INT_MAX; lia).
  rewrite (imul_exact w mb_height) in Hinit
    by (unfold INT_MIN, INT_MAX; lia).
  rewrite (iadd_exact (w * mb_height) 1) in Hinit
    by (unfold INT_MIN, INT_MAX; lia).
  destruct (fill_mb_index2xy_spec w mb_height
              (replicate (Z.to_nat (w * mb_height + 1)) 0))
    as (Hlen & Hcell & Hlast);
    [done|done|unfold INT_MAX; lia|by rewrite length_replicate|].
  rewrite length_replicate in Hlen.
  destruct (_ || _) in Hinit; injection Hinit as <-; cbn.
  all: split; [done|]; split; [done|]; split; [lia|]; split; [done|].
  all: split; [rewrite Hlen; lia|]; split; [|exact Hlast].
  all: intros x y Hx Hy; rewrite (Hcell x y Hx Hy).
  all: split; [done|].
  all: rewrite Z.add_comm, Z.mul_comm.
  all: split; [rewrite Z.add_comm, Z.mul_comm, Z.mod_add by lia;
               apply Z.mod_small; lia|].
  all: rewrite Z.mul_comm, Z.div_add_l by lia; rewrite Z.div_small; lia.
Qed.

End ContextFrameTables.

Lemma mb_index2xy_round_trip_witness :
  match Geometry.init_context_frame Geometry.small_ctx 2 true with
  | Some fr =>
      Geometry.mb_width fr = 3 /\ Geometry.mb_stride fr = 4 /\
      rd (Geometry.mb_index2xy fr) (2 + 1 * 3) = 2 + 1 * 4
  | None => False
  end.
Proof.
  destruct (Geometry.init_context_frame _ _ _) as [fr|] eqn:E;
    [|vm_compute in E; discriminate E].
  destruct (mb_index2xy_round_trip Geometry.small_ctx 2 fr)
    as (Hw & Hs & _ & _ & _ & Hcell & _);
    [vm_compute; split; discriminate|lia|vm_compute; reflexivity|exact E|].
  cbn [Geometry.width Geometry.small_ctx] in Hw.
  assert (Ew : Geometry.mb_width fr = 3) by lia.
  rewrite Ew in *. split; [done|]. split; [lia|].
  destruct (Hcell 2 1) as [Hxy _]; [lia|lia|].
  rewrite Hxy, Hs. reflexivity.
Defined.

Section BlockIndex.
Import Geometry.

(** The sizes and the block indices in exact arithmetic. *)
Lemma sizes_exact w h :
  1 <= w -> 1 <= h ->
  (2 * w + 1) * (2 * h + 1) + 2 * ((w + 1) * (h + 1)) <= INT_MAX ->
  y_size (2 * w + 1) h = (2 * w + 1) * (2 * h + 1) /\
  c_size (w + 1) h = (w + 1) * (h + 1) /\
  yc_size (2 * w + 1) (w + 1) h
  = (2 * w + 1) * (2 * h + 1) + 2 * ((w + 1) * (h + 1)).
Proof.
  unfold INT_MAX. intros Hw Hh Hint.
  assert (Hwh : w * 1 <= w * h) by (apply Z.mul_le_mono_nonneg_l; lia).
  unfold yc_size, y_size, c_size.
  rewrite (imul_exact 2 h), (iadd_exact (2 * h) 1), (iadd_exact h 1)
    by (unfold INT_MIN, INT_MAX; lia).
  rewrite (imul_exact (2 * w + 1)), (imul_exact (w + 1))
    by (unfold INT_MIN, INT_MAX; lia).
  rewrite (imul_exact 2) by (unfold INT_MIN, INT_MAX; lia).
  rewrite iadd_exact by (unfold INT_MIN, INT_MAX; lia).
  done.
Qed.

Lemma ff_init_block_index_exact w h mb_x mb_y :
  1 <= w -> 1 <= h ->
  (2 * w + 1) * (2 * h + 1) + 2 * ((w + 1) * (h + 1)) <= INT_MAX ->
  0 <= mb_x <= w -> 0 <= mb_y < h ->
  ff_init_block_index (2 * w + 1) (w + 1) h mb_x mb_y
  = [ (2 * w + 1) * (mb_y * 2) - 2 + mb_x * 2;
      (2 * w + 1) * (mb_y * 2) - 1 + mb_x * 2;
      (2 * w + 1) * (mb_y * 2 + 1) - 2 + mb_x * 2;
      (2 * w + 1) * (mb_y * 2 + 1) - 1 + mb_x * 2;
      (w + 1) * (mb_y + 1) + (2 * w + 1) * h * 2 + mb_x - 1;
      (w + 1) * (mb_y + h + 2) + (2 * w + 1) * h * 2 + mb_x - 1 ].
Proof.
  unfold INT_MAX. intros Hw Hh Hint Hx Hy.
  assert (Hwh : w * 1 <= w * h) by (apply Z.mul_le_mono_nonneg_l; lia).
  assert (Hwy : 0 <= w * mb_y <= w * (h - 1)).
  { split; [apply Z.mul_nonneg_nonneg; lia|].
    apply Z.mul_le_mono_nonneg_l; lia. }
  unfold ff_init_block_index.
  rewrite (imul_exact mb_y 2), (iadd_exact (mb_y * 2) 1), (imul_exact mb_x 2),
    (iadd_exact mb_y 1), (iadd_exact mb_y h), (iadd_exact (mb_y + h) 2)
    by (unfold INT_MIN, INT_MAX; lia).
  rewrite (imul_exact (2 * w + 1) (mb_y * 2)),
    (imul_exact (2 * w + 1) (mb_y * 2 + 1)),
    (imul_exact (w + 1) (mb_y + 1)), (imul_exact (2 * w + 1) h),
    (imul_exact (w + 1) (mb_y + h + 2))
    by (unfold INT_MIN, INT_MAX; lia).
  rewrite (imul_exact ((2 * w + 1) * h) 2) by (unfold INT_MIN, INT_MAX; lia).
  rewrite !isub_exact by (unfold INT_MIN, INT_MAX; lia).
  rewrite (iadd_exact ((w + 1) * (mb_y + 1)) ((2 * w + 1) * h * 2)),
    (iadd_exact ((w + 1) * (mb_y + h + 2)) ((2 * w + 1) * h * 2))
    by (unfold INT_MIN, INT_MAX; lia).
  rewrite !iadd_exact by (unfold INT_MIN, INT_MAX; lia).
  rewrite !isub_exact by (unfold INT_MIN, INT_MAX; lia).
  done.
Qed.

(** The widths and strides init_context_frame sets. *)
Lemma init_context_frame_strides s mb_height allocs fr :
  1 <= width s <= INT_MAX - 15 ->
  init_context_frame s mb_height allocs = Some fr ->
  let w := (width s + 15) / 16 in
  1 <= w /\ width s <= 16 * w < width s + 16 /\
  mb_width fr = w /\ mb_stride fr = w + 1 /\ b8_stride fr = 2 * w + 1 /\
  dc_val_base fr
  = (if negb (h263_pred s =? 0) || negb (h263_plus s =? 0)
        || (encoding s =? 0)
     then Some (fold_left (fun a i => wr a i 1024)
                  (seqZ 0 (yc_size (2 * w + 1) (w + 1) mb_height))
                  (replicate
                     (Z.to_nat (yc_size (2 * w + 1) (w + 1) mb_height)) 0))
     else None) /\
  dc_val fr
  = (if negb (h263_pred s =? 0) || negb (h263_plus s =? 0)
        || (encoding s =? 0)
     then [ 2 * w + 1 + 1;
            y_size (2 * w + 1) mb_height + (w + 1) + 1;
            y_size (2 * w + 1) mb_height + (w + 1) + 1
            + c_size (w + 1) mb_height ]
     else [0; 0; 0]).
Proof.
  unfold INT_MAX. intros Hw Hinit. cbv zeta.
  unfold init_context_frame in Hinit.
  destruct allocs; [|discriminate Hinit]. cbn [negb] in Hinit.
  rewrite (iadd_exact (width s) 15) in Hinit
    by (unfold INT_MIN, INT_MAX; lia).
  rewrite Z.quot_div_nonneg in Hinit by lia.
  set (w := (width s + 15) / 16) in *.
  assert (Hw1 : 1 <= w) by (subst w; Z.div_mod_to_equations; lia).
  assert (Hw16 : width s <= 16 * w < width s + 16)
    by (subst w; Z.div_mod_to_equations; lia).
  rewrite (iadd_exact w 1) in Hinit by (unfold INT_MIN, INT_MAX; lia).
  rewrite (imul_exact w 2) in Hinit by (unfold INT_MIN, INT_MAX; lia).
  rewrite (iadd_exact (w * 2) 1) in Hinit by (unfold INT_MIN, INT_MAX; lia).
  replace (w * 2 + 1) with (2 * w + 1) in Hinit by lia.
  split; [done|]. split; [done|].
  destruct (_ || _) in Hinit |- *; injection Hinit as <-; done.
Qed.

(** X7.  The DC predictors are addressed within their array.  After
    init_context_frame has allocated dc_val_base (yc_size entries, all
    1024) the six block indices that ff_init_block_index computes for a
    macroblock column 0..mb_width and a row 0..mb_height-1, taken from
    dc_val[0], lie inside the array: the four luma indices form a square
    of two rows of b8_stride in the luma part [0, y_size), the two
    chroma indices lie in the parts [y_size, y_size + c_size) and
    [y_size + c_size, yc_size), where they are the entries
    (mb_x - 1) + mb_y * mb_stride of dc_val[1] and dc_val[2].  The
    offsets of ac_val[0..2] that init_duplicate_context sets are those of
    dc_val[0..2], so the same indices address the AC predictors. *)
Theorem block_index_in_dc_val (s : MpegEncContext) (mb_height : Z)
    (fr : ContextFrame) (base : list Z) (mb_x mb_y : Z) :
  1 <= width s <= INT_MAX - 15 -> 1 <= mb_height ->
  (let w := Z.quot (width s + 15) 16 in
   (2 * w + 1) * (2 * mb_height + 1) + 2 * ((w + 1) * (mb_height + 1))
   <= INT_MAX) ->
  init_context_frame s mb_height true = Some fr ->
  dc_val_base fr = Some base ->
  0 <= mb_x <= mb_width fr -> 0 <= mb_y < mb_height ->
  let bi :=
    ff_init_block_index (b8_stride fr) (mb_stride fr) mb_height mb_x mb_y in
  let addr k := rd (dc_val fr) 0 + rd bi k in
  let ysz := b8_stride fr * (2 * mb_height + 1) in
  let csz := mb_stride fr * (mb_height + 1) in
  Z.of_nat (length base) = ysz + 2 * csz /\
  Forall (fun v => v = 1024) base /\
  dc_val fr = ac_val_offsets (b8_stride fr) (mb_stride fr) mb_height /\
  addr 0 = b8_stride fr * (2 * mb_y + 1) + 2 * mb_x - 1 /\
  addr 1 = addr 0 + 1 /\
  addr 2 = addr 0 + b8_stride fr /\
  addr 3 = addr 0 + b8_stride fr + 1 /\
  0 <= addr 0 /\ addr 3 < ysz /\
  addr 4 = rd (dc_val fr) 1 + (mb_x - 1) + mb_y * mb_stride fr /\
  addr 5 = rd (dc_val fr) 2 + (mb_x - 1) + mb_y * mb_stride fr /\
  ysz <= addr 4 < ysz + csz /\
  ysz + csz <= addr 5 < ysz + 2 * csz.
Proof.
  intros Hw Hh Hint Hinit Hbase Hx Hy. cbv zeta in Hint.
  rewrite Z.quot_div_nonneg in Hint by (unfold INT_MAX in *; lia).
  destruct (init_context_frame_strides s mb_height true fr Hw Hinit)
    as (Hw1 & _ & Ew & Es & Eb & Edc & Eoff).
  set (w := (width s + 15) / 16) in *.
  destruct (sizes_exact w mb_height Hw1 Hh Hint) as (Ey & Ec & Eyc).
  rewrite Ew in Hx. rewrite Es, Eb. cbv zeta.
  rewrite (ff_init_block_index_exact w mb_height mb_x mb_y) by done.
  rewrite Hbase in Edc.
  destruct (_ || _) in Edc, Eoff; [|discriminate Edc].
  injection Edc as ->. rewrite Eoff. unfold ac_val_offsets.
  rewrite Ey, Ec, Eyc.
  set (yc := (2 * w + 1) * (2 * mb_height + 1)
             + 2 * ((w + 1) * (mb_height + 1))).
  assert (Hyc : 0 <= yc <= INT_MAX) by (subst yc; unfold INT_MAX in *; lia).
  split.
  { rewrite length_fold_wr, length_replicate. lia. }
  split.
  { apply Forall_forall. intros v Hv.
    apply list_elem_of_lookup in Hv as [i Hi].
    pose proof (lookup_lt_Some _ _ _ Hi) as Hlt.
    rewrite length_fold_wr, length_replicate in Hlt.
    assert (E : rd (fold_left (fun a i => wr a i 1024) (seqZ 0 yc)
                      (replicate (Z.to_nat yc) 0)) (Z.of_nat i) = 1024).
    { apply (fold_wr_at (fun i => i) (fun _ => 1024)).
      - apply elem_of_seqZ. lia.
      - rewrite length_replicate. lia.
      - done. }
    unfold rd in E. destruct (Z.ltb_spec (Z.of_nat i) 0); [lia|].
    rewrite Nat2Z.id, Hi in E. done. }
  split; [done|].
  clear Hinit Hbase Eoff Ew Es Eb Ey Ec Eyc Hyc. subst yc.
  assert (Hwh : w * 1 <= w * mb_height)
    by (apply Z.mul_le_mono_nonneg_l; lia).
  assert (Hwy : 0 <= w * mb_y <= w * (mb_height - 1)).
  { split; [apply Z.mul_nonneg_nonneg; lia|].
    apply Z.mul_le_mono_nonneg_l; lia. }
  clearbody w.
  cbv [rd Z.ltb Z.compare Z.to_nat Pos.to_nat Pos.iter_op Nat.add lookup
       list_lookup default from_option id].
  repeat split; lia.
Qed.

End BlockIndex.

Lemma block_index_in_dc_val_witness :
  match Geometry.init_context_frame Geometry.small_ctx 2 true with
  | Some fr =>
      Geometry.b8_stride fr = 7 /\
      rd (Geometry.dc_val fr) 0
      + rd (Geometry.ff_init_block_index (Geometry.b8_stride fr)
              (Geometry.mb_stride fr) 2 1 1) 0 = 22 /\
      exists base, Geometry.dc_val_base fr = Some base /\
                   Forall (fun v => v = 1024) base
  | None => False
  end.
Proof.
  destruct (Geometry.init_context_frame Geometry.small_ctx 2 true)
    as [fr|] eqn:E; [|vm_compute in E; discriminate E].
  assert (E' := E). vm_compute in E'. injection E' as <-.
  destruct (block_index_in_dc_val Geometry.small_ctx 2 _ _ 1 1
              ltac:(vm_compute; split; discriminate) ltac:(lia)
              ltac:(vm_compute; discriminate) E eq_refl
              ltac:(vm_compute; split; discriminate) ltac:(lia))
    as (_ & Hall & _ & H0 & _).
  split; [reflexivity|]. split; [exact H0|].
  eexists. split; [reflexivity|exact Hall].
Defined.

(** ** The pool at the start of a frame, at a flush and between threads *)

Section PoolLoops.
Import Pictures Frames.
Variable K : Constants.

Lemma unref_codec s s' pic :
  codec_id s' = codec_id s ->
  ff_mpeg_unref_picture K s' pic = ff_mpeg_unref_picture K s pic.
Proof. intros E. unfold ff_mpeg_unref_picture. by rewrite E. Qed.

Lemma slot_store s i j pic :
  slot (store s i pic) j
  = if decide (i = j /\ (i < length (picture s))%nat) then pic else slot s j.
Proof.
  unfold slot, store. cbn [picture set_picture].
  destruct (decide (i = j)) as [->|Hne].
  - destruct (decide (j < length (picture s))%nat) as [Hlt|Hge].
    + rewrite list_lookup_insert_eq by done.
      by rewrite decide_True by done.
    + rewrite list_insert_ge by lia. by rewrite decide_False by tauto.
  - rewrite list_lookup_insert_ne by done. by rewrite decide_False by tauto.
Qed.

Lemma same_context_store s s' i pic :
  same_context s s' -> same_context s (store s' i pic).
Proof.
  intros (H1 & H2 & H3 & H4 & H5). unfold same_context.
  by rewrite length_store.
Qed.

(** A loop that rewrites the slots 0..n-1 one by one. *)
Lemma fold_store (g : nat -> Picture -> Picture) s n :
  let s' := fold_left (fun s i => store s i (g i (slot s i))) (seq 0 n) s in
  same_context s s' /\
  forall i, slot s' i
            = if decide (i < n /\ i < length (picture s))%nat
              then g i (slot s i) else slot s i.
Proof.
  induction n as [|n [IHc IHs]]; cbv zeta.
  - split; [done|]. intros i. by rewrite decide_False by lia.
  - rewrite seq_S, fold_left_app. cbn [fold_left Nat.add].
    set (s' := fold_left _ (seq 0 n) s) in *.
    split; [by apply same_context_store|].
    intros i. rewrite slot_store. destruct IHc as (Hlen & _).
    rewrite Hlen, !IHs.
    repeat case_decide; try done; try lia.
    all: destruct_and?; subst; try done; lia.
Qed.

Lemma unref_where_as_store test s :
  unref_where K test s
  = fold_left (fun s' i =>
        store s' i (if test i (slot s' i)
                    then ff_mpeg_unref_picture K s (slot s' i)
                    else slot s' i))
      (seq 0 (MAX_PICTURE_COUNT K)) s.
Proof.
  unfold unref_where.
  assert (H : forall l s', codec_id s' = codec_id s ->
    fold_left (fun s i => if test i (slot s i)
                 then store s i (ff_mpeg_unref_picture K s (slot s i))
                 else s) l s'
    = fold_left (fun s' i =>
        store s' i (if test i (slot s' i)
                    then ff_mpeg_unref_picture K s (slot s' i)
                    else slot s' i)) l s').
  { induction l as [|i l IH]; intros s' Hc; cbn [fold_left]; [done|].
    destruct (test i (slot s' i)).
    - rewrite (unref_codec s s') by done. by apply IH.
    - assert (E : store s' i (slot s' i) = s').
      { unfold store, slot, set_picture. destruct s'; cbn. f_equal.
        destruct (picture0 !! i) as [p|] eqn:El; cbn.
        - by apply list_insert_id.
        - apply list_insert_ge. by apply lookup_ge_None. }
      rewrite E. by apply IH. }
  by apply H.
Qed.

(** What a release loop leaves in each slot. *)
Lemma unref_where_slot test s :
  length (picture s) = MAX_PICTURE_COUNT K ->
  let s' := unref_where K test s in
  same_context s s' /\
  forall i, slot s' i
            = if test i (slot s i) then ff_mpeg_unref_picture K s (slot s i)
              else slot s i.
Proof.
  intros Hlen. cbv zeta. rewrite unref_where_as_store.
  pose proof (fold_store (fun i pic =>
      if test i pic then ff_mpeg_unref_picture K s pic else pic)
    s (MAX_PICTURE_COUNT K)) as [Hc Hs].
  split; [exact Hc|]. intros i. rewrite Hs.
  case_decide as Hi; [done|].
  assert (Hge : (length (picture s) <= i)%nat) by lia.
  assert (Eb : slot s i = blank_picture).
  { unfold slot. by rewrite (proj2 (lookup_ge_None _ _) Hge). }
  rewrite Eb. destruct (test i blank_picture); [|done].
  unfold ff_mpeg_unref_picture, blank_picture. cbn.
  by destruct (_ && _).
Qed.

Lemma unref_idem s pic :
  ff_mpeg_unref_picture K s (ff_mpeg_unref_picture K s pic)
  = ff_mpeg_unref_picture K s pic.
Proof.
  unfold ff_mpeg_unref_picture.
  destruct (_ && _); cbn; by destruct (needs_realloc pic =? 0).
Qed.

Lemma unref_reference s pic : reference (ff_mpeg_unref_picture K s pic) = 0.
Proof. reflexivity. Qed.

Lemma same_context_trans s1 s2 s3 :
  same_context s1 s2 -> same_context s2 s3 -> same_context s1 s3.
Proof.
  intros (A1 & A2 & A3 & A4 & A5) (B1 & B2 & B3 & B4 & B5).
  unfold same_context. by rewrite B1, B2, B3, B4, B5.
Qed.

Lemma release_last_slot s :
  same_context s (release_last K s) /\
  forall i, slot (release_last K s) i
            = if bool_decide (last_picture_ptr s = Some i)
                 && negb (pict_type s =? AV_PICTURE_TYPE_B K)
                 && negb (bool_decide (last_picture_ptr s = next_picture_ptr s))
                 && negb (is_null (buf0 (f (slot s i))))
              then ff_mpeg_unref_picture K s (slot s i) else slot s i.
Proof.
  unfold release_last. destruct (last_picture_ptr s) as [p|] eqn:El.
  2:{ split; [done|]. intros i. by rewrite bool_decide_false. }
  destruct (_ && _) eqn:C.
  - split; [by apply same_context_store|]. intros i. rewrite slot_store.
    destruct (decide (p = i)) as [->|Hne].
    + rewrite bool_decide_true by done. cbn [andb]. rewrite C.
      apply andb_prop in C as [C C3].
      destruct (decide (i = i /\ (i < length (picture s))%nat)) as [Hd|Hd];
        [done|].
      assert (Hge : (length (picture s) <= i)%nat) by lia.
      unfold slot in C3.
      rewrite (proj2 (lookup_ge_None _ _) Hge) in C3. done.
    + rewrite bool_decide_false by congruence.
      by rewrite decide_False by tauto.
  - split; [done|]. intros i.
    destruct (decide (p = i)) as [->|Hne].
    + rewrite bool_decide_true by done. cbn [andb]. by rewrite C.
    + by rewrite bool_decide_false by congruence.
Qed.

Lemma first_picture_found test s n i :
  (i < n)%nat -> test (slot s i) = true ->
  exists k, first_picture test s 0 n = Some k /\ (k <= i)%nat.
Proof.
  intros Hi Ht. destruct (first_picture test s 0 n) as [k|] eqn:F.
  - exists k. split; [done|].
    apply first_picture_Some in F as (_ & _ & Hbefore).
    destruct (le_lt_dec k i) as [?|Hlt]; [done|].
    rewrite Hbefore in Ht by lia. done.
  - rewrite (first_picture_None _ _ _ _ F i) in Ht by lia. done.
Qed.

Lemma has_pixels_unref s pic :
  has_pixels (ff_mpeg_unref_picture K s pic) = false.
Proof. unfold has_pixels. by rewrite unref_buf0. Qed.

(** X8.  The releases with which ff_mpv_frame_start begins.  They leave
    the pool its size and the picture pointers as they are.  A slot that
    is neither the last nor the next picture and still has its pixel
    buffer afterwards is untouched, a reference that waits for
    reallocation; the next picture, when it is a reference, is kept as
    it is, and so is the last picture of a B frame; the last picture of
    another frame, when it is not the next picture too, is released.
    Therefore, in a pool of three slots or more where no slot is both
    waiting for reallocation and a delayed reference,
    ff_find_unused_picture finds a slot after these releases. *)
Theorem frame_start_release_pool (s : MpegEncContext) :
  length (picture s) = MAX_PICTURE_COUNT K ->
  let s' := frame_start_release K s in
  length (picture s') = MAX_PICTURE_COUNT K /\
  last_picture_ptr s' = last_picture_ptr s /\
  next_picture_ptr s' = next_picture_ptr s /\
  (forall i, last_picture_ptr s <> Some i -> next_picture_ptr s <> Some i ->
     has_pixels (slot s' i) = true ->
     slot s' i = slot s i /\ reference (slot s i) <> 0
     /\ needs_realloc (slot s i) <> 0) /\
  (forall n, next_picture_ptr s = Some n -> reference (slot s n) <> 0 ->
     slot s' n = slot s n) /\
  (forall l, last_picture_ptr s = Some l ->
     pict_type s = AV_PICTURE_TYPE_B K -> reference (slot s l) <> 0 ->
     slot s' l = slot s l) /\
  (forall l, last_picture_ptr s = Some l -> next_picture_ptr s <> Some l ->
     pict_type s <> AV_PICTURE_TYPE_B K -> has_pixels (slot s' l) = false) /\
  ((3 <= MAX_PICTURE_COUNT K)%nat -> AVERROR_INVALIDDATA K < 0 ->
   (forall i, needs_realloc (slot s i) = 0
              \/ Z.land (reference (slot s i)) (DELAYED_PIC_REF K) = 0) ->
   0 <= (ff_find_unused_picture K s' 0).1 < Z.of_nat (MAX_PICTURE_COUNT K)).
Proof.
  intros Hlen. cbv zeta. unfold frame_start_release.
  destruct (release_last_slot s) as [C1 S1].
  set (s1 := release_last K s) in *.
  assert (Hlen1 : length (picture s1) = MAX_PICTURE_COUNT K)
    by (destruct C1 as [-> _]; done).
  unfold release_forgotten.
  destruct (unref_where_slot (fun i pic =>
      is_not (last_picture_ptr s1) i && is_not (next_picture_ptr s1) i
      && negb (reference pic =? 0) && (needs_realloc pic =? 0)) s1 Hlen1)
    as [C2 S2].
  set (s2 := unref_where K _ s1) in *.
  assert (Hlen2 : length (picture s2) = MAX_PICTURE_COUNT K)
    by (destruct C2 as [-> _]; done).
  unfold release_unused_pictures.
  destruct (unref_where_slot (fun _ pic => reference pic =? 0) s2 Hlen2)
    as [C3 S3].
  set (s3 := unref_where K _ s2) in *.
  pose proof (same_context_trans _ _ _ C1 (same_context_trans _ _ _ C2 C3))
    as (L & P1 & P2 & _ & P4).
  destruct C1 as (_ & Q1 & Q2 & _ & _).
  assert (Hslot : forall i,
    slot s3 i = slot s i \/ has_pixels (slot s3 i) = false).
  { intros i. rewrite S3. destruct (_ =? 0); [right; apply has_pixels_unref|].
    rewrite S2. destruct (_ && _); [right; apply has_pixels_unref|].
    rewrite S1. destruct (_ && _); [right; apply has_pixels_unref|by left]. }
  assert (Hother : forall i, last_picture_ptr s <> Some i ->
    next_picture_ptr s <> Some i -> has_pixels (slot s3 i) = true ->
    slot s3 i = slot s i /\ reference (slot s i) <> 0
    /\ needs_realloc (slot s i) <> 0).
  { intros i Hl Hn Hp. revert Hp. rewrite S3.
    destruct (Z.eqb_spec (reference (slot s2 i)) 0) as [E|E];
      [by rewrite has_pixels_unref|].
    revert E. rewrite S2, Q1, Q2. unfold is_not.
    rewrite !bool_decide_false by done. cbn [negb andb].
    rewrite S1, (bool_decide_false (last_picture_ptr s = Some i)) by done.
    cbn [andb].
    destruct (Z.eqb_spec (reference (slot s i)) 0) as [E0|E0];
      cbn [negb andb]; [done|].
    destruct (Z.eqb_spec (needs_realloc (slot s i)) 0) as [E1|E1];
      [intros _; by rewrite has_pixels_unref|done]. }
  split; [by rewrite L|]. split; [done|]. split; [done|].
  split; [exact Hother|]. split; [|split; [|split]].
  - intros n Hn Hr. rewrite S3.
    assert (E2 : slot s2 n = slot s n).
    { rewrite S2, Q2. unfold is_not at 2.
      rewrite (bool_decide_true (next_picture_ptr s = Some n)) by done.
      rewrite andb_false_r. cbn [andb]. rewrite S1.
      destruct (decide (last_picture_ptr s = Some n)) as [El|El].
      - rewrite (bool_decide_true
                   (last_picture_ptr s = next_picture_ptr s)) by congruence.
        by rewrite andb_false_r.
      - by rewrite bool_decide_false by done. }
    rewrite E2. by destruct (Z.eqb_spec (reference (slot s n)) 0).
  - intros l Hl Hb Hr. rewrite S3.
    assert (E2 : slot s2 l = slot s l).
    { rewrite S2, Q1. unfold is_not at 1.
      rewrite (bool_decide_true (last_picture_ptr s = Some l)) by done.
      cbn [negb andb]. rewrite S1, Hb, Z.eqb_refl.
      by rewrite andb_false_r. }
    rewrite E2. by destruct (Z.eqb_spec (reference (slot s l)) 0).
  - intros l Hl Hn Hb.
    destruct (Hslot l) as [E|E]; [|done].
    destruct (has_pixels (slot s3 l)) eqn:Hp; [|done]. exfalso.
    revert Hp. rewrite S3.
    destruct (Z.eqb_spec (reference (slot s2 l)) 0) as [E0|E0];
      [by rewrite has_pixels_unref|].
    rewrite S2, Q1. unfold is_not at 1.
    rewrite (bool_decide_true (last_picture_ptr s = Some l)) by done.
    cbn [negb andb]. rewrite S1.
    rewrite (bool_decide_true (last_picture_ptr s = Some l)) by done.
    rewrite (bool_decide_false (last_picture_ptr s = next_picture_ptr s))
      by congruence.
    destruct (Z.eqb_spec (pict_type s) (AV_PICTURE_TYPE_B K)); [done|].
    cbn [negb andb]. unfold has_pixels.
    destruct (is_null (buf0 (f (slot s l)))) eqn:Hb0; cbn [negb].
    + by rewrite Hb0.
    + by rewrite unref_buf0.
  - intros H3 Herr Hdel.
    assert (Hfree : exists i, (i < 3)%nat /\ last_picture_ptr s <> Some i
                              /\ next_picture_ptr s <> Some i).
    { destruct (decide (last_picture_ptr s = Some 0%nat)) as [A|A];
        destruct (decide (next_picture_ptr s = Some 0%nat)) as [B|B];
        destruct (decide (last_picture_ptr s = Some 1%nat)) as [A1|A1];
        destruct (decide (next_picture_ptr s = Some 1%nat)) as [B1|B1];
        try (exists 0%nat; split; [lia|done]);
        try (exists 1%nat; split; [lia|done]);
        exists 2%nat; split; try lia; split; congruence. }
    destruct Hfree as (i & Hi & Hl & Hn).
    assert (Hunused : pic_is_unused K s3 (slot s3 i) = true).
    { unfold pic_is_unused.
      destruct (is_null (buf0 (f (slot s3 i)))) eqn:Hb; [done|].
      destruct (Hother i Hl Hn) as (E & Hr & Hnr);
        [unfold has_pixels; by rewrite Hb|].
      rewrite E. destruct (Hdel i) as [?|Hd]; [done|]. rewrite Hd.
      by destruct (Z.eqb_spec (needs_realloc (slot s i)) 0). }
    destruct (first_picture_found (pic_is_unused K s3) s3
                (MAX_PICTURE_COUNT K) i ltac:(lia) Hunused) as (k & Hk & Hki).
    unfold ff_find_unused_picture, find_unused_picture.
    cbn [Z.eqb negb]. rewrite Hk.
    assert (Hin : (Z.of_nat k >=? 0)
                  && (Z.of_nat k <? Z.of_nat (MAX_PICTURE_COUNT K)) = true).
    { apply andb_true_intro. split; [apply Z.geb_le|apply Z.ltb_lt]; lia. }
    rewrite Hin.
    destruct (negb (needs_realloc (slot s3 (Z.to_nat (Z.of_nat k))) =? 0));
      cbn [fst]; lia.
Qed.

End PoolLoops.

Lemma frame_start_release_pool_witness :
  let s := Frames.sample_pool 2 (Some 0%nat) (Some 0%nat) in
  let s' := Frames.frame_start_release Pictures.sample_constants s in
  Pictures.slot s' 0 = Pictures.slot s 0 /\
  Pictures.has_pixels (Pictures.slot s' 1) = false /\
  (Pictures.ff_find_unused_picture Pictures.sample_constants s' 0).1 = 1.
Proof.
  cbv zeta.
  destruct (frame_start_release_pool Pictures.sample_constants
              (Frames.sample_pool 2 (Some 0%nat) (Some 0%nat)))
    as (_ & _ & _ & _ & Hnext & _); [reflexivity|].
  split; [apply Hnext; [reflexivity|vm_compute; discriminate]|].
  split; vm_compute; reflexivity.
Defined.

Section PoolFlush.
Import Pictures Frames.
Variable K : Constants.

Lemma slot_set_pointers s l n i :
  slot (set_next_picture_ptr (set_last_picture_ptr s l) n) i = slot s i.
Proof. reflexivity. Qed.

Lemma pool_eq (s s' : MpegEncContext) :
  length (picture s') = length (picture s) ->
  (forall i, slot s' i = slot s i) -> picture s' = picture s.
Proof.
  intros Hlen Hs. apply list_eq. intros i.
  destruct (picture s !! i) as [p|] eqn:E.
  - destruct (lookup_lt_is_Some_2 (picture s') i) as [p' E'].
    { rewrite Hlen. by apply lookup_lt_Some in E. }
    rewrite E'. f_equal. specialize (Hs i). unfold slot in Hs.
    by rewrite E, E' in Hs.
  - apply lookup_ge_None. rewrite Hlen. by apply lookup_ge_None.
Qed.

(** X9.  ff_mpeg_flush leaves every slot of the pool without pixel
    buffer, with reference and needs_realloc clear and with the tables it
    had (none if it was waiting for reallocation), and the picture
    pointers NULL.  After it ff_find_unused_picture hands out slot 0,
    with or without [shared], and changes nothing; and a second flush
    changes nothing. *)
Theorem ff_mpeg_flush_pool (s : MpegEncContext) :
  length (picture s) = MAX_PICTURE_COUNT K ->
  let s' := ff_mpeg_flush K s in
  (forall i,
     has_pixels (slot s' i) = false /\
     reference (slot s' i) = 0 /\ needs_realloc (slot s' i) = 0 /\
     tables (slot s' i)
     = if needs_realloc (slot s i) =? 0 then tables (slot s i)
       else no_tables) /\
  last_picture_ptr s' = None /\ next_picture_ptr s' = None /\
  ((1 <= MAX_PICTURE_COUNT K)%nat ->
   forall shared, ff_find_unused_picture K s' shared = (0, s')) /\
  ff_mpeg_flush K s' = s'.
Proof.
  intros Hlen. cbv zeta. unfold ff_mpeg_flush.
  destruct (unref_where_slot K (fun _ _ => true) s Hlen) as [C1 S1].
  set (s1 := unref_where K _ s) in *.
  set (s' := set_next_picture_ptr (set_last_picture_ptr s1 None) None).
  assert (Hs' : forall i, slot s' i = ff_mpeg_unref_picture K s (slot s i)).
  { intros i. subst s'. by rewrite slot_set_pointers, S1. }
  split; [|split; [done|split; [done|split]]].
  - intros i. rewrite Hs'. split; [apply has_pixels_unref|].
    split; [done|]. split; [done|]. apply unref_tables.
  - intros H1 shared. unfold ff_find_unused_picture, find_unused_picture.
    assert (Hf : forall test : Picture -> bool,
              test (slot s' 0) = true ->
              first_picture test s' 0 (MAX_PICTURE_COUNT K) = Some 0%nat).
    { intros test Ht. destruct (MAX_PICTURE_COUNT K) as [|n]; [lia|].
      cbn [first_picture]. by rewrite Ht. }
    assert (H0 : is_null (buf0 (f (slot s' 0))) = true).
    { by rewrite Hs', unref_buf0. }
    rewrite !Hf by (done || (unfold pic_is_unused; by rewrite H0)).
    assert (Hin : (Z.of_nat 0 >=? 0)
                  && (Z.of_nat 0 <? Z.of_nat (MAX_PICTURE_COUNT K)) = true).
    { apply andb_true_intro. split; [apply Z.geb_le|apply Z.ltb_lt]; lia. }
    destruct (negb (shared =? 0)); rewrite Hin;
      change (Z.to_nat (Z.of_nat 0)) with 0%nat; by rewrite Hs'.
  - destruct C1 as (L1 & _ & _ & Hc & _).
    assert (Hlen' : length (picture s') = MAX_PICTURE_COUNT K)
      by (subst s'; cbn; lia).
    destruct (unref_where_slot K (fun _ _ => true) s' Hlen') as [C2 S2].
    set (s2 := unref_where K _ s') in *.
    assert (Ep : picture s2 = picture s').
    { apply pool_eq; [by destruct C2|]. intros i.
      rewrite S2, Hs', (unref_codec K s s') by (subst s'; done).
      apply unref_idem. }
    destruct C2 as (_ & _ & _ & _ & _).
    assert (E2 : s2 = set_picture s' (picture s2)).
    { subst s2. unfold unref_where.
      generalize (seq 0 (MAX_PICTURE_COUNT K)). intros l.
      assert (G : forall t, t = set_picture s' (picture t) ->
        fold_left (fun s i => if true
                     then store s i (ff_mpeg_unref_picture K s (slot s i))
                     else s) l t
        = set_picture s'
            (picture (fold_left (fun s i => if true
                        then store s i (ff_mpeg_unref_picture K s (slot s i))
                        else s) l t))).
      { induction l as [|i l IH]; intros t Ht; cbn [fold_left]; [done|].
        apply IH. rewrite Ht at 1. reflexivity. }
      apply G. by destruct s'. }
    rewrite E2, Ep. subst s'. by destruct s1.
Qed.

(** X10.  After ff_mpv_common_frame_size_change has marked every
    Picture of the pool for reallocation, the slot that
    ff_find_unused_picture(s, 0) hands out is the first one that has no
    pixel buffer or is no delayed reference; it comes back without pixel
    buffer, without any table and with needs_realloc clear, so that
    ff_alloc_picture allocates its tables anew; the other slots stay
    marked.  The search fails exactly when every slot has a pixel buffer
    and is a delayed reference. *)
Theorem realloc_after_size_change (s : MpegEncContext) :
  length (picture s) = MAX_PICTURE_COUNT K ->
  AVERROR_INVALIDDATA K < 0 ->
  let s1 := mark_needs_realloc K s in
  let ret := (ff_find_unused_picture K s1 0).1 in
  let s2 := (ff_find_unused_picture K s1 0).2 in
  (ret < 0 <->
   forall i, (i < MAX_PICTURE_COUNT K)%nat ->
     has_pixels (slot s i) = true
     /\ Z.land (reference (slot s i)) (DELAYED_PIC_REF K) <> 0) /\
  (0 <= ret ->
   exists i, ret = Z.of_nat i /\ (i < MAX_PICTURE_COUNT K)%nat /\
     (has_pixels (slot s i) = false
      \/ Z.land (reference (slot s i)) (DELAYED_PIC_REF K) = 0) /\
     (forall j, (j < i)%nat ->
        has_pixels (slot s j) = true
        /\ Z.land (reference (slot s j)) (DELAYED_PIC_REF K) <> 0) /\
     has_pixels (slot s2 i) = false /\ tables (slot s2 i) = no_tables /\
     needs_realloc (slot s2 i) = 0 /\
     is_null (tables (slot s2 i) qscale_table_buf) = true /\
     (forall j, (j < MAX_PICTURE_COUNT K)%nat -> j <> i ->
        slot s2 j = set_needs_realloc (slot s j) 1)).
Proof.
  intros Hlen Herr. cbv zeta. unfold mark_needs_realloc.
  destruct (fold_store (fun _ pic => set_needs_realloc pic 1) s
              (MAX_PICTURE_COUNT K)) as [C1 S1].
  set (s0 := fold_left _ _ s) in *.
  set (s1 := set_next_picture_ptr (set_last_picture_ptr s0 None) None).
  assert (Hs1 : forall i, (i < MAX_PICTURE_COUNT K)%nat ->
            slot s1 i = set_needs_realloc (slot s i) 1).
  { intros i Hi. subst s1. rewrite slot_set_pointers, S1.
    by rewrite decide_True by lia. }
  assert (Hlen1 : length (picture s1) = MAX_PICTURE_COUNT K).
  { subst s1. cbn. destruct C1 as [-> _]. done. }
  assert (Htest : forall i, (i < MAX_PICTURE_COUNT K)%nat ->
            unused_test K s1 0 (slot s1 i)
            = is_null (buf0 (f (slot s i)))
              || (Z.land (reference (slot s i)) (DELAYED_PIC_REF K) =? 0)).
  { intros i Hi. rewrite Hs1 by done. unfold unused_test, pic_is_unused.
    cbn. by destruct (is_null _), (_ =? 0). }
  assert (Hpix : forall i, has_pixels (slot s i) = true
            /\ Z.land (reference (slot s i)) (DELAYED_PIC_REF K) <> 0 <->
            is_null (buf0 (f (slot s i)))
            || (Z.land (reference (slot s i)) (DELAYED_PIC_REF K) =? 0)
            = false).
  { intros i. unfold has_pixels.
    destruct (is_null _); destruct (Z.eqb_spec (Z.land (reference (slot s i))
                                       (DELAYED_PIC_REF K)) 0);
      cbn; split; try done; intros [? ?]; done. }
  destruct (ff_find_unused_picture K s1 0) as [iz s2] eqn:Hfind.
  cbn [fst snd].
  destruct (Z_lt_le_dec iz 0) as [Hneg|Hpos].
  - split; [|lia]. split; [|done]. intros _ i Hi. apply Hpix.
    rewrite <- Htest by done.
    revert Hfind. unfold ff_find_unused_picture.
    rewrite find_unused_picture_eq.
    destruct (first_picture _ s1 0 _) as [k|] eqn:F.
    + assert (Hin : (Z.of_nat k >=? 0)
                    && (Z.of_nat k <? Z.of_nat (MAX_PICTURE_COUNT K)) = true).
      { apply first_picture_Some in F as (Hk & _).
        apply andb_true_intro. split; [apply Z.geb_le|apply Z.ltb_lt]; lia. }
      rewrite Hin. destruct (negb _); intros [= <- <-]; lia.
    + intros _. apply (first_picture_None _ _ _ _ F). lia.
  - destruct (ff_find_unused_picture_slot K s1 0 iz s2 Hlen1 Herr Hfind Hpos)
      as (i & -> & Hi & Ht & Hbefore & Hlen2 & Es2).
    split.
    { split; [lia|]. intros Hall. rewrite Htest in Ht by done.
      pose proof (proj1 (Hpix i) (Hall i Hi)) as Hf. congruence. }
    intros _. exists i. split; [done|]. split; [done|].
    rewrite Htest in Ht by done.
    split.
    { unfold has_pixels. apply orb_prop in Ht as [->|Ht]; [by left|].
      right. by apply Z.eqb_eq. }
    split.
    { intros j Hj. apply Hpix. rewrite <- Htest by lia. by apply Hbefore. }
    assert (Hnr : negb (needs_realloc (slot s1 i) =? 0) = true)
      by (by rewrite Hs1).
    rewrite Hnr in Es2. subst s2.
    rewrite slot_store_eq by lia.
    split; [apply has_pixels_unref|].
    split; [by rewrite unref_tables|].
    split; [done|]. split; [by rewrite unref_tables|].
    intros j Hj Hne. rewrite slot_store_ne by done. by apply Hs1.
Qed.

End PoolFlush.

Lemma ff_mpeg_flush_pool_witness :
  let s' := Frames.ff_mpeg_flush Pictures.sample_constants
              (Frames.sample_pool 2 (Some 0%nat) (Some 0%nat)) in
  Pictures.has_pixels (Pictures.slot s' 0) = false /\
  Pictures.ff_find_unused_picture Pictures.sample_constants s' 1 = (0, s').
Proof.
  cbv zeta.
  destruct (ff_mpeg_flush_pool Pictures.sample_constants
              (Frames.sample_pool 2 (Some 0%nat) (Some 0%nat)))
    as (Hslots & _ & _ & Hfind & _); [reflexivity|].
  split; [apply (Hslots 0%nat)|apply Hfind; vm_compute; lia].
Defined.

Lemma realloc_after_size_change_witness :
  let s1 := Frames.mark_needs_realloc Pictures.sample_constants
              (Frames.sample_pool 2 (Some 0%nat) (Some 0%nat)) in
  exists i, (Pictures.ff_find_unused_picture Pictures.sample_constants s1 0).1
            = Z.of_nat i /\
    Pictures.tables
      (Pictures.slot
         (Pictures.ff_find_unused_picture Pictures.sample_constants s1 0).2 i)
    = Pictures.no_tables.
Proof.
  cbv zeta.
  destruct (realloc_after_size_change Pictures.sample_constants
              (Frames.sample_pool 2 (Some 0%nat) (Some 0%nat)))
    as [_ Hfound]; [reflexivity|vm_compute; reflexivity|].
  destruct Hfound as (i & Hi & _ & _ & _ & _ & Ht & _);
    [vm_compute; discriminate|].
  exists i. split; [exact Hi|exact Ht].
Defined.

Section RefPicture.
Import Pictures Frames.
Variable K : Constants.
Hypothesis Henomem : AVERROR_ENOMEM K < 0.

Lemma table_order_NoDup : NoDup table_order.
Proof. apply (bool_decide_unpack _). vm_compute. exact I. Qed.

(** update_picture_tables, table by table: after the tables with index
    in [D] the update has failed, or those tables are the updated ones
    and the others are as they were. *)
Lemma UPDATE_TABLE_eq src dst0 o (D : list nat) st k :
  k ∉ D ->
  (st.1 < 0 \/
   (st.1 = 0 /\ forall j name, table_order !! j = Some name ->
      st.2 name = if decide (j ∈ D) then updated_table src dst0 name
                  else dst0 name)) ->
  let st' := UPDATE_TABLE K src o st k in
  st'.1 < 0 \/
  (st'.1 = 0 /\ forall j name, table_order !! j = Some name ->
     st'.2 name = if decide (j ∈ k :: D) then updated_table src dst0 name
                  else dst0 name).
Proof using Henomem.
  intros Hk H. cbv zeta. unfold UPDATE_TABLE. destruct st as [ret t].
  cbn [fst snd] in H. destruct H as [Hr|[-> Ht]].
  { left. destruct (Z.ltb_spec ret 0); [done|lia]. }
  cbn [Z.ltb Z.compare].
  assert (Hkeep : forall j name, table_order !! j = Some name -> j <> k ->
            (if decide (j ∈ k :: D) then updated_table src dst0 name
             else dst0 name)
            = if decide (j ∈ D) then updated_table src dst0 name
              else dst0 name).
  { intros j name _ Hne. destruct (decide (j ∈ D)) as [Hin|Hout].
    - rewrite decide_True; [done|by right].
    - rewrite decide_False; [done|].
      intros Hin. apply elem_of_cons in Hin as [?|?]; done. }
  destruct (table_order !! k) as [name0|] eqn:Ek.
  2:{ right. split; [done|]. intros j name Hj.
      rewrite Hkeep; [by apply Ht|done|congruence]. }
  assert (Hat : forall j name, table_order !! j = Some name -> name = name0 ->
            j = k).
  { intros j name Hj ->. eapply NoDup_lookup; eauto using table_order_NoDup. }
  assert (Hk0 : t name0 = dst0 name0).
  { rewrite (Ht k name0 Ek). by rewrite decide_False. }
  destruct (src name0) as [b|] eqn:Es.
  - destruct (is_null (t name0) || negb (bool_decide (t name0 = Some b)))
      eqn:Hc.
    + destruct (default true (tab_ref o !! k)); [|left; cbn; lia].
      right. split; [done|]. cbn [snd]. intros j name Hj. unfold set_table.
      destruct (decide (name = name0)) as [->|Hne].
      * rewrite (Hat j name0 Hj eq_refl).
        rewrite decide_True by (by left). unfold updated_table.
        by rewrite Es.
      * rewrite Hkeep; [by apply Ht|done|]. intros ->. congruence.
    + right. split; [done|]. cbn [snd]. intros j name Hj.
      destruct (decide (j = k)) as [->|Hne].
      * assert (name = name0) as -> by congruence.
        rewrite decide_True by (by left). unfold updated_table. rewrite Es.
        apply orb_false_elim in Hc as [_ Hc].
        apply negb_false_iff in Hc. by apply bool_decide_eq_true in Hc.
      * rewrite Hkeep; [by apply Ht|done|done].
  - right. split; [done|]. cbn [snd]. intros j name Hj.
    destruct (decide (j = k)) as [->|Hne].
    + assert (name = name0) as -> by congruence.
      rewrite decide_True by (by left). unfold updated_table.
      by rewrite Es.
    + rewrite Hkeep; [by apply Ht|done|done].
Qed.

Lemma fold_UPDATE_TABLE_eq src dst0 o ks : forall (D : list nat) st,
  NoDup ks -> (forall k, k ∈ ks -> k ∉ D) ->
  (st.1 < 0 \/
   (st.1 = 0 /\ forall j name, table_order !! j = Some name ->
      st.2 name = if decide (j ∈ D) then updated_table src dst0 name
                  else dst0 name)) ->
  let st' := fold_left (UPDATE_TABLE K src o) ks st in
  st'.1 < 0 \/
  (st'.1 = 0 /\ forall j name, table_order !! j = Some name ->
     st'.2 name = if decide (j ∈ D \/ j ∈ ks)
                  then updated_table src dst0 name else dst0 name).
Proof using Henomem.
  induction ks as [|k ks IH]; intros D st Hnd Hfresh H; cbv zeta.
  - cbn [fold_left]. destruct H as [H|[H1 H2]]; [by left|right].
    split; [done|]. intros j name Hj.
    etransitivity; [exact (H2 j name Hj)|].
    destruct (decide (j ∈ D)).
    + rewrite decide_True; [done|by left].
    + rewrite decide_False; [done|]. intros [?|Hin]; [done|inversion Hin].
  - cbn [fold_left]. apply NoDup_cons in Hnd as [Hk Hnd].
    pose proof (UPDATE_TABLE_eq src dst0 o D st k
                  ltac:(apply Hfresh; by left) H) as H1.
    cbv zeta in H1.
    assert (Hfresh' : forall k', k' ∈ ks -> k' ∉ k :: D).
    { intros k' Hk' Hin. apply elem_of_cons in Hin as [->|Hin]; [done|].
      apply (Hfresh k'); [by right|done]. }
    pose proof (IH (k :: D) (UPDATE_TABLE K src o st k) Hnd Hfresh' H1) as H2.
    cbv zeta in H2.
    destruct H2 as [H2|[H2 H3]]; [by left|].
    right. split; [done|]. intros j name Hj.
    etransitivity; [exact (H3 j name Hj)|].
    destruct (decide (j ∈ k :: D \/ j ∈ ks)) as [Hd|Hd].
    + rewrite decide_True; [done|].
      destruct Hd as [Hd|Hd]; [|right; by right].
      apply elem_of_cons in Hd as [->|Hd]; [right; by left|by left].
    + rewrite decide_False; [done|]. intros [Hin|Hin]; apply Hd.
      * left. by right.
      * apply elem_of_cons in Hin as [->|Hin]; [left; by left|by right].
Qed.

Lemma update_picture_tables_eq dst src o ret dst' :
  update_picture_tables K dst src o = (ret, dst') ->
  f dst' = f dst /\ progress dst' = progress dst /\
  hwaccel_priv_buf dst' = hwaccel_priv_buf dst /\
  hwaccel_picture_private dst' = hwaccel_picture_private dst /\
  (ret < 0 \/
   (ret = 0 /\ forall name, name ∈ table_order ->
      tables dst' name = updated_table (tables src) (tables dst) name)).
Proof using Henomem.
  unfold update_picture_tables.
  pose proof (fold_UPDATE_TABLE_eq (tables src) (tables dst) o
                (seq 0 (length table_order)) [] (0, tables dst)
                (NoDup_seq _ _)) as U.
  cbv zeta in U.
  destruct (fold_left _ _ _) as [r t]. intros [= <- <-].
  repeat (split; [done|]).
  destruct U as [U|[U1 U2]].
  - intros k _ Hin. inversion Hin.
  - right. split; [done|]. intros j name Hj. by rewrite decide_False by inversion 1.
  - by left.
  - right. split; [done|]. intros name Hin.
    apply list_elem_of_lookup in Hin as [j Hj].
    cbn [snd tables set_tables] in *. etransitivity; [exact (U2 j name Hj)|].
    rewrite decide_True; [done|]. right. apply elem_of_seq.
    apply lookup_lt_Some in Hj. lia.
Qed.

(** What ff_mpeg_ref_picture returns and leaves in [dst], case by case. *)
Lemma ref_picture_cases s dst src o :
  match ff_mpeg_ref_picture K s dst src o with
  | None => has_pixels dst = true \/ has_pixels src = false
  | Some (ret, dst') =>
      has_pixels dst = false /\ has_pixels src = true /\
      ((ret = 0 /\ mirrors dst' src /\
        (forall name, name ∈ table_order -> tables src name = None ->
           tables dst' name = tables dst name))
       \/ (has_pixels dst' = false /\ reference dst' = 0 /\
           (ret < 0 \/
            (ret = 0 /\ is_null (hwaccel_picture_private src) = false
             /\ hw_ref o = false))))
  end.
Proof using Henomem.
  unfold ff_mpeg_ref_picture, has_pixels.
  destruct (is_null (buf0 (f dst))); cbn [negb]; [|by left].
  destruct (is_null (buf0 (f src))); cbn [negb]; [by right|].
  destruct (Z.ltb_spec (ref_ret o) 0) as [Hr|Hr].
  { split; [done|]. split; [done|]. right.
    split; [by rewrite unref_buf0|]. split; [done|by left]. }
  destruct (update_picture_tables K _ src o) as [r d1] eqn:U.
  apply update_picture_tables_eq in U as (Uf & Up & _ & _ & Ut).
  cbn [f set_f set_progress progress tables] in Uf, Up, Ut.
  destruct (Z.ltb_spec r 0) as [Hr1|Hr1].
  { split; [done|]. split; [done|]. right.
    split; [by rewrite unref_buf0|]. split; [done|by left]. }
  destruct Ut as [?|[-> Ut]]; [lia|].
  assert (Hmir : forall d2, f d2 = f d1 -> progress d2 = progress d1 ->
            tables d2 = tables d1 ->
            reference d2 = reference src ->
            needs_realloc d2 = needs_realloc src ->
            field_picture d2 = field_picture src -> shared d2 = shared src ->
            mirrors d2 src /\
            (forall name, name ∈ table_order -> tables src name = None ->
               tables d2 name = tables dst name)).
  { intros d2 H1 H2 H3 H4 H5 H6 H7. unfold mirrors.
    rewrite H1, H2, H3, Uf, Up.
    repeat split; try done.
    - intros name b Hin Hs. rewrite (Ut name Hin). unfold updated_table.
      by rewrite Hs.
    - intros name Hin Hs. rewrite (Ut name Hin). unfold updated_table.
      by rewrite Hs. }
  destruct (is_null (hwaccel_picture_private src)) eqn:Hhw; cbn [negb].
  - split; [done|]. split; [done|]. left. split; [done|]. by apply Hmir.
  - destruct (hw_ref o) eqn:Hh.
    + split; [done|]. split; [done|]. left. split; [done|]. by apply Hmir.
    + split; [done|]. split; [done|]. right.
      split; [by rewrite unref_buf0|]. split; [done|]. right. done.
Qed.


(** The loop of ff_mpeg_update_thread_context over the first [n]
    slots. *)
Lemma update_thread_pictures_prefix s s1 os n :
  match fold_left (update_thread_picture K s1 os) (seq 0 n) (Some (inr s)) with
  | None => False
  | Some (inl ret) => ret < 0
  | Some (inr s') =>
      same_context s s' /\
      forall i,
        if decide (i < n /\ i < length (picture s))%nat then
          if has_pixels (slot s1 i) then
            mirrors (slot s' i) (slot s1 i)
            \/ (has_pixels (slot s' i) = false
                /\ is_null (hwaccel_picture_private (slot s1 i)) = false
                /\ hw_ref (os i) = false)
          else slot s' i = ff_mpeg_unref_picture K s (slot s i)
        else slot s' i = slot s i
  end.
Proof using Henomem.
  induction n as [|n IH].
  - cbn [seq fold_left]. split; [done|]. intros i.
    by rewrite decide_False by lia.
  - rewrite seq_S, fold_left_app. cbn [fold_left Nat.add].
    destruct (fold_left _ (seq 0 n) _) as [[ret|s']|]; [done| |done].
    destruct IH as [C IH]. unfold update_thread_picture.
    set (s2 := store s' n (ff_mpeg_unref_picture K s' (slot s' n))).
    assert (C2 : same_context s s2) by (by apply same_context_store).
    assert (Hn : slot s' n = slot s n).
    { specialize (IH n). by rewrite decide_False in IH by lia. }
    assert (S2 : forall i, slot s2 i
              = if decide (i = n /\ (n < length (picture s))%nat)
                then ff_mpeg_unref_picture K s (slot s n) else slot s' i).
    { intros i. subst s2. rewrite slot_store.
      destruct C as (L & _ & _ & Hc & _). rewrite L, Hn.
      rewrite (unref_codec K s s') by done.
      destruct (decide (n = i)) as [->|Hne].
      - destruct (decide (i < length (picture s))%nat).
        + by rewrite !decide_True by done.
        + by rewrite !decide_False by tauto.
      - rewrite !decide_False; [done| |]; intros [? ?]; congruence. }
    assert (Hrest : forall s3,
      same_context s s3 ->
      (forall i, i <> n -> slot s3 i = slot s2 i) ->
      forall i, i <> n ->
        if decide (i < S n /\ i < length (picture s))%nat then
          if has_pixels (slot s1 i) then
            mirrors (slot s3 i) (slot s1 i)
            \/ (has_pixels (slot s3 i) = false
                /\ is_null (hwaccel_picture_private (slot s1 i)) = false
                /\ hw_ref (os i) = false)
          else slot s3 i = ff_mpeg_unref_picture K s (slot s i)
        else slot s3 i = slot s i).
    { intros s3 _ H3 i Hne. rewrite H3, S2 by done.
      rewrite (decide_False (P := i = n /\ _)) by tauto.
      specialize (IH i).
      destruct (decide (i < n /\ i < length (picture s))%nat) as [Hd|Hd].
      - by rewrite decide_True by lia.
      - by rewrite decide_False by lia. }
    unfold has_pixels in *.
    destruct (is_null (buf0 (f (slot s1 n)))) eqn:Hb; cbn [negb].
    + split; [done|]. intros i.
      destruct (decide (i = n)) as [->|Hne]; [|by apply Hrest].
      rewrite Hb. cbn [negb]. rewrite S2.
      destruct (decide (n < length (picture s))%nat) as [Hl|Hl].
      * by rewrite !decide_True by lia.
      * rewrite !decide_False by lia. done.
    + pose proof (ref_picture_cases s2 (slot s2 n) (slot s1 n) (os n))
        as R.
      destruct (ff_mpeg_ref_picture K s2 (slot s2 n) (slot s1 n) (os n))
        as [[ret pic]|].
      2:{ destruct R as [R|R]; unfold has_pixels in R.
          - rewrite S2 in R.
            destruct (decide (n = n /\ _)) in R.
            + by rewrite unref_buf0 in R.
            + rewrite Hn in R. unfold slot in R.
              rewrite (proj2 (lookup_ge_None (picture s) n)) in R by lia.
              done.
          - by rewrite Hb in R. }
      destruct R as (_ & _ & R).
      destruct (Z.ltb_spec ret 0) as [Hr|Hr].
      { destruct R as [(-> & _)|(_ & _ & [?|(-> & _)])]; lia. }
      split; [by apply same_context_store|]. intros i.
      destruct (decide (i = n)) as [->|Hne].
      2:{ apply Hrest; [by apply same_context_store| |done].
          intros j Hj. by rewrite slot_store_ne. }
      rewrite Hb. cbn [negb].
      destruct (decide (n < length (picture s))%nat) as [Hl|Hl].
      * rewrite decide_True by lia.
        rewrite slot_store_eq by (destruct C2 as [-> _]; done).
        destruct R as [(_ & Hm & _)|(Hp & _ & [?|(_ & H1 & H2)])];
          [by left|lia|right; done].
      * rewrite decide_False by lia. rewrite slot_store.
        destruct C2 as [L2 _]. rewrite L2.
        rewrite decide_False by tauto. rewrite S2.
        rewrite decide_False by tauto. done.
Qed.


End RefPicture.



(** ** Permuting a block *)

Section BlockPermute.
Import Permute.

Lemma fold_left_ext_in {A B} (g h : A -> B -> A) ks : forall t,
  (forall t k, k ∈ ks -> g t k = h t k) ->
  fold_left g ks t = fold_left h ks t.
Proof.
  induction ks as [|k ks IH]; intros t H; [done|].
  cbn [fold_left]. rewrite H by left. apply IH.
  intros t' k' Hk'. apply H. by right.
Qed.

(** Over positions that do not repeat, the first loop reads every
    coefficient before it clears it: it is a loop that clears [block]
    and a loop that writes the coefficients of [block] into [temp]. *)
Lemma save_loop scantable ks : forall block temp,
  NoDup (rd scantable <$> ks) ->
  fold_left (save_step scantable) ks (block, temp)
  = (fold_left (fun b k => wr b (rd scantable k) 0) ks block,
     fold_left (fun t k => wr t (rd scantable k) (rd block (rd scantable k)))
       ks temp).
Proof.
  induction ks as [|k ks IH]; intros block temp Hnd; [done|].
  rewrite fmap_cons in Hnd. apply NoDup_cons in Hnd as [Hk Hnd].
  cbn [fold_left]. unfold save_step at 2. cbn [fst snd].
  rewrite IH by done. f_equal.
  apply fold_left_ext_in. intros t k' Hk'. f_equal.
  apply rd_wr_ne. intros E. apply Hk. rewrite E.
  apply list_elem_of_fmap. eauto.
Qed.

Lemma rd_ext (a b : list Z) :
  length a = length b ->
  (forall p, 0 <= p < Z.of_nat (length a) -> rd a p = rd b p) -> a = b.
Proof.
  intros Hl H. apply list_eq. intros i.
  destruct (decide (i < length a)%nat) as [Hi|Hi].
  - specialize (H (Z.of_nat i) ltac:(lia)). unfold rd in H.
    destruct (Z.ltb_spec (Z.of_nat i) 0); [lia|].
    rewrite Nat2Z.id in H.
    destruct (lookup_lt_is_Some_2 a i Hi) as [x Hx].
    destruct (lookup_lt_is_Some_2 b i ltac:(lia)) as [y Hy].
    rewrite Hx, Hy in *. cbn in H. by subst.
  - rewrite !(proj2 (lookup_ge_None _ _)); [done| |]; lia.
Qed.

Lemma rd_fmap_seqZ (g : Z -> Z) n p :
  0 <= p < n -> rd (g <$> seqZ 0 n) p = g p.
Proof.
  intros Hp. unfold rd. destruct (Z.ltb_spec p 0); [lia|].
  rewrite list_lookup_fmap, lookup_seqZ_lt by lia. cbn. f_equal. lia.
Qed.

Lemma rd_seqZ_self (a : list Z) :
  a = rd a <$> seqZ 0 (Z.of_nat (length a)).
Proof.
  apply rd_ext.
  - by rewrite length_fmap, length_seqZ, Nat2Z.id.
  - intros p Hp. by rewrite rd_fmap_seqZ.
Qed.

(** What ff_block_permute leaves at every position. *)
Lemma block_permute_cells temp block permutation scantable last :
  length block = 64%nat -> length temp = 64%nat -> 1 <= last ->
  NoDup (scanned scantable last) ->
  (forall j, j ∈ scanned scantable last ->
     0 <= j < 64 /\ 0 <= rd permutation j < 64) ->
  (forall j j', j ∈ scanned scantable last -> j' ∈ scanned scantable last ->
     rd permutation j = rd permutation j' -> j = j') ->
  let out := ff_block_permute temp block permutation scantable last in
  length out = 64%nat /\
  (forall j, j ∈ scanned scantable last ->
     rd out (rd permutation j) = rd block j) /\
  (forall p, p ∉ rd permutation <$> scanned scantable last ->
     rd out p = if decide (p ∈ scanned scantable last) then 0
                else rd block p).
Proof.
  intros Hb Ht Hlast Hnd Hrange Hinj out. subst out.
  unfold ff_block_permute, scanned in *.
  destruct (Z.leb_spec last 0); [lia|].
  set (ks := seqZ 0 (last + 1)) in *.
  rewrite save_loop by done. cbn [fst snd].
  set (b1 := fold_left (fun b k => wr b (rd scantable k) 0) ks block).
  set (t1 := fold_left _ ks temp).
  assert (Hb1 : length b1 = 64%nat)
    by (unfold b1; by rewrite (length_fold_wr (rd scantable) (fun _ => 0))).
  assert (Ht1 : forall k, k ∈ ks ->
            rd t1 (rd scantable k) = rd block (rd scantable k)).
  { intros k Hk. unfold t1.
    apply (fold_wr_at (rd scantable) (fun k => rd block (rd scantable k))).
    - done.
    - rewrite Ht. apply Hrange. apply list_elem_of_fmap. eauto.
    - intros k' _ E. by rewrite E. }
  change (fold_left (put_step permutation scantable t1) ks b1)
    with (fold_left (fun b k => wr b (rd permutation (rd scantable k))
                                  (rd t1 (rd scantable k))) ks b1).
  split; [|split].
  - by rewrite (length_fold_wr (fun k => rd permutation (rd scantable k))
                  (fun k => rd t1 (rd scantable k))).
  - intros j Hj. apply list_elem_of_fmap in Hj as (k & -> & Hk).
    rewrite <- (Ht1 k Hk).
    apply (fold_wr_at (fun k => rd permutation (rd scantable k))
             (fun k => rd t1 (rd scantable k))).
    + done.
    + rewrite Hb1. apply Hrange. apply list_elem_of_fmap. eauto.
    + intros k' Hk' E. f_equal. apply Hinj; [| |done];
        apply list_elem_of_fmap; eauto.
  - intros p Hp.
    rewrite (fold_wr_other (fun k => rd permutation (rd scantable k))
               (fun k => rd t1 (rd scantable k))).
    2:{ intros Hin. apply Hp. apply list_elem_of_fmap in Hin as (k & -> & Hk).
        apply list_elem_of_fmap. eexists. split; [done|].
        apply list_elem_of_fmap. eauto. }
    unfold b1. destruct (decide (p ∈ rd scantable <$> ks)) as [Hin|Hout].
    + apply list_elem_of_fmap in Hin as (k & -> & Hk).
      apply (fold_wr_at (rd scantable) (fun _ => 0)); [done| |done].
      rewrite Hb. apply Hrange. apply list_elem_of_fmap. eauto.
    + by apply (fold_wr_other (rd scantable) (fun _ => 0)).
Qed.

(** X13.  ff_block_permute, for a last index of 1 or more, over scan
    positions scantable[0..last] that do not repeat and a permutation
    that does not send two of them to the same place: the coefficient of
    every scan position j ends at permutation[j]; every other place
    holds 0 if it is a scan position and its old coefficient if it is
    not; and none of this depends on what the local array temp held on
    entry.  For a last index of 0 or less the block is left as it is. *)
Theorem ff_block_permute_moves temp block permutation scantable last :
  length block = 64%nat -> length temp = 64%nat ->
  NoDup (scanned scantable last) ->
  (forall j, j ∈ scanned scantable last ->
     0 <= j < 64 /\ 0 <= rd permutation j < 64) ->
  (forall j j', j ∈ scanned scantable last -> j' ∈ scanned scantable last ->
     rd permutation j = rd permutation j' -> j = j') ->
  let out := ff_block_permute temp block permutation scantable last in
  (last <= 0 -> out = block) /\
  (1 <= last ->
   length out = 64%nat /\
   (forall j, j ∈ scanned scantable last ->
      rd out (rd permutation j) = rd block j) /\
   (forall p, p ∉ rd permutation <$> scanned scantable last ->
      rd out p = if decide (p ∈ scanned scantable last) then 0
                 else rd block p) /\
   (forall temp', length temp' = 64%nat ->
      ff_block_permute temp' block permutation scantable last = out)).
Proof.
  intros Hb Ht Hnd Hrange Hinj out. split.
  - intros Hl. subst out. unfold ff_block_permute.
    by destruct (Z.leb_spec last 0); [|lia].
  - intros Hl. subst out.
    destruct (block_permute_cells temp block permutation scantable last)
      as (L & Hmove & Hrest); try done.
    repeat split; try done.
    intros temp' Ht'.
    destruct (block_permute_cells temp' block permutation scantable last)
      as (L' & Hmove' & Hrest'); try done.
    apply rd_ext; [by rewrite L, L'|]. intros p _.
    destruct (decide (p ∈ rd permutation <$> scanned scantable last))
      as [Hin|Hout].
    + apply list_elem_of_fmap in Hin as (j & -> & Hj).
      by rewrite Hmove', (Hmove j Hj).
    + by rewrite Hrest', (Hrest p Hout).
Qed.

(** A list of [n] different numbers of [0, n) lists them all. *)
Lemma Permutation_seqZ_intro (l : list Z) (n : Z) :
  NoDup l -> Forall (fun x => 0 <= x < n) l -> length l = Z.to_nat n ->
  l ≡ₚ seqZ 0 n.
Proof.
  intros Hnd Hr Hl. apply submseteq_length_Permutation.
  - apply NoDup_submseteq; [done|]. intros x Hx. apply elem_of_seqZ.
    pose proof (proj1 (Forall_forall _ _) Hr x Hx) as Hx'.
    cbn beta in Hx'. lia.
  - rewrite length_seqZ. lia.
Qed.

Lemma scan_tables_complete scantable :
  scantable = ff_alternate_horizontal_scan
  \/ scantable = Dequant.ff_alternate_vertical_scan ->
  scanned scantable 63 ≡ₚ seqZ 0 64.
Proof.
  intros [->| ->]; apply Permutation_seqZ_intro; compute_done.
Qed.

(** X14.  The two alternate scan tables of the file list every position
    0..63 once.  So ff_block_permute over either of them, with the last
    index 63 and a permutation of the 64 positions, moves every
    coefficient: the coefficient at j ends at permutation[j], and the
    block afterwards is a rearrangement of the block before. *)
Theorem ff_block_permute_whole temp block permutation scantable :
  scantable = ff_alternate_horizontal_scan
  \/ scantable = Dequant.ff_alternate_vertical_scan ->
  length block = 64%nat -> length temp = 64%nat ->
  permutation ≡ₚ seqZ 0 64 ->
  let out := ff_block_permute temp block permutation scantable 63 in
  scanned scantable 63 ≡ₚ seqZ 0 64 /\
  (forall j, 0 <= j < 64 -> rd out (rd permutation j) = rd block j) /\
  out ≡ₚ block.
Proof.
  intros Hs Hb Ht Hperm out.
  pose proof (scan_tables_complete scantable Hs) as Hscan.
  assert (Hin : forall j, j ∈ scanned scantable 63 <-> 0 <= j < 64).
  { intros j. rewrite Hscan, elem_of_seqZ. lia. }
  assert (Hlen : length permutation = 64%nat)
    by (by rewrite Hperm, length_seqZ).
  assert (Hpr : forall j, 0 <= j < 64 -> 0 <= rd permutation j < 64).
  { intros j Hj.
    assert (rd permutation j ∈ permutation).
    { unfold rd. destruct (Z.ltb_spec j 0); [lia|].
      destruct (lookup_lt_is_Some_2 permutation (Z.to_nat j) ltac:(lia))
        as [x Hx].
      rewrite Hx. cbn. by eapply list_elem_of_lookup_2. }
    revert H. generalize (rd permutation j). intros x Hx.
    rewrite Hperm in Hx. apply elem_of_seqZ in Hx. lia. }
  assert (Hpi : forall j j', 0 <= j < 64 -> 0 <= j' < 64 ->
            rd permutation j = rd permutation j' -> j = j').
  { intros j j' Hj Hj' E.
    assert (Hnd : NoDup permutation) by (rewrite Hperm; apply NoDup_seqZ).
    unfold rd in E.
    destruct (Z.ltb_spec j 0); [lia|]. destruct (Z.ltb_spec j' 0); [lia|].
    destruct (lookup_lt_is_Some_2 permutation (Z.to_nat j) ltac:(lia))
      as [x Hx].
    destruct (lookup_lt_is_Some_2 permutation (Z.to_nat j') ltac:(lia))
      as [y Hy].
    rewrite Hx, Hy in E. cbn in E. subst y.
    pose proof (NoDup_lookup _ _ _ _ Hnd Hx Hy). lia. }
  destruct (block_permute_cells temp block permutation scantable 63)
    as (L & Hmove & _); try done.
  { rewrite Hscan. apply NoDup_seqZ. }
  { intros j Hj. apply Hin in Hj. split; [done|by apply Hpr]. }
  { intros j j' Hj Hj'. apply Hpi; by apply Hin. }
  fold out in L, Hmove.
  split; [done|]. split; [intros j Hj; apply Hmove; by apply Hin|].
  rewrite (rd_seqZ_self out), (rd_seqZ_self block), L, Hb.
  change (Z.of_nat 64) with 64.
  rewrite <- Hperm at 1.
  rewrite (rd_seqZ_self permutation), Hlen at 1.
  change (Z.of_nat 64) with 64.
  rewrite <- list_fmap_compose.
  assert (E : (rd out ∘ rd permutation) <$> seqZ 0 64
              = rd block <$> seqZ 0 64).
  { apply list_fmap_ext. intros i x Hx. apply lookup_seqZ in Hx as [-> Hi].
    cbn. apply Hmove, Hin. lia. }
  by rewrite E.
Qed.

End BlockPermute.

Lemma ff_block_permute_moves_witness :
  let out :=
    Permute.ff_block_permute (replicate 64 77) Permute.sample_block
      Permute.transpose Permute.ff_alternate_horizontal_scan 4 in
  rd out 0 = 9 /\ rd out 8 = -4 /\ rd out 1 = 5 /\ rd out 16 = 0 /\
  rd out 2 = 0.
Proof.
  destruct (ff_block_permute_moves (replicate 64 77) Permute.sample_block
              Permute.transpose Permute.ff_alternate_horizontal_scan 4)
    as [_ H].
  - reflexivity.
  - reflexivity.
  - compute_done.
  - apply (proj1 (Forall_forall
             (fun j => 0 <= j < 64 /\ 0 <= rd Permute.transpose j < 64) _)).
    compute_done.
  - intros j j' Hj Hj'.
    assert (Hc : Forall (fun j => Forall (fun j' =>
               rd Permute.transpose j = rd Permute.transpose j' -> j = j')
               (Permute.scanned Permute.ff_alternate_horizontal_scan 4))
              (Permute.scanned Permute.ff_alternate_horizontal_scan 4)).
    { repeat constructor; vm_compute; congruence. }
    exact (proj1 (Forall_forall _ _)
             (proj1 (Forall_forall _ _) Hc j Hj) j' Hj').
  - destruct (H ltac:(lia)) as (_ & Hmove & Hrest & _). cbv zeta.
    split; [exact (Hmove 0 ltac:(compute_done))|].
    split; [exact (Hmove 1 ltac:(compute_done))|].
    split; [exact (Hmove 8 ltac:(compute_done))|].
    split; [exact (Hmove 2 ltac:(compute_done))|].
    exact (Hrest 2 ltac:(compute_done)).
Defined.

Lemma ff_block_permute_whole_witness :
  Permute.ff_block_permute (replicate 64 77) Permute.sample_block
    Permute.transpose Dequant.ff_alternate_vertical_scan 63
  ≡ₚ Permute.sample_block.
Proof.
  apply (ff_block_permute_whole (replicate 64 77) Permute.sample_block
           Permute.transpose Dequant.ff_alternate_vertical_scan).
  - by right.
  - reflexivity.
  - reflexivity.
  - apply Permutation_seqZ_intro; compute_done.
Defined.

(** ** The run-level tables *)

Section RunLevel.
Import RL.

Lemma uint8_small x : 0 <= x < 256 -> uint8 x = x.
Proof. intros H. unfold uint8. by rewrite Z.mod_small. Qed.

Lemma int8_small x : -128 <= x < 128 -> int8 x = x.
Proof. intros H. unfold int8. apply wrap_signed_small; lia. Qed.

Lemma int8_uint8 x : -128 <= x < 128 -> int8 (uint8 x) = x.
Proof.
  intros H. unfold int8, uint8, wrap_signed.
  change (2 ^ (8 - 1)) with 128. change (2 ^ 8) with 256.
  rewrite Zplus_mod_idemp_l. rewrite Z.mod_small; lia.
Qed.

Lemma rl_loop_split rl ks : forall st,
  let run := rd (table_run rl) in
  let level := rd (table_level rl) in
  let st' := fold_left (rl_step rl) ks st in
  l_max_level st' = fold_left (max_step run level) ks (l_max_level st) /\
  l_max_run st' = fold_left (max_step level run) ks (l_max_run st) /\
  l_index_run st' = fold_left (first_step run (n rl)) ks (l_index_run st).
Proof.
  induction ks as [|k ks IH]; intros st; [done|].
  cbn [fold_left]. cbv zeta in *.
  destruct (IH (rl_step rl st k)) as (-> & -> & ->). done.
Qed.

Lemma length_max_loop key val ks : forall t,
  length (fold_left (max_step key val) ks t) = length t.
Proof.
  induction ks as [|k ks IH]; intros t; [done|]. cbn [fold_left].
  rewrite IH. unfold max_step. destruct (_ >? _); [apply length_wr|done].
Qed.

Lemma length_first_loop key n ks : forall t,
  length (fold_left (first_step key n) ks t) = length t.
Proof.
  induction ks as [|k ks IH]; intros t; [done|]. cbn [fold_left].
  rewrite IH. unfold first_step. destruct (_ =? _); [apply length_wr|done].
Qed.

(** The cell [k] after a largest-value loop. *)
Lemma max_loop_cell key val k ks : forall t,
  0 <= k < Z.of_nat (length t) ->
  (forall i, i ∈ ks -> -128 <= val i < 128) ->
  let M := rd (fold_left (max_step key val) ks t) k in
  rd t k <= M /\
  (forall i, i ∈ ks -> key i = k -> val i <= M) /\
  (M = rd t k \/ exists i, i ∈ ks /\ key i = k /\ val i = M).
Proof.
  induction ks as [|i0 ks IH]; intros t Hk Hv; cbn [fold_left].
  { split; [done|]. split; [|by left]. intros i Hi. inversion Hi. }
  assert (Hv' : forall i, i ∈ ks -> -128 <= val i < 128)
    by (intros i Hi; apply Hv; by right).
  assert (E : rd (max_step key val t i0) k
              = if decide (key i0 = k) then Z.max (rd t k) (val i0)
                else rd t k).
  { unfold max_step. destruct (Z.gtb_spec (val i0) (rd t (key i0))) as [Hg|Hg].
    - destruct (decide (key i0 = k)) as [E|Hne].
      + rewrite E, rd_wr_eq by done. rewrite E in Hg.
        rewrite int8_small by (apply Hv; by left). lia.
      + by rewrite rd_wr_ne.
    - destruct (decide (key i0 = k)) as [E|Hne]; [rewrite E in Hg; lia|done]. }
  destruct (IH (max_step key val t i0)) as (H1 & H2 & H3).
  { unfold max_step. destruct (_ >? _); [by rewrite length_wr|done]. }
  { done. }
  cbv zeta. rewrite E in H1, H3.
  set (M := rd (fold_left _ ks _) k) in *.
  destruct (decide (key i0 = k)) as [Hk0|Hk0].
  - split; [lia|]. split.
    + intros i Hi Hki. apply elem_of_cons in Hi as [->|Hi]; [lia|by apply H2].
    + destruct H3 as [H3|(i & Hi & Hki & Hvi)].
      * destruct (Z.max_spec (rd t k) (val i0)) as [[_ Hm]|[_ Hm]].
        -- right. exists i0. split; [by left|]. split; [done|]. lia.
        -- left. lia.
      * right. exists i. split; [by right|done].
  - split; [done|]. split.
    + intros i Hi Hki. apply elem_of_cons in Hi as [->|Hi]; [done|by apply H2].
    + destruct H3 as [H3|(i & Hi & Hki & Hvi)]; [by left|].
      right. exists i. split; [by right|done].
Qed.

(** The cell [k] after a first-index loop over rising indices below
    [n]. *)
Lemma first_loop_cell key n k lo cnt : forall t,
  0 <= k < Z.of_nat (length t) -> 0 <= lo -> lo + Z.of_nat cnt <= n ->
  n < 256 ->
  let ks := seqZ lo (Z.of_nat cnt) in
  let F := rd (fold_left (first_step key n) ks t) k in
  (rd t k <> n -> F = rd t k) /\
  (rd t k = n ->
   ((forall i, i ∈ ks -> key i <> k) /\ F = n)
   \/ (F ∈ ks /\ key F = k /\ forall i, i ∈ ks -> i < F -> key i <> k)).
Proof.
  revert lo. induction cnt as [|cnt IH]; intros lo t Hk Hlo Hn Hn8.
  { cbn. split; [done|]. intros He. left. split; [|done].
    intros i Hi. inversion Hi. }
  replace (seqZ lo (Z.of_nat (S cnt)))
    with (lo :: seqZ (lo + 1) (Z.of_nat cnt)).
  2:{ rewrite (seqZ_cons lo (Z.of_nat (S cnt))) by lia.
      f_equal. f_equal; lia. }
  cbn [fold_left]. cbv zeta.
  set (t1 := first_step key n t lo).
  assert (L1 : length t1 = length t).
  { unfold t1, first_step. destruct (_ =? _); [apply length_wr|done]. }
  assert (E : rd t1 k = if decide (key lo = k /\ rd t k = n) then lo
                        else rd t k).
  { unfold t1, first_step.
    destruct (Z.eqb_spec (rd t (key lo)) n) as [He|He].
    - destruct (decide (key lo = k)) as [E|Hne].
      + rewrite E, rd_wr_eq by done. rewrite E in He.
        rewrite decide_True by done. apply uint8_small. lia.
      + rewrite rd_wr_ne by done. by rewrite decide_False by tauto.
    - destruct (decide (key lo = k /\ rd t k = n)) as [[E ?]|]; [|done].
      by rewrite E in He. }
  destruct (IH (lo + 1) t1) as [H1 H2]; [lia..|].
  rewrite E in H1, H2.
  set (F := rd (fold_left _ _ t1) k) in *.
  split.
  - intros Hne. rewrite decide_False in H1 by tauto. by apply H1.
  - intros He. destruct (decide (key lo = k)) as [Hkl|Hkl].
    + rewrite decide_True in H1 by done. right.
      rewrite H1 by lia. split; [by left|]. split; [done|].
      intros i Hi Hlt. apply elem_of_cons in Hi as [->|Hi]; [lia|].
      apply elem_of_seqZ in Hi. lia.
    + rewrite decide_False in H2 by tauto.
      destruct (H2 He) as [[Hnone HF]|(HF & HkF & Hfirst)].
      * left. split; [|done]. intros i Hi.
        apply elem_of_cons in Hi as [->|Hi]; [done|by apply Hnone].
      * right. split; [by right|]. split; [done|].
        intros i Hi Hlt. apply elem_of_cons in Hi as [->|Hi]; [done|].
        by apply Hfirst.
Qed.

Section Tables.
Variables MAX_RUN MAX_LEVEL : Z.
Variable rl : RLTable.
Hypothesis Hmax : 0 <= MAX_RUN < 128 /\ 0 <= MAX_LEVEL < 128.
Hypothesis Hn : 0 <= last rl <= n rl /\ n rl < 256.
Hypothesis Hentries : forall i, 0 <= i < n rl ->
  0 <= rd (table_run rl) i <= MAX_RUN
  /\ 0 <= rd (table_level rl) i <= MAX_LEVEL.

Lemma in_round_range lastv i :
  lastv = 0 \/ lastv = 1 -> in_round rl lastv i -> 0 <= i < n rl.
Proof using Hn.
  unfold in_round, rl_start, rl_end. intros [->| ->]; cbn; lia.
Qed.

Lemma elem_of_round lastv i :
  i ∈ seqZ (rl_start rl lastv) (rl_end rl lastv - rl_start rl lastv)
  <-> in_round rl lastv i.
Proof. rewrite elem_of_seqZ. unfold in_round. lia. Qed.

Lemma rl_locals_length lastv :
  let loc := rl_locals MAX_RUN MAX_LEVEL rl lastv in
  length (l_max_level loc) = Z.to_nat (MAX_RUN + 1) /\
  length (l_max_run loc) = Z.to_nat (MAX_LEVEL + 1) /\
  length (l_index_run loc) = Z.to_nat (MAX_RUN + 1).
Proof.
  cbv zeta. unfold rl_locals.
  destruct (rl_loop_split rl
    (seqZ (rl_start rl lastv) (rl_end rl lastv - rl_start rl lastv))
    {| l_max_level := replicate (Z.to_nat (MAX_RUN + 1)) 0;
       l_max_run := replicate (Z.to_nat (MAX_LEVEL + 1)) 0;
       l_index_run := replicate (Z.to_nat (MAX_RUN + 1)) (uint8 (n rl)) |})
    as (-> & -> & ->). cbn [l_max_level l_max_run l_index_run].
  by rewrite !length_max_loop, length_first_loop, !length_replicate.
Qed.

Lemma rd_replicate (v : Z) cnt k :
  0 <= k < Z.of_nat cnt -> rd (replicate cnt v) k = v.
Proof.
  intros Hk. unfold rd. destruct (Z.ltb_spec k 0); [lia|].
  rewrite lookup_replicate_2 by lia. done.
Qed.

(** The local arrays at the end of the loop over the entries. *)
Lemma rl_locals_tables lastv :
  lastv = 0 \/ lastv = 1 ->
  let loc := rl_locals MAX_RUN MAX_LEVEL rl lastv in
  round_tables MAX_RUN MAX_LEVEL rl lastv
    (rd (l_max_level loc)) (rd (l_max_run loc)) (rd (l_index_run loc)) /\
  (forall r, 0 <= r <= MAX_RUN ->
     0 <= rd (l_max_level loc) r < 128 /\ 0 <= rd (l_index_run loc) r < 256) /\
  (forall l, 0 <= l <= MAX_LEVEL -> 0 <= rd (l_max_run loc) l < 128).
Proof using Hmax Hn Hentries.
  intros Hl. cbv zeta. unfold rl_locals.
  set (ks := seqZ (rl_start rl lastv) (rl_end rl lastv - rl_start rl lastv)).
  destruct (rl_loop_split rl ks
    {| l_max_level := replicate (Z.to_nat (MAX_RUN + 1)) 0;
       l_max_run := replicate (Z.to_nat (MAX_LEVEL + 1)) 0;
       l_index_run := replicate (Z.to_nat (MAX_RUN + 1)) (uint8 (n rl)) |})
    as (-> & -> & ->). cbn [l_max_level l_max_run l_index_run].
  assert (Hks : forall i, i ∈ ks <-> in_round rl lastv i)
    by (intros i; apply elem_of_round).
  assert (Hr : forall i, i ∈ ks ->
            0 <= rd (table_run rl) i <= MAX_RUN
            /\ 0 <= rd (table_level rl) i <= MAX_LEVEL).
  { intros i Hi. apply Hentries. apply (in_round_range lastv); [done|].
    by apply Hks. }
  assert (HML : forall r, 0 <= r <= MAX_RUN ->
    let M := rd (fold_left (max_step (rd (table_run rl)) (rd (table_level rl)))
                   ks (replicate (Z.to_nat (MAX_RUN + 1)) 0)) r in
    0 <= M /\
    (forall i, i ∈ ks -> rd (table_run rl) i = r -> rd (table_level rl) i <= M)
    /\ (M = 0 \/ exists i, i ∈ ks /\ rd (table_run rl) i = r
                            /\ rd (table_level rl) i = M)).
  { intros r Hr0.
    pose proof (max_loop_cell (rd (table_run rl)) (rd (table_level rl)) r ks
                  (replicate (Z.to_nat (MAX_RUN + 1)) 0)) as H.
    rewrite rd_replicate_0, length_replicate in H.
    apply H; [lia|]. intros i Hi. specialize (Hr i Hi). lia. }
  assert (HMR : forall l, 0 <= l <= MAX_LEVEL ->
    let M := rd (fold_left (max_step (rd (table_level rl)) (rd (table_run rl)))
                   ks (replicate (Z.to_nat (MAX_LEVEL + 1)) 0)) l in
    0 <= M /\
    (forall i, i ∈ ks -> rd (table_level rl) i = l -> rd (table_run rl) i <= M)
    /\ (M = 0 \/ exists i, i ∈ ks /\ rd (table_level rl) i = l
                            /\ rd (table_run rl) i = M)).
  { intros l Hl0.
    pose proof (max_loop_cell (rd (table_level rl)) (rd (table_run rl)) l ks
                  (replicate (Z.to_nat (MAX_LEVEL + 1)) 0)) as H.
    rewrite rd_replicate_0, length_replicate in H.
    apply H; [lia|]. intros i Hi. specialize (Hr i Hi). lia. }
  assert (HIR : forall r, 0 <= r <= MAX_RUN ->
    let F := rd (fold_left (first_step (rd (table_run rl)) (n rl)) ks
                   (replicate (Z.to_nat (MAX_RUN + 1)) (uint8 (n rl)))) r in
    ((forall i, i ∈ ks -> rd (table_run rl) i <> r) /\ F = n rl)
    \/ (F ∈ ks /\ rd (table_run rl) F = r
        /\ forall i, i ∈ ks -> i < F -> rd (table_run rl) i <> r)).
  { intros r Hr0.
    pose proof (first_loop_cell (rd (table_run rl)) (n rl) r
                  (rl_start rl lastv)
                  (Z.to_nat (rl_end rl lastv - rl_start rl lastv))
                  (replicate (Z.to_nat (MAX_RUN + 1)) (uint8 (n rl)))) as H.
    assert (Hse : 0 <= rl_start rl lastv <= rl_end rl lastv
                  /\ rl_end rl lastv <= n rl)
      by (unfold rl_start, rl_end; destruct Hl as [->| ->]; cbn; lia).
    rewrite Z2Nat.id in H by lia. fold ks in H.
    rewrite length_replicate, rd_replicate in H by lia.
    rewrite (uint8_small (n rl)) in * by lia.
    destruct H as [_ H]; [lia..|]. by apply H. }
  split; [split|split].
  - intros r Hr0. destruct (HML r Hr0) as (M0 & Mub & Matt).
    destruct (HIR r Hr0) as [[Hnone HF]|(HF & HkF & Hfirst)].
    + split.
      * intros i Hi Hrun. exfalso. by apply (Hnone i); [apply Hks|].
      * left. split; [intros i Hi; apply Hnone; by apply Hks|].
        split; [|done]. destruct Matt as [?|(i & Hi & Hrun & _)]; [done|].
        exfalso. by apply (Hnone i).
    + split.
      * intros i Hi Hrun. apply Hks in Hi. split; [by apply Mub|].
        destruct (Z.le_gt_cases
          (rd (fold_left (first_step (rd (table_run rl)) (n rl)) ks
                 (replicate (Z.to_nat (MAX_RUN + 1)) (uint8 (n rl)))) r) i)
          as [?|Hlt]; [done|].
        exfalso. by apply (Hfirst i Hi).
      * right. split; [by apply Hks|]. split; [done|].
        destruct Matt as [M00|(i & Hi & Hrun & Hlev)].
        -- eexists. split; [by apply Hks|]. split; [done|].
           pose proof (Mub _ HF HkF). pose proof (Hr _ HF). lia.
        -- exists i. split; [by apply Hks|done].
  - intros l Hl0. destruct (HMR l Hl0) as (M0 & Mub & Matt). split.
    + intros i Hi Hlev. apply Mub; [by apply Hks|done].
    + destruct Matt as [M00|(i & Hi & Hlev & Hrun)].
      * destruct (decide (Exists (fun i => rd (table_level rl) i = l) ks))
          as [Hex|Hnex].
        -- apply Exists_exists in Hex as (i & Hi & Hlev). right.
           exists i. split; [by apply Hks|]. split; [done|].
           pose proof (Mub i Hi Hlev). pose proof (Hr i Hi). lia.
        -- left. split; [|done]. intros i Hi Hlev. apply Hnex.
           apply Exists_exists. exists i. split; [by apply Hks|done].
      * right. exists i. split; [by apply Hks|done].
  - intros r Hr0. destruct (HML r Hr0) as (M0 & Mub & Matt). split.
    + split; [done|]. destruct Matt as [->|(i & Hi & _ & <-)]; [lia|].
      pose proof (Hr i Hi). lia.
    + destruct (HIR r Hr0) as [[_ ->]|(HF & _)]; [lia|].
      apply Hks, (in_round_range lastv) in HF; [lia|done].
  - intros l Hl0. destruct (HMR l Hl0) as (M0 & Mub & Matt).
    split; [done|]. destruct Matt as [->|(i & Hi & _ & <-)]; [lia|].
    pose proof (Hr i Hi). lia.
Qed.

End Tables.

Section Memory.

Lemma rd_list_inserts (blk src : list Z) off j :
  0 <= off -> off + Z.of_nat (length src) <= Z.of_nat (length blk) ->
  rd (list_inserts (Z.to_nat off) src blk) j
  = if decide (off <= j < off + Z.of_nat (length src)) then rd src (j - off)
    else rd blk j.
Proof.
  intros Hoff Hlen. unfold rd.
  destruct (Z.ltb_spec j 0) as [Hj|Hj].
  { rewrite decide_False by lia. done. }
  destruct (decide (off <= j < off + Z.of_nat (length src))) as [Hin|Hout].
  - destruct (Z.ltb_spec (j - off) 0); [lia|].
    rewrite list_lookup_inserts by lia. do 2 f_equal. lia.
  - destruct (decide (j < off)).
    + by rewrite list_lookup_inserts_lt by lia.
    + by rewrite list_lookup_inserts_ge by lia.
Qed.

Lemma rd_fmap_uint8 (src : list Z) k : rd (uint8 <$> src) k = uint8 (rd src k).
Proof.
  unfold rd. destruct (k <? 0); [done|].
  rewrite list_lookup_fmap. by destruct (src !! Z.to_nat k).
Qed.

Lemma memcpy_Some (m : gmap nat (list Z)) b off src blk :
  m !! b = Some blk -> 0 <= off ->
  off + Z.of_nat (length src) <= Z.of_nat (length blk) ->
  memcpy m (Some (b, off)) src
  = Some (<[b := list_inserts (Z.to_nat off) (uint8 <$> src) blk]> m).
Proof.
  intros Hb H0 H1. unfold memcpy. rewrite Hb.
  destruct (Z.leb_spec 0 off); [|lia].
  destruct (Z.leb_spec (off + Z.of_nat (length src)) (Z.of_nat (length blk)));
    [done|lia].
Qed.

End Memory.

Ltac bind_step :=
  match goal with
  | |- context [Some ?x ≫= ?f] =>
      change (Some x ≫= f) with (f x); cbv beta iota
  end.

Section InitStatic.
Variables MAX_RUN MAX_LEVEL : Z.
Hypothesis Hmax : 0 <= MAX_RUN /\ 0 <= MAX_LEVEL.

(** One round on the static store: the block afterwards. *)
Lemma init_rl_round_static sb alloc rl (m : gmap nat (list Z)) lastv blk :
  m !! sb = Some blk ->
  Z.of_nat (length blk) = 2 * row_size MAX_RUN MAX_LEVEL ->
  lastv = 0 \/ lastv = 1 ->
  let loc := rl_locals MAX_RUN MAX_LEVEL rl lastv in
  let base := lastv * row_size MAX_RUN MAX_LEVEL in
  exists blk',
    init_rl_round MAX_RUN MAX_LEVEL (Some sb) alloc (Some (rl, m)) lastv
    = Some (set_index_run
              (set_max_run
                 (set_max_level rl lastv (Some (sb, base + 0)))
                 lastv (Some (sb, base + (MAX_RUN + 1))))
              lastv (Some (sb, base + (MAX_RUN + MAX_LEVEL + 2))),
            <[sb := blk']> m) /\
    length blk' = length blk /\
    (forall k, 0 <= k <= MAX_RUN ->
       rd blk' (base + 0 + k) = uint8 (rd (l_max_level loc) k)) /\
    (forall k, 0 <= k <= MAX_LEVEL ->
       rd blk' (base + (MAX_RUN + 1) + k) = uint8 (rd (l_max_run loc) k)) /\
    (forall k, 0 <= k <= MAX_RUN ->
       rd blk' (base + (MAX_RUN + MAX_LEVEL + 2) + k)
       = uint8 (rd (l_index_run loc) k)) /\
    (forall j, ~ base <= j < base + row_size MAX_RUN MAX_LEVEL ->
       rd blk' j = rd blk j).
Proof using Hmax.
  intros Hb Hlen Hl loc base.
  destruct (rl_locals_length MAX_RUN MAX_LEVEL rl lastv) as (L1 & L2 & L3).
  fold loc in L1, L2, L3.
  assert (Hbase : 0 <= base /\ base + row_size MAX_RUN MAX_LEVEL
                               <= Z.of_nat (length blk)).
  { unfold base, row_size in *. destruct Hl as [->| ->]; lia. }
  unfold init_rl_round, place. bind_step.
  change (rl_locals MAX_RUN MAX_LEVEL rl lastv) with loc.
  change (lastv * row_size MAX_RUN MAX_LEVEL) with base.
  clearbody base loc.
  set (b1 := list_inserts (Z.to_nat (base + 0)) (uint8 <$> l_max_level loc) blk).
  set (b2 := list_inserts (Z.to_nat (base + (MAX_RUN + 1)))
               (uint8 <$> l_max_run loc) b1).
  set (b3 := list_inserts (Z.to_nat (base + (MAX_RUN + MAX_LEVEL + 2)))
               (uint8 <$> l_index_run loc) b2).
  assert (Lb1 : length b1 = length blk) by apply length_inserts.
  assert (Lb2 : length b2 = length blk)
    by (unfold b2; by rewrite length_inserts).
  assert (Lb3 : length b3 = length blk)
    by (unfold b3; by rewrite length_inserts).
  unfold row_size in *.
  rewrite (memcpy_Some m sb (base + 0) (l_max_level loc) blk)
    by (done || lia).
  bind_step. fold b1.
  rewrite (memcpy_Some _ sb (base + (MAX_RUN + 1)) (l_max_run loc) b1)
    by (apply lookup_insert_eq || lia).
  bind_step. fold b2. rewrite insert_insert_eq.
  rewrite (memcpy_Some _ sb (base + (MAX_RUN + MAX_LEVEL + 2))
             (l_index_run loc) b2)
    by (apply lookup_insert_eq || lia).
  bind_step. fold b3. rewrite insert_insert_eq.
  exists b3. split; [done|]. split; [done|].
  assert (R : forall j, rd b3 j
    = if decide (base + (MAX_RUN + MAX_LEVEL + 2) <= j
                 < base + (MAX_RUN + MAX_LEVEL + 2) + (MAX_RUN + 1))
      then uint8 (rd (l_index_run loc) (j - (base + (MAX_RUN + MAX_LEVEL + 2))))
      else if decide (base + (MAX_RUN + 1) <= j
                      < base + (MAX_RUN + 1) + (MAX_LEVEL + 1))
      then uint8 (rd (l_max_run loc) (j - (base + (MAX_RUN + 1))))
      else if decide (base + 0 <= j < base + 0 + (MAX_RUN + 1))
      then uint8 (rd (l_max_level loc) (j - (base + 0)))
      else rd blk j).
  { intros j. unfold b3, b2, b1.
    rewrite !rd_list_inserts, !rd_fmap_uint8;
      rewrite ?length_inserts, ?length_fmap, ?L1, ?L2, ?L3; try lia.
    rewrite !Z2Nat.id by lia. done. }
  repeat split.
  - intros k Hk. rewrite R.
    rewrite decide_False, decide_False, decide_True by lia.
    do 2 f_equal. lia.
  - intros k Hk. rewrite R.
    rewrite decide_False, decide_True by lia. do 2 f_equal. lia.
  - intros k Hk. rewrite R. rewrite decide_True by lia. do 2 f_equal. lia.
  - intros j Hj. rewrite R. by rewrite !decide_False by lia.
Qed.

End InitStatic.

Section InitHeap.
Variables MAX_RUN MAX_LEVEL : Z.
Hypothesis Hmax : 0 <= MAX_RUN /\ 0 <= MAX_LEVEL.

Lemma memcpy_new (m : gmap nat (list Z)) b src size junk :
  Z.of_nat (length src) = size ->
  memcpy (<[b := resize (Z.to_nat size) 0 junk]> m) (Some (b, 0)) src
  = Some (<[b := uint8 <$> src]> m).
Proof.
  intros Hs.
  rewrite (memcpy_Some _ b 0 src (resize (Z.to_nat size) 0 junk));
    [|apply lookup_insert_eq|lia|rewrite length_resize; lia].
  rewrite insert_insert_eq. do 2 f_equal.
  change (Z.to_nat 0) with 0%nat.
  rewrite <- (app_nil_r (resize _ _ _)), list_inserts_0_r, app_nil_r;
    [done|]. rewrite length_fmap, length_resize. lia.
Qed.

(** One round without static store, when the three allocations
    succeed. *)
Lemma init_rl_round_heap alloc rl (m : gmap nat (list Z)) lastv b0 b1 b2
    j0 j1 j2 :
  default None (alloc !! Z.to_nat (3 * lastv + 0)) = Some (b0, j0) ->
  default None (alloc !! Z.to_nat (3 * lastv + 1)) = Some (b1, j1) ->
  default None (alloc !! Z.to_nat (3 * lastv + 2)) = Some (b2, j2) ->
  let loc := rl_locals MAX_RUN MAX_LEVEL rl lastv in
  init_rl_round MAX_RUN MAX_LEVEL None alloc (Some (rl, m)) lastv
  = Some (set_index_run
            (set_max_run (set_max_level rl lastv (Some (b0, 0)))
               lastv (Some (b1, 0)))
            lastv (Some (b2, 0)),
          <[b2 := uint8 <$> l_index_run loc]>
            (<[b1 := uint8 <$> l_max_run loc]>
               (<[b0 := uint8 <$> l_max_level loc]> m))).
Proof using Hmax.
  intros E0 E1 E2 loc.
  destruct (rl_locals_length MAX_RUN MAX_LEVEL rl lastv) as (L1 & L2 & L3).
  fold loc in L1, L2, L3.
  unfold init_rl_round, place, av_malloc. bind_step.
  change (rl_locals MAX_RUN MAX_LEVEL rl lastv) with loc.
  rewrite E0, E1, E2.
  rewrite memcpy_new by lia. bind_step.
  rewrite memcpy_new by lia. bind_step.
  rewrite memcpy_new by lia. bind_step. done.
Qed.

(** One round without static store, when one of the three allocations
    fails. *)
Lemma init_rl_round_fail alloc rl (m : gmap nat (list Z)) lastv k :
  0 <= k < 3 ->
  default None (alloc !! Z.to_nat (3 * lastv + k)) = None ->
  init_rl_round MAX_RUN MAX_LEVEL None alloc (Some (rl, m)) lastv = None.
Proof.
  intros Hk E.
  assert (Hcases : k = 0 \/ k = 1 \/ k = 2) by lia.
  unfold init_rl_round, place, av_malloc. bind_step.
  destruct (default None (alloc !! Z.to_nat (3 * lastv + 0)))
    as [[b0 j0]|] eqn:E0; [|done].
  destruct (memcpy _ (Some (b0, 0)) _) as [m1|]; [bind_step|done].
  destruct (default None (alloc !! Z.to_nat (3 * lastv + 1)))
    as [[b1 j1]|] eqn:E1; [|done].
  destruct (memcpy _ (Some (b1, 0)) _) as [m2|]; [bind_step|done].
  destruct (default None (alloc !! Z.to_nat (3 * lastv + 2)))
    as [[b2 j2]|] eqn:E2; [|done].
  destruct Hcases as [->|[->| ->]]; congruence.
Qed.

End InitHeap.

Section InitRL.
Variables MAX_RUN MAX_LEVEL : Z.
Variable rl : RLTable.
Hypothesis Hmax : 0 <= MAX_RUN < 128 /\ 0 <= MAX_LEVEL < 128.
Hypothesis Hn : 0 <= last rl <= n rl /\ n rl < 256.
Hypothesis Hentries : forall i, 0 <= i < n rl ->
  0 <= rd (table_run rl) i <= MAX_RUN
  /\ 0 <= rd (table_level rl) i <= MAX_LEVEL.

Lemma fold_left_ext {A B} (g h : A -> B -> A) ks : forall t,
  (forall t k, g t k = h t k) -> fold_left g ks t = fold_left h ks t.
Proof.
  induction ks as [|k ks IH]; intros t H; [done|].
  cbn [fold_left]. rewrite H. by apply IH.
Qed.

(** The local arrays depend on the entries only, not on the pointers. *)
Lemma rl_locals_ext rl' lastv :
  n rl' = n rl -> last rl' = last rl -> table_run rl' = table_run rl ->
  table_level rl' = table_level rl ->
  rl_locals MAX_RUN MAX_LEVEL rl' lastv = rl_locals MAX_RUN MAX_LEVEL rl lastv.
Proof.
  intros E1 E2 E3 E4. unfold rl_locals, rl_start, rl_end.
  rewrite E1, E2. apply fold_left_ext. intros t k.
  unfold rl_step. by rewrite E1, E3, E4.
Qed.

(** The tables read from the memory are those of the local arrays. *)
Lemma round_tables_read lastv (ML MR IR : Z -> Z) :
  lastv = 0 \/ lastv = 1 ->
  let loc := rl_locals MAX_RUN MAX_LEVEL rl lastv in
  (forall k, 0 <= k <= MAX_RUN -> ML k = int8 (uint8 (rd (l_max_level loc) k))) ->
  (forall k, 0 <= k <= MAX_LEVEL -> MR k = int8 (uint8 (rd (l_max_run loc) k))) ->
  (forall k, 0 <= k <= MAX_RUN -> IR k = uint8 (rd (l_index_run loc) k)) ->
  round_tables MAX_RUN MAX_LEVEL rl lastv ML MR IR.
Proof using Hmax Hn Hentries.
  intros Hl loc HML HMR HIR.
  destruct (rl_locals_tables MAX_RUN MAX_LEVEL rl Hmax Hn Hentries lastv Hl)
    as ((T1 & T2) & B1 & B2).
  fold loc in T1, T2, B1, B2.
  assert (EML : forall k, 0 <= k <= MAX_RUN -> ML k = rd (l_max_level loc) k).
  { intros k Hk. rewrite HML by done. apply int8_uint8.
    destruct (B1 k Hk). lia. }
  assert (EMR : forall k, 0 <= k <= MAX_LEVEL -> MR k = rd (l_max_run loc) k).
  { intros k Hk. rewrite HMR by done. apply int8_uint8.
    pose proof (B2 k Hk). lia. }
  assert (EIR : forall k, 0 <= k <= MAX_RUN -> IR k = rd (l_index_run loc) k).
  { intros k Hk. rewrite HIR by done. apply uint8_small.
    destruct (B1 k Hk). lia. }
  split.
  - intros r Hr. rewrite (EML r Hr), (EIR r Hr). by apply T1.
  - intros l Hl0. rewrite (EMR l Hl0). by apply T2.
Qed.


(** X16.  ff_init_rl without static store does not look at what
    av_malloc returns.  If one of the six allocations fails the function
    copies to NULL.  If all succeed and give six different blocks, it
    succeeds for every table as above, whether or not the table was
    initialised before: the pointers of the table are the new blocks,
    which hold the tables of the two rounds, and the other blocks of the
    memory are as they were. *)
Theorem ff_init_rl_malloc (alloc : list (option (nat * list Z)))
    (m : gmap nat (list Z)) :
  ((exists k, (k < 6)%nat /\ default None (alloc !! k) = None) ->
   ff_init_rl MAX_RUN MAX_LEVEL rl None alloc m = None) /\
  (forall bs, alloc = Some <$> bs -> length bs = 6%nat -> NoDup bs.*1 ->
   length (max_level rl) = 2%nat -> length (max_run rl) = 2%nat ->
   length (index_run rl) = 2%nat ->
   exists rl' m',
     ff_init_rl MAX_RUN MAX_LEVEL rl None alloc m = Some (rl', m') /\
     max_level rl'
     = (fun b => Some (b, 0)) <$> [bs.*1 !!! 0%nat; bs.*1 !!! 3%nat] /\
     max_run rl'
     = (fun b => Some (b, 0)) <$> [bs.*1 !!! 1%nat; bs.*1 !!! 4%nat] /\
     index_run rl'
     = (fun b => Some (b, 0)) <$> [bs.*1 !!! 2%nat; bs.*1 !!! 5%nat] /\
     (forall lastv, lastv = 0 \/ lastv = 1 ->
        round_tables MAX_RUN MAX_LEVEL rl lastv
          (get_max_level m' rl' lastv) (get_max_run m' rl' lastv)
          (get_index_run m' rl' lastv)) /\
     (forall b, b ∉ bs.*1 -> m' !! b = m !! b)).
Proof using Hmax Hn Hentries.
  assert (Hmax0 : 0 <= MAX_RUN /\ 0 <= MAX_LEVEL) by lia.
  assert (Hguard : forall r a (mm : gmap nat (list Z)),
    ff_init_rl MAX_RUN MAX_LEVEL r None a mm
    = init_rl_round MAX_RUN MAX_LEVEL None a
        (init_rl_round MAX_RUN MAX_LEVEL None a (Some (r, mm)) 0) 1).
  { intros r a mm. unfold ff_init_rl.
    rewrite (bool_decide_eq_false_2 (None ≠ None)) by (intros H; by apply H).
    cbn [andb]. by change (seqZ 0 2) with [0; 1]. }
  split.
  - intros (k & Hk & E). rewrite Hguard.
    destruct (decide (k < 3)%nat) as [Hlt|Hge].
    + rewrite (init_rl_round_fail MAX_RUN MAX_LEVEL alloc rl m 0 (Z.of_nat k));
        [done|lia|].
      by replace (Z.to_nat (3 * 0 + Z.of_nat k)) with k by lia.
    + destruct (init_rl_round _ _ _ _ (Some (rl, m)) 0) as [[rl1 m1]|];
        [|done].
      apply (init_rl_round_fail MAX_RUN MAX_LEVEL alloc rl1 m1 1
               (Z.of_nat k - 3)); [lia|].
      by replace (Z.to_nat (3 * 1 + (Z.of_nat k - 3))) with k by lia.
  - intros bs -> Hlen Hnd L1 L2 L3.
    destruct bs as [|[b0 j0] [|[b1 j1] [|[b2 j2] [|[b3 j3] [|[b4 j4]
                     [|[b5 j5] [|]]]]]]]; try done.
    cbn [fmap list_fmap fst] in Hnd.
    rewrite Hguard.
    rewrite (init_rl_round_heap MAX_RUN MAX_LEVEL Hmax0 _ rl m 0 b0 b1 b2
               j0 j1 j2) by done.
    set (rl1 := set_index_run _ _ _).
    rewrite (init_rl_round_heap MAX_RUN MAX_LEVEL Hmax0 _ rl1 _ 1 b3 b4 b5
               j3 j4 j5) by done.
    rewrite (rl_locals_ext rl1 1) by done.
    set (rl2 := set_index_run _ _ _).
    set (m2 := <[b5 := _]> _).
    apply NoDup_cons in Hnd as [N0 Hnd]. apply NoDup_cons in Hnd as [N1 Hnd].
    apply NoDup_cons in Hnd as [N2 Hnd]. apply NoDup_cons in Hnd as [N3 Hnd].
    apply NoDup_cons in Hnd as [N4 _].
    repeat match goal with
           | H : _ ∉ _ :: _ |- _ => apply not_elem_of_cons in H as [? H]
           end.
    assert (M0 : m2 !! b0
      = Some (uint8 <$> l_max_level (rl_locals MAX_RUN MAX_LEVEL rl 0))).
    { unfold m2. rewrite !lookup_insert_ne by congruence.
      apply lookup_insert_eq. }
    assert (M1 : m2 !! b1
      = Some (uint8 <$> l_max_run (rl_locals MAX_RUN MAX_LEVEL rl 0))).
    { unfold m2. rewrite !lookup_insert_ne by congruence.
      apply lookup_insert_eq. }
    assert (M2 : m2 !! b2
      = Some (uint8 <$> l_index_run (rl_locals MAX_RUN MAX_LEVEL rl 0))).
    { unfold m2. rewrite !lookup_insert_ne by congruence.
      apply lookup_insert_eq. }
    assert (M3 : m2 !! b3
      = Some (uint8 <$> l_max_level (rl_locals MAX_RUN MAX_LEVEL rl 1))).
    { unfold m2. rewrite !lookup_insert_ne by congruence.
      apply lookup_insert_eq. }
    assert (M4 : m2 !! b4
      = Some (uint8 <$> l_max_run (rl_locals MAX_RUN MAX_LEVEL rl 1))).
    { unfold m2. rewrite !lookup_insert_ne by congruence.
      apply lookup_insert_eq. }
    assert (M5 : m2 !! b5
      = Some (uint8 <$> l_index_run (rl_locals MAX_RUN MAX_LEVEL rl 1))).
    { unfold m2. apply lookup_insert_eq. }
    assert (P1 : max_level rl2 = [Some (b0, 0); Some (b3, 0)]).
    { unfold rl2, rl1. cbn [max_level set_index_run set_max_run set_max_level].
      destruct (max_level rl) as [|p [|q [|]]]; done. }
    assert (P2 : max_run rl2 = [Some (b1, 0); Some (b4, 0)]).
    { unfold rl2, rl1. cbn [max_run set_index_run set_max_run set_max_level].
      destruct (max_run rl) as [|p [|q [|]]]; done. }
    assert (P3 : index_run rl2 = [Some (b2, 0); Some (b5, 0)]).
    { unfold rl2, rl1. cbn [index_run set_index_run set_max_run set_max_level].
      destruct (index_run rl) as [|p [|q [|]]]; done. }
    exists rl2, m2. split; [done|]. split; [done|]. split; [done|].
    split; [done|]. split.
    + intros lastv Hl. apply round_tables_read; [done|..]; intros k Hk.
      * unfold get_max_level, load_int8, load. rewrite P1. f_equal.
        destruct Hl as [->| ->].
        -- change (default None ([Some (b0, 0); Some (b3, 0)] !! Z.to_nat 0))
             with (Some (b0, 0)).
           cbv beta iota.
           rewrite M0. cbn [default from_option id]. by rewrite rd_fmap_uint8.
        -- change (default None ([Some (b0, 0); Some (b3, 0)] !! Z.to_nat 1))
             with (Some (b3, 0)).
           cbv beta iota.
           rewrite M3. cbn [default from_option id]. by rewrite rd_fmap_uint8.
      * unfold get_max_run, load_int8, load. rewrite P2. f_equal.
        destruct Hl as [->| ->].
        -- change (default None ([Some (b1, 0); Some (b4, 0)] !! Z.to_nat 0))
             with (Some (b1, 0)).
           cbv beta iota.
           rewrite M1. cbn [default from_option id]. by rewrite rd_fmap_uint8.
        -- change (default None ([Some (b1, 0); Some (b4, 0)] !! Z.to_nat 1))
             with (Some (b4, 0)).
           cbv beta iota.
           rewrite M4. cbn [default from_option id]. by rewrite rd_fmap_uint8.
      * unfold get_index_run, load. rewrite P3.
        destruct Hl as [->| ->].
        -- change (default None ([Some (b2, 0); Some (b5, 0)] !! Z.to_nat 0))
             with (Some (b2, 0)).
           cbv beta iota.
           rewrite M2. cbn [default from_option id]. by rewrite rd_fmap_uint8.
        -- change (default None ([Some (b2, 0); Some (b5, 0)] !! Z.to_nat 1))
             with (Some (b5, 0)).
           cbv beta iota.
           rewrite M5. cbn [default from_option id]. by rewrite rd_fmap_uint8.
    + intros b Hb. unfold m2. cbn [fmap list_fmap fst] in Hb.
      repeat (apply not_elem_of_cons in Hb as [? Hb]).
      rewrite !lookup_insert_ne by congruence. done.
Qed.

End InitRL.

End RunLevel.

Lemma sample_rl_entries i :
  0 <= i < RL.n RL.sample_rl ->
  0 <= rd (RL.table_run RL.sample_rl) i <= 3
  /\ 0 <= rd (RL.table_level RL.sample_rl) i <= 2.
Proof.
  cbn [RL.n RL.sample_rl]. intros Hi.
  assert (H : i = 0 \/ i = 1 \/ i = 2 \/ i = 3 \/ i = 4) by lia.
  destruct H as [->|[->|[->|[->| ->]]]]; vm_compute; intuition congruence.
Qed.


Lemma ff_init_rl_malloc_witness :
  RL.ff_init_rl 3 2 RL.sample_rl None [Some (1%nat, []); None] ∅ = None /\
  exists rl' m',
    RL.ff_init_rl 3 2 RL.sample_rl None
      (Some <$> ((fun b => (b, [7; 7])) <$> [1; 2; 3; 4; 5; 6]%nat)) ∅
    = Some (rl', m') /\
    RL.max_level rl' = [Some (1%nat, 0); Some (4%nat, 0)].
Proof.
  destruct (ff_init_rl_malloc 3 2 RL.sample_rl ltac:(lia)
              ltac:(cbn; lia) sample_rl_entries [Some (1%nat, []); None] ∅)
    as [Hfail _].
  split.
  - apply Hfail. exists 1%nat. split; [lia|reflexivity].
  - destruct (ff_init_rl_malloc 3 2 RL.sample_rl ltac:(lia)
                ltac:(cbn; lia) sample_rl_entries
                (Some <$> ((fun b => (b, [7; 7])) <$> [1; 2; 3; 4; 5; 6]%nat))
                ∅) as [_ Hok].
    destruct (Hok ((fun b => (b, [7; 7])) <$> [1; 2; 3; 4; 5; 6]%nat)
                eq_refl eq_refl
                ltac:(compute_done) eq_refl eq_refl eq_refl)
      as (rl' & m' & E & P1 & _).
    exists rl', m'. split; [exact E|exact P1].
Defined.

(** ** The reference-counted buffers *)

Section BufferHeap.
Import Buffer.
Variable K : Constants.

Ltac obind :=
  match goal with
  | |- context [Some ?x ≫= ?f] =>
      change (Some x ≫= f) with (f x); cbv beta iota
  end.

Ltac leb_in H :=
  match type of H with
  | context [?a <=? ?b] => destruct (Z.leb_spec a b)
  end.

Lemma heap_eq (h h' : Heap) :
  buffers h = buffers h' -> refs h = refs h' -> mem h = mem h' ->
  freed h = freed h' -> h = h'.
Proof. destruct h, h'. cbn. by intros -> -> -> ->. Qed.

Lemma set_refcount_id (b : AVBuffer) : set_refcount b (refcount b) = b.
Proof. by destruct b. Qed.

Lemma set_refcount_twice (b : AVBuffer) c c' :
  set_refcount (set_refcount b c) c' = set_refcount b c'.
Proof. done. Qed.

Lemma fresh_refs (h : Heap) : refs h !! fresh (dom (refs h)) = None.
Proof. apply not_elem_of_dom, is_fresh. Qed.

Lemma fresh_buffers (h : Heap) : buffers h !! fresh (dom (buffers h)) = None.
Proof. apply not_elem_of_dom, is_fresh. Qed.

Lemma fresh_mem (h : Heap) : mem h !! fresh (dom (mem h)) = None.
Proof. apply not_elem_of_dom, is_fresh. Qed.

(** X17.  av_buffer_ref and av_buffer_unref, for an AVBufferRef of the
    heap whose AVBuffer has a reference count c with 1 <= c < INT_MAX.
    If av_mallocz fails av_buffer_ref returns NULL and changes nothing.
    Otherwise it returns a new AVBufferRef, a copy of the first, and the
    count is c + 1: neither reference is writable, the data is not
    touched.  Releasing the new reference leads back to the heap before
    the call; releasing the old one instead leaves the new one with the
    AVBuffer as it was, count c. *)
Theorem av_buffer_ref_unref (h : Heap) (r : nat) (ref : AVBufferRef)
    (buf : AVBuffer) :
  refs h !! r = Some ref -> buffers h !! buffer ref = Some buf ->
  1 <= refcount buf < INT_MAX ->
  av_buffer_ref h r false = Some (None, h) /\
  exists r' h',
    av_buffer_ref h r true = Some (Some r', h') /\
    refs h !! r' = None /\
    refs h' !! r' = Some ref /\ refs h' !! r = Some ref /\
    buffers h' !! buffer ref
    = Some (set_refcount buf (refcount buf + 1)) /\
    mem h' = mem h /\ freed h' = freed h /\
    av_buffer_is_writable K h' r = Some 0 /\
    av_buffer_is_writable K h' r' = Some 0 /\
    av_buffer_unref h' (Some r') = Some (None, h) /\
    exists h'',
      av_buffer_unref h' (Some r) = Some (None, h'') /\
      refs h'' !! r = None /\ refs h'' !! r' = Some ref /\
      buffers h'' = buffers h /\ mem h'' = mem h /\ freed h'' = freed h.
Proof.
  intros Hr Hb Hc. split; [done|].
  set (r' := fresh (dom (refs h))).
  assert (Hr' : refs h !! r' = None) by apply fresh_refs.
  assert (Hne : r' <> r) by congruence.
  assert (E1 : int32 (refcount buf + 1) = refcount buf + 1)
    by (apply int32_small; unfold INT_MIN, INT_MAX in *; lia).
  assert (E2 : int32 (refcount buf + 1 - 1) = refcount buf)
    by (rewrite int32_small; unfold INT_MIN, INT_MAX in *; lia).
  eexists r', _. split.
  { unfold av_buffer_ref. cbn [negb]. rewrite Hr. obind. rewrite Hb. obind.
    rewrite E1. reflexivity. }
  cbn [refs buffers mem freed set_buffers set_refs].
  split; [done|]. split; [apply lookup_insert_eq|].
  split; [by rewrite lookup_insert_ne|].
  split; [apply lookup_insert_eq|]. split; [done|]. split; [done|].
  assert (W : forall x, (<[r' := ref]> (refs h)) !! x = Some ref ->
    av_buffer_is_writable K
      (set_buffers (set_refs h (<[r' := ref]> (refs h)))
         (<[buffer ref := set_refcount buf (refcount buf + 1)]> (buffers h)))
      x = Some 0).
  { intros x Hx. unfold av_buffer_is_writable.
    cbn [refs buffers set_buffers set_refs]. rewrite Hx. obind.
    rewrite lookup_insert_eq. obind. cbn [flags refcount set_refcount].
    destruct (negb _); [done|].
    destruct (Z.eqb_spec (refcount buf + 1) 1); [lia|done]. }
  split; [apply W; by rewrite lookup_insert_ne|].
  split; [apply W, lookup_insert_eq|]. split.
  - unfold av_buffer_unref. cbn [refs buffers set_buffers set_refs].
    rewrite lookup_insert_eq. obind. rewrite lookup_insert_eq. obind.
    cbn [refcount set_refcount]. rewrite E2.
    destruct (Z.eqb_spec (refcount buf) 0); [lia|].
    f_equal. f_equal.
    apply heap_eq; cbn [refs buffers mem freed set_buffers set_refs];
      try done.
    + rewrite insert_insert_eq, set_refcount_twice, set_refcount_id.
      by apply insert_id.
    + by apply delete_insert_id.
  - eexists. split.
    + unfold av_buffer_unref. cbn [refs buffers set_buffers set_refs].
      rewrite lookup_insert_ne, Hr by done. obind.
      rewrite lookup_insert_eq. obind.
      cbn [refcount set_refcount]. rewrite E2.
      destruct (Z.eqb_spec (refcount buf) 0); [lia|]. reflexivity.
    + cbn [refs buffers mem freed set_buffers set_refs]. fold r'.
      split; [apply lookup_delete_eq|].
      split; [by rewrite lookup_delete_ne, lookup_insert_eq|].
      split; [|done].
      rewrite insert_insert_eq, set_refcount_twice, set_refcount_id.
      by apply insert_id.
Qed.

Lemma ref_count_refs (h h' : Heap) b :
  refs h' = refs h -> ref_count h' b = ref_count h b.
Proof. unfold ref_count. by intros ->. Qed.

Lemma ref_count_insert (h : Heap) r ref b :
  refs h !! r = None ->
  ref_count (set_refs h (<[r := ref]> (refs h))) b
  = if decide (buffer ref = b) then S (ref_count h b) else ref_count h b.
Proof.
  intros Hr. unfold ref_count. cbn [refs set_refs].
  destruct (decide (buffer ref = b)) as [E|E].
  - rewrite map_filter_insert_True by done.
    apply map_size_insert_None. apply map_lookup_filter_None_2. by left.
  - rewrite map_filter_insert_False by done. by rewrite delete_id.
Qed.

Lemma ref_count_delete (h : Heap) r ref b :
  refs h !! r = Some ref ->
  ref_count h b
  = if decide (buffer ref = b)
    then S (ref_count (set_refs h (delete r (refs h))) b)
    else ref_count (set_refs h (delete r (refs h))) b.
Proof.
  intros Hr. unfold ref_count. cbn [refs set_refs].
  rewrite map_filter_delete.
  destruct (decide (buffer ref = b)) as [E|E].
  - assert (Hf : filter (fun kv => buffer kv.2 = b) (refs h) !! r = Some ref)
      by (by apply map_lookup_filter_Some_2).
    rewrite (map_size_delete_Some r) by eauto.
    pose proof (map_size_ne_0_lookup_2 _ r (mk_is_Some _ _ Hf)). lia.
  - rewrite delete_id; [done|]. apply map_lookup_filter_None_2.
    right. intros x Hx. cbn. congruence.
Qed.

Lemma ref_count_zero (h : Heap) b :
  ref_count h b = 0%nat <->
  forall r ref, refs h !! r = Some ref -> buffer ref <> b.
Proof.
  unfold ref_count. rewrite map_size_empty_iff. split.
  - intros He r ref Hr E.
    assert (Hf : filter (fun kv => buffer kv.2 = b) (refs h) !! r = Some ref)
      by (by apply map_lookup_filter_Some_2).
    rewrite He in Hf. by rewrite lookup_empty in Hf.
  - intros Hn. apply map_empty. intros r. apply map_lookup_filter_None_2.
    destruct (refs h !! r) as [ref|] eqn:Hr; [|by left].
    right. intros x [= <-]. cbn. by apply (Hn r).
Qed.

Lemma counted_empty : counted empty_heap.
Proof. split; cbn; intros *; by rewrite lookup_empty. Qed.

Lemma counted_no_ref (h : Heap) b :
  counted h -> buffers h !! b = None -> ref_count h b = 0%nat.
Proof.
  intros C Hb. apply ref_count_zero. intros r ref Hr E.
  destruct (counted_ref h C r ref Hr) as (buf & Hbuf & _). congruence.
Qed.

(** Writing bytes into a block leaves the structures alone. *)
Lemma write_bytes_counted (h : Heap) p src h' :
  counted h -> write_bytes h p src = Some h' ->
  counted h' /\ refs h' = refs h /\ buffers h' = buffers h
  /\ freed h' = freed h.
Proof.
  intros C. unfold write_bytes. destruct p as [[d off]|]; [|done].
  destruct (mem h !! d) as [blk|] eqn:Hd; [obind|done].
  destruct (_ && _); [|done]. intros [= <-].
  split; [|done]. split; cbn [refs buffers mem set_mem].
  - apply C.
  - apply C.
  - intros b buf Hb.
    destruct (counted_data h C b buf Hb) as (Hf & Hfl & d' & blk' & E & Hm & L).
    split; [done|]. split; [done|].
    destruct (decide (d' = d)) as [->|Hne].
    + exists d, (list_inserts (Z.to_nat off) src blk).
      rewrite lookup_insert_eq, length_inserts. repeat split; try done.
      congruence.
    + exists d', blk'. by rewrite lookup_insert_ne.
  - apply C.
Qed.

(** av_buffer_alloc in a counted heap. *)
Lemma av_buffer_alloc_counted (h : Heap) size a ok_buf ok_ref :
  counted h -> 0 <= size ->
  exists ret h',
    av_buffer_alloc K h size a ok_buf ok_ref = Some (ret, h') /\
    counted h' /\
    match ret with
    | None => h' = h /\ (a = None \/ ok_buf = false \/ ok_ref = false)
    | Some r =>
        exists junk b d,
          a = Some junk /\ ok_buf = true /\ ok_ref = true /\
          refs h !! r = None /\ buffers h !! b = None /\
          mem h !! d = None /\
          refs h'
          = <[r := {| buffer := b; rdata := Some (d, 0); rsize := size |}]>
              (refs h) /\
          buffers h'
          = <[b := {| data := Some (d, 0); bsize := size; refcount := 1;
                      free := av_buffer_default_free; opaque := None;
                      flags := 0 |}]> (buffers h) /\
          mem h' = <[d := resize (Z.to_nat size) 0 junk]> (mem h) /\
          freed h' = freed h
    end.
Proof.
  intros C Hs. unfold av_buffer_alloc, av_malloc.
  destruct a as [junk|].
  2:{ exists None, h. rewrite bool_decide_eq_true_2 by done.
      split; [done|]. split; [done|]. split; [done|]. by left. }
  rewrite bool_decide_eq_false_2 by done.
  unfold av_buffer_create.
  set (d := fresh (dom (mem h))).
  assert (Hd : mem h !! d = None) by apply fresh_mem.
  assert (Hback : av_free (set_mem h (<[d := resize (Z.to_nat size) 0 junk]>
                                        (mem h))) (Some (d, 0)) = Some h).
  { unfold av_free. cbn [mem set_mem]. rewrite lookup_insert_eq.
    rewrite bool_decide_eq_true_2 by eauto. cbn [Z.eqb andb]. f_equal.
    apply heap_eq; cbn [refs buffers mem freed set_mem]; try done.
    by apply delete_insert_id. }
  destruct ok_buf; cbn [negb]; cbv beta iota.
  2:{ rewrite Hback. obind. exists None, h.
      split; [done|]. split; [done|]. split; [done|]. right. by left. }
  destruct ok_ref; cbn [negb]; cbv beta iota.
  2:{ rewrite Hback. obind. exists None, h.
      split; [done|]. split; [done|]. split; [done|]. right. by right. }
  cbn [refs buffers mem set_mem].
  set (b := fresh (dom (buffers h))). set (r := fresh (dom (refs h))).
  assert (Hb : buffers h !! b = None) by apply fresh_buffers.
  assert (Hr : refs h !! r = None) by apply fresh_refs.
  rewrite Z.land_0_l. cbn [Z.eqb negb default from_option id].
  eexists (Some r), _. split; [reflexivity|]. split.
  2:{ exists junk, b, d. by repeat split. }
  split; cbn [refs buffers mem freed set_buffers set_refs set_mem].
  - intros b0 buf0 Hb0.
    rewrite (ref_count_refs
               (set_refs h
                  (<[r := {| buffer := b; rdata := Some (d, 0);
                             rsize := size |}]> (refs h)))) by done.
    rewrite ref_count_insert by done. cbn [buffer].
    destruct (decide (b = b0)) as [<-|Hne].
    + rewrite lookup_insert_eq in Hb0. injection Hb0 as <-. cbn [refcount].
      rewrite (counted_no_ref h b C Hb). unfold INT_MAX. lia.
    + rewrite lookup_insert_ne in Hb0 by done.
      by apply (counted_refcount h C).
  - intros r0 ref0 Hr0. destruct (decide (r = r0)) as [<-|Hne].
    + rewrite lookup_insert_eq in Hr0. injection Hr0 as <-. cbn [buffer].
      rewrite lookup_insert_eq. eexists. by split.
    + rewrite lookup_insert_ne in Hr0 by done.
      destruct (counted_ref h C r0 ref0 Hr0) as (buf0 & Hbuf0 & E).
      exists buf0. split; [|done]. rewrite lookup_insert_ne; [done|].
      congruence.
  - intros b0 buf0 Hb0. destruct (decide (b = b0)) as [<-|Hne].
    + rewrite lookup_insert_eq in Hb0. injection Hb0 as <-.
      cbn [free flags data bsize]. split; [done|]. split; [done|].
      exists d, (resize (Z.to_nat size) 0 junk).
      rewrite lookup_insert_eq, length_resize.
      split; [done|]. split; [done|lia].
    + rewrite lookup_insert_ne in Hb0 by done.
      destruct (counted_data h C b0 buf0 Hb0)
        as (Hf & Hfl & d0 & blk0 & E & Hm & L).
      split; [done|]. split; [done|]. exists d0, blk0.
      rewrite lookup_insert_ne by congruence. done.
  - intros b1 b2 buf1 buf2 d0 off1 off2 H1 H2 D1 D2.
    destruct (decide (b = b1)) as [<-|N1], (decide (b = b2)) as [<-|N2];
      [done| | |].
    + rewrite lookup_insert_eq in H1. injection H1 as <-.
      rewrite lookup_insert_ne in H2 by done. cbn [data] in D1.
      injection D1 as <- <-.
      destruct (counted_data h C b2 buf2 H2)
        as (_ & _ & d2 & blk2 & E & Hm & _). congruence.
    + rewrite lookup_insert_eq in H2. injection H2 as <-.
      rewrite lookup_insert_ne in H1 by done. cbn [data] in D2.
      injection D2 as <- <-.
      destruct (counted_data h C b1 buf1 H1)
        as (_ & _ & d1 & blk1 & E & Hm & _). congruence.
    + rewrite lookup_insert_ne in H1, H2 by done.
      by apply (counted_owner h C b1 b2 buf1 buf2 d0 off1 off2).
Qed.

(** av_buffer_ref in a counted heap. *)
Lemma av_buffer_ref_counted (h : Heap) r ok :
  counted h -> op_ok h (op_ref r ok) ->
  exists ret h', av_buffer_ref h r ok = Some (ret, h') /\ counted h'.
Proof.
  intros C (ref & buf & Hr & Hb & Hc). unfold av_buffer_ref.
  destruct ok; cbn [negb]; [|by exists None, h].
  rewrite Hr. obind. rewrite Hb. obind.
  destruct (counted_refcount h C _ buf Hb) as (Ec & Hc1).
  rewrite int32_small by (unfold INT_MIN, INT_MAX in *; lia).
  set (r' := fresh (dom (refs h))).
  assert (Hr' : refs h !! r' = None) by apply fresh_refs.
  eexists _, _. split; [reflexivity|].
  split; cbn [refs buffers mem freed set_buffers set_refs].
  - intros b0 buf0 Hb0.
    rewrite (ref_count_refs (set_refs h (<[r' := ref]> (refs h)))) by done.
    rewrite ref_count_insert by done.
    destruct (decide (buffer ref = b0)) as [<-|Hne].
    + rewrite lookup_insert_eq in Hb0. injection Hb0 as <-.
      cbn [refcount set_refcount]. lia.
    + rewrite lookup_insert_ne in Hb0 by done.
      by apply (counted_refcount h C).
  - intros r0 ref0 Hr0.
    assert (Hin : refs h !! r0 = Some ref0 \/ ref0 = ref).
    { destruct (decide (r' = r0)) as [<-|Hne].
      - rewrite lookup_insert_eq in Hr0. right. congruence.
      - rewrite lookup_insert_ne in Hr0 by done. by left. }
    assert (Hex : exists buf0, buffers h !! buffer ref0 = Some buf0 /\
                    rdata ref0 = data buf0 /\ rsize ref0 = bsize buf0).
    { destruct Hin as [Hin| ->]; [by apply (counted_ref h C r0)|].
      by apply (counted_ref h C r). }
    destruct Hex as (buf0 & Hb0 & E).
    destruct (decide (buffer ref = buffer ref0)) as [Eb|Hne].
    + rewrite <- Eb, lookup_insert_eq. eexists. split; [done|].
      cbn [data bsize set_refcount]. rewrite <- Eb, Hb in Hb0.
      by injection Hb0 as <-.
    + rewrite lookup_insert_ne by done. eauto.
  - intros b0 buf0 Hb0.
    destruct (decide (buffer ref = b0)) as [<-|Hne].
    + rewrite lookup_insert_eq in Hb0. injection Hb0 as <-.
      cbn [free flags data bsize set_refcount].
      by apply (counted_data h C (buffer ref)).
    + rewrite lookup_insert_ne in Hb0 by done.
      by apply (counted_data h C b0).
  - intros b1 b2 buf1 buf2 d0 off1 off2 H1 H2 D1 D2.
    assert (G : forall b0 buf0, <[buffer ref := set_refcount buf
                  (refcount buf + 1)]> (buffers h) !! b0 = Some buf0 ->
              exists buf0', buffers h !! b0 = Some buf0'
                            /\ data buf0' = data buf0).
    { intros b0 buf0 H0. destruct (decide (buffer ref = b0)) as [<-|Hne].
      - rewrite lookup_insert_eq in H0. injection H0 as <-. eauto.
      - rewrite lookup_insert_ne in H0 by done. eauto. }
    destruct (G b1 buf1 H1) as (buf1' & H1' & E1).
    destruct (G b2 buf2 H2) as (buf2' & H2' & E2).
    apply (counted_owner h C b1 b2 buf1' buf2' d0 off1 off2); congruence.
Qed.

(** av_buffer_unref in a counted heap. *)
Lemma av_buffer_unref_counted (h : Heap) r ref :
  counted h -> refs h !! r = Some ref ->
  exists buf h',
    buffers h !! buffer ref = Some buf /\
    av_buffer_unref h (Some r) = Some (None, h') /\ counted h' /\
    refs h' = delete r (refs h) /\ freed h' = freed h /\
    (if refcount buf =? 1
     then buffers h' = delete (buffer ref) (buffers h) /\
          exists d, data buf = Some (d, 0) /\ mem h' = delete d (mem h)
     else buffers h'
          = <[buffer ref := set_refcount buf (refcount buf - 1)]> (buffers h)
          /\ mem h' = mem h).
Proof.
  intros C Hr.
  destruct (counted_ref h C r ref Hr) as (buf & Hb & Ed & Es).
  destruct (counted_refcount h C _ buf Hb) as (Ec & Hc1).
  destruct (counted_data h C _ buf Hb) as (Hf & Hfl & d & blk & Hd & Hm & L).
  exists buf. unfold av_buffer_unref. rewrite Hr. obind.
  cbn [refs buffers set_refs]. rewrite Hb. obind.
  rewrite int32_small by (unfold INT_MIN, INT_MAX in *; lia).
  set (h1 := set_refs h (delete r (refs h))).
  pose proof (ref_count_delete h r ref (buffer ref) Hr) as Ecnt.
  rewrite decide_True in Ecnt by done. fold h1 in Ecnt.
  assert (Hother : forall b0, b0 <> buffer ref ->
            ref_count h1 b0 = ref_count h b0).
  { intros b0 Hne. pose proof (ref_count_delete h r ref b0 Hr) as E.
    rewrite decide_False in E by done. done. }
  subst h1.
  destruct (Z.eqb_spec (refcount buf - 1) 0) as [E0|E0].
  - rewrite (proj2 (Z.eqb_eq (refcount buf) 1)) by lia.
    rewrite Hf. unfold call_free, av_free. rewrite Hd.
    cbn [mem set_buffers set_refs]. rewrite Hm.
    rewrite bool_decide_eq_true_2 by eauto. cbn [Z.eqb andb]. obind.
    eexists. split; [done|]. split; [reflexivity|].
    cbn [refs buffers mem freed set_buffers set_refs set_mem].
    rewrite delete_insert_eq.
    split; [|split; [done|split; [done|split; [done|eauto]]]].
    assert (Hz : ref_count (set_refs h (delete r (refs h))) (buffer ref)
                 = 0%nat) by lia.
    split; cbn [refs buffers mem freed set_buffers set_refs set_mem].
    + intros b0 buf0 Hb0. apply lookup_delete_Some in Hb0 as [Hne Hb0].
      rewrite (ref_count_refs (set_refs h (delete r (refs h)))) by done.
      rewrite Hother by done. by apply (counted_refcount h C).
    + intros r0 ref0 Hr0. apply lookup_delete_Some in Hr0 as [Hne Hr0].
      destruct (counted_ref h C r0 ref0 Hr0) as (buf0 & Hb0 & E).
      exists buf0. split; [|done]. rewrite lookup_delete_ne; [done|].
      intros Eb. apply (proj1 (ref_count_zero _ (buffer ref)) Hz r0 ref0);
        [|done]. cbn [refs set_refs].
      by rewrite lookup_delete_ne.
    + intros b0 buf0 Hb0. apply lookup_delete_Some in Hb0 as [Hne Hb0].
      destruct (counted_data h C b0 buf0 Hb0)
        as (Hf0 & Hfl0 & d0 & blk0 & Hd0 & Hm0 & L0).
      split; [done|]. split; [done|]. exists d0, blk0.
      split; [done|]. split; [|done]. rewrite lookup_delete_ne; [done|].
      intros <-. apply Hne.
      by apply (counted_owner h C (buffer ref) b0 buf buf0 d 0 0).
    + intros b1 b2 buf1 buf2 d0 off1 off2 H1 H2.
      apply lookup_delete_Some in H1 as [_ H1].
      apply lookup_delete_Some in H2 as [_ H2].
      by apply (counted_owner h C).
  - rewrite (proj2 (Z.eqb_neq (refcount buf) 1)) by lia.
    eexists. split; [done|]. split; [reflexivity|].
    cbn [refs buffers mem freed set_buffers set_refs].
    split; [|done].
    split; cbn [refs buffers mem freed set_buffers set_refs set_mem].
    + intros b0 buf0 Hb0.
      rewrite (ref_count_refs (set_refs h (delete r (refs h)))) by done.
      destruct (decide (buffer ref = b0)) as [<-|Hne].
      * rewrite lookup_insert_eq in Hb0. injection Hb0 as <-.
        cbn [refcount set_refcount]. lia.
      * rewrite lookup_insert_ne in Hb0 by done.
        rewrite Hother by done. by apply (counted_refcount h C).
    + intros r0 ref0 Hr0. apply lookup_delete_Some in Hr0 as [Hne Hr0].
      destruct (counted_ref h C r0 ref0 Hr0) as (buf0 & Hb0 & E).
      destruct (decide (buffer ref = buffer ref0)) as [Eb|Hnb].
      * rewrite <- Eb, lookup_insert_eq. eexists. split; [done|].
        cbn [data bsize set_refcount]. rewrite <- Eb, Hb in Hb0.
        by injection Hb0 as <-.
      * rewrite lookup_insert_ne by done. eauto.
    + intros b0 buf0 Hb0.
      destruct (decide (buffer ref = b0)) as [<-|Hne].
      * rewrite lookup_insert_eq in Hb0. injection Hb0 as <-.
        cbn [free flags data bsize set_refcount].
        by apply (counted_data h C (buffer ref)).
      * rewrite lookup_insert_ne in Hb0 by done.
        by apply (counted_data h C b0).
    + intros b1 b2 buf1 buf2 d0 off1 off2 H1 H2 D1 D2.
      assert (G : forall b0 buf0, <[buffer ref := set_refcount buf
                    (refcount buf - 1)]> (buffers h) !! b0 = Some buf0 ->
                exists buf0', buffers h !! b0 = Some buf0'
                              /\ data buf0' = data buf0).
      { intros b0 buf0 H0. destruct (decide (buffer ref = b0)) as [<-|Hne].
        - rewrite lookup_insert_eq in H0. injection H0 as <-. eauto.
        - rewrite lookup_insert_ne in H0 by done. eauto. }
      destruct (G b1 buf1 H1) as (buf1' & H1' & E1).
      destruct (G b2 buf2 H2) as (buf2' & H2' & E2).
      apply (counted_owner h C b1 b2 buf1' buf2' d0 off1 off2); congruence.
Qed.

Lemma list_inserts_full (src blk : list Z) :
  length src = length blk -> list_inserts 0 src blk = src.
Proof.
  intros L. rewrite <- (app_nil_r blk), list_inserts_0_r by done.
  apply app_nil_r.
Qed.

Lemma is_writable_counted (h : Heap) r ref buf :
  counted h -> refs h !! r = Some ref ->
  buffers h !! buffer ref = Some buf ->
  av_buffer_is_writable K h r = Some (if refcount buf =? 1 then 1 else 0).
Proof.
  intros C Hr Hb. unfold av_buffer_is_writable. rewrite Hr. obind.
  rewrite Hb. obind.
  destruct (counted_data h C _ buf Hb) as (_ & -> & _).
  by rewrite Z.land_0_l.
Qed.

(** The bytes of a reference of a counted heap are its whole block. *)
Lemma read_bytes_counted (h : Heap) r ref :
  counted h -> refs h !! r = Some ref ->
  exists buf d blk,
    buffers h !! buffer ref = Some buf /\ rdata ref = Some (d, 0) /\
    data buf = Some (d, 0) /\
    mem h !! d = Some blk /\ Z.of_nat (length blk) = rsize ref /\
    read_bytes h (rdata ref) (rsize ref) = Some blk.
Proof.
  intros C Hr.
  destruct (counted_ref h C r ref Hr) as (buf & Hb & Ed & Es).
  destruct (counted_data h C _ buf Hb) as (_ & _ & d & blk & Hd & Hm & L).
  exists buf, d, blk. rewrite Ed, Es, Hd. repeat split; try done.
  unfold read_bytes. rewrite Hm. obind.
  destruct (Z.leb_spec 0 (bsize buf)); [|lia].
  destruct (Z.leb_spec (0 + bsize buf) (Z.of_nat (length blk))); [|lia].
  cbn [Z.leb andb Z.to_nat drop]. f_equal. apply take_ge. lia.
Qed.

(** av_buffer_make_writable on a shared reference of a counted heap:
    the heap afterwards. *)
Lemma make_writable_shared (h : Heap) r ref buf a ok_buf ok_ref :
  counted h -> refs h !! r = Some ref ->
  buffers h !! buffer ref = Some buf -> refcount buf <> 1 ->
  exists res,
    av_buffer_make_writable K h r a ok_buf ok_ref = Some res /\
    counted res.2 /\
    ((res = (AVERROR_ENOMEM K, Some r, h)
      /\ (a = None \/ ok_buf = false \/ ok_ref = false))
     \/ exists junk n b d d0 blk,
          a = Some junk /\ ok_buf = true /\ ok_ref = true /\
          res.1 = (0, Some n) /\
          refs h !! n = None /\ buffers h !! b = None /\
          mem h !! d = None /\
          data buf = Some (d0, 0) /\ mem h !! d0 = Some blk /\
          Z.of_nat (length blk) = rsize ref /\
          refs res.2
          = delete r (<[n := {| buffer := b; rdata := Some (d, 0);
                               rsize := rsize ref |}]> (refs h)) /\
          buffers res.2
          = <[buffer ref := set_refcount buf (refcount buf - 1)]>
              (<[b := {| data := Some (d, 0); bsize := rsize ref;
                         refcount := 1; free := av_buffer_default_free;
                         opaque := None; flags := 0 |}]> (buffers h)) /\
          mem res.2 = <[d := blk]> (mem h) /\
          freed res.2 = freed h).
Proof.
  intros C Hr Hb Hc. unfold av_buffer_make_writable.
  rewrite (is_writable_counted h r ref buf) by done. obind.
  rewrite (proj2 (Z.eqb_neq (refcount buf) 1)) by done.
  cbn [Z.eqb negb]. rewrite Hr. obind.
  destruct (read_bytes_counted h r ref C Hr)
    as (buf' & d0 & blk & Hb' & Erd & Ed & Hm & L & Hread).
  assert (buf' = buf) as -> by congruence.
  destruct (av_buffer_alloc_counted h (rsize ref) a ok_buf ok_ref C
              ltac:(lia)) as (ret & h1 & E1 & C1 & Hret).
  rewrite E1. obind. destruct ret as [n|].
  2:{ destruct Hret as [-> Hfail]. eexists. split; [reflexivity|].
      split; [done|]. by left. }
  destruct Hret as (junk & b & d & -> & -> & -> & Hn & Hbn & Hdn
                    & R1 & B1 & M1 & F1).
  assert (Hdd : d <> d0) by congruence.
  assert (Hrn : r <> n) by congruence.
  rewrite R1, lookup_insert_eq. obind. cbn [rdata].
  unfold memcpy.
  assert (Hread1 : read_bytes h1 (rdata ref) (rsize ref) = Some blk).
  { rewrite Erd in Hread |- *. unfold read_bytes in Hread |- *.
    rewrite M1, lookup_insert_ne by done. done. }
  rewrite Hread1. obind.
  destruct (write_bytes h1 (Some (d, 0)) blk) as [h2|] eqn:E2.
  2:{ exfalso. unfold write_bytes in E2. rewrite M1, lookup_insert_eq in E2.
      cbn in E2. rewrite length_resize in E2.
      leb_in E2; [done|lia]. }
  obind.
  destruct (write_bytes_counted h1 _ _ h2 C1 E2) as (C2 & R2 & B2 & F2).
  assert (M2 : mem h2 = <[d := blk]> (mem h)).
  { unfold write_bytes in E2. rewrite M1, lookup_insert_eq in E2.
    cbn in E2. rewrite length_resize in E2.
    leb_in E2; [|done].
    injection E2 as <-. cbn [mem set_mem].
    rewrite insert_insert_eq. f_equal.
    apply list_inserts_full. rewrite length_resize. lia. }
  assert (Hr2 : refs h2 !! r = Some ref)
    by (by rewrite R2, R1, lookup_insert_ne).
  destruct (av_buffer_unref_counted h2 r ref C2 Hr2)
    as (buf2 & h3 & Hb2 & E3 & C3 & R3 & F3 & Hcase).
  assert (buf2 = buf) as ->.
  { rewrite B2, B1, lookup_insert_ne in Hb2 by congruence. congruence. }
  rewrite E3. obind. eexists. split; [reflexivity|]. cbn [fst snd].
  split; [done|]. right.
  rewrite (proj2 (Z.eqb_neq (refcount buf) 1)) in Hcase by done.
  destruct Hcase as [B3 M3].
  exists junk, n, b, d, d0, blk.
  rewrite R3, R2, R1, B3, B2, B1, M3, M2, F3, F2, F1.
  by repeat split.
Qed.

(** av_buffer_allocz in a counted heap. *)
Lemma av_buffer_allocz_counted (h : Heap) size a ok_buf ok_ref :
  counted h -> 0 <= size ->
  exists ret h',
    av_buffer_allocz K h size a ok_buf ok_ref = Some (ret, h') /\
    counted h' /\
    match ret with
    | None => h' = h
    | Some r =>
        refs h !! r = None /\
        exists ref, refs h' !! r = Some ref /\ rsize ref = size /\
          read_bytes h' (rdata ref) size
          = Some (replicate (Z.to_nat size) 0)
    end.
Proof.
  intros C Hs. unfold av_buffer_allocz.
  destruct (av_buffer_alloc_counted h size a ok_buf ok_ref C Hs)
    as (ret & h1 & E1 & C1 & Hret).
  rewrite E1. obind. destruct ret as [r|].
  2:{ destruct Hret as [-> _]. by exists None, h. }
  destruct Hret as (junk & b & d & -> & -> & -> & Hn & Hbn & Hdn
                    & R1 & B1 & M1 & F1).
  rewrite R1, lookup_insert_eq. obind. cbn [rdata].
  unfold memset0. destruct (Z.leb_spec 0 size); [|lia].
  destruct (write_bytes h1 (Some (d, 0)) (replicate (Z.to_nat size) 0))
    as [h2|] eqn:E2.
  2:{ exfalso. unfold write_bytes in E2. rewrite M1, lookup_insert_eq in E2.
      cbn in E2. rewrite length_resize, length_replicate in E2.
      leb_in E2; [done|lia]. }
  obind.
  destruct (write_bytes_counted h1 _ _ h2 C1 E2) as (C2 & R2 & B2 & F2).
  exists (Some r), h2. split; [done|]. split; [done|]. split; [done|].
  eexists. rewrite R2, R1, lookup_insert_eq. split; [done|]. cbn [rsize rdata].
  split; [done|].
  unfold write_bytes in E2. rewrite M1, lookup_insert_eq in E2.
  cbn in E2. rewrite length_resize, length_replicate in E2.
  leb_in E2; [|lia].
  injection E2 as <-. unfold read_bytes. cbn [mem set_mem].
  rewrite lookup_insert_eq. obind.
  rewrite list_inserts_full by (by rewrite length_resize, length_replicate).
  rewrite length_replicate.
  destruct (Z.leb_spec 0 size); [|lia].
  destruct (Z.leb_spec (0 + size) (Z.of_nat (Z.to_nat size))); [|lia].
  cbn [Z.leb andb Z.to_nat drop]. f_equal. apply take_ge.
  rewrite length_replicate. lia.
Qed.

(** A call that the caller may make leaves a counted heap counted. *)
Lemma step_counted (h : Heap) (o : op) :
  counted h -> op_ok h o ->
  exists h', step K h o = Some h' /\ counted h'.
Proof.
  intros C Hok. destruct o as [size a ob or|size a ob or|r ok|r|r a ob or];
    cbn [step op_ok] in *.
  - destruct (av_buffer_alloc_counted h size a ob or C Hok)
      as (ret & h' & -> & C' & _). by exists h'.
  - destruct (av_buffer_allocz_counted h size a ob or C Hok)
      as (ret & h' & -> & C' & _). by exists h'.
  - destruct (av_buffer_ref_counted h r ok C Hok) as (ret & h' & -> & C').
    by exists h'.
  - destruct Hok as [ref Hr].
    destruct (av_buffer_unref_counted h r ref C Hr)
      as (buf & h' & _ & -> & C' & _). by exists h'.
  - destruct Hok as [ref Hr].
    destruct (counted_ref h C r ref Hr) as (buf & Hb & _).
    destruct (decide (refcount buf = 1)) as [E|E].
    + exists h. split; [|done]. unfold av_buffer_make_writable.
      rewrite (is_writable_counted h r ref buf) by done. obind.
      by rewrite E.
    + destruct (make_writable_shared h r ref buf a ob or C Hr Hb E)
        as (res & -> & C' & _). by exists res.2.
Qed.

(** X18.  The reference counts count.  In every heap that a user
    reaches from the empty heap with av_buffer_alloc, av_buffer_allocz,
    av_buffer_ref, av_buffer_unref and av_buffer_make_writable, called
    on references of the heap, the refcount of each AVBuffer is the
    number of AVBufferRef structures that name it, every AVBufferRef
    names an AVBuffer of the heap, and every AVBuffer has its block of
    data for itself.  So a further call never reads or frees what is not
    there: no use after free, no double free. *)
Theorem buffer_heap_counted (h : Heap) :
  reachable K h ->
  counted h /\
  forall o, op_ok h o -> exists h', step K h o = Some h' /\ counted h'.
Proof.
  intros R.
  assert (C : counted h).
  { induction R as [|h o h' R IH Hok Hstep]; [apply counted_empty|].
    destruct (step_counted h o IH Hok) as (h'' & E & C'). congruence. }
  split; [done|]. intros o. by apply step_counted.
Qed.

(** av_buffer_alloc in any heap. *)
Lemma av_buffer_alloc_fail (h : Heap) size a ok_buf ok_ref :
  a = None \/ ok_buf = false \/ ok_ref = false ->
  av_buffer_alloc K h size a ok_buf ok_ref = Some (None, h).
Proof.
  intros Hf. unfold av_buffer_alloc, av_malloc.
  destruct a as [junk|]; [|done].
  rewrite bool_decide_eq_false_2 by done.
  assert (Hback : av_free
            (set_mem h (<[fresh (dom (mem h)) :=
                            resize (Z.to_nat size) 0 junk]> (mem h)))
            (Some (fresh (dom (mem h)), 0)) = Some h).
  { unfold av_free. cbn [mem set_mem]. rewrite Z.eqb_refl.
    rewrite bool_decide_eq_true_2
      by (rewrite lookup_insert_eq; by eexists).
    cbn [andb]. f_equal. apply heap_eq; cbn [buffers refs mem freed set_mem];
      try done.
    apply delete_insert_id, fresh_mem. }
  unfold av_buffer_create.
  destruct ok_buf; cbn [negb].
  - destruct ok_ref; cbn [negb].
    + by destruct Hf as [?|[?|?]].
    + by rewrite Hback.
  - by rewrite Hback.
Qed.

Lemma av_buffer_alloc_new (h : Heap) size junk :
  av_buffer_alloc K h size (Some junk) true true
  = Some (Some (fresh (dom (refs h))),
          {| buffers :=
               <[fresh (dom (buffers h)) :=
                   {| data := Some (fresh (dom (mem h)), 0); bsize := size;
                      refcount := 1; free := av_buffer_default_free;
                      opaque := None; flags := 0 |}]> (buffers h);
             refs :=
               <[fresh (dom (refs h)) :=
                   {| buffer := fresh (dom (buffers h));
                      rdata := Some (fresh (dom (mem h)), 0);
                      rsize := size |}]> (refs h);
             mem := <[fresh (dom (mem h)) := resize (Z.to_nat size) 0 junk]>
                      (mem h);
             freed := freed h |}).
Proof.
  unfold av_buffer_alloc, av_malloc.
  rewrite bool_decide_eq_false_2 by done.
  unfold av_buffer_create. cbn [negb].
  by rewrite Z.land_0_l.
Qed.

(** The bytes read lie in a block of the heap. *)
Lemma read_bytes_Some (h : Heap) p n bytes :
  read_bytes h p n = Some bytes ->
  exists d off blk,
    p = Some (d, off) /\ mem h !! d = Some blk /\
    0 <= n /\ 0 <= off /\ off + n <= Z.of_nat (length blk) /\
    bytes = take (Z.to_nat n) (drop (Z.to_nat off) blk) /\
    length bytes = Z.to_nat n.
Proof.
  unfold read_bytes. destruct p as [[d off]|]; [|done].
  destruct (mem h !! d) as [blk|] eqn:E; [|done]. obind.
  destruct (Z.leb_spec 0 n); [|done].
  destruct (Z.leb_spec 0 off); [|done].
  destruct (Z.leb_spec (off + n) (Z.of_nat (length blk))); [|done].
  cbn [andb]. intros [= <-]. exists d, off, blk.
  repeat split; try done. rewrite length_take, length_drop. lia.
Qed.

(** They are read again in a heap that keeps the block. *)
Lemma read_bytes_kept (h h' : Heap) p n bytes :
  read_bytes h p n = Some bytes ->
  (forall d blk, mem h !! d = Some blk -> mem h' !! d = Some blk) ->
  read_bytes h' p n = Some bytes.
Proof.
  intros Hread Hkept.
  destruct (read_bytes_Some h p n bytes Hread)
    as (d & off & blk & -> & Hm & _).
  unfold read_bytes in Hread |- *. rewrite Hm in Hread.
  by rewrite (Hkept d blk Hm).
Qed.

(** av_buffer_make_writable on a reference that is not writable, when
    the allocations succeed: the heap with the copy, from which the old
    reference is released. *)
Lemma make_writable_copied (h : Heap) r ref buf bytes junk :
  refs h !! r = Some ref -> buffers h !! buffer ref = Some buf ->
  1 <= refcount buf <= INT_MAX ->
  read_bytes h (rdata ref) (rsize ref) = Some bytes ->
  ~ (Z.land (flags buf) (AV_BUFFER_FLAG_READONLY K) = 0
     /\ refcount buf = 1) ->
  let n := fresh (dom (refs h)) in
  let b := fresh (dom (buffers h)) in
  let d := fresh (dom (mem h)) in
  let h2 :=
    {| buffers :=
         <[buffer ref := set_refcount buf (refcount buf - 1)]>
           (<[b := {| data := Some (d, 0); bsize := rsize ref;
                      refcount := 1; free := av_buffer_default_free;
                      opaque := None; flags := 0 |}]> (buffers h));
       refs := delete r (<[n := {| buffer := b; rdata := Some (d, 0);
                                   rsize := rsize ref |}]> (refs h));
       mem := <[d := bytes]> (mem h);
       freed := freed h |} in
  av_buffer_make_writable K h r (Some junk) true true
  = if refcount buf =? 1
    then h3 ← call_free h2 (free buf) (opaque buf) (data buf);
         Some (0, Some n, set_buffers h3 (delete (buffer ref) (buffers h3)))
    else Some (0, Some n, h2).
Proof.
  intros Hr Hb Hc Hread Hnw n b d h2.
  assert (Ew : av_buffer_is_writable K h r = Some 0).
  { unfold av_buffer_is_writable. rewrite Hr. obind. rewrite Hb. obind.
    destruct (Z.eqb_spec (Z.land (flags buf) (AV_BUFFER_FLAG_READONLY K)) 0);
      [|done].
    destruct (Z.eqb_spec (refcount buf) 1); [|done]. tauto. }
  unfold av_buffer_make_writable. rewrite Ew. obind.
  change (negb (0 =? 0)) with false. cbv iota.
  rewrite Hr. obind. rewrite av_buffer_alloc_new. obind.
  fold n b d.
  assert (Hn : refs h !! n = None) by apply fresh_refs.
  assert (Hbn : buffers h !! b = None) by apply fresh_buffers.
  assert (Hdn : mem h !! d = None) by apply fresh_mem.
  assert (Hrn : r <> n) by congruence.
  assert (Hbb : buffer ref <> b) by congruence.
  destruct (read_bytes_Some h _ _ _ Hread)
    as (d0 & off & blk & Hrd & Hblk & Hsz & Hoff & Hin & Ebytes & Lbytes).
  assert (Hdd : d0 <> d) by congruence.
  cbn [refs]. rewrite lookup_insert_eq. obind. cbn [rdata].
  set (h1 := {| buffers := _; refs := _; mem := _; freed := _ |}).
  unfold memcpy.
  rewrite (read_bytes_kept h h1 _ _ bytes Hread).
  2:{ intros d1 blk0 E. cbn [mem h1]. rewrite lookup_insert_ne; [done|].
      congruence. }
  obind. unfold write_bytes. cbn [mem h1]. rewrite lookup_insert_eq. obind.
  rewrite length_resize.
  destruct (Z.leb_spec (0 + Z.of_nat (length bytes))
              (Z.of_nat (Z.to_nat (rsize ref)))); [|lia].
  change ((0 <=? 0) && true) with true. cbv iota. obind.
  rewrite insert_insert_eq.
  assert (Eblk : list_inserts (Z.to_nat 0) bytes
                   (resize (Z.to_nat (rsize ref)) 0 junk) = bytes).
  { apply list_inserts_full. rewrite length_resize. lia. }
  rewrite Eblk.
  unfold av_buffer_unref.
  cbn [refs buffers mem h1 set_mem set_refs set_buffers].
  rewrite lookup_insert_ne by done. rewrite Hr. obind.
  cbn [refs buffers mem h1 set_mem set_refs set_buffers].
  rewrite lookup_insert_ne by done. rewrite Hb. obind.
  rewrite int32_small by (unfold INT_MIN, INT_MAX in *; lia).
  destruct (Z.eqb_spec (refcount buf) 1) as [E1|E1].
  - rewrite (proj2 (Z.eqb_eq (refcount buf - 1) 0)) by lia.
    match goal with
    | |- context [call_free ?x (free buf) (opaque buf) (data buf)] =>
        change x with h2
    end.
    by destruct (call_free h2 _ _ _).
  - by rewrite (proj2 (Z.eqb_neq (refcount buf - 1) 0)) by lia.
Qed.

(** X19.  av_buffer_make_writable on a reference whose bytes lie in a
    block of the heap.  A writable reference, the only one of an
    AVBuffer that is not read-only, is left as it is.  Every other one,
    shared or read-only, is copied: if one of the three allocations
    fails the function returns AVERROR(ENOMEM) and changes nothing;
    otherwise it returns 0 and replaces the reference by a new one,
    writable, with the same size and the same bytes, in a block of its
    own, and the other references stay.  A shared AVBuffer loses one
    count, and the other references read the bytes they read before; a
    read-only AVBuffer whose only reference this was is released with
    its free function.  A counted heap stays counted. *)
Theorem av_buffer_make_writable_copy (h : Heap) (r : nat)
    (ref : AVBufferRef) (buf : AVBuffer) (bytes : list Z)
    (a : option (list Z)) (ok_buf ok_ref : bool) :
  refs h !! r = Some ref -> buffers h !! buffer ref = Some buf ->
  1 <= refcount buf <= INT_MAX ->
  read_bytes h (rdata ref) (rsize ref) = Some bytes ->
  (free buf = av_buffer_default_free ->
   exists d, data buf = Some (d, 0) /\ is_Some (mem h !! d)) ->
  let result := av_buffer_make_writable K h r a ok_buf ok_ref in
  let writable :=
    Z.land (flags buf) (AV_BUFFER_FLAG_READONLY K) = 0
    /\ refcount buf = 1 in
  (writable -> result = Some (0, Some r, h)) /\
  (~ writable ->
   (a = None \/ ok_buf = false \/ ok_ref = false ->
    result = Some (AVERROR_ENOMEM K, Some r, h)) /\
   (forall junk, a = Some junk -> ok_buf = true -> ok_ref = true ->
    exists n h' new,
      result = Some (0, Some n, h') /\
      (counted h -> counted h') /\
      refs h !! n = None /\ refs h' !! r = None /\
      refs h' !! n = Some new /\
      av_buffer_is_writable K h' n = Some 1 /\
      rsize new = rsize ref /\
      read_bytes h' (rdata new) (rsize new) = Some bytes /\
      (forall r0 ref0, r0 <> r -> refs h !! r0 = Some ref0 ->
         refs h' !! r0 = Some ref0) /\
      (refcount buf <> 1 ->
       buffers h' !! buffer ref
       = Some (set_refcount buf (refcount buf - 1)) /\
       forall r0 ref0 bytes0, r0 <> r -> refs h !! r0 = Some ref0 ->
         read_bytes h (rdata ref0) (rsize ref0) = Some bytes0 ->
         read_bytes h' (rdata ref0) (rsize ref0) = Some bytes0) /\
      (refcount buf = 1 ->
       buffers h' !! buffer ref = None /\
       match free buf with
       | av_buffer_default_free =>
           exists d, data buf = Some (d, 0) /\ mem h' !! d = None
       | other_free g =>
           freed h' = freed h ++ [(g, opaque buf, data buf)]
       end))).
Proof.
  intros Hr Hb Hc Hread Hfree result writable. subst result writable.
  split.
  { intros [Hro E1]. unfold av_buffer_make_writable.
    assert (Ew : av_buffer_is_writable K h r = Some 1).
    { unfold av_buffer_is_writable. rewrite Hr. obind. rewrite Hb. obind.
      by rewrite Hro, E1. }
    by rewrite Ew. }
  intros Hnw. split.
  { intros Hf. unfold av_buffer_make_writable.
    assert (Ew : av_buffer_is_writable K h r = Some 0).
    { unfold av_buffer_is_writable. rewrite Hr. obind. rewrite Hb. obind.
      destruct (Z.eqb_spec (Z.land (flags buf) (AV_BUFFER_FLAG_READONLY K))
                  0); [|done].
      destruct (Z.eqb_spec (refcount buf) 1); [|done]. tauto. }
    rewrite Ew. obind. change (negb (0 =? 0)) with false. cbv iota.
    rewrite Hr. obind. by rewrite av_buffer_alloc_fail. }
  intros junk -> -> ->.
  pose proof (make_writable_copied h r ref buf bytes junk Hr Hb Hc Hread Hnw)
    as Hres. cbv zeta in Hres.
  set (n := fresh (dom (refs h))) in *.
  set (b := fresh (dom (buffers h))) in *.
  set (d' := fresh (dom (mem h))) in *.
  set (new := {| buffer := b; rdata := Some (d', 0); rsize := rsize ref |})
    in *.
  set (nb := {| data := Some (d', 0); bsize := rsize ref; refcount := 1;
                free := av_buffer_default_free; opaque := None;
                flags := 0 |}) in *.
  set (h2 := {| buffers := _; refs := _; mem := _; freed := _ |}) in Hres.
  assert (Hn : refs h !! n = None) by apply fresh_refs.
  assert (Hbn : buffers h !! b = None) by apply fresh_buffers.
  assert (Hdn : mem h !! d' = None) by apply fresh_mem.
  assert (Hrn : r <> n) by congruence.
  assert (Hbb : buffer ref <> b) by congruence.
  destruct (read_bytes_Some h _ _ _ Hread)
    as (d0 & off & blk & Hrd & Hblk & Hsz & Hoff & Hin & Ebytes & Lbytes).
  assert (Hnewread : forall h3 : Heap, mem h3 !! d' = Some bytes ->
            read_bytes h3 (rdata new) (rsize new) = Some bytes).
  { intros h3 E. unfold read_bytes. cbn [rdata rsize new]. rewrite E. obind.
    destruct (Z.leb_spec 0 (rsize ref)); [|lia].
    destruct (Z.leb_spec (0 + rsize ref) (Z.of_nat (length bytes))); [|lia].
    cbn [Z.leb andb]. change (Z.to_nat 0) with 0%nat.
    rewrite drop_0. f_equal. apply take_ge. lia. }
  assert (Hwr : forall h3 : Heap, refs h3 !! n = Some new ->
            buffers h3 !! b = Some nb ->
            av_buffer_is_writable K h3 n = Some 1).
  { intros h3 E1 E2. unfold av_buffer_is_writable. rewrite E1. obind.
    cbn [buffer new]. rewrite E2. obind. cbn [flags refcount nb].
    by rewrite Z.land_0_l. }
  destruct (Z.eqb_spec (refcount buf) 1) as [E1|E1].
  - (* the only reference of a read-only AVBuffer *)
    assert (Hfreed : exists h3,
              call_free h2 (free buf) (opaque buf) (data buf) = Some h3 /\
              buffers h3 = buffers h2 /\ refs h3 = refs h2 /\
              mem h3 !! d' = Some bytes /\
              match free buf with
              | av_buffer_default_free =>
                  exists d, data buf = Some (d, 0) /\ mem h3 !! d = None
              | other_free g =>
                  freed h3 = freed h ++ [(g, opaque buf, data buf)]
              end).
    { unfold call_free. destruct (free buf) as [|g] eqn:Ef.
      - destruct (Hfree eq_refl) as (d & Ed & blk0 & Hm).
        assert (d <> d') by congruence.
        rewrite Ed. unfold av_free. cbn [mem h2].
        rewrite bool_decide_eq_true_2
          by (rewrite lookup_insert_ne by done; by eexists).
        change ((0 =? 0) && true) with true. cbv iota.
        eexists. split; [reflexivity|]. cbn [buffers refs mem set_mem h2].
        split; [done|]. split; [done|].
        split; [by rewrite lookup_delete_ne, lookup_insert_eq|].
        exists d. split; [done|]. by rewrite lookup_delete_eq.
      - eexists. split; [reflexivity|].
        cbn [buffers refs mem freed set_freed h2].
        by rewrite lookup_insert_eq. }
    destruct Hfreed as (h3 & Ecall & B3 & R3 & M3 & F3).
    rewrite Ecall in Hres. cbn [mbind option_bind] in Hres.
    exists n. eexists. exists new. split; [exact Hres|].
    cbn [refs buffers mem freed set_buffers].
    split.
    { intros C. exfalso. apply Hnw.
      destruct (counted_data h C _ buf Hb) as (_ & -> & _).
      by rewrite Z.land_0_l. }
    split; [done|].
    split; [by rewrite R3; cbn [refs h2]; rewrite lookup_delete_eq|].
    split.
    { rewrite R3. cbn [refs h2].
      by rewrite lookup_delete_ne, lookup_insert_eq. }
    split.
    { apply Hwr; cbn [refs buffers set_buffers].
      - rewrite R3. cbn [refs h2].
        by rewrite lookup_delete_ne, lookup_insert_eq.
      - rewrite B3. cbn [buffers h2].
        by rewrite lookup_delete_ne, lookup_insert_ne, lookup_insert_eq. }
    split; [done|].
    split; [by apply Hnewread|].
    split.
    { intros r0 ref0 Hne Hr0. rewrite R3. cbn [refs h2].
      rewrite lookup_delete_ne, lookup_insert_ne by congruence. done. }
    split; [done|]. intros _.
    split; [by rewrite lookup_delete_eq|]. exact F3.
  - (* a shared AVBuffer *)
    exists n, h2, new. split; [exact Hres|].
    split.
    { intros C.
      destruct (make_writable_shared h r ref buf (Some junk) true true
                  C Hr Hb E1) as (res & Eres & C' & _).
      rewrite Hres in Eres. injection Eres as <-. exact C'. }
    cbn [refs buffers mem freed h2].
    split; [done|]. split; [by rewrite lookup_delete_eq|].
    split; [by rewrite lookup_delete_ne, lookup_insert_eq|].
    split.
    { apply Hwr; cbn [refs buffers h2].
      - by rewrite lookup_delete_ne, lookup_insert_eq.
      - by rewrite lookup_insert_ne, lookup_insert_eq. }
    split; [done|].
    split; [by apply Hnewread; cbn [mem h2]; rewrite lookup_insert_eq|].
    split.
    { intros r0 ref0 Hne Hr0.
      rewrite lookup_delete_ne, lookup_insert_ne by congruence. done. }
    split; [|done]. intros _.
    split; [by rewrite lookup_insert_eq|].
    intros r0 ref0 bytes0 Hne Hr0 Hread0.
    apply (read_bytes_kept h h2 _ _ _ Hread0).
    intros d1 blk1 E. cbn [mem h2]. rewrite lookup_insert_ne; [done|].
    congruence.
Qed.

(** X20.  av_buffer_create with a free function of the caller.  If
    either av_mallocz fails it returns NULL and changes nothing.
    Otherwise the new reference is the only one: it is writable unless
    the flag AV_BUFFER_FLAG_READONLY was given (and is the flag that
    av_buffer_is_writable looks at), and releasing it calls the free
    function once, with the opaque pointer and the data given, and
    leaves nothing else behind. *)
Theorem av_buffer_create_free (h : Heap) (dat : pointer) (size : Z)
    (f : nat) (opq : option nat) (fl : Z) :
  av_buffer_create K h dat size (Some (other_free f)) opq fl
    false true = (None, h) /\
  av_buffer_create K h dat size (Some (other_free f)) opq fl
    true false = (None, h) /\
  exists r h',
    av_buffer_create K h dat size (Some (other_free f)) opq fl
      true true = (Some r, h') /\
    refs h !! r = None /\
    refs h' !! r = Some {| buffer := fresh (dom (buffers h));
                           rdata := dat; rsize := size |} /\
    mem h' = mem h /\
    (Z.land fl (AV_BUFFER_FLAG_READONLY K) = 0 ->
     av_buffer_is_writable K h' r = Some 1) /\
    (Z.land fl (AV_BUFFER_FLAG_READONLY K) <> 0 ->
     Z.land (BUFFER_FLAG_READONLY K) (AV_BUFFER_FLAG_READONLY K) <> 0 ->
     av_buffer_is_writable K h' r = Some 0) /\
    av_buffer_unref h' (Some r)
    = Some (None, set_freed h (freed h ++ [(f, opq, dat)])).
Proof.
  split; [done|]. split; [done|].
  eexists _, _. split; [reflexivity|].
  cbn [refs buffers mem freed set_buffers set_refs].
  set (r := fresh (dom (refs h))). set (b := fresh (dom (buffers h))).
  assert (Hr : refs h !! r = None) by apply fresh_refs.
  assert (Hb : buffers h !! b = None) by apply fresh_buffers.
  split; [done|]. split; [apply lookup_insert_eq|]. split; [done|].
  split; [|split].
  - intros E. unfold av_buffer_is_writable.
    cbn [refs buffers set_buffers set_refs].
    rewrite lookup_insert_eq. obind. cbn [buffer].
    rewrite lookup_insert_eq. obind. cbn [flags refcount].
    rewrite E. cbn [Z.eqb negb]. by rewrite Z.land_0_l.
  - intros E E'. unfold av_buffer_is_writable.
    cbn [refs buffers set_buffers set_refs].
    rewrite lookup_insert_eq. obind. cbn [buffer].
    rewrite lookup_insert_eq. obind. cbn [flags refcount].
    rewrite (proj2 (Z.eqb_neq _ 0) E). cbn [negb]. rewrite Z.lor_0_l.
    by rewrite (proj2 (Z.eqb_neq _ 0) E').
  - unfold av_buffer_unref. cbn [refs buffers set_buffers set_refs].
    rewrite lookup_insert_eq. obind. cbn [buffer].
    rewrite lookup_insert_eq. obind.
    cbn [refcount free opaque data default from_option id set_refcount].
    change (int32 (1 - 1)) with 0. cbn [Z.eqb call_free]. obind.
    f_equal. f_equal.
    apply heap_eq; cbn [refs buffers mem freed set_buffers set_refs set_freed];
      try done.
    + rewrite insert_insert_eq. by apply delete_insert_id.
    + by apply delete_insert_id.
Qed.

End BufferHeap.

Lemma sample_heap_reachable :
  Buffer.reachable Buffer.sample_constants Buffer.sample_heap.
Proof.
  apply (Buffer.reachable_step _ Buffer.empty_heap
           (Buffer.op_alloc 4 (Some [1; 2; 3; 4]) true true)).
  - apply Buffer.reachable_empty.
  - cbn. lia.
  - vm_compute. reflexivity.
Qed.

Lemma shared_heap_reachable :
  Buffer.reachable Buffer.sample_constants Buffer.shared_heap.
Proof.
  apply (Buffer.reachable_step _ Buffer.sample_heap
           (Buffer.op_ref Buffer.sample_ref true)).
  - apply sample_heap_reachable.
  - eexists _, _. split; [vm_compute; reflexivity|].
    split; [vm_compute; reflexivity|]. vm_compute. reflexivity.
  - vm_compute. reflexivity.
Qed.

Lemma shared_heap_counted : Buffer.counted Buffer.shared_heap.
Proof.
  destruct (step_counted Buffer.sample_constants Buffer.empty_heap
              (Buffer.op_alloc 4 (Some [1; 2; 3; 4]) true true)
              counted_empty ltac:(cbn; lia)) as (h1 & E1 & C1).
  assert (h1 = Buffer.sample_heap) as ->
    by (vm_compute in E1; injection E1 as <-; vm_compute; reflexivity).
  destruct (step_counted Buffer.sample_constants Buffer.sample_heap
              (Buffer.op_ref Buffer.sample_ref true) C1) as (h2 & E2 & C2).
  { eexists _, _. split; [vm_compute; reflexivity|].
    split; [vm_compute; reflexivity|]. vm_compute. reflexivity. }
  assert (h2 = Buffer.shared_heap) as ->
    by (vm_compute in E2; injection E2 as <-; vm_compute; reflexivity).
  exact C2.
Qed.

Lemma av_buffer_ref_unref_witness :
  exists r' h',
    Buffer.av_buffer_ref Buffer.sample_heap Buffer.sample_ref true
    = Some (Some r', h') /\
    Buffer.av_buffer_unref h' (Some r') = Some (None, Buffer.sample_heap).
Proof.
  destruct (av_buffer_ref_unref Buffer.sample_constants Buffer.sample_heap
              Buffer.sample_ref
              {| Buffer.buffer := 0; Buffer.rdata := Some (0%nat, 0);
                 Buffer.rsize := 4 |}
              {| Buffer.data := Some (0%nat, 0); Buffer.bsize := 4;
                 Buffer.refcount := 1;
                 Buffer.free := Buffer.av_buffer_default_free;
                 Buffer.opaque := None; Buffer.flags := 0 |})
    as (_ & r' & h' & E & _ & _ & _ & _ & _ & _ & _ & _ & Hback & _).
  - vm_compute. reflexivity.
  - vm_compute. reflexivity.
  - vm_compute. split; congruence.
  - exists r', h'. split; [exact E|exact Hback].
Defined.

Lemma buffer_heap_counted_witness :
  Buffer.counted Buffer.shared_heap /\
  exists h',
    Buffer.step Buffer.sample_constants Buffer.shared_heap
      (Buffer.op_unref Buffer.sample_ref) = Some h' /\
    Buffer.counted h'.
Proof.
  destruct (buffer_heap_counted Buffer.sample_constants Buffer.shared_heap
              shared_heap_reachable) as [C Hstep].
  split; [exact C|].
  apply (Hstep (Buffer.op_unref Buffer.sample_ref)).
  eexists. vm_compute. reflexivity.
Defined.

Lemma av_buffer_create_free_witness :
  exists r h',
    Buffer.av_buffer_create Buffer.sample_constants Buffer.sample_heap
      (Some (7%nat, 0)) 16 (Some (Buffer.other_free 3)) (Some 5%nat) 1
      true true = (Some r, h') /\
    Buffer.av_buffer_is_writable Buffer.sample_constants h' r = Some 0 /\
    Buffer.freed <$> (snd <$> Buffer.av_buffer_unref h' (Some r))
    = Some [(3%nat, Some 5%nat, Some (7%nat, 0))].
Proof.
  destruct (av_buffer_create_free Buffer.sample_constants Buffer.sample_heap
              (Some (7%nat, 0)) 16 3 (Some 5%nat) 1)
    as (_ & _ & r & h' & E & _ & _ & _ & _ & Hro & Hun).
  exists r, h'. split; [exact E|]. split.
  - apply Hro; vm_compute; congruence.
  - rewrite Hun. reflexivity.
Defined.

Lemma av_buffer_make_writable_copy_witness :
  exists n h' new,
    Buffer.av_buffer_make_writable Buffer.sample_constants
      Buffer.readonly_heap Buffer.sample_ref (Some [9; 9; 9; 9]) true true
    = Some (0, Some n, h') /\
    Buffer.refs h' !! n = Some new /\
    Buffer.av_buffer_is_writable Buffer.sample_constants h' n = Some 1 /\
    Buffer.read_bytes h' (Buffer.rdata new) (Buffer.rsize new)
    = Some [1; 2; 3; 4] /\
    Buffer.freed h' = [(3%nat, Some 5%nat, Some (7%nat, 0))].
Proof.
  destruct (av_buffer_make_writable_copy Buffer.sample_constants
              Buffer.readonly_heap Buffer.sample_ref
              {| Buffer.buffer := 0; Buffer.rdata := Some (7%nat, 0);
                 Buffer.rsize := 4 |}
              {| Buffer.data := Some (7%nat, 0); Buffer.bsize := 4;
                 Buffer.refcount := 1;
                 Buffer.free := Buffer.other_free 3;
                 Buffer.opaque := Some 5%nat; Buffer.flags := 1 |}
              [1; 2; 3; 4] (Some [9; 9; 9; 9]) true true) as [_ H].
  - vm_compute. reflexivity.
  - vm_compute. reflexivity.
  - vm_compute. split; congruence.
  - vm_compute. reflexivity.
  - intros [=].
  - destruct H as [_ H].
    { intros [Hro _]. vm_compute in Hro. discriminate Hro. }
    destruct (H [9; 9; 9; 9] eq_refl eq_refl eq_refl)
      as (n & h' & new & E & _ & _ & _ & Hn & Hw & _ & Hread & _ & _
          & Hsole).
    destruct (Hsole eq_refl) as [_ Hf].
    exists n, h', new. split; [exact E|]. split; [exact Hn|].
    split; [exact Hw|]. split; [exact Hread|]. exact Hf.
Defined.

(** ** The strides of the first picture *)

Section Strides.
Import Pictures.
Variable K : Constants.
Hypothesis Henomem : AVERROR_ENOMEM K < 0.

Ltac bools :=
  repeat match goal with
         | H : (_ =? _) = true |- _ => apply Z.eqb_eq in H
         | H : (_ =? _) = false |- _ => apply Z.eqb_neq in H
         | H : (_ <? _) = true |- _ => apply Z.ltb_lt in H
         | H : (_ <? _) = false |- _ => apply Z.ltb_ge in H
         | H : negb _ = true |- _ => apply negb_true_iff in H
         | H : negb _ = false |- _ => apply negb_false_iff in H
         | H : _ && _ = true |- _ => apply andb_prop in H as [? ?]
         | H : _ || _ = false |- _ => apply orb_false_elim in H as [? ?]
         end.

(** alloc_frame_buffer: the result by cases. *)
Lemma alloc_frame_buffer_strides s pic o ret s' pic' :
  alloc_frame_buffer K s pic o = Some (ret, s', pic') ->
  let l0 := rd (f_linesize (gb_frame o)) 0 in
  let l1 := rd (f_linesize (gb_frame o)) 1 in
  let l2 := rd (f_linesize (gb_frame o)) 2 in
  linesize s' = linesize s /\ uvlinesize s' = uvlinesize s /\
  (linesize s <> 0 -> l0 <> linesize s \/ l1 <> uvlinesize s -> ret = -1) /\
  ((ret = 0 /\ has_pixels pic' = true
    /\ f_linesize (f pic') = f_linesize (gb_frame o) /\ l1 = l2
    /\ (linesize s <> 0 -> l0 = linesize s /\ l1 = uvlinesize s)
    /\ is_null (edge_emu_buffer (scratch s')) = false)
   \/ (ret < 0 /\
       (has_pixels pic' = true ->
        is_null (buf0 (gb_frame o)) = false /\
        (gb_ret o < 0
         \/ exists size, hwaccel s = Some size /\ size <> 0
                         /\ hw_priv o = None)))).
Proof using Henomem.
  intros H l0 l1 l2. unfold alloc_frame_buffer in H.
  set (pic0 := if negb (image_codec K s)
               then set_progress (set_f pic (gb_frame o)) (gb_progress o)
               else set_f pic (gb_frame o)) in *.
  assert (Hf0 : f pic0 = gb_frame o) by (subst pic0; by destruct (negb _)).
  destruct ((gb_ret o <? 0) || is_null (buf0 (f pic0))) eqn:Hfail.
  { simplify_eq. split; [done|]. split; [done|]. split; [done|].
    right. split; [lia|]. unfold has_pixels. rewrite Hf0 in *.
    intros Hp. apply negb_true_iff in Hp. split; [done|].
    rewrite Hp, orb_false_r in Hfail. left. by apply Z.ltb_lt. }
  apply orb_false_elim in Hfail as [Hgb Hbuf]. rewrite Hf0 in Hbuf.
  set (pic1 := if is_encoder s then _ else pic0) in *.
  assert (Hb1 : is_null (buf0 (f pic1)) = false)
    by (subst pic1; destruct (is_encoder s); cbn; by rewrite ?Hf0).
  assert (Hl1 : f_linesize (f pic1) = f_linesize (gb_frame o))
    by (subst pic1; destruct (is_encoder s); cbn; by rewrite ?Hf0).
  assert (Hafter : forall pic2,
    f_linesize (f pic2) = f_linesize (gb_frame o) ->
    is_null (buf0 (f pic2)) = false ->
    (if negb (linesize s =? 0)
        && (negb (linesize s =? rd (f_linesize (f pic2)) 0)
            || negb (uvlinesize s =? rd (f_linesize (f pic2)) 1))
     then Some (-1, s, ff_mpeg_unref_picture K s pic2)
     else if negb (rd (f_linesize (f pic2)) 1 =? rd (f_linesize (f pic2)) 2)
     then Some (-1, s, ff_mpeg_unref_picture K s pic2)
     else if is_null (edge_emu_buffer (scratch s))
     then let '(ret, sc) :=
            frame_size_alloc K (scratch s) (rd (f_linesize (f pic2)) 0) o in
          if ret <? 0
          then Some (ret, set_scratch s sc, ff_mpeg_unref_picture K s pic2)
          else Some (0, set_scratch s sc, pic2)
     else Some (0, s, pic2)) = Some (ret, s', pic') ->
    linesize s' = linesize s /\ uvlinesize s' = uvlinesize s /\
    (linesize s <> 0 -> l0 <> linesize s \/ l1 <> uvlinesize s -> ret = -1) /\
    ((ret = 0 /\ has_pixels pic' = true
      /\ f_linesize (f pic') = f_linesize (gb_frame o) /\ l1 = l2
      /\ (linesize s <> 0 -> l0 = linesize s /\ l1 = uvlinesize s)
      /\ is_null (edge_emu_buffer (scratch s')) = false)
     \/ (ret < 0 /\ has_pixels pic' = false))).
  { clear H. intros pic2 Hl2 Hb2. rewrite Hl2. fold l0 l1 l2. intros E.
    destruct (negb (linesize s =? 0) && _) eqn:Hstride.
    { simplify_eq. split; [done|]. split; [done|]. split; [done|].
      right. split; [lia|apply unref_has_pixels]. }
    assert (Hsame : linesize s <> 0 -> l0 = linesize s /\ l1 = uvlinesize s).
    { intros Hne. apply andb_false_iff in Hstride as [Hs|Hs].
      - apply negb_false_iff, Z.eqb_eq in Hs. done.
      - apply orb_false_elim in Hs as [H0 H1].
        apply negb_false_iff, Z.eqb_eq in H0.
        apply negb_false_iff, Z.eqb_eq in H1. done. }
    assert (Hrej : forall r, linesize s <> 0 ->
              l0 <> linesize s \/ l1 <> uvlinesize s -> r = -1).
    { intros r Hne [Hd|Hd]; destruct (Hsame Hne); congruence. }
    destruct (negb (l1 =? l2)) eqn:Huv.
    { simplify_eq. split; [done|]. split; [done|]. split; [done|].
      right. split; [lia|apply unref_has_pixels]. }
    apply negb_false_iff, Z.eqb_eq in Huv.
    destruct (is_null (edge_emu_buffer (scratch s))) eqn:Hedge.
    - unfold frame_size_alloc in E.
      destruct (edge_alloc o) as [e|].
      + destruct (scratch_alloc o) as [p|].
        * cbn in E. simplify_eq. split; [done|]. split; [done|].
          split; [apply Hrej|]. left. unfold has_pixels. rewrite Hb2.
          split; [done|]. split; [done|]. split; [done|]. split; [done|].
          split; [done|]. done.
        * destruct (Z.ltb_spec (AVERROR_ENOMEM K) 0); [|lia].
          simplify_eq. split; [done|]. split; [done|].
          split; [apply Hrej|]. right. split; [done|apply unref_has_pixels].
      + destruct (Z.ltb_spec (AVERROR_ENOMEM K) 0); [|lia].
        simplify_eq. split; [done|]. split; [done|].
        split; [apply Hrej|]. right. split; [done|apply unref_has_pixels].
    - simplify_eq. split; [done|]. split; [done|]. split; [apply Hrej|].
      left. unfold has_pixels. rewrite Hb2.
      split; [done|]. split; [done|]. split; [done|]. split; [done|].
      split; [done|]. done. }
  assert (Hweak : forall P : Prop,
    linesize s' = linesize s /\ uvlinesize s' = uvlinesize s /\
    (linesize s <> 0 -> l0 <> linesize s \/ l1 <> uvlinesize s -> ret = -1) /\
    ((ret = 0 /\ has_pixels pic' = true
      /\ f_linesize (f pic') = f_linesize (gb_frame o) /\ l1 = l2
      /\ (linesize s <> 0 -> l0 = linesize s /\ l1 = uvlinesize s)
      /\ is_null (edge_emu_buffer (scratch s')) = false)
     \/ (ret < 0 /\ has_pixels pic' = false)) ->
    linesize s' = linesize s /\ uvlinesize s' = uvlinesize s /\
    (linesize s <> 0 -> l0 <> linesize s \/ l1 <> uvlinesize s -> ret = -1) /\
    ((ret = 0 /\ has_pixels pic' = true
      /\ f_linesize (f pic') = f_linesize (gb_frame o) /\ l1 = l2
      /\ (linesize s <> 0 -> l0 = linesize s /\ l1 = uvlinesize s)
      /\ is_null (edge_emu_buffer (scratch s')) = false)
     \/ (ret < 0 /\ (has_pixels pic' = true -> P)))).
  { intros P (A & B & C & [D|[D1 D2]]); repeat split; try done;
      [by left|right]. split; [done|]. congruence. }
  destruct (hwaccel s) as [size|] eqn:Hhw.
  - destruct (negb (is_null (hwaccel_picture_private pic1))); [done|].
    destruct (Z.eqb_spec size 0) as [Hz|Hz];
      [by apply Hweak, (Hafter pic1)|].
    destruct (hw_priv o) as [b|] eqn:Hpriv.
    + by apply Hweak, (Hafter (set_hwaccel pic1 (Some b) (Some b))).
    + simplify_eq. split; [done|]. split; [done|]. split; [done|].
      right. split; [lia|]. intros _. split; [done|]. right. eauto.
  - by apply Hweak, (Hafter pic1).
Qed.

Lemma alloc_picture_finish_cases s pic o ret s' pic' :
  alloc_picture_finish K s pic o = (ret, s', pic') ->
  s' = s /\
  ((ret = 0 /\ f pic' = f pic)
   \/ (ret = AVERROR_ENOMEM K /\ has_pixels pic' = false)).
Proof using Henomem.
  unfold alloc_picture_finish. intros H.
  assert (G : forall r p, f p = f pic ->
    (if r <? 0
     then (AVERROR_ENOMEM K, s,
           ff_free_picture_tables (ff_mpeg_unref_picture K s p))
     else (0, s, p)) = (ret, s', pic') ->
    s' = s /\
    ((ret = 0 /\ f pic' = f pic)
     \/ (ret = AVERROR_ENOMEM K /\ has_pixels pic' = false))).
  { intros r p Hf E. destruct (r <? 0); simplify_eq; (split; [done|]).
    - right. split; [done|]. apply unref_has_pixels.
    - by left. }
  destruct (is_null (tables pic qscale_table_buf)).
  - destruct (alloc_picture_tables K s pic o) as [r p] eqn:A.
    apply (G r p); [|done].
    by destruct (alloc_picture_tables_core K Henomem _ _ _ _ _ A).
  - destruct (make_tables_writable pic o) as [r p] eqn:A.
    apply (G r p); [|done].
    by destruct (make_tables_writable_presence _ _ _ _ A).
Qed.

(** X21.  ff_alloc_picture for a Picture that is not shared.  It returns
    0, -1 or AVERROR(ENOMEM).  When it returns 0 the two chroma strides
    of the frame agree, the strides of the context are those of the
    frame, and they are the strides the context had before if it had
    any: the first picture fixes them.  A frame with other strides is
    refused with -1, the strides of the context staying as they are.
    After an error the Picture has no pixel buffer, unless it is the
    get_buffer call that failed and left one, or the private data of the
    hardware accelerator that could not be allocated: alloc_frame_buffer
    then returns without releasing the frame. *)
Theorem ff_alloc_picture_strides s pic o ret s' pic' :
  ff_alloc_picture K s pic 0 o = Some (ret, s', pic') ->
  let l0 := rd (f_linesize (gb_frame o)) 0 in
  let l1 := rd (f_linesize (gb_frame o)) 1 in
  let l2 := rd (f_linesize (gb_frame o)) 2 in
  (ret = 0 \/ ret = -1 \/ ret = AVERROR_ENOMEM K) /\
  (ret = 0 ->
   has_pixels pic' = true /\
   f_linesize (f pic') = f_linesize (gb_frame o) /\
   linesize s' = l0 /\ uvlinesize s' = l1 /\ l1 = l2 /\
   (linesize s <> 0 -> linesize s' = linesize s
                       /\ uvlinesize s' = uvlinesize s)) /\
  (linesize s <> 0 -> l0 <> linesize s \/ l1 <> uvlinesize s ->
   ret = -1 /\ linesize s' = linesize s /\ uvlinesize s' = uvlinesize s) /\
  (ret < 0 -> has_pixels pic' = true ->
   ret = -1 /\ is_null (buf0 (gb_frame o)) = false /\
   (gb_ret o < 0
    \/ exists size, hwaccel s = Some size /\ size <> 0
                    /\ hw_priv o = None)).
Proof using Henomem.
  intros H l0 l1 l2. unfold ff_alloc_picture in H. cbn [Z.eqb negb] in H.
  destruct (negb (is_null _)); [done|].
  destruct (alloc_frame_buffer K s pic o) as [[[r s1] p1]|] eqn:A; [|done].
  apply alloc_frame_buffer_strides in A as (L0 & L1 & Hrej & A).
  fold l0 l1 l2 in Hrej, A.
  destruct (Z.ltb_spec r 0) as [Hr|Hr].
  { simplify_eq. destruct A as [(-> & _)|(_ & A)]; [lia|].
    split; [auto|]. split; [lia|]. split; [done|]. intros _ Hp.
    split; [done|]. by apply A. }
  destruct A as [(-> & Hp & Hl & Huv & Hsame & _)|(? & _)]; [|lia].
  rewrite Hl in H. fold l0 l1 in H.
  destruct (alloc_picture_finish K (set_linesizes s1 l0 l1) p1 o)
    as [[r2 s2] p2] eqn:B.
  apply alloc_picture_finish_cases in B as [-> B]. simplify_eq.
  cbn [linesize uvlinesize set_linesizes].
  destruct B as [(-> & Hf)|(-> & Hnp)].
  - split; [auto|]. split.
    + intros _. unfold has_pixels in *. rewrite Hf.
      split; [done|]. split; [done|]. split; [done|]. split; [done|].
      split; [done|]. intros Hne. destruct (Hsame Hne). split; congruence.
    + split; [|lia]. intros Hne Hd. specialize (Hrej Hne Hd). lia.
  - split; [auto|]. split; [lia|]. split.
    + intros Hne Hd. specialize (Hrej Hne Hd). lia.
    + intros _ Hp'. congruence.
Qed.

End Strides.

Lemma ff_alloc_picture_strides_witness :
  exists s' pic',
    Pictures.ff_alloc_picture Pictures.sample_constants
      (Pictures.set_linesizes (Pictures.sample_ctx 2) 16 8)
      Pictures.blank_picture 0 Pictures.sample_env = Some (-1, s', pic') /\
    Pictures.linesize s' = 16 /\ Pictures.uvlinesize s' = 8.
Proof.
  destruct (Pictures.ff_alloc_picture Pictures.sample_constants
              (Pictures.set_linesizes (Pictures.sample_ctx 2) 16 8)
              Pictures.blank_picture 0 Pictures.sample_env)
    as [[[ret s'] pic']|] eqn:E; [|vm_compute in E; discriminate E].
  destruct (ff_alloc_picture_strides Pictures.sample_constants
              ltac:(vm_compute; reflexivity) _ _ _ _ _ _ E)
    as (_ & _ & Hrej & _).
  destruct Hrej as (-> & Hl & Huv).
  - vm_compute. congruence.
  - left. vm_compute. congruence.
  - exists s', pic'. split; [reflexivity|]. split; [exact Hl|exact Huv].
Defined.

(** ** av_buffer_realloc *)

Section BufferRealloc.
Import Buffer.
Variable K : Constants.

Ltac rbind :=
  match goal with
  | |- context [Some ?x ≫= ?f] =>
      change (Some x ≫= f) with (f x); cbv beta iota
  end.

Lemma av_buffer_realloc_null_fail (h : Heap) size a ok_buf ok_ref :
  a = None \/ ok_buf = false \/ ok_ref = false ->
  av_buffer_realloc_null K h size a ok_buf ok_ref
  = Some (AVERROR_ENOMEM K, None, h).
Proof.
  intros Hf. unfold av_buffer_realloc_null, av_realloc.
  destruct a as [[moved junk]|]; [|done].
  cbn [fmap option_fmap option_map snd av_malloc]. rbind.
  rewrite bool_decide_eq_false_2 by done.
  assert (Hback : av_free
            (set_mem h (<[fresh (dom (mem h)) :=
                            resize (Z.to_nat size) 0 junk]> (mem h)))
            (Some (fresh (dom (mem h)), 0)) = Some h).
  { unfold av_free. cbn [mem set_mem]. rewrite Z.eqb_refl.
    rewrite bool_decide_eq_true_2
      by (rewrite lookup_insert_eq; by eexists).
    cbn [andb]. f_equal. apply heap_eq; cbn [buffers refs mem freed set_mem];
      try done.
    apply delete_insert_id, not_elem_of_dom, is_fresh. }
  unfold av_buffer_create.
  destruct ok_buf; cbn [negb].
  - destruct ok_ref; cbn [negb].
    + by destruct Hf as [?|[?|?]].
    + by rewrite Hback.
  - by rewrite Hback.
Qed.

(** The structures and the block of a buffer made by
    av_buffer_realloc(NULL, size). *)
Lemma av_buffer_realloc_null_new (h : Heap) size moved junk :
  av_buffer_realloc_null K h size (Some (moved, junk)) true true
  = Some (0, Some (fresh (dom (refs h))),
          {| buffers :=
               <[fresh (dom (buffers h)) :=
                   {| data := Some (fresh (dom (mem h)), 0); bsize := size;
                      refcount := 1; free := av_buffer_default_free;
                      opaque := None;
                      flags := BUFFER_FLAG_REALLOCATABLE K |}]> (buffers h);
             refs :=
               <[fresh (dom (refs h)) :=
                   {| buffer := fresh (dom (buffers h));
                      rdata := Some (fresh (dom (mem h)), 0);
                      rsize := size |}]> (refs h);
             mem := <[fresh (dom (mem h)) := resize (Z.to_nat size) 0 junk]>
                      (mem h);
             freed := freed h |}).
Proof.
  unfold av_buffer_realloc_null, av_realloc.
  cbn [fmap option_fmap option_map snd av_malloc]. rbind.
  rewrite bool_decide_eq_false_2 by done.
  unfold av_buffer_create. cbn [negb].
  cbn [refs buffers mem set_refs set_buffers set_mem].
  rewrite lookup_insert_eq. rbind. cbn [buffer].
  rewrite lookup_insert_eq. rbind.
  rewrite insert_insert_eq. rewrite Z.land_0_l. cbn [Z.eqb negb].
  repeat f_equal.
Qed.

Lemma resizable_test (ref : AVBufferRef) (buf : AVBuffer) (h : Heap) r :
  refs h !! r = Some ref -> buffers h !! buffer ref = Some buf ->
  exists w, av_buffer_is_writable K h r = Some w /\
    ((Z.land (flags buf) (BUFFER_FLAG_REALLOCATABLE K) =? 0)
     || (w =? 0) || negb (bool_decide (rdata ref = data buf)) = false
     <-> resizable K ref buf).
Proof.
  intros Hr Hb. unfold av_buffer_is_writable, resizable.
  rewrite Hr. rbind. rewrite Hb. rbind.
  destruct (Z.eqb_spec (Z.land (flags buf) (BUFFER_FLAG_REALLOCATABLE K)) 0)
    as [E1|E1];
  destruct (Z.eqb_spec (Z.land (flags buf) (AV_BUFFER_FLAG_READONLY K)) 0)
    as [E2|E2];
  destruct (Z.eqb_spec (refcount buf) 1) as [E3|E3];
  destruct (decide (rdata ref = data buf)) as [E4|E4];
  cbn [negb]; eexists; (split; [reflexivity|]);
  rewrite ?(bool_decide_eq_true_2 _ E4), ?(bool_decide_eq_false_2 _ E4);
  cbn; split; try done; intros (? & ? & ? & ?); done.
Qed.

(** A resizable buffer is resized by av_realloc. *)
Lemma av_buffer_realloc_resizable (h : Heap) r ref buf d blk size moved junk
    ok_buf ok_ref :
  refs h !! r = Some ref -> buffers h !! buffer ref = Some buf ->
  data buf = Some (d, 0) -> mem h !! d = Some blk ->
  size <> rsize ref -> resizable K ref buf ->
  av_buffer_realloc K h (Some r) size (Some (moved, junk)) ok_buf ok_ref
  = let d' := if moved : bool then fresh (dom (mem h)) else d in
    Some (0, Some r,
          set_refs
            (set_buffers
               (set_mem h (<[d' := resize (Z.to_nat size) 0 (blk ++ junk)]>
                             (delete d (mem h))))
               (<[buffer ref := set_data buf (Some (d', 0)) size]>
                  (buffers h)))
            (<[r := {| buffer := buffer ref; rdata := Some (d', 0);
                       rsize := size |}]> (refs h))).
Proof.
  intros Hr Hb Hdata Hblk Hne Hres.
  destruct (resizable_test ref buf h r Hr Hb) as (w & Hw & Htest).
  unfold av_buffer_realloc. rewrite Hr. rbind.
  rewrite (proj2 (Z.eqb_neq _ _)) by done.
  rewrite Hb. rbind. rewrite Hw. rbind. rewrite (proj2 Htest Hres).
  rewrite Hdata. unfold av_realloc. rewrite Hblk. rbind.
  change (negb (0 =? 0)) with false. cbv iota. rbind.
  by rewrite bool_decide_eq_false_2.
Qed.

(** X22.  av_buffer_realloc on a reference into the block of an
    AVBuffer that av_buffer_default_free frees.  With the size the
    reference has, nothing happens.  Otherwise, if av_realloc fails the
    function returns AVERROR(ENOMEM) and leaves reference and heap as
    they are.  A buffer that av_buffer_realloc made, that is not shared
    and not read-only, is resized by av_realloc: the reference and the
    AVBuffer stay, with the new size, and no structure is allocated.
    Every other buffer is copied: when av_buffer_create fails too the
    function returns AVERROR(ENOMEM) with nothing changed; otherwise the
    reference is replaced by a new one to a new AVBuffer, not shared and
    marked reallocatable, and the old reference is released: the old
    AVBuffer loses one count, and goes with its block when that was the
    last.  In both cases the first min(size, old size) bytes are the
    bytes the reference had. *)
Theorem av_buffer_realloc_keeps (h : Heap) (r : nat) (ref : AVBufferRef)
    (buf : AVBuffer) (d : nat) (off : Z) (blk : list Z) (size : Z)
    (a : option (bool * list Z)) (ok_buf ok_ref : bool) :
  refs h !! r = Some ref -> buffers h !! buffer ref = Some buf ->
  1 <= refcount buf <= INT_MAX ->
  free buf = av_buffer_default_free -> data buf = Some (d, 0) ->
  mem h !! d = Some blk ->
  rdata ref = Some (d, off) -> 0 <= off -> 0 <= rsize ref ->
  off + rsize ref <= Z.of_nat (length blk) ->
  0 <= size ->
  let result := av_buffer_realloc K h (Some r) size a ok_buf ok_ref in
  let kept :=
    take (Z.to_nat (Z.min size (rsize ref))) (drop (Z.to_nat off) blk) in
  (size = rsize ref -> result = Some (0, Some r, h)) /\
  (size <> rsize ref ->
   (a = None -> result = Some (AVERROR_ENOMEM K, Some r, h)) /\
   (forall moved junk, a = Some (moved, junk) ->
    (resizable K ref buf ->
     exists d' h' blk',
       result = Some (0, Some r, h') /\
       (d' = d \/ mem h !! d' = None /\ mem h' !! d = None) /\
       refs h'
       = <[r := {| buffer := buffer ref; rdata := Some (d', 0);
                   rsize := size |}]> (refs h) /\
       buffers h'
       = <[buffer ref := set_data buf (Some (d', 0)) size]> (buffers h) /\
       mem h' !! d' = Some blk' /\ Z.of_nat (length blk') = size /\
       read_bytes h' (Some (d', 0)) (Z.min size (rsize ref)) = Some kept /\
       (forall d0, d0 <> d -> d0 <> d' -> mem h' !! d0 = mem h !! d0)) /\
    (~ resizable K ref buf ->
     (ok_buf = false \/ ok_ref = false ->
      result = Some (AVERROR_ENOMEM K, Some r, h)) /\
     (ok_buf = true -> ok_ref = true ->
      exists n h' d' blk',
        result = Some (0, Some n, h') /\
        refs h !! n = None /\ refs h' !! r = None /\
        refs h' !! n
        = Some {| buffer := fresh (dom (buffers h)); rdata := Some (d', 0);
                  rsize := size |} /\
        buffers h !! fresh (dom (buffers h)) = None /\
        buffers h' !! fresh (dom (buffers h))
        = Some {| data := Some (d', 0); bsize := size; refcount := 1;
                  free := av_buffer_default_free; opaque := None;
                  flags := BUFFER_FLAG_REALLOCATABLE K |} /\
        mem h !! d' = None /\
        mem h' !! d' = Some blk' /\ Z.of_nat (length blk') = size /\
        read_bytes h' (Some (d', 0)) (Z.min size (rsize ref)) = Some kept /\
        (forall r0, r0 <> r -> r0 <> n -> refs h' !! r0 = refs h !! r0) /\
        (if decide (refcount buf = 1)
         then buffers h' !! buffer ref = None /\ mem h' !! d = None
         else buffers h' !! buffer ref
              = Some (set_refcount buf (refcount buf - 1))
              /\ mem h' !! d = Some blk) /\
        (forall d0, d0 <> d -> d0 <> d' -> mem h' !! d0 = mem h !! d0))))).
Proof.
  intros Hr Hb Hc Hfree Hdata Hblk Hrd Hoff Hsz Hin Hsize result kept.
  destruct (resizable_test ref buf h r Hr Hb) as (w & Hw & Htest).
  subst result. unfold av_buffer_realloc. rewrite Hr. rbind.
  split.
  { intros ->. by rewrite Z.eqb_refl. }
  intros Hne. rewrite (proj2 (Z.eqb_neq _ _)) by done.
  rewrite Hb. rbind. rewrite Hw. rbind.
  split.
  - intros ->.
    destruct (_ || _ || _).
    + by rewrite av_buffer_realloc_null_fail by (by left).
    + rewrite Hdata. unfold av_realloc. rewrite Hblk. rbind. done.
  - intros moved junk ->. split.
    + intros Hres.
      assert (off = 0) as ->.
      { destruct Hres as (_ & _ & _ & E). rewrite Hrd, Hdata in E.
        congruence. }
      rewrite (proj2 Htest Hres).
      rewrite Hdata. unfold av_realloc. rewrite Hblk. rbind.
      change (negb (0 =? 0)) with false. cbv iota. rbind.
      rewrite bool_decide_eq_false_2 by done.
      set (d' := if moved then fresh (dom (mem h)) else d).
      set (blk' := resize (Z.to_nat size) 0 (blk ++ junk)).
      assert (Hd' : d' = d \/ d' <> d /\ mem h !! d' = None).
      { subst d'. destruct moved; [right|by left].
        split; [|apply fresh_mem].
        intros E. pose proof (fresh_mem h) as F. rewrite E in F.
        congruence. }
      exists d'. eexists. exists blk'. split; [reflexivity|].
      cbn [mem refs buffers set_mem set_refs set_buffers].
      assert (L : Z.of_nat (length blk') = size)
        by (subst blk'; rewrite length_resize; lia).
      split.
      { destruct Hd' as [?|[Hdd ?]]; [by left|right]. split; [done|].
        by rewrite lookup_insert_ne, lookup_delete_eq. }
      do 2 (split; [done|]).
      split; [by rewrite lookup_insert_eq|]. split; [done|].
      split.
      { unfold read_bytes. cbn [mem set_mem set_refs set_buffers].
        rewrite lookup_insert_eq. rbind.
        destruct (Z.leb_spec 0 (Z.min size (rsize ref))); [|lia].
        destruct (Z.leb_spec (0 + Z.min size (rsize ref))
                    (Z.of_nat (length blk'))); [|lia].
        cbn [Z.leb andb Z.to_nat drop]. f_equal. subst kept blk'.
        change (Z.to_nat 0) with 0%nat. rewrite !drop_0.
        rewrite take_resize_le by lia.
        rewrite resize_app_le by lia. by rewrite resize_le by lia. }
      intros d0 H0 H1.
      by rewrite lookup_insert_ne, lookup_delete_ne.
    + intros Hres.
      destruct (_ || _ || _) eqn:Et; [|by destruct Hres; apply Htest].
      split.
      { intros Hf. by rewrite av_buffer_realloc_null_fail by (by right). }
      intros -> ->. rewrite av_buffer_realloc_null_new. rbind.
      set (n := fresh (dom (refs h))).
      set (b := fresh (dom (buffers h))).
      set (d' := fresh (dom (mem h))).
      assert (Hn : refs h !! n = None) by apply fresh_refs.
      assert (Hbn : buffers h !! b = None) by apply fresh_buffers.
      assert (Hdn : mem h !! d' = None) by apply fresh_mem.
      assert (Hrn : r <> n) by congruence.
      assert (Hbb : buffer ref <> b) by congruence.
      assert (Hdd : d <> d') by congruence.
      cbn [refs]. rewrite lookup_insert_eq. rbind. cbn [rdata].
      unfold memcpy. unfold read_bytes at 1. rewrite Hrd. cbn [mem].
      rewrite lookup_insert_ne by done. rewrite Hblk. rbind.
      destruct (Z.leb_spec 0 (Z.min size (rsize ref))); [|lia].
      destruct (Z.leb_spec 0 off); [|lia].
      destruct (Z.leb_spec (off + Z.min size (rsize ref))
                  (Z.of_nat (length blk))); [|lia].
      cbn [andb]. rbind. fold kept.
      assert (Lk : length kept = Z.to_nat (Z.min size (rsize ref))).
      { subst kept. rewrite length_take, length_drop. lia. }
      unfold write_bytes. cbn [mem]. rewrite lookup_insert_eq. rbind.
      rewrite length_resize.
      destruct (Z.leb_spec (0 + Z.of_nat (length kept))
                  (Z.of_nat (Z.to_nat size))); [|lia].
      change ((0 <=? 0) && true) with true. cbv iota. rbind.
      rewrite insert_insert_eq.
      unfold av_buffer_unref.
      cbn [refs buffers mem set_mem set_refs set_buffers].
      rewrite lookup_insert_ne by done. rewrite Hr. rbind.
      cbn [refs buffers mem set_mem set_refs set_buffers].
      rewrite lookup_insert_ne by done. rewrite Hb. rbind.
      rewrite int32_small by (unfold INT_MIN, INT_MAX in *; lia).
      set (blk' := list_inserts (Z.to_nat 0) kept
                     (resize (Z.to_nat size) 0 junk)).
      assert (L : Z.of_nat (length blk') = size).
      { subst blk'. rewrite length_inserts, length_resize. lia. }
      assert (Hkept : take (Z.to_nat (Z.min size (rsize ref))) blk' = kept).
      { subst blk'. change (Z.to_nat 0) with 0%nat. rewrite <- Lk.
        rewrite <- (take_drop (length kept) (resize _ _ _)).
        rewrite list_inserts_0_r
          by (rewrite length_take, length_resize; lia).
        by rewrite take_app_length. }
      assert (Hread : forall h1 : Heap, mem h1 !! d' = Some blk' ->
                read_bytes h1 (Some (d', 0)) (Z.min size (rsize ref))
                = Some kept).
      { intros h1 E. unfold read_bytes. rewrite E. rbind.
        destruct (Z.leb_spec 0 (Z.min size (rsize ref))); [|lia].
        destruct (Z.leb_spec (0 + Z.min size (rsize ref))
                    (Z.of_nat (length blk'))); [|lia].
        cbn [Z.leb andb]. change (Z.to_nat 0) with 0%nat.
        by rewrite drop_0, Hkept. }
      destruct (decide (refcount buf = 1)) as [E1|E1].
      * exists n. eexists. exists d', blk'. rewrite E1. change (1 - 1 =? 0) with true. cbv iota.
        rewrite Hfree, Hdata. unfold call_free, av_free.
        cbn [refs buffers mem set_mem set_refs set_buffers].
        rewrite bool_decide_eq_true_2
          by (rewrite lookup_insert_ne by done; by eexists).
        change ((0 =? 0) && true) with true. cbv iota. rbind.
        cbn [refs buffers mem set_mem set_refs set_buffers].
        split; [reflexivity|].
        cbn [refs buffers mem set_mem set_refs set_buffers].
        split; [done|]. split; [by rewrite lookup_delete_eq|].
        split; [by rewrite lookup_delete_ne, lookup_insert_eq|].
        split; [done|].
        split.
        { by rewrite lookup_delete_ne, lookup_insert_ne, lookup_insert_eq. }
        split; [done|].
        split; [by rewrite lookup_delete_ne, lookup_insert_eq|].
        split; [done|].
        split.
        { apply Hread. cbn [mem set_mem set_refs set_buffers].
          by rewrite lookup_delete_ne, lookup_insert_eq. }
        split.
        { intros r0 Hr0 Hr1. by rewrite lookup_delete_ne, lookup_insert_ne. }
        split.
        { split; by rewrite lookup_delete_eq. }
        intros d0 Hd0 Hd1. by rewrite lookup_delete_ne, lookup_insert_ne.
      * exists n. eexists. exists d', blk'.
        rewrite (proj2 (Z.eqb_neq (refcount buf - 1) 0)) by lia.
        rbind. split; [reflexivity|].
        cbn [refs buffers mem set_mem set_refs set_buffers].
        split; [done|]. split; [by rewrite lookup_delete_eq|].
        split; [by rewrite lookup_delete_ne, lookup_insert_eq|].
        split; [done|].
        split; [by rewrite lookup_insert_ne, lookup_insert_eq|].
        split; [done|].
        split; [by rewrite lookup_insert_eq|].
        split; [done|].
        split.
        { apply Hread. cbn [mem set_mem set_refs set_buffers].
          by rewrite lookup_insert_eq. }
        split.
        { intros r0 Hr0 Hr1. by rewrite lookup_delete_ne, lookup_insert_ne. }
        split.
        { split; [by rewrite lookup_insert_eq|].
          by rewrite lookup_insert_ne. }
        intros d0 Hd0 Hd1. by rewrite lookup_insert_ne.
Qed.

(** X23.  A buffer that av_buffer_realloc(NULL, size1) made is resized
    where it is.  The first call fails with AVERROR(ENOMEM) and an
    unchanged heap if one of its three allocations fails; otherwise it
    returns a new reference to size1 bytes.  A second call with another
    size then keeps the reference and its AVBuffer, allocates no
    structure, and leaves the first min(size1, size2) bytes as they
    were and the blocks of the heap before untouched; releasing the
    reference afterwards gives back the heap before the first call. *)
Theorem av_buffer_realloc_resize (h : Heap) (size1 size2 : Z)
    (a : option (bool * list Z)) (moved1 moved2 : bool)
    (junk1 junk2 : list Z) (ok_buf ok_ref ok_buf' ok_ref' : bool) :
  BUFFER_FLAG_REALLOCATABLE K <> 0 ->
  Z.land (BUFFER_FLAG_REALLOCATABLE K) (AV_BUFFER_FLAG_READONLY K) = 0 ->
  0 <= size1 -> 0 <= size2 -> size1 <> size2 ->
  (a = None \/ ok_buf = false \/ ok_ref = false ->
   av_buffer_realloc K h None size1 a ok_buf ok_ref
   = Some (AVERROR_ENOMEM K, None, h)) /\
  exists r h1 d1,
    av_buffer_realloc K h None size1 (Some (moved1, junk1)) true true
    = Some (0, Some r, h1) /\
    refs h !! r = None /\
    refs h1 !! r = Some {| buffer := fresh (dom (buffers h));
                           rdata := Some (d1, 0); rsize := size1 |} /\
    read_bytes h1 (Some (d1, 0)) size1
    = Some (resize (Z.to_nat size1) 0 junk1) /\
    av_buffer_is_writable K h1 r = Some 1 /\
    exists h2 d2,
      av_buffer_realloc K h1 (Some r) size2 (Some (moved2, junk2))
        ok_buf' ok_ref'
      = Some (0, Some r, h2) /\
      refs h2 !! r = Some {| buffer := fresh (dom (buffers h));
                             rdata := Some (d2, 0); rsize := size2 |} /\
      dom (refs h2) = dom (refs h1) /\
      dom (buffers h2) = dom (buffers h1) /\
      read_bytes h2 (Some (d2, 0)) (Z.min size1 size2)
      = Some (take (Z.to_nat (Z.min size1 size2))
                (resize (Z.to_nat size1) 0 junk1)) /\
      (forall d0 blk, mem h !! d0 = Some blk -> mem h2 !! d0 = Some blk) /\
      av_buffer_unref h2 (Some r) = Some (None, h).
Proof.
  intros Hflag Hro Hs1 Hs2 Hne. split.
  { apply av_buffer_realloc_null_fail. }
  change (av_buffer_realloc K h None size1 (Some (moved1, junk1)) true true)
    with (av_buffer_realloc_null K h size1 (Some (moved1, junk1)) true true).
  rewrite av_buffer_realloc_null_new.
  set (r := fresh (dom (refs h))).
  set (b := fresh (dom (buffers h))).
  set (d1 := fresh (dom (mem h))).
  set (buf := {| data := Some (d1, 0); bsize := size1; refcount := 1;
                 free := av_buffer_default_free; opaque := None;
                 flags := BUFFER_FLAG_REALLOCATABLE K |}).
  set (ref := {| buffer := b; rdata := Some (d1, 0); rsize := size1 |}).
  set (blk := resize (Z.to_nat size1) 0 junk1).
  set (h1 := {| buffers := <[b := buf]> (buffers h);
                refs := <[r := ref]> (refs h);
                mem := <[d1 := blk]> (mem h); freed := freed h |}).
  assert (Hr : refs h !! r = None) by apply fresh_refs.
  assert (Hb : buffers h !! b = None) by apply fresh_buffers.
  assert (Hd : mem h !! d1 = None) by apply fresh_mem.
  assert (L : length blk = Z.to_nat size1) by apply length_resize.
  exists r, h1, d1. split; [done|]. split; [done|].
  split; [by cbn; rewrite lookup_insert_eq|].
  split.
  { unfold read_bytes. cbn [mem h1]. rewrite lookup_insert_eq. rbind.
    destruct (Z.leb_spec 0 size1); [|lia].
    destruct (Z.leb_spec (0 + size1) (Z.of_nat (length blk))); [|lia].
    cbn [Z.leb andb]. change (Z.to_nat 0) with 0%nat.
    rewrite drop_0. f_equal. apply take_ge. lia. }
  split.
  { unfold av_buffer_is_writable. cbn [refs buffers h1].
    rewrite lookup_insert_eq. rbind. cbn [buffer ref].
    rewrite lookup_insert_eq. rbind. cbn [flags refcount buf].
    by rewrite Hro. }
  assert (Hres : resizable K ref buf).
  { unfold resizable. cbn [flags refcount data rdata buf ref].
    by rewrite Z.land_diag. }
  rewrite (av_buffer_realloc_resizable h1 r ref buf d1 blk size2 moved2
             junk2 ok_buf' ok_ref');
    [|by cbn; rewrite lookup_insert_eq|by cbn; rewrite lookup_insert_eq
     |done|by cbn; rewrite lookup_insert_eq|by cbn; lia|done].
  cbv zeta.
  set (d2 := if moved2 then fresh (dom (mem h1)) else d1).
  assert (Hd2 : mem h !! d2 = None).
  { subst d2. destruct moved2; [|done].
    pose proof (fresh_mem h1) as F. revert F.
    generalize (fresh (dom (mem h1))). intros d0. cbn [mem h1].
    destruct (decide (d0 = d1)) as [->|E]; [done|].
    by rewrite lookup_insert_ne. }
  eexists. exists d2. split; [reflexivity|].
  cbn [refs buffers mem h1 set_mem set_refs set_buffers buffer ref].
  split; [by rewrite lookup_insert_eq|].
  split; [by rewrite insert_insert_eq, !dom_insert_L|].
  split; [by rewrite insert_insert_eq, !dom_insert_L|].
  rewrite (delete_insert_id (mem h) d1) by done.
  split.
  { unfold read_bytes.
    cbn [refs buffers mem h1 set_mem set_refs set_buffers].
    rewrite lookup_insert_eq. rbind. rewrite length_resize.
    destruct (Z.leb_spec 0 (Z.min size1 size2)); [|lia].
    destruct (Z.leb_spec (0 + Z.min size1 size2)
                (Z.of_nat (Z.to_nat size2))); [|lia].
    cbn [Z.leb andb]. change (Z.to_nat 0) with 0%nat.
    rewrite drop_0. f_equal.
    rewrite take_resize_le by lia.
    rewrite resize_app_le by lia. by rewrite resize_le by lia. }
  split.
  { intros d0 blk0 E. rewrite lookup_insert_ne by congruence. done. }
  unfold av_buffer_unref.
  cbn [refs buffers mem h1 set_mem set_refs set_buffers].
  rewrite lookup_insert_eq. rbind.
  cbn [refs buffers mem h1 set_mem set_refs set_buffers buffer].
  rewrite lookup_insert_eq. rbind.
  cbn [refcount free opaque data set_data buf].
  change (int32 (1 - 1)) with 0. change (0 =? 0) with true. cbv iota.
  unfold call_free, av_free.
  cbn [refs buffers mem h1 set_mem set_refs set_buffers].
  rewrite bool_decide_eq_true_2 by (rewrite lookup_insert_eq; by eexists).
  change ((0 =? 0) && true) with true. cbv iota. rbind.
  do 2 f_equal. apply heap_eq;
    cbn [refs buffers mem freed h1 set_mem set_refs set_buffers].
  - rewrite !delete_insert_eq. by apply delete_id.
  - rewrite !delete_insert_eq. by apply delete_id.
  - rewrite delete_insert_eq. by apply delete_id.
  - done.
Qed.

End BufferRealloc.

Lemma av_buffer_realloc_keeps_witness :
  exists n h' d',
    Buffer.av_buffer_realloc Buffer.sample_constants Buffer.sample_heap
      (Some Buffer.sample_ref) 6 (Some (true, [9; 9])) true true
    = Some (0, Some n, h') /\
    Buffer.refs h' !! Buffer.sample_ref = None /\
    Buffer.read_bytes h' (Some (d', 0)) 4 = Some [1; 2; 3; 4].
Proof.
  destruct (av_buffer_realloc_keeps Buffer.sample_constants
              Buffer.sample_heap Buffer.sample_ref
              {| Buffer.buffer := 0; Buffer.rdata := Some (0%nat, 0);
                 Buffer.rsize := 4 |}
              {| Buffer.data := Some (0%nat, 0); Buffer.bsize := 4;
                 Buffer.refcount := 1;
                 Buffer.free := Buffer.av_buffer_default_free;
                 Buffer.opaque := None; Buffer.flags := 0 |}
              0%nat 0 [1; 2; 3; 4] 6 (Some (true, [9; 9])) true true)
    as [_ H].
  - vm_compute. reflexivity.
  - vm_compute. reflexivity.
  - vm_compute. split; congruence.
  - reflexivity.
  - reflexivity.
  - vm_compute. reflexivity.
  - reflexivity.
  - lia.
  - cbn. lia.
  - cbn. lia.
  - lia.
  - destruct H as [_ H]; [cbn; lia|].
    destruct (H true [9; 9] eq_refl) as [_ Hcopy].
    destruct Hcopy as [_ Hcopy].
    { intros (Hflag & _). vm_compute in Hflag. congruence. }
    destruct (Hcopy eq_refl eq_refl)
      as (n & h' & d' & blk' & E & _ & Hgone & _ & _ & _ & _ & _ & _
          & Hread & _).
    exists n, h', d'. split; [exact E|]. split; [exact Hgone|].
    exact Hread.
Defined.

Lemma av_buffer_realloc_resize_witness :
  exists r h1 h2,
    Buffer.av_buffer_realloc Buffer.sample_constants Buffer.sample_heap
      None 2 (Some (true, [7; 8])) true true = Some (0, Some r, h1) /\
    Buffer.av_buffer_realloc Buffer.sample_constants h1 (Some r) 5
      (Some (false, [9])) false false = Some (0, Some r, h2) /\
    Buffer.av_buffer_unref h2 (Some r) = Some (None, Buffer.sample_heap).
Proof.
  destruct (av_buffer_realloc_resize Buffer.sample_constants
              Buffer.sample_heap 2 5 None true false [7; 8] [9]
              true true false false)
    as (_ & r & h1 & d1 & E1 & _ & _ & _ & _ & h2 & d2 & E2 & _ & _ & _
        & _ & _ & Hback).
  - vm_compute. congruence.
  - reflexivity.
  - lia.
  - lia.
  - lia.
  - exists r, h1, h2. split; [exact E1|]. split; [exact E2|exact Hback].
Defined.

(** ** The predictors of a macroblock *)

Section IntraTables.
Import Intra.

Lemma rd_wr_keep a i j v : rd a j = v -> rd (wr a i v) j = v.
Proof.
  intros E. destruct (decide (i = j)) as [->|Hne]; [|by rewrite rd_wr_ne].
  destruct (decide (0 <= j < Z.of_nat (length a))); [by apply rd_wr_eq|].
  rewrite <- E. unfold rd, wr.
  destruct (Z.ltb_spec j 0); [done|].
  by rewrite list_insert_ge by lia.
Qed.

Lemma length_memset0 a off n : length (memset0 a off n) = length a.
Proof. apply (length_fold_wr (fun k => off + k) (fun _ => 0)). Qed.

Lemma rd_memset0_in a off n j :
  off <= j < off + n -> 0 <= j < Z.of_nat (length a) ->
  rd (memset0 a off n) j = 0.
Proof.
  intros Hj Hr. unfold memset0.
  replace j with (off + (j - off)) by lia.
  apply (fold_wr_at (fun k => off + k) (fun _ => 0)).
  - apply elem_of_seqZ. lia.
  - lia.
  - done.
Qed.

Lemma rd_memset0_out a off n j :
  ~ off <= j < off + n -> rd (memset0 a off n) j = rd a j.
Proof.
  intros Hj. unfold memset0.
  apply (fold_wr_other (fun k => off + k) (fun _ => 0)).
  intros Hin. apply list_elem_of_fmap in Hin as (k & -> & Hk).
  apply elem_of_seqZ in Hk. lia.
Qed.

Lemma rd_memset0_keep a off n j :
  rd a j = 0 -> rd (memset0 a off n) j = 0.
Proof.
  intros E. unfold memset0. revert a E.
  induction (seqZ 0 n) as [|k ks IH]; intros a E; cbn [fold_left]; [done|].
  apply IH. by apply rd_wr_keep.
Qed.

Variables w h : Z.
Hypothesis Hw : 1 <= w.
Hypothesis Hh : 1 <= h.
Hypothesis Hint :
  (2 * w + 1) * (2 * h + 1) + 2 * ((w + 1) * (h + 1)) <= INT_MAX.

(** The block indices of a macroblock in exact arithmetic. *)
Lemma mb_blocks_exact s x y :
  laid_out w h s -> 0 <= x < w -> 0 <= y < h ->
  mb_blocks s h x y
  = [ 2 * x + 2 * y * (2 * w + 1);
      2 * x + 2 * y * (2 * w + 1) + 1;
      2 * x + 2 * y * (2 * w + 1) + (2 * w + 1);
      2 * x + 2 * y * (2 * w + 1) + (2 * w + 1) + 1;
      (2 * w + 1) * (2 * h) + (w + 1) + (x + y * (w + 1));
      (2 * w + 1) * (2 * h) + (w + 1) + (w + 1) * (h + 1)
      + (x + y * (w + 1)) ].
Proof.
  intros L Hx Hy. unfold mb_blocks.
  rewrite (laid_b8_stride w h s L), (laid_mb_stride w h s L).
  rewrite ff_init_block_index_exact by (done || lia).
  repeat (apply (f_equal2 cons); [lia|]). done.
Qed.

(** The offsets of dc_val[0..2] and ac_val[0..2]. *)
Lemma offsets_exact :
  Geometry.ac_val_offsets (2 * w + 1) (w + 1) h
  = [ 2 * w + 1 + 1;
      (2 * w + 1) * (2 * h + 1) + (w + 1) + 1;
      (2 * w + 1) * (2 * h + 1) + (w + 1) + 1 + (w + 1) * (h + 1) ].
Proof.
  unfold Geometry.ac_val_offsets.
  destruct (sizes_exact w h Hw Hh Hint) as (-> & -> & _). done.
Qed.

(** ff_clean_intra_table_entries in exact arithmetic. *)
Lemma clean_tables s :
  laid_out w h s -> 0 <= mb_x s < w -> 0 <= mb_y s < h ->
  block_index s = mb_blocks s h (mb_x s) (mb_y s) ->
  let p := luma_entry w (mb_x s) (mb_y s) in
  let c := chroma_entry w h (mb_x s) (mb_y s) in
  let c' := c + (w + 1) * (h + 1) in
  ff_clean_intra_table_entries s
  = set_tables s
      (wr (wr (wr (wr (wr (wr (dc_val_base s)
         (p + (2 * w + 1) + 1) 1024) (p + (2 * w + 1)) 1024) (p + 1) 1024)
         p 1024) c' 1024) c 1024)
      (memset0 (memset0 (memset0 (memset0 (ac_val_base s)
         (16 * p) 32) (16 * (p + (2 * w + 1))) 32) (16 * c) 16)
         (16 * c') 16)
      (if msmpeg4_version s >=? 3
       then wr (wr (wr (wr (coded_block_base s)
              (p + (2 * w + 1) + 1) 0) (p + (2 * w + 1)) 0) (p + 1) 0) p 0
       else coded_block_base s)
      (wr (mbintra_table s) (mb_x s + mb_y s * (w + 1)) 0).
Proof.
  intros L Hx Hy Hbi p c c'.
  assert (Hwh : w * 1 <= w * h) by (apply Z.mul_le_mono_nonneg_l; lia).
  assert (Hwy : 0 <= w * mb_y s <= w * (h - 1)).
  { split; [apply Z.mul_nonneg_nonneg; lia|].
    apply Z.mul_le_mono_nonneg_l; lia. }
  unfold ff_clean_intra_table_entries.
  rewrite Hbi, (mb_blocks_exact s) by done.
  rewrite (laid_dc_val w h s L), (laid_ac_val w h s L),
    (laid_coded_block w h s L).
  rewrite (laid_b8_stride w h s L), (laid_mb_stride w h s L).
  rewrite offsets_exact.
  cbv [rd Z.ltb Z.compare Z.to_nat Pos.to_nat Pos.iter_op Nat.add lookup
       list_lookup default from_option id].
  unfold INT_MAX in Hint.
  rewrite (imul_exact (mb_y s)) by (unfold INT_MIN, INT_MAX; lia).
  rewrite (iadd_exact (2 * mb_x s + 2 * mb_y s * (2 * w + 1)) 1),
    (iadd_exact (mb_x s))
    by (unfold INT_MIN, INT_MAX; lia).
  rewrite !iadd_exact by (unfold INT_MIN, INT_MAX; lia).
  subst p c c'. unfold luma_entry, chroma_entry.
  f_equal; try (destruct (_ >=? _); [|done]); repeat (f_equal; try lia).
Qed.

(** The block indices of a macroblock address its entries. *)
Lemma block_entries s x y :
  laid_out w h s -> 0 <= x < w -> 0 <= y < h ->
  (fun i => rd (dc_val s) 0 + i) <$> mb_blocks s h x y = mb_entries w h x y
  /\ (fun i => rd (ac_val s) 0 + i) <$> mb_blocks s h x y
     = mb_entries w h x y
  /\ (fun i => coded_block s + i) <$> mb_blocks s h x y = mb_entries w h x y.
Proof.
  intros L Hx Hy. rewrite (mb_blocks_exact s) by done.
  rewrite (laid_dc_val w h s L), (laid_ac_val w h s L),
    (laid_coded_block w h s L).
  rewrite (laid_b8_stride w h s L), (laid_mb_stride w h s L).
  rewrite offsets_exact.
  cbv [rd Z.ltb Z.compare Z.to_nat Pos.to_nat Pos.iter_op Nat.add lookup
       list_lookup default from_option id].
  unfold mb_entries, luma_entry, chroma_entry. cbn [fmap list_fmap].
  repeat split; repeat (apply (f_equal2 cons); [lia|]); done.
Qed.

Lemma rd_fmap_blocks (g : Z -> Z) (bi : list Z) i :
  0 <= i < Z.of_nat (length bi) -> rd (g <$> bi) i = g (rd bi i).
Proof.
  intros Hi. unfold rd. destruct (Z.ltb_spec i 0); [lia|].
  rewrite list_lookup_fmap.
  destruct (bi !! Z.to_nat i) eqn:E; [done|].
  apply lookup_ge_None in E. lia.
Qed.

Lemma length_mb_blocks s x y : length (mb_blocks s h x y) = 6%nat.
Proof. done. Qed.

(** The entries lie in the arrays: the luma entries in the first y_size
    places, the chroma entries in the two parts of c_size places after
    them. *)
Lemma mb_entries_range x y :
  0 <= x < w -> 0 <= y < h ->
  let ysz := (2 * w + 1) * (2 * h + 1) in
  let csz := (w + 1) * (h + 1) in
  Forall (fun e => 0 <= e < ysz) (take 4 (mb_entries w h x y)) /\
  ysz <= rd (mb_entries w h x y) 4 < ysz + csz /\
  ysz + csz <= rd (mb_entries w h x y) 5 < ysz + 2 * csz.
Proof.
  intros Hx Hy.
  assert (Hwy : 0 <= w * y <= w * (h - 1)).
  { split; [apply Z.mul_nonneg_nonneg; lia|].
    apply Z.mul_le_mono_nonneg_l; lia. }
  unfold mb_entries, luma_entry, chroma_entry. cbn [take].
  cbv [rd Z.ltb Z.compare Z.to_nat Pos.to_nat Pos.iter_op Nat.add lookup
       list_lookup default from_option id].
  split; [|lia]. repeat (apply Forall_cons; split; [lia|]). done.
Qed.

Lemma mb_entries_bound x y e :
  0 <= x < w -> 0 <= y < h -> e ∈ mb_entries w h x y ->
  0 <= e < (2 * w + 1) * (2 * h + 1) + 2 * ((w + 1) * (h + 1)) /\
  (e ∈ take 4 (mb_entries w h x y) -> e < (2 * w + 1) * (2 * h + 1)).
Proof.
  intros Hx Hy He.
  pose proof (mb_entries_range x y Hx Hy) as Hr.
  cbv zeta in Hr. unfold mb_entries in Hr, He |- *.
  cbv zeta in He |- *. cbn [take] in Hr |- *.
  cbv [rd Z.ltb Z.compare Z.to_nat Pos.to_nat Pos.iter_op Nat.add lookup
       list_lookup default from_option id] in Hr.
  rewrite !Forall_cons in Hr.
  destruct Hr as ((H0 & H1 & H2 & H3 & _) & Hc & Hc').
  rewrite !elem_of_cons, elem_of_nil in He.
  rewrite !elem_of_cons, elem_of_nil.
  assert (Hwh : 0 <= w * h) by (apply Z.mul_nonneg_nonneg; lia).
  split.
  - destruct He as [->|[->|[->|[->|[->|[->|[]]]]]]]; lia.
  - intros [->|[->|[->|[->|[]]]]]; lia.
Qed.

Lemma base_unique b a r a' r' :
  0 <= a < b -> 0 <= a' < b -> a + r * b = a' + r' * b -> a = a' /\ r = r'.
Proof.
  intros Ha Ha' E.
  assert (r = r') as ->; [|lia].
  destruct (Z.lt_trichotomy r r') as [Hlt|[->|Hlt]]; [|done|]; nia.
Qed.

Lemma elem_of_mb_entries x y e :
  e ∈ mb_entries w h x y <->
  (exists dx dy, 0 <= dx <= 1 /\ 0 <= dy <= 1 /\
     e = luma_entry w x y + dx + dy * (2 * w + 1)) \/
  e = chroma_entry w h x y \/
  e = chroma_entry w h x y + (w + 1) * (h + 1).
Proof.
  unfold mb_entries. rewrite !elem_of_cons, elem_of_nil. split.
  - intros H. destruct H as [->|[->|[->|[->|[->|[->|H]]]]]]; [| | | | | |done].
    + left. exists 0, 0. lia.
    + left. exists 1, 0. lia.
    + left. exists 0, 1. lia.
    + left. exists 1, 1. lia.
    + tauto.
    + tauto.
  - intros [(dx & dy & Hdx & Hdy & ->)|[-> | ->]]; [|tauto..].
    assert (dx = 0 \/ dx = 1) as [-> | ->] by lia;
      assert (dy = 0 \/ dy = 1) as [-> | ->] by lia.
    + left. lia.
    + right. right. left. lia.
    + right. left. lia.
    + right. right. right. left. lia.
Qed.

(** Different macroblocks have different entries. *)
Lemma mb_entries_disjoint x y x' y' e :
  0 <= x < w -> 0 <= y < h -> 0 <= x' < w -> 0 <= y' < h ->
  e ∈ mb_entries w h x y -> e ∈ mb_entries w h x' y' -> x = x' /\ y = y'.
Proof.
  intros Hx Hy Hx' Hy' He He'.
  assert (Hwy : 0 <= w * y <= w * (h - 1)).
  { split; [apply Z.mul_nonneg_nonneg; lia|].
    apply Z.mul_le_mono_nonneg_l; lia. }
  assert (Hwy' : 0 <= w * y' <= w * (h - 1)).
  { split; [apply Z.mul_nonneg_nonneg; lia|].
    apply Z.mul_le_mono_nonneg_l; lia. }
  apply elem_of_mb_entries in He, He'.
  unfold luma_entry, chroma_entry in He, He'.
  destruct He as [(dx & dy & Hdx & Hdy & ->)|[-> | ->]];
    destruct He' as [(dx' & dy' & Hdx' & Hdy' & E)|[E|E]].
  - destruct (base_unique (2 * w + 1) (2 * x + dx) (2 * y + dy)
                (2 * x' + dx') (2 * y' + dy')); lia.
  - assert (dy = 0 \/ dy = 1) as [-> | ->] by lia; lia.
  - assert (dy = 0 \/ dy = 1) as [-> | ->] by lia; lia.
  - assert (dy' = 0 \/ dy' = 1) as [-> | ->] by lia; lia.
  - destruct (base_unique (w + 1) x y x' y'); lia.
  - lia.
  - assert (dy' = 0 \/ dy' = 1) as [-> | ->] by lia; lia.
  - lia.
  - destruct (base_unique (w + 1) x y x' y'); lia.
Qed.

Lemma laid_out_lengths s :
  laid_out w h s ->
  Z.of_nat (length (dc_val_base s))
  = (2 * w + 1) * (2 * h + 1) + 2 * ((w + 1) * (h + 1)) /\
  Z.of_nat (length (ac_val_base s))
  = 16 * ((2 * w + 1) * (2 * h + 1) + 2 * ((w + 1) * (h + 1))) /\
  Z.of_nat (length (coded_block_base s)) = (2 * w + 1) * (2 * h + 1) /\
  Z.of_nat (length (mbintra_table s)) = h * (w + 1).
Proof.
  intros L.
  rewrite (laid_dc_length w h s L), (laid_ac_length w h s L),
    (laid_coded_length w h s L), (laid_mbintra_length w h s L).
  rewrite (laid_b8_stride w h s L), (laid_mb_stride w h s L).
  by destruct (sizes_exact w h Hw Hh Hint) as (-> & _ & ->).
Qed.

Ltac pick := first [ lia | left; lia | right; pick ].

(** Each block index of a macroblock addresses one of its entries, the
    same in the three arrays. *)
Lemma block_entry_in s x y i :
  laid_out w h s -> 0 <= x < w -> 0 <= y < h -> 0 <= i < 6 ->
  let e := rd (dc_val s) 0 + rd (mb_blocks s h x y) i in
  e ∈ mb_entries w h x y /\
  rd (ac_val s) 0 + rd (mb_blocks s h x y) i = e /\
  (i < 4 -> coded_block s + rd (mb_blocks s h x y) i = e
            /\ e ∈ take 4 (mb_entries w h x y)).
Proof.
  intros L Hx Hy Hi. rewrite (mb_blocks_exact s) by done.
  rewrite (laid_dc_val w h s L), (laid_ac_val w h s L),
    (laid_coded_block w h s L).
  rewrite (laid_b8_stride w h s L), (laid_mb_stride w h s L).
  rewrite offsets_exact.
  unfold mb_entries, luma_entry, chroma_entry. cbn [take]. cbv zeta.
  rewrite !elem_of_cons, !elem_of_nil.
  assert (i = 0 \/ i = 1 \/ i = 2 \/ i = 3 \/ i = 4 \/ i = 5)
    as [->|[->|[->|[->|[->| ->]]]]] by lia;
    cbv [rd Z.ltb Z.compare Z.to_nat Pos.to_nat Pos.iter_op Nat.add lookup
         list_lookup default from_option id];
    (split; [pick|]); (split; [lia|]); intros Hi4; try lia;
    (split; [lia|pick]).
Qed.

Section Clean.

Variable s : MpegEncContext.
Hypothesis L : laid_out w h s.
Hypothesis Hx : 0 <= mb_x s < w.
Hypothesis Hy : 0 <= mb_y s < h.
Hypothesis Hbi : block_index s = mb_blocks s h (mb_x s) (mb_y s).

Lemma clean_dc j :
  rd (dc_val_base (ff_clean_intra_table_entries s)) j
  = if decide (j ∈ mb_entries w h (mb_x s) (mb_y s)) then 1024
    else rd (dc_val_base s) j.
Proof using All.
  rewrite clean_tables by done. cbv zeta. cbn [dc_val_base set_tables].
  destruct (laid_out_lengths s L) as (Ldc & _).
  pose proof (mb_entries_range (mb_x s) (mb_y s) Hx Hy) as Hr.
  cbv zeta in Hr. unfold mb_entries in Hr |- *. cbn [take] in Hr.
  cbv [rd Z.ltb Z.compare Z.to_nat Pos.to_nat Pos.iter_op Nat.add lookup
       list_lookup default from_option id] in Hr.
  rewrite !Forall_cons in Hr.
  destruct Hr as ((H0 & H1 & H2 & H3 & _) & Hc & Hc').
  destruct (decide _) as [Hin|Hout].
  - rewrite !elem_of_cons, elem_of_nil in Hin.
    destruct Hin as [->|[->|[->|[->|[->|[->|[]]]]]]];
      repeat first [ apply rd_wr_eq; rewrite ?length_wr; lia
                   | apply rd_wr_keep ].
  - rewrite !not_elem_of_cons in Hout.
    destruct Hout as (? & ? & ? & ? & ? & ? & _).
    by rewrite !rd_wr_ne by congruence.
Qed.

Lemma clean_cb j :
  rd (coded_block_base (ff_clean_intra_table_entries s)) j
  = if decide (3 <= msmpeg4_version s
               /\ j ∈ take 4 (mb_entries w h (mb_x s) (mb_y s)))
    then 0 else rd (coded_block_base s) j.
Proof using All.
  rewrite clean_tables by done. cbv zeta.
  cbn [coded_block_base set_tables].
  destruct (laid_out_lengths s L) as (_ & _ & Lcb & _).
  pose proof (mb_entries_range (mb_x s) (mb_y s) Hx Hy) as Hr.
  cbv zeta in Hr. unfold mb_entries in Hr |- *. cbn [take] in Hr |- *.
  rewrite !Forall_cons in Hr.
  destruct Hr as ((H0 & H1 & H2 & H3 & _) & _).
  destruct (Z.geb_spec (msmpeg4_version s) 3) as [Hv|Hv].
  2:{ destruct (decide _) as [[? _]|_]; [lia|done]. }
  destruct (decide _) as [[_ Hin]|Hout].
  - rewrite !elem_of_cons, elem_of_nil in Hin.
    destruct Hin as [->|[->|[->|[->|[]]]]];
      repeat first [ apply rd_wr_eq; rewrite ?length_wr; lia
                   | apply rd_wr_keep ].
  - assert (Hout' : j ∉ [luma_entry w (mb_x s) (mb_y s);
                         luma_entry w (mb_x s) (mb_y s) + 1;
                         luma_entry w (mb_x s) (mb_y s) + (2 * w + 1);
                         luma_entry w (mb_x s) (mb_y s) + (2 * w + 1) + 1])
      by tauto.
    rewrite !not_elem_of_cons in Hout'.
    destruct Hout' as (? & ? & ? & ? & _).
    by rewrite !rd_wr_ne by congruence.
Qed.

Lemma clean_ac e k :
  0 <= k < 16 ->
  rd (ac_val_base (ff_clean_intra_table_entries s)) (16 * e + k)
  = if decide (e ∈ mb_entries w h (mb_x s) (mb_y s)) then 0
    else rd (ac_val_base s) (16 * e + k).
Proof using All.
  intros Hk. rewrite clean_tables by done. cbv zeta.
  cbn [ac_val_base set_tables].
  destruct (laid_out_lengths s L) as (_ & Lac & _).
  pose proof (mb_entries_range (mb_x s) (mb_y s) Hx Hy) as Hr.
  cbv zeta in Hr. unfold mb_entries in Hr |- *. cbn [take] in Hr.
  cbv [rd Z.ltb Z.compare Z.to_nat Pos.to_nat Pos.iter_op Nat.add lookup
       list_lookup default from_option id] in Hr.
  rewrite !Forall_cons in Hr.
  destruct Hr as ((H0 & H1 & H2 & H3 & _) & Hc & Hc').
  destruct (decide _) as [Hin|Hout].
  - rewrite !elem_of_cons, elem_of_nil in Hin.
    destruct Hin as [->|[->|[->|[->|[->|[->|[]]]]]]];
      repeat first [ apply rd_memset0_in; rewrite ?length_memset0; lia
                   | apply rd_memset0_keep ].
  - rewrite !not_elem_of_cons in Hout.
    destruct Hout as (? & ? & ? & ? & ? & ? & _).
    by rewrite !rd_memset0_out by lia.
Qed.

Lemma clean_mbintra j :
  rd (mbintra_table (ff_clean_intra_table_entries s)) j
  = if decide (j = mb_x s + mb_y s * (w + 1)) then 0
    else rd (mbintra_table s) j.
Proof using All.
  rewrite clean_tables by done. cbv zeta.
  cbn [mbintra_table set_tables].
  destruct (laid_out_lengths s L) as (_ & _ & _ & Lmb).
  assert (Hwy : 0 <= w * mb_y s <= w * (h - 1)).
  { split; [apply Z.mul_nonneg_nonneg; lia|].
    apply Z.mul_le_mono_nonneg_l; lia. }
  destruct (decide _) as [->|Hne].
  - apply rd_wr_eq. lia.
  - by rewrite rd_wr_ne.
Qed.

Lemma clean_laid_out : laid_out w h (ff_clean_intra_table_entries s).
Proof using All.
  rewrite clean_tables by done. cbv zeta.
  destruct L. split; cbn [set_tables b8_stride mb_stride dc_val ac_val
    coded_block dc_val_base ac_val_base coded_block_base mbintra_table];
    rewrite ?length_wr, ?length_memset0; try done.
  destruct (_ >=? _); by rewrite ?length_wr.
Qed.

(** The predictors of the macroblock are reset. *)
Lemma clean_reset :
  predictors_reset (ff_clean_intra_table_entries s)
    (mb_blocks s h (mb_x s) (mb_y s)).
Proof using All.
  intros i Hi.
  destruct (block_entry_in s (mb_x s) (mb_y s) i L Hx Hy Hi)
    as (Hin & Eac & Hcb).
  unfold dc_at, ac_at, coded_block_at.
  change (dc_val (ff_clean_intra_table_entries s)) with (dc_val s).
  change (ac_val (ff_clean_intra_table_entries s)) with (ac_val s).
  change (coded_block (ff_clean_intra_table_entries s))
    with (coded_block s).
  change (msmpeg4_version (ff_clean_intra_table_entries s))
    with (msmpeg4_version s).
  split; [|split].
  - rewrite clean_dc. by rewrite decide_True.
  - intros k Hk. rewrite Eac, clean_ac by done. by rewrite decide_True.
  - intros Hi4 Hv. destruct (Hcb Hi4) as [-> Hin4].
    rewrite clean_cb. by rewrite decide_True.
Qed.

(** The predictors of the other macroblocks are not touched. *)
Lemma clean_other x y :
  0 <= x < w -> 0 <= y < h -> (x, y) <> (mb_x s, mb_y s) ->
  same_predictors s (ff_clean_intra_table_entries s) (mb_blocks s h x y) /\
  rd (mbintra_table (ff_clean_intra_table_entries s)) (x + y * (w + 1))
  = rd (mbintra_table s) (x + y * (w + 1)).
Proof using All.
  intros Hx' Hy' Hne. split.
  - intros i Hi.
    destruct (block_entry_in s x y i L Hx' Hy' Hi) as (Hin & Eac & Hcb).
    assert (Hout : rd (dc_val s) 0 + rd (mb_blocks s h x y) i
                   ∉ mb_entries w h (mb_x s) (mb_y s)).
    { intros Hin'.
      destruct (mb_entries_disjoint x y (mb_x s) (mb_y s) _ Hx' Hy' Hx Hy
                  Hin Hin'). congruence. }
    unfold dc_at, ac_at, coded_block_at.
    change (dc_val (ff_clean_intra_table_entries s)) with (dc_val s).
    change (ac_val (ff_clean_intra_table_entries s)) with (ac_val s).
    change (coded_block (ff_clean_intra_table_entries s))
      with (coded_block s).
    split; [|split].
    + rewrite clean_dc. by rewrite decide_False.
    + intros k Hk. rewrite Eac, clean_ac by done. by rewrite decide_False.
    + intros Hi4. destruct (Hcb Hi4) as [-> _].
      rewrite clean_cb. rewrite decide_False; [done|].
      intros [_ Hin4]. apply Hout. by apply (subseteq_take 4).
  - rewrite clean_mbintra. rewrite decide_False; [done|].
    intros E. destruct (base_unique (w + 1) x y (mb_x s) (mb_y s));
      [lia..|congruence].
Qed.

End Clean.

(** X24.  ff_clean_intra_table_entries in a picture of w by h
    macroblocks whose tables are laid out as init_context_frame and
    init_duplicate_context lay them out, at a macroblock of the picture,
    block_index holding the block indices of that macroblock.  At each
    of the six block indices the entry of dc_val[0] becomes 1024 and the
    row of ac_val[0] becomes 0 (each memset of 32 coefficients clears
    two rows), at the four luma indices the entry of coded_block becomes
    0 when msmpeg4_version >= 3, and the entry of the macroblock in
    mbintra_table becomes 0.  All these entries lie inside their arrays,
    and no other entry of the four arrays changes. *)
Theorem ff_clean_intra_table_entries_resets s :
  laid_out w h s -> 0 <= mb_x s < w -> 0 <= mb_y s < h ->
  block_index s = mb_blocks s h (mb_x s) (mb_y s) ->
  let s' := ff_clean_intra_table_entries s in
  let bi := block_index s in
  let mb_xy := mb_x s + mb_y s * mb_stride s in
  predictors_reset s' bi /\
  rd (mbintra_table s') mb_xy = 0 /\
  (forall i, 0 <= i < 6 ->
     0 <= rd (dc_val s) 0 + rd bi i < Z.of_nat (length (dc_val_base s)) /\
     0 <= 16 * (rd (ac_val s) 0 + rd bi i) /\
     16 * (rd (ac_val s) 0 + rd bi i) + 16
     <= Z.of_nat (length (ac_val_base s)) /\
     (i < 4 ->
      0 <= coded_block s + rd bi i
      < Z.of_nat (length (coded_block_base s)))) /\
  0 <= mb_xy < Z.of_nat (length (mbintra_table s)) /\
  (forall j, j ∉ (fun i => rd (dc_val s) 0 + i) <$> bi ->
     rd (dc_val_base s') j = rd (dc_val_base s) j) /\
  (forall e k, 0 <= k < 16 -> e ∉ (fun i => rd (ac_val s) 0 + i) <$> bi ->
     rd (ac_val_base s') (16 * e + k) = rd (ac_val_base s) (16 * e + k)) /\
  (forall j,
     msmpeg4_version s < 3
     \/ j ∉ (fun i => coded_block s + i) <$> take 4 bi ->
     rd (coded_block_base s') j = rd (coded_block_base s) j) /\
  (forall j, j <> mb_xy ->
     rd (mbintra_table s') j = rd (mbintra_table s) j) /\
  laid_out w h s'.
Proof.
  intros L Hx Hy Hbi s' bi mb_xy. subst s' bi mb_xy.
  destruct (block_entries s (mb_x s) (mb_y s) L Hx Hy) as (Edc & Eac & Ecb).
  destruct (laid_out_lengths s L) as (Ldc & Lac & Lcb & Lmb).
  rewrite (laid_mb_stride w h s L). rewrite Hbi.
  split; [by apply clean_reset|].
  split; [by rewrite clean_mbintra, decide_True|].
  split.
  { intros i Hi.
    destruct (block_entry_in s (mb_x s) (mb_y s) i L Hx Hy Hi)
      as (Hin & E & Hcb).
    destruct (mb_entries_bound _ _ _ Hx Hy Hin) as [Hb Hb4].
    rewrite E, Ldc, Lac, Lcb.
    split; [lia|]. split; [lia|]. split; [lia|].
    intros Hi4. destruct (Hcb Hi4) as [-> Hin4].
    specialize (Hb4 Hin4). lia. }
  split.
  { assert (Hwy : 0 <= w * mb_y s <= w * (h - 1)).
    { split; [apply Z.mul_nonneg_nonneg; lia|].
      apply Z.mul_le_mono_nonneg_l; lia. }
    lia. }
  split.
  { intros j Hj. rewrite Edc in Hj. by rewrite clean_dc, decide_False. }
  split.
  { intros e k Hk He. rewrite Eac in He.
    by rewrite clean_ac, decide_False. }
  split.
  { intros j Hj. rewrite clean_cb by done. rewrite decide_False; [done|].
    intros [Hv Hin]. destruct Hj as [Hj|Hj]; [lia|].
    apply Hj. by rewrite fmap_take, Ecb. }
  split.
  { intros j Hj. by rewrite clean_mbintra, decide_False. }
  by apply clean_laid_out.
Qed.

Lemma reset_same s s' bi :
  msmpeg4_version s' = msmpeg4_version s ->
  same_predictors s s' bi -> predictors_reset s bi ->
  predictors_reset s' bi.
Proof.
  intros Ev Hsame Hreset i Hi.
  destruct (Hsame i Hi) as (Edc & Eac & Ecb).
  destruct (Hreset i Hi) as (Hdc & Hac & Hcb).
  rewrite Edc, Ev. split; [done|]. split.
  - intros k Hk. by rewrite Eac, Hac.
  - intros Hi4 Hv. by rewrite Ecb, Hcb.
Qed.

Lemma same_predictors_refl s bi : same_predictors s s bi.
Proof. by intros i Hi. Qed.


End IntraTables.

Lemma sample_ctx_laid_out intra : Intra.laid_out 3 2 (Intra.sample_ctx intra).
Proof. split; reflexivity. Qed.

Lemma sample_ctx_marked intra : Intra.marked 3 2 (Intra.sample_ctx intra).
Proof.
  intros x y Hx Hy H0. exfalso.
  assert (x = 0 \/ x = 1 \/ x = 2) as [->|[->| ->]] by lia;
    assert (y = 0 \/ y = 1) as [->| ->] by lia;
    vm_compute in H0; discriminate H0.
Qed.

Lemma ff_clean_intra_table_entries_resets_witness :
  let s' := Intra.ff_clean_intra_table_entries (Intra.sample_ctx 0) in
  Intra.predictors_reset s' (Intra.block_index (Intra.sample_ctx 0)) /\
  rd (Intra.mbintra_table s') 5 = 0 /\
  rd (Intra.dc_val_base s') 0 = 77.
Proof.
  destruct (ff_clean_intra_table_entries_resets 3 2 ltac:(lia) ltac:(lia)
              ltac:(unfold INT_MAX; lia) (Intra.sample_ctx 0)
              (sample_ctx_laid_out 0))
    as (Hreset & Hflag & _ & _ & Hdc & _).
  - cbn. lia.
  - cbn. lia.
  - reflexivity.
  - split; [exact Hreset|]. split; [exact Hflag|].
    rewrite Hdc; [reflexivity|]. compute_done.
Defined.

